(** * incus-migrate: the migration session of [cmd/incus-migrate/main_migrate.go]

    A shallow embedding of [runMigration], of the two migration handlers
    ([migrateInstance], [migrateCustomVolume]), of [gatherCustomVolumeInfo]
    and of the interrupt listener of [run], over an explicit model of the
    operating system calls they make (mount table, file names, mount
    namespace, subprocesses) and of the remote server calls. *)

From Stdlib Require Import String Ascii List Bool Arith Lia ZArith NArith.
From Stdlib Require Import Permutation Sorted Orders Mergesort.
Import ListNotations.
Open Scope string_scope.
Open Scope list_scope.

(** ** Go strings: byte-wise order, as used by [sort.Strings] *)

Module StringOrder <: TotalLeBool.
Definition t := string.
Definition leb (a b : string) : bool := String.leb a b.
Theorem leb_total : forall a b, leb a b = true \/ leb b a = true.
Proof. exact String.leb_total. Qed.
End StringOrder.

Module StringSort := Sort StringOrder.

(** [sort.Strings]: sorts a slice of strings in increasing (byte-wise) order. *)
Definition sort_Strings (l : list string) : list string := StringSort.sort l.

(** [strings.HasPrefix] restricted to proper prefixes: [p] is a prefix of [q]
    and [q] is longer. *)
Definition strict_prefix (p q : string) : bool :=
  String.prefix p q && negb (String.eqb p q).


(** ** Errors and results

    Go [error] values.  [ErrSys] stands for an error produced by a system
    call, a library or the remote server; [Errorf] is [fmt.Errorf] with its
    format string and its string arguments, [Wrapf] the same when the
    format ends in [%w], with the error it wraps. *)

Inductive error : Type :=
| ErrSys (name : string)
| Errorf (format : string) (args : list string)
| Wrapf (format : string) (args : list string) (wrapped : error).

Inductive result (A : Type) : Type :=
| Ok (a : A)
| Err (e : error).
Arguments Ok {A} a.
Arguments Err {A} e.

Fixpoint strings_eqb (a b : list string) : bool :=
  match a, b with
  | [], [] => true
  | x :: a', y :: b' => String.eqb x y && strings_eqb a' b'
  | _, _ => false
  end.

Fixpoint error_eqb (a b : error) : bool :=
  match a, b with
  | ErrSys x, ErrSys y => String.eqb x y
  | Errorf f1 a1, Errorf f2 a2 => String.eqb f1 f2 && strings_eqb a1 a2
  | Wrapf f1 a1 w1, Wrapf f2 a2 w2 =>
      String.eqb f1 f2 && strings_eqb a1 a2 && error_eqb w1 w2
  | _, _ => false
  end.

(** [errors.Is]: [target] is [e] or is reached from [e] by unwrapping. *)
Fixpoint errors_Is (e target : error) : bool :=
  error_eqb e target ||
  match e with
  | Wrapf _ _ inner => errors_Is inner target
  | _ => false
  end.

(** [context.Canceled] *)
Definition context_Canceled : error := ErrSys "context canceled".

Definition is_ok {A : Type} (r : result A) : bool :=
  match r with Ok _ => true | Err _ => false end.

(** ** Constants of [golang.org/x/sys/unix] (linux) *)

Definition MS_RDONLY : Z := 1.
Definition MS_REMOUNT : Z := 32.
Definition MS_BIND : Z := 4096.
Definition MS_REC : Z := 16384.
Definition MS_PRIVATE : Z := 262144.
Definition MNT_DETACH : Z := 2.
Definition CLONE_NEWNS : Z := 131072.
Definition O_RDONLY : Z := 0.
Definition O_DIRECT : Z := 16384.

(** [flags & bit != 0] for a one-bit constant. *)
Definition has_flag (flags bit : Z) : bool := negb (Z.eqb (Z.land flags bit) 0).

(** ** The data of a migration *)

Inductive MigrationType : Type :=
| MigrationTypeContainer
| MigrationTypeVM
| MigrationTypeVolumeFilesystem
| MigrationTypeVolumeBlock.

(** [api.InstancesPost], the fields this file reads or writes. *)
Record InstancesPost : Type := mkInstancesPost {
  inst_Name : string;
  inst_Type : string;
  inst_Architecture : string;
  inst_SourceType : string;
  inst_SourceMode : string
}.

(** [api.StorageVolumesPost], the fields this file reads or writes. *)
Record StorageVolumesPost : Type := mkStorageVolumesPost {
  vol_Name : string;
  vol_Type : string;
  vol_ContentType : string;
  vol_SourceType : string;
  vol_SourceMode : string
}.

Record cmdMigrateData : Type := mkData {
  SourcePath : string;
  SourceFormat : string;
  Mounts : list string;
  InstanceArgs : InstancesPost;
  CustomVolumeArgs : StorageVolumesPost;
  Pool : string;
  Project : string
}.

(** The zero value [cmdMigrateData{}]. *)
Definition empty_cmdMigrateData : cmdMigrateData :=
  mkData "" "" [] (mkInstancesPost "" "" "" "" "") (mkStorageVolumesPost "" "" "" "" "") "" "".

Definition set_SourcePath (p : string) (c : cmdMigrateData) : cmdMigrateData :=
  mkData p (SourceFormat c) (Mounts c) (InstanceArgs c) (CustomVolumeArgs c) (Pool c) (Project c).
Definition set_SourceFormat (f : string) (c : cmdMigrateData) : cmdMigrateData :=
  mkData (SourcePath c) f (Mounts c) (InstanceArgs c) (CustomVolumeArgs c) (Pool c) (Project c).
Definition set_Mounts (m : list string) (c : cmdMigrateData) : cmdMigrateData :=
  mkData (SourcePath c) (SourceFormat c) m (InstanceArgs c) (CustomVolumeArgs c) (Pool c) (Project c).
Definition set_InstanceArgs (a : InstancesPost) (c : cmdMigrateData) : cmdMigrateData :=
  mkData (SourcePath c) (SourceFormat c) (Mounts c) a (CustomVolumeArgs c) (Pool c) (Project c).
Definition set_CustomVolumeArgs (a : StorageVolumesPost) (c : cmdMigrateData) : cmdMigrateData :=
  mkData (SourcePath c) (SourceFormat c) (Mounts c) (InstanceArgs c) a (Pool c) (Project c).
Definition set_Pool (p : string) (c : cmdMigrateData) : cmdMigrateData :=
  mkData (SourcePath c) (SourceFormat c) (Mounts c) (InstanceArgs c) (CustomVolumeArgs c) p (Project c).
Definition set_Project (p : string) (c : cmdMigrateData) : cmdMigrateData :=
  mkData (SourcePath c) (SourceFormat c) (Mounts c) (InstanceArgs c) (CustomVolumeArgs c) (Pool c) p.

Definition set_Architecture (a : string) (i : InstancesPost) : InstancesPost :=
  mkInstancesPost (inst_Name i) (inst_Type i) a (inst_SourceType i) (inst_SourceMode i).
Definition set_vol_Name (n : string) (v : StorageVolumesPost) : StorageVolumesPost :=
  mkStorageVolumesPost n (vol_Type v) (vol_ContentType v) (vol_SourceType v) (vol_SourceMode v).
Definition set_vol_ContentType (t : string) (v : StorageVolumesPost) : StorageVolumesPost :=
  mkStorageVolumesPost (vol_Name v) (vol_Type v) t (vol_SourceType v) (vol_SourceMode v).

(** [incus.InstanceServer]: the handle, scoped to a project by [UseProject]. *)
Record InstanceServer : Type := mkServer { srv_project : string }.

Definition UseProject (_ : InstanceServer) (project : string) : InstanceServer :=
  mkServer project.

(** ** The world the program runs in *)

(** Every call that leaves the program, in the order made. *)
Inductive event : Type :=
| EvLockOSThread
| EvUnlockOSThread
| EvUnshare (flags : Z)
| EvMount (source target fstype : string) (flags : Z) (data : string)
| EvUnmount (target : string) (flags : Z)
| EvMkdirTemp (path : string)
| EvMkdir (path : string)
| EvMkdirAll (path : string)
| EvWriteFile (path : string)
| EvRemove (path : string)
| EvOpenFile (path : string) (flags : Z)
| EvClose (path : string)
| EvLookPath (cmd : string)
| EvRun (argv : list string)
| EvAsk (question : string)
| EvGet (what : string)
| EvCreateInstance (project name : string)
| EvDeleteInstance (project name : string)
| EvCreateVolume (project pool name : string)
| EvDeleteVolume (project pool voltype name : string)
| EvDeleteCertificate (fingerprint : string)
| EvAddHandler
| EvTransfer (path : string) (mt : MigrationType)
| EvProgressDone (msg : string).

(** An entry of the mount table. *)
Record mount : Type := mkMount {
  mnt_source : string;
  mnt_target : string;
  mnt_ro : bool
}.

(** Where the calling thread's mounts are seen: in the namespace the
    process started in, in a namespace of its own whose mount points still
    propagate to their peers, or in a namespace of its own made private. *)
Inductive nsstate : Type := NsInitial | NsUnshared | NsPrivate.

(** A line read by the asker, already parsed. *)
Inductive answer : Type :=
| AnsString (s : string)
| AnsBool (b : bool)
| AnsInt (n : Z)
| AnsErr (e : error).

Record world : Type := mkWorld {
  fs : list string;         (* the paths that exist *)
  mounts : list mount;      (* the mounts the thread sees, newest first *)
  ns : nsstate;
  leaked : list mount;      (* the mounts that propagated out of the process *)
  locked : bool;            (* runtime.LockOSThread in force *)
  input : list answer;      (* what the user will answer, in order *)
  trace : list event        (* oldest first *)
}.

Definition set_fs (x : list string) (w : world) : world :=
  mkWorld x (mounts w) (ns w) (leaked w) (locked w) (input w) (trace w).
Definition set_mounts (x : list mount) (w : world) : world :=
  mkWorld (fs w) x (ns w) (leaked w) (locked w) (input w) (trace w).
Definition set_ns (x : nsstate) (w : world) : world :=
  mkWorld (fs w) (mounts w) x (leaked w) (locked w) (input w) (trace w).
Definition set_leaked (x : list mount) (w : world) : world :=
  mkWorld (fs w) (mounts w) (ns w) x (locked w) (input w) (trace w).
Definition set_locked (x : bool) (w : world) : world :=
  mkWorld (fs w) (mounts w) (ns w) (leaked w) x (input w) (trace w).
Definition set_input (x : list answer) (w : world) : world :=
  mkWorld (fs w) (mounts w) (ns w) (leaked w) (locked w) x (trace w).
Definition set_trace (x : list event) (w : world) : world :=
  mkWorld (fs w) (mounts w) (ns w) (leaked w) (locked w) (input w) x.

(** What the program cannot decide: the outcome of each call that can fail
    for a reason outside the modelled state ([None]: no such failure), and
    what the libraries outside this file report. *)
Record env : Type := mkEnv {
  env_unshare : option error;
  env_mount : string -> string -> Z -> option error;
  env_tempdir : string;
  env_random : string;
  env_mkdirtemp : option error;
  env_mkdir : string -> option error;
  env_writefile : string -> option error;
  env_direct_io : string -> bool;
  env_lookpath : string -> option error;
  env_run : list string -> option error;
  env_detect : string -> string * list string;
  env_blockdev : string -> bool;
  env_stat : string -> option error;
  env_arch : result string;
  env_create_instance : string -> option error;
  env_create_volume : string -> string -> option error;
  env_add_handler : option error;
  env_transfer : string -> option error;
  env_project_names : result (list string);
  env_storage_pools : result (list string);
  env_volumes : string -> result (list (string * string))
}.

(** ** State and errors: the monad of the embedding

    A computation takes the world and returns a value or an error, and the
    world it leaves; an error does not undo what was done before it. *)

Definition M (A : Type) : Type := world -> result A * world.

Definition ret {A : Type} (a : A) : M A := fun w => (Ok a, w).

Definition fail {A : Type} (e : error) : M A := fun w => (Err e, w).

Definition bind {A B : Type} (c : M A) (k : A -> M B) : M B :=
  fun w =>
    match c w with
    | (Ok a, w') => k a w'
    | (Err e, w') => (Err e, w')
    end.

Notation "x <- c ;; k" := (bind c (fun x => k))
  (at level 61, c at next level, right associativity).
Notation "c ;; k" := (bind c (fun _ => k))
  (at level 61, right associativity).

(** Record a call in the trace. *)
Definition emit (ev : event) : M unit :=
  fun w => (Ok tt, set_trace (trace w ++ [ev]) w).

(** [_ = f()]: the error is dropped. *)
Definition ignore {A : Type} (c : M A) : M unit :=
  fun w => (Ok tt, snd (c w)).

(** [x, err := f()] followed by a test of [err] that does not return. *)
Definition attempt {A : Type} (c : M A) : M (result A) :=
  fun w => (Ok (fst (c w)), snd (c w)).

(** [if err != nil { return fmt.Errorf(..., err) }] *)
Definition wrapErr {A : Type} (f : error -> error) (c : M A) : M A :=
  fun w =>
    match c w with
    | (Ok a, w') => (Ok a, w')
    | (Err e, w') => (Err (f e), w')
    end.

(** [defer d()] in front of [body]: [d] runs when [body] returns, whatever
    it returns, and what [d] returns is dropped. *)
Definition defer {A : Type} (d : M unit) (body : M A) : M A :=
  fun w => (fst (body w), snd (d (snd (body w)))).

(** The events a computation added to the trace. *)
Definition since (w w' : world) : list event :=
  skipn (List.length (trace w)) (trace w').

Definition count (p : event -> bool) (l : list event) : nat :=
  List.length (filter p l).

(** ** The operating system calls

    Paths are kept as the program builds them; [filepath.Join] of a clean
    directory and a plain name is the two joined by a slash. *)

Definition filepath_Join (dir name : string) : string := dir ++ "/" ++ name.

Definition path_exists (w : world) (p : string) : bool :=
  existsb (String.eqb p) (fs w).

(** [p] lies strictly below the directory [dir]. *)
Definition beneath (dir p : string) : bool := String.prefix (dir ++ "/") p.

Definition has_entries (w : world) (dir : string) : bool :=
  existsb (beneath dir) (fs w).

Definition at_or_beneath (dir p : string) : bool :=
  String.eqb p dir || beneath dir p.

Definition mounted_at (w : world) (p : string) : bool :=
  existsb (fun m => String.eqb (mnt_target m) p) (mounts w).

(** The mounts whose mount point is [dir] or lies below it. *)
Definition mounts_under (w : world) (dir : string) : list mount :=
  filter (fun m => at_or_beneath dir (mnt_target m)) (mounts w).

(** The mount that is seen at [p]: the newest one mounted there. *)
Definition mount_at (w : world) (p : string) : option mount :=
  find (fun m => String.eqb (mnt_target m) p) (mounts w).

Fixpoint set_ro (target : string) (ro : bool) (ms : list mount) : option (list mount) :=
  match ms with
  | [] => None
  | m :: ms' =>
      if String.eqb (mnt_target m) target
      then Some (mkMount (mnt_source m) (mnt_target m) ro :: ms')
      else option_map (cons m) (set_ro target ro ms')
  end.

Fixpoint remove_first_at (target : string) (ms : list mount) : list mount :=
  match ms with
  | [] => []
  | m :: ms' =>
      if String.eqb (mnt_target m) target then ms'
      else m :: remove_first_at target ms'
  end.

(** A lazy unmount takes the mount and every mount below it off the table. *)
Definition detach (target : string) (ms : list mount) : list mount :=
  filter (fun m => negb (beneath target (mnt_target m))) (remove_first_at target ms).

(** [runtime.LockOSThread] and [runtime.UnlockOSThread] *)
Definition runtime_LockOSThread : M unit :=
  emit EvLockOSThread ;; fun w => (Ok tt, set_locked true w).

Definition runtime_UnlockOSThread : M unit :=
  emit EvUnlockOSThread ;; fun w => (Ok tt, set_locked false w).

(** [unix.Unshare]: with CLONE_NEWNS the thread gets a mount namespace of its
    own, whose mount points propagate as those they were copied from. *)
Definition unix_Unshare (e : env) (flags : Z) : M unit :=
  emit (EvUnshare flags) ;;
  match env_unshare e with
  | Some err => fail err
  | None =>
      fun w =>
        (Ok tt,
         if has_flag flags CLONE_NEWNS
         then match ns w with NsInitial => set_ns NsUnshared w | _ => w end
         else w)
  end.

(** [unix.Mount], for the three uses the program makes of it, told apart the
    way the kernel does: a remount changes the flags of the mount seen at
    [target]; a bind mount puts [source] at [target], read-write whatever
    MS_RDONLY says, and is seen outside the process unless the namespace is
    private; a propagation change of the root, recursive, makes a namespace
    of its own private. *)
Definition unix_Mount (e : env) (source target fstype : string) (flags : Z)
    (data : string) : M unit :=
  emit (EvMount source target fstype flags data) ;;
  match env_mount e source target flags with
  | Some err => fail err
  | None =>
      fun w =>
        if has_flag flags MS_REMOUNT then
          match set_ro target (has_flag flags MS_RDONLY) (mounts w) with
          | Some ms => (Ok tt, set_mounts ms w)
          | None => (Err (ErrSys "EINVAL"), w)
          end
        else if has_flag flags MS_BIND then
          if path_exists w target then
            let m := mkMount source target false in
            let w1 := set_mounts (m :: mounts w) w in
            (Ok tt, match ns w with
                    | NsPrivate => w1
                    | _ => set_leaked (m :: leaked w) w1
                    end)
          else (Err (ErrSys "ENOENT"), w)
        else if has_flag flags MS_PRIVATE then
          (Ok tt,
           if String.eqb target "/" && has_flag flags MS_REC
           then match ns w with NsUnshared => set_ns NsPrivate w | _ => w end
           else w)
        else (Err (ErrSys "EINVAL"), w)
  end.

(** [unix.Unmount] *)
Definition unix_Unmount (target : string) (flags : Z) : M unit :=
  emit (EvUnmount target flags) ;;
  fun w =>
    if mounted_at w target then
      if has_flag flags MNT_DETACH
      then (Ok tt, set_mounts (detach target (mounts w)) w)
      else if existsb (fun m => beneath target (mnt_target m)) (mounts w)
           then (Err (ErrSys "EBUSY"), w)
           else (Ok tt, set_mounts (remove_first_at target (mounts w)) w)
    else (Err (ErrSys "EINVAL"), w).

(** [os.MkdirTemp]: a new directory [dir/pattern<random>]; the name the
    environment draws must be free and have nothing below it. *)
Definition tempPath (e : env) (dir pattern : string) : string :=
  filepath_Join (if String.eqb dir "" then env_tempdir e else dir)
    (pattern ++ env_random e).

Definition os_MkdirTemp (e : env) (dir pattern : string) : M string :=
  let p := tempPath e dir pattern in
  emit (EvMkdirTemp p) ;;
  match env_mkdirtemp e with
  | Some err => fail err
  | None =>
      fun w =>
        if path_exists w p || has_entries w p
           || existsb (fun m => at_or_beneath p (mnt_target m)) (mounts w)
        then (Err (ErrSys "EEXIST"), w)
        else (Ok p, set_fs (p :: fs w) w)
  end.

(** [os.Mkdir] *)
Definition os_Mkdir (e : env) (p : string) : M unit :=
  emit (EvMkdir p) ;;
  match env_mkdir e p with
  | Some err => fail err
  | None =>
      fun w =>
        if path_exists w p then (Err (ErrSys "EEXIST"), w)
        else (Ok tt, set_fs (p :: fs w) w)
  end.

(** [os.MkdirAll] *)
Definition os_MkdirAll (e : env) (p : string) : M unit :=
  emit (EvMkdirAll p) ;;
  match env_mkdir e p with
  | Some err => fail err
  | None =>
      fun w => (Ok tt, if path_exists w p then w else set_fs (p :: fs w) w)
  end.

(** [os.WriteFile]: creates the file when it is missing; a write that goes
    through a read-only mount is refused. *)
Definition os_WriteFile (e : env) (p : string) : M unit :=
  emit (EvWriteFile p) ;;
  match env_writefile e p with
  | Some err => fail err
  | None =>
      fun w =>
        match mount_at w p with
        | Some m =>
            if mnt_ro m then (Err (ErrSys "EROFS"), w) else (Ok tt, w)
        | None =>
            (Ok tt, if path_exists w p then w else set_fs (p :: fs w) w)
        end
  end.

(** [os.Remove]: a file, or a directory that is empty; not a mount point. *)
Definition os_Remove (p : string) : M unit :=
  emit (EvRemove p) ;;
  fun w =>
    if negb (path_exists w p) then (Err (ErrSys "ENOENT"), w)
    else if mounted_at w p then (Err (ErrSys "EBUSY"), w)
    else if has_entries w p then (Err (ErrSys "ENOTEMPTY"), w)
    else (Ok tt, set_fs (filter (fun q => negb (String.eqb q p)) (fs w)) w).

(** Whether an open of [p] with [flags] (no O_CREATE among them) succeeds:
    the file has to exist, and to take O_DIRECT when that is asked. *)
Definition open_succeeds (e : env) (w : world) (p : string) (flags : Z) : bool :=
  path_exists w p && (negb (has_flag flags O_DIRECT) || env_direct_io e p).

(** [os.OpenFile] without O_CREATE *)
Definition os_OpenFile (e : env) (p : string) (flags : Z) : M unit :=
  emit (EvOpenFile p flags) ;;
  fun w =>
    if open_succeeds e w p flags then (Ok tt, w)
    else (Err (ErrSys (if path_exists w p then "EINVAL" else "ENOENT")), w).

Definition file_Close (p : string) : M unit := emit (EvClose p).

(** [exec.LookPath] *)
Definition exec_LookPath (e : env) (cmd : string) : M unit :=
  emit (EvLookPath cmd) ;;
  match env_lookpath e cmd with
  | Some err => fail err
  | None => ret tt
  end.

(** [exec.Command(argv[0], argv[1:]...).Run()]: an exit status other than
    zero is an error; a converter that exits with zero has written its
    output file, the last argument. *)
Definition exec_Run (e : env) (argv : list string) : M unit :=
  emit (EvRun argv) ;;
  match env_run e argv with
  | Some err => fail err
  | None =>
      fun w =>
        let out := last argv "" in
        (Ok tt, if path_exists w out then w else set_fs (out :: fs w) w)
  end.

(** ** The remote server and the code of the repository outside this file *)

Definition server_CreateInstance (e : env) (server : InstanceServer)
    (args : InstancesPost) : M unit :=
  emit (EvCreateInstance (srv_project server) (inst_Name args)) ;;
  match env_create_instance e (inst_Name args) with
  | Some err => fail err
  | None => ret tt
  end.

Definition server_DeleteInstance (server : InstanceServer) (name : string) : M unit :=
  emit (EvDeleteInstance (srv_project server) name).

Definition server_CreateStoragePoolVolumeFromMigration (e : env)
    (server : InstanceServer) (pool : string) (args : StorageVolumesPost) : M unit :=
  emit (EvCreateVolume (srv_project server) pool (vol_Name args)) ;;
  match env_create_volume e pool (vol_Name args) with
  | Some err => fail err
  | None => ret tt
  end.

Definition server_DeleteStoragePoolVolume (server : InstanceServer)
    (pool voltype name : string) : M unit :=
  emit (EvDeleteVolume (srv_project server) pool voltype name).

Definition server_DeleteCertificate (fingerprint : string) : M unit :=
  emit (EvDeleteCertificate fingerprint).

Definition op_AddHandler (e : env) : M unit :=
  emit EvAddHandler ;;
  match env_add_handler e with
  | Some err => fail err
  | None => ret tt
  end.

Definition progress_Done (msg : string) : M unit := emit (EvProgressDone msg).

(** A [context.Context] made by [context.WithCancel]: cancelled or not. *)
Definition Context : Type := bool.

(** Modelled from the spec: the taxonomy names of section 7 for the two
    failures of the transfer. *)
Definition CancelledError : error := context_Canceled.

Definition RemoteOperationError (cause : error) : error :=
  Wrapf "RemoteOperationError: %w" [] cause.

(** Modelled from the spec: [transferRootfs] is not in this file.  Section
    4.5: it streams the content at [path] to the remote operation; when the
    cancellation of the context is observed it propagates a CancelledError;
    when the remote operation fails it returns a RemoteOperationError around
    the reported error; it returns success only once the operation has
    completed. *)
Definition transferRootfs (e : env) (ctx : Context) (path rsyncArgs : string)
    (mt : MigrationType) : M unit :=
  emit (EvTransfer path mt) ;;
  if ctx then fail CancelledError
  else match env_transfer e path with
       | Some err => fail (RemoteOperationError err)
       | None => ret tt
       end.

(** Modelled from the spec: the reverter of [shared/revert] is not in this
    file.  Section 9: a scope that registers rollback actions as it proceeds
    and runs them in reverse order only when it is left without a commit. *)
Definition Reverter : Type := list (M unit).

Definition revert_New : Reverter := [].

Definition revert_Add (r : Reverter) (f : M unit) : Reverter := r ++ [f].

Definition revert_Success (_ : Reverter) : Reverter := [].

Fixpoint run_hooks (hooks : list (M unit)) : M unit :=
  match hooks with
  | [] => ret tt
  | h :: hooks' => ignore h ;; run_hooks hooks'
  end.

Definition revert_Fail (r : Reverter) : M unit := run_hooks (rev r).

(** [reverter := revert.New(); defer reverter.Fail()] around a body that
    returns the reverter as it stands at its return statement. *)
Definition with_reverter (body : Reverter -> world -> result unit * Reverter * world)
    : M unit :=
  fun w =>
    let '(r, reverter, w1) := body revert_New w in
    (r, snd (revert_Fail reverter w1)).

(** Modelled from the spec: [setupSource] is not in this file.  Section 4.3:
    each source path of the plan, in the order of the plan, is bind-mounted
    at its mount point beneath the root, intermediate directories made as
    needed; the first failure aborts the build with a MountError that
    reports the source path.  The spec leaves the mount point of a source
    path open: here it is the source path itself, taken below the root. *)
Definition mountPoint (root source : string) : string := root ++ source.

Fixpoint setupSource (e : env) (root : string) (plan : list string) : M unit :=
  match plan with
  | [] => ret tt
  | source :: plan' =>
      let target := mountPoint root source in
      wrapErr (fun err => Wrapf "Failed to mount %s: %w" [source] err)
        (os_MkdirAll e target ;;
         unix_Mount e source target "none" MS_BIND "") ;;
      setupSource e root plan'
  end.

(** ** [runMigration] *)

Definition isFilesystemType (mt : MigrationType) : bool :=
  match mt with
  | MigrationTypeContainer | MigrationTypeVolumeFilesystem => true
  | _ => false
  end.

(** Lines 676-679: the source path joins the mounts, and the whole is sorted. *)
Definition mountPlan (config : cmdMigrateData) : list string :=
  sort_Strings (Mounts config ++ [SourcePath config]).

(** Lines 685-695: the new mount namespace, made private. *)
Definition sandbox (e : env) : M unit :=
  wrapErr (fun err => Wrapf "Failed to unshare mount namespace: %w" [] err)
    (unix_Unshare e CLONE_NEWNS) ;;
  wrapErr (fun err => Wrapf "Failed to disable mount propagation: %w" [] err)
    (unix_Mount e "" "/" "" (Z.lor MS_REC MS_PRIVATE) "").

(** Lines 704-715: the deferred clean-up of the temporary path. *)
Definition cleanup (path : string) : M unit :=
  ignore (unix_Unmount path MNT_DETACH) ;;
  ignore (unix_Unmount (filepath_Join path "root.img") MNT_DETACH) ;;
  ignore (os_Remove (filepath_Join path "converted-raw-image.img")) ;;
  ignore (os_Remove (filepath_Join path "root.img")) ;;
  ignore (os_Remove path).

Definition isConvertible (ext : string) : bool :=
  String.eqb ext ".qcow2" || String.eqb ext ".vmdk".

(** The argument list of lines 744-764, given what the two probes found. *)
Definition converterArgs (convCmd : list string) (fromDirect toDirect : bool)
    (source destImg : string) : list string :=
  ["nice"; "-n19"] ++ convCmd ++ ["-p"; "-t"; "writeback"]
  ++ (if fromDirect then ["-T"; "none"] else [])
  ++ (if toDirect then ["-t"; "none"] else [])
  ++ [source; destImg].

(** Lines 752-756 and 758-762: the check for direct I/O.  The file is opened
    with O_DIRECT, read-only; when that succeeds the no-cache flag is to be
    added and the file is closed again; a failure is not an error. *)
Definition probe_flags : Z := Z.lor O_DIRECT O_RDONLY.

Definition directIOProbe (e : env) (p : string) : M bool :=
  opened <- attempt (os_OpenFile e p probe_flags) ;;
  (if is_ok opened then ignore (file_Close p) else ret tt) ;;
  ret (is_ok opened).

(** The calls a probe of [p] makes, given how the open went. *)
Definition probe_events (p : string) (ok : bool) : list event :=
  EvOpenFile p probe_flags :: (if ok then [EvClose p] else []).

(** Lines 734-775: a qcow2 or vmdk image is converted to a raw image in the
    temporary path, which becomes the source path; anything else is left as
    it is.  [convCmd[0]] of an empty command is a run-time panic. *)
Definition normalizeDisk (e : env) (path : string) (config : cmdMigrateData)
    : M cmdMigrateData :=
  let '(ext, convCmd) := env_detect e (SourcePath config) in
  if isConvertible ext then
    match convCmd with
    | [] => fail (ErrSys "panic: index out of range [0] with length 0")
    | convCmd0 :: _ =>
        found <- attempt (exec_LookPath e convCmd0) ;;
        match found with
        | Err _ => fail (Errorf "Unable to find required command %q" [convCmd0])
        | Ok _ =>
            let destImg := filepath_Join path "converted-raw-image.img" in
            fromDirect <- directIOProbe e (SourcePath config) ;;
            toDirect <- directIOProbe e destImg ;;
            let cmd := converterArgs convCmd fromDirect toDirect
                         (SourcePath config) destImg in
            wrapErr (fun err => Wrapf "Failed to convert image %q for importing: %w"
                                  [SourcePath config] err)
              (exec_Run e cmd) ;;
            ret (set_SourcePath destImg config)
        end
    end
  else ret config.

(** The flags of the read-only remount of line 792. *)
Definition remount_ro : Z := Z.lor (Z.lor MS_BIND MS_RDONLY) MS_REMOUNT.

(** Lines 777-795: the placeholder, the bind mount on it, the read-only
    remount. *)
Definition mountImage (e : env) (path : string) (config : cmdMigrateData) : M unit :=
  let target := filepath_Join path "root.img" in
  wrapErr (fun err => Wrapf "Failed to create %q: %w" [target] err)
    (os_WriteFile e target) ;;
  wrapErr (fun err => Wrapf "Failed to mount %s: %w" [SourcePath config] err)
    (unix_Mount e (SourcePath config) target "none" MS_BIND "") ;;
  wrapErr (fun err => Wrapf "Failed to make %s read-only: %w" [SourcePath config] err)
    (unix_Mount e "" target "none" remount_ro "").

Definition Handler : Type :=
  InstanceServer -> cmdMigrateData -> string -> MigrationType -> M unit.

(** Lines 697-798: the temporary path, its deferred clean-up, the source
    put together below it, and the handler. *)
Definition migrateFromTemporaryPath (e : env) (server : InstanceServer)
    (config : cmdMigrateData) (mt : MigrationType) (migrationHandler : Handler)
    : M unit :=
  path <- os_MkdirTemp e "" "incus-migrate_mount_" ;;
  defer (cleanup path)
    (if isFilesystemType mt then
       let fullPath := (path ++ "/rootfs")%string in
       os_Mkdir e fullPath ;;
       wrapErr (fun err => Wrapf "Failed to setup the source: %w" [] err)
         (setupSource e fullPath (Mounts config)) ;;
       migrationHandler server config fullPath mt
     else
       config <- normalizeDisk e path config ;;
       let fullPath := path in
       mountImage e path config ;;
       migrationHandler server config fullPath mt).

(** Lines 671-799 *)
Definition runMigration (e : env) (server : InstanceServer) (config : cmdMigrateData)
    (mt : MigrationType) (migrationHandler : Handler) : M unit :=
  let server :=
    if String.eqb (Project config) "" then server
    else UseProject server (Project config) in
  let config := set_Mounts (mountPlan config) config in
  runtime_LockOSThread ;;
  defer runtime_UnlockOSThread
    (sandbox e ;;
     migrateFromTemporaryPath e server config mt migrationHandler).

(** ** The two migration handlers *)

(** Lines 582-620: the closure [migrateInstance] hands to [runMigration]. *)
Definition migrateInstance_handler (e : env) (flagRsyncArgs : string) (ctx : Context)
    : Handler :=
  fun server config path mt =>
    match env_arch e with
    | Err err => fail err
    | Ok architectureName =>
        let config :=
          set_InstanceArgs (set_Architecture architectureName (InstanceArgs config))
            config in
        with_reverter (fun reverter w =>
          match server_CreateInstance e server (InstanceArgs config) w with
          | (Err err, w1) => (Err err, reverter, w1)
          | (Ok _, w1) =>
              let reverter :=
                revert_Add reverter
                  (server_DeleteInstance server (inst_Name (InstanceArgs config))) in
              match op_AddHandler e w1 with
              | (Err err, w2) =>
                  (Err err, reverter, snd (progress_Done "" w2))
              | (Ok _, w2) =>
                  match transferRootfs e ctx path flagRsyncArgs mt w2 with
                  | (Err err, w3) => (Err err, reverter, w3)
                  | (Ok _, w3) =>
                      (Ok tt, revert_Success reverter,
                       snd (progress_Done
                              ("Instance " ++ inst_Name (InstanceArgs config)
                               ++ " successfully created") w3))
                  end
              end
          end)
    end.

(** Lines 638-668: the closure [migrateCustomVolume] hands to [runMigration]. *)
Definition migrateCustomVolume_handler (e : env) (flagRsyncArgs : string) (ctx : Context)
    : Handler :=
  fun server config path mt =>
    with_reverter (fun reverter w =>
      match server_CreateStoragePoolVolumeFromMigration e server (Pool config)
              (CustomVolumeArgs config) w with
      | (Err err, w1) => (Err err, reverter, w1)
      | (Ok _, w1) =>
          let reverter :=
            revert_Add reverter
              (server_DeleteStoragePoolVolume server (Pool config) "custom"
                 (vol_Name (CustomVolumeArgs config))) in
          match op_AddHandler e w1 with
          | (Err err, w2) =>
              (Err err, reverter, snd (progress_Done "" w2))
          | (Ok _, w2) =>
              match transferRootfs e ctx path flagRsyncArgs mt w2 with
              | (Err err, w3) => (Err err, reverter, w3)
              | (Ok _, w3) =>
                  (Ok tt, revert_Success reverter,
                   snd (progress_Done
                          ("Custom volume " ++ vol_Name (CustomVolumeArgs config)
                           ++ " successfully created") w3))
              end
          end
      end).

(** ** The asker

    The asker reads lines until one is an answer of the kind asked for that
    the validator takes; an answer that is refused is asked again.  A [for]
    loop of the program around a question, which asks again until the answer
    suits it, goes the same way: its test joins the validator. *)

Fixpoint ask_string_from (accept : string -> bool) (script : list answer)
    : result string * list answer :=
  match script with
  | [] => (Err (ErrSys "EOF"), [])
  | AnsString s :: rest =>
      if accept s then (Ok s, rest) else ask_string_from accept rest
  | AnsErr err :: rest => (Err err, rest)
  | _ :: rest => ask_string_from accept rest
  end.

Fixpoint ask_bool_from (script : list answer) : result bool * list answer :=
  match script with
  | [] => (Err (ErrSys "EOF"), [])
  | AnsBool b :: rest => (Ok b, rest)
  | AnsErr err :: rest => (Err err, rest)
  | _ :: rest => ask_bool_from rest
  end.

Definition AskString (question : string) (accept : string -> bool) : M string :=
  emit (EvAsk question) ;;
  fun w =>
    (fst (ask_string_from accept (input w)),
     set_input (snd (ask_string_from accept (input w))) w).

Definition AskBool (question : string) : M bool :=
  emit (EvAsk question) ;;
  fun w =>
    (fst (ask_bool_from (input w)), set_input (snd (ask_bool_from (input w))) w).

Definition contains (l : list string) (s : string) : bool :=
  existsb (String.eqb s) l.

Definition nonempty (s : string) : bool := negb (String.eqb s "").

Definition AskChoice (question : string) (choices : list string) : M string :=
  AskString question (contains choices).

(** ** [gatherCustomVolumeInfo] and what it calls *)

Definition isDiskType (mt : MigrationType) : bool :=
  match mt with
  | MigrationTypeVM | MigrationTypeVolumeBlock => true
  | _ => false
  end.

(** Lines 1031-1042: the format reported for a disk source. *)
Definition detectSourceFormat (e : env) (s : string) : string :=
  if env_blockdev e s then "Block device"
  else if String.eqb (fst (env_detect e s)) ".qcow2" then "qcow2"
  else if String.eqb (fst (env_detect e s)) ".vmdk" then "vmdk"
  else "raw".

(** Lines 1009-1052 *)
Definition askSourcePath (e : env) (config : cmdMigrateData) (mt : MigrationType)
    : M cmdMigrateData :=
  let question :=
    if isDiskType mt
    then "Please provide the path to a disk, partition, or qcow2/raw/vmdk image file: "
    else "Please provide the path to a root filesystem: " in
  fun w =>
    (s <- AskString question
            (fun s => path_exists w s
                      && match env_stat e s with None => true | Some _ => false end) ;;
     ret (set_SourcePath s
            (if isDiskType mt
             then set_SourceFormat (detectSourceFormat e s) config
             else config))) w.

(** Lines 989-1007 *)
Definition askProject (e : env) (config : cmdMigrateData) : M cmdMigrateData :=
  emit (EvGet "project names") ;;
  match env_project_names e with
  | Err err => fail err
  | Ok projectNames =>
      if Nat.ltb 1 (List.length projectNames) then
        project <- AskChoice "Project to create the instance in [default=default]: "
                     projectNames ;;
        ret (set_Project project config)
      else ret (set_Project "default" config)
  end.

(** Lines 463-558: everything [gatherCustomVolumeInfo] asks before the last
    question. *)
Definition gatherCustomVolumeInfo_questions (e : env) (server : InstanceServer)
    (mt : MigrationType) : M cmdMigrateData :=
  let config :=
    set_CustomVolumeArgs
      (mkStorageVolumesPost "" "custom"
         (match mt with
          | MigrationTypeVolumeFilesystem => "filesystem"
          | _ => "block"
          end)
         "migration" "push")
      empty_cmdMigrateData in
  config <- askProject e config ;;
  let server :=
    if String.eqb (Project config) "" then server
    else UseProject server (Project config) in
  emit (EvGet "storage pools") ;;
  match env_storage_pools e with
  | Err err => fail err
  | Ok poolNames =>
      poolName <- AskString "Name of the pool: "
                    (fun s => nonempty s && contains poolNames s) ;;
      let config := set_Pool poolName config in
      emit (EvGet "storage pool volumes") ;;
      match env_volumes e (Pool config) with
      | Err err => fail err
      | Ok volumes =>
          let volumeNames :=
            map fst (filter (fun v => String.eqb (snd v) "custom") volumes) in
          volumeName <- AskString "Name of the new custom volume: "
                          (fun s => nonempty s && negb (contains volumeNames s)) ;;
          let config :=
            set_CustomVolumeArgs (set_vol_Name volumeName (CustomVolumeArgs config))
              config in
          askSourcePath e config mt
      end
  end.

(** Lines 463-570 *)
Definition gatherCustomVolumeInfo (e : env) (server : InstanceServer)
    (mt : MigrationType) : M cmdMigrateData :=
  config <- gatherCustomVolumeInfo_questions e server mt ;;
  shouldMigrate <- AskBool "Do you want to continue? [default=yes]: " ;;
  if negb shouldMigrate then ret empty_cmdMigrateData else ret config.

(** ** [migrateCustomVolume] and [migrateInstance] *)

(** Lines 623-669 *)
Definition migrateCustomVolume (e : env) (flagRsyncArgs : string) (ctx : Context)
    (server : InstanceServer) (mt : MigrationType) : M unit :=
  match mt with
  | MigrationTypeVolumeBlock | MigrationTypeVolumeFilesystem =>
      config <- gatherCustomVolumeInfo e server mt ;;
      if String.eqb (vol_Name (CustomVolumeArgs config)) "" then ret tt
      else runMigration e server config mt
             (migrateCustomVolume_handler e flagRsyncArgs ctx)
  | _ => fail (Errorf "Wrong migration type for migrateCustomVolume" [])
  end.

(** Lines 572-621.  The questions of [gatherInstanceInfo] are not modelled:
    what it returns is the argument [gatherInstanceInfo]. *)
Definition migrateInstance (e : env) (flagRsyncArgs : string) (ctx : Context)
    (gatherInstanceInfo : M cmdMigrateData)
    (server : InstanceServer) (mt : MigrationType) : M unit :=
  match mt with
  | MigrationTypeVM | MigrationTypeContainer =>
      config <- gatherInstanceInfo ;;
      runMigration e server config mt (migrateInstance_handler e flagRsyncArgs ctx)
  | _ => fail (Errorf "Wrong migration type for migrateInstance" [])
  end.

(** ** The interrupt listener of [run] beside the instance handler

    Lines 818-835 start a goroutine that waits for an interrupt, deletes
    the client certificate, cancels the context and ends the process with
    [os.Exit(1)].  It runs beside the main goroutine; the two are
    interleaved here one call at a time by a schedule.  [os.Exit] ends the
    process at once: no deferred function runs after it. *)

Module Interrupt.

(** Where the main goroutine stands in the handler of [migrateInstance]. *)
Inductive main_pc : Type :=
| PcCreate
| PcAddHandler (reverter : Reverter)
| PcTransfer (reverter : Reverter)
| PcReturn (r : result unit) (reverter : Reverter)
| PcDone (r : result unit).

(** Where the listener goroutine stands. *)
Inductive listener_pc : Type :=
| LWait
| LDeleteCertificate
| LCancel
| LExit
| LGone.

Record process : Type := mkProcess {
  p_world : world;
  p_ctx : Context;            (* the context of line 820, cancelled or not *)
  p_signal : bool;            (* an interrupt waits in [sigChan] *)
  p_main : main_pc;
  p_listener : listener_pc;
  p_exit : option Z           (* the status [os.Exit] was called with *)
}.

(** What the handler is called with. *)
Record call : Type := mkCall {
  c_rsyncArgs : string;
  c_server : InstanceServer;
  c_config : cmdMigrateData;
  c_path : string;
  c_mt : MigrationType;
  c_fingerprint : string
}.

Inductive tick : Type :=
| Sigint          (* the user interrupts *)
| RunMain         (* the main goroutine makes its next call *)
| RunListener.    (* the listener goroutine makes its next call *)

Definition set_main (w : world) (pc : main_pc) (p : process) : process :=
  mkProcess w (p_ctx p) (p_signal p) pc (p_listener p) (p_exit p).

(** One call of the main goroutine, lines 591-619. *)
Definition step_main (e : env) (c : call) (p : process) : process :=
  let name := inst_Name (InstanceArgs (c_config c)) in
  match p_main p with
  | PcCreate =>
      match server_CreateInstance e (c_server c) (InstanceArgs (c_config c)) (p_world p) with
      | (Err err, w1) => set_main w1 (PcReturn (Err err) revert_New) p
      | (Ok _, w1) =>
          set_main w1
            (PcAddHandler (revert_Add revert_New (server_DeleteInstance (c_server c) name)))
            p
      end
  | PcAddHandler reverter =>
      match op_AddHandler e (p_world p) with
      | (Err err, w2) =>
          set_main (snd (progress_Done "" w2)) (PcReturn (Err err) reverter) p
      | (Ok _, w2) => set_main w2 (PcTransfer reverter) p
      end
  | PcTransfer reverter =>
      match transferRootfs e (p_ctx p) (c_path c) (c_rsyncArgs c) (c_mt c) (p_world p) with
      | (Err err, w3) => set_main w3 (PcReturn (Err err) reverter) p
      | (Ok _, w3) =>
          set_main
            (snd (progress_Done ("Instance " ++ name ++ " successfully created") w3))
            (PcReturn (Ok tt) (revert_Success reverter)) p
      end
  | PcReturn r reverter =>
      set_main (snd (revert_Fail reverter (p_world p))) (PcDone r) p
  | PcDone _ => p
  end.

(** One call of the listener goroutine, lines 823-834. *)
Definition step_listener (c : call) (p : process) : process :=
  match p_listener p with
  | LWait =>
      if p_signal p
      then mkProcess (p_world p) (p_ctx p) false (p_main p) LDeleteCertificate (p_exit p)
      else p
  | LDeleteCertificate =>
      let w :=
        if nonempty (c_fingerprint c)
        then snd (server_DeleteCertificate (c_fingerprint c) (p_world p))
        else p_world p in
      mkProcess w (p_ctx p) (p_signal p) (p_main p) LCancel (p_exit p)
  | LCancel =>
      mkProcess (p_world p) true (p_signal p) (p_main p) LExit (p_exit p)
  | LExit =>
      mkProcess (p_world p) (p_ctx p) (p_signal p) (p_main p) LGone (Some 1%Z)
  | LGone => p
  end.

(** A process that has exited makes no further step. *)
Definition step (e : env) (c : call) (p : process) (t : tick) : process :=
  match p_exit p with
  | Some _ => p
  | None =>
      match t with
      | Sigint =>
          mkProcess (p_world p) (p_ctx p) true (p_main p) (p_listener p) (p_exit p)
      | RunMain => step_main e c p
      | RunListener => step_listener c p
      end
  end.

Definition exec (e : env) (c : call) (sched : list tick) (p : process) : process :=
  fold_left (step e c) sched p.

(** The handler is entered after [osarch.ArchitectureGetLocal] succeeded,
    with a context that is not cancelled and no interrupt pending. *)
Definition start (w : world) : process :=
  mkProcess w false false PcCreate LWait None.

Inductive outcome : Type :=
| Running
| Exited (status : Z)
| Returned (r : result unit).

Definition outcome_of (p : process) : outcome :=
  match p_exit p with
  | Some n => Exited n
  | None =>
      match p_main p with
      | PcDone r => Returned r
      | _ => Running
      end
  end.

(** The remote instance exists and the transfer has not completed. *)
Definition in_window (p : process) : bool :=
  match p_main p with
  | PcAddHandler _ | PcTransfer _ => true
  | _ => false
  end.

End Interrupt.

(** ** Predicates on events *)

Definition is_delete (ev : event) : bool :=
  match ev with
  | EvDeleteInstance _ _ | EvDeleteVolume _ _ _ _ => true
  | _ => false
  end.

Definition is_create (ev : event) : bool :=
  match ev with
  | EvCreateInstance _ _ | EvCreateVolume _ _ _ => true
  | _ => false
  end.

Definition is_run (ev : event) : bool :=
  match ev with EvRun _ => true | _ => false end.

(** A call of the namespace sandbox. *)
Definition is_sandbox (ev : event) : bool :=
  match ev with
  | EvLockOSThread | EvUnshare _ => true
  | EvMount _ _ _ flags _ => has_flag flags MS_PRIVATE
  | _ => false
  end.

(** A call that makes a mount or a path. *)
Definition makes_mount_or_path (ev : event) : bool :=
  match ev with
  | EvMount _ _ _ flags _ => has_flag flags MS_BIND
  | EvMkdirTemp _ | EvMkdir _ | EvMkdirAll _ | EvWriteFile _ | EvRun _ => true
  | _ => false
  end.

(** A call to the remote server or to the progress renderer: what the two
    handlers make. *)
Definition is_remote (ev : event) : bool :=
  match ev with
  | EvCreateInstance _ _ | EvDeleteInstance _ _ | EvCreateVolume _ _ _
  | EvDeleteVolume _ _ _ _ | EvAddHandler | EvTransfer _ _ | EvProgressDone _ => true
  | _ => false
  end.

(** A question to the user or a read of the server. *)
Definition is_question (ev : event) : bool :=
  match ev with
  | EvAsk _ | EvGet _ => true
  | _ => false
  end.

(** The sources of the bind mounts made (not the remounts), in order. *)
Fixpoint bind_sources (l : list event) : list string :=
  match l with
  | [] => []
  | EvMount source _ _ flags _ :: l' =>
      if has_flag flags MS_BIND && negb (has_flag flags MS_REMOUNT)
      then source :: bind_sources l'
      else bind_sources l'
  | _ :: l' => bind_sources l'
  end.

(** A handler that only talks to the remote server: it leaves the files,
    the mounts and the namespace as they are. *)
Definition remote_only (h : Handler) : Prop :=
  forall server config path mt w,
    let w' := snd (h server config path mt w) in
    fs w' = fs w /\ mounts w' = mounts w /\ ns w' = ns w /\ leaked w' = leaked w
    /\ locked w' = locked w /\ input w' = input w
    /\ exists evs, trace w' = trace w ++ evs /\ forallb is_remote evs = true.

(** ** Relations and predicates of the statements *)

(** A relation between the world a computation starts in and the world it
    leaves holds of the computation when it holds from every world. *)
Definition preserves (R : world -> world -> Prop) {A : Type} (c : M A) : Prop :=
  forall w, R w (snd (c w)).

(** The computation only adds events that satisfy [good]. *)
Definition adds (good : event -> bool) (w w' : world) : Prop :=
  exists evs, trace w' = trace w ++ evs /\ forallb good evs = true.

(** No call of the sandbox is made again, and once the namespace is private
    it stays so and no mount is seen outside. *)
Definition private_tail (w w' : world) : Prop :=
  adds (fun ev => negb (is_sandbox ev)) w w'
  /\ (ns w = NsPrivate -> ns w' = NsPrivate /\ leaked w' = leaked w).

(** A bind mount, not a remount. *)
Definition is_bind (ev : event) : bool :=
  match ev with
  | EvMount _ _ _ flags _ => has_flag flags MS_BIND && negb (has_flag flags MS_REMOUNT)
  | _ => false
  end.

Definition not_bind (ev : event) : bool := negb (is_bind ev).

(** A computation whose bind mounts are those of the plan, in its order, up
    to a failure, and all of them when it succeeds. *)
Definition mounts_plan (plan : list string) {A : Type} (c : M A) : Prop :=
  forall w,
    exists k,
      bind_sources (since w (snd (c w))) = firstn k plan
      /\ trace (snd (c w)) = trace w ++ since w (snd (c w))
      /\ (is_ok (fst (c w)) = true -> k = List.length plan).

(** Every converter run leaves the destination in writeback mode: its
    arguments carry no [-t none], and the destination is never closed,
    since it was never opened. *)
Definition writeback_only (e : env) (src : string) (ev : event) : bool :=
  let dest :=
    filepath_Join (tempPath e "" "incus-migrate_mount_") "converted-raw-image.img" in
  let convCmd := snd (env_detect e src) in
  match ev with
  | EvRun argv =>
      strings_eqb argv (converterArgs convCmd true false src dest)
      || strings_eqb argv (converterArgs convCmd false false src dest)
  | EvClose p => negb (String.eqb p dest)
  | _ => true
  end.

(** Only questions were asked: nothing else was called, and the files, the
    mounts and the namespace are as they were. *)
Definition only_asked (w w' : world) : Prop :=
  adds is_question w w'
  /\ fs w' = fs w /\ mounts w' = mounts w /\ ns w' = ns w
  /\ leaked w' = leaked w /\ locked w' = locked w.

Definition isVolumeType (mt : MigrationType) : bool :=
  match mt with
  | MigrationTypeVolumeBlock | MigrationTypeVolumeFilesystem => true
  | _ => false
  end.

(** The paths among [keep] that exist, still exist. *)
Definition keeps (keep : list string) (w w' : world) : Prop :=
  forall p, In p keep -> In p (fs w) -> In p (fs w').

(** The rollback hook of the instance handler. *)
Definition delete_hook (c : Interrupt.call) : M unit :=
  server_DeleteInstance (Interrupt.c_server c)
    (inst_Name (InstanceArgs (Interrupt.c_config c))).

(** A call that deletes a client certificate. *)
Definition is_certificate_delete (ev : event) : bool :=
  match ev with
  | EvDeleteCertificate _ => true
  | _ => false
  end.

(** The deletion of the client certificate registered for the session: one
    call when [askServer] returned a fingerprint, none when it is empty
    (line 825). *)
Definition registered_certificate (c : Interrupt.call) : list event :=
  if nonempty (Interrupt.c_fingerprint c)
  then [EvDeleteCertificate (Interrupt.c_fingerprint c)]
  else [].

(** What holds of the process at every point of every schedule.  Of the
    main goroutine: before the handler returns no delete call was made and
    the reverter holds the delete hook once the instance is created, and
    still holds it at the return statement only beside an error; afterwards
    one delete call was made only when an error was returned.  Of the
    listener: it deletes the registered certificate, then cancels the
    context, then exits with status 1, and nothing else deletes a
    certificate, cancels or exits. *)
Definition invariant (c : Interrupt.call) (w : world) (p : Interrupt.process) : Prop :=
  exists evs,
    trace (Interrupt.p_world p) = trace w ++ evs
    /\ match Interrupt.p_main p with
       | Interrupt.PcCreate => count is_delete evs = 0
       | Interrupt.PcAddHandler rv | Interrupt.PcTransfer rv =>
           count is_delete evs = 0 /\ rv = [delete_hook c]
       | Interrupt.PcReturn r rv =>
           count is_delete evs = 0
           /\ (rv = [] \/ rv = [delete_hook c] /\ exists err, r = Err err)
       | Interrupt.PcDone r =>
           count is_delete evs = 0
           \/ count is_delete evs = 1 /\ exists err, r = Err err
       end
    /\ match Interrupt.p_listener p with
       | Interrupt.LWait | Interrupt.LDeleteCertificate =>
           filter is_certificate_delete evs = []
           /\ Interrupt.p_ctx p = false /\ Interrupt.p_exit p = None
       | Interrupt.LCancel =>
           filter is_certificate_delete evs = registered_certificate c
           /\ Interrupt.p_ctx p = false /\ Interrupt.p_exit p = None
       | Interrupt.LExit =>
           filter is_certificate_delete evs = registered_certificate c
           /\ Interrupt.p_ctx p = true /\ Interrupt.p_exit p = None
       | Interrupt.LGone =>
           filter is_certificate_delete evs = registered_certificate c
           /\ Interrupt.p_ctx p = true /\ Interrupt.p_exit p = Some 1%Z
       end.

(** ** The claims that do not hold as the spec states them *)

(** The claim of the spec on cancellation, for a run that reaches the
    window after [before], is interrupted there and goes on with [after]:
    the instance is deleted and the outcome is an error that is, or wraps,
    the CancelledError. *)
Definition rollback_on_interrupt_claim (e : env) (c : Interrupt.call) (w : world)
    (before after : list Interrupt.tick) : Prop :=
  let p1 := Interrupt.exec e c before (Interrupt.start w) in
  let p2 := Interrupt.exec e c (Interrupt.Sigint :: after) p1 in
  Interrupt.in_window p1 = true ->
  Interrupt.outcome_of p2 <> Interrupt.Running ->
  count is_delete (since w (Interrupt.p_world p2)) = 1
  /\ exists err, Interrupt.outcome_of p2 = Interrupt.Returned (Err err)
                 /\ errors_Is err CancelledError = true.

(** The claim of the spec on the disk normalizer, for a run of
    [normalizeDisk]: a source reported as a block device or as raw passes
    through and the converter is not run; for a source reported as qcow2 or
    vmdk the converter is run exactly once and the converted image becomes
    the source path. *)
Definition normalizer_claim (e : env) (path : string) (config : cmdMigrateData)
    (w : world) : Prop :=
  let run := normalizeDisk e path config w in
  let format := detectSourceFormat e (SourcePath config) in
  ((format = "Block device" \/ format = "raw") ->
     fst run = Ok config /\ count is_run (since w (snd run)) = 0)
  /\ ((format = "qcow2" \/ format = "vmdk") ->
      count is_run (since w (snd run)) = 1
      /\ fst run
         = Ok (set_SourcePath (filepath_Join path "converted-raw-image.img") config)).

(** The claim of the spec on the clean-up, for the part of [runMigration]
    that starts with the temporary path: once the path is made, when the
    run is over no mount is left at it or below it and it no longer
    exists. *)
Definition cleanup_claim (e : env) (server : InstanceServer) (config : cmdMigrateData)
    (mt : MigrationType) (h : Handler) (w : world) : Prop :=
  forall path w1,
    os_MkdirTemp e "" "incus-migrate_mount_" w = (Ok path, w1) ->
    let w' := snd (migrateFromTemporaryPath e server config mt h w) in
    mounts_under w' path = [] /\ path_exists w' path = false.

(** ** Sample inputs *)

(** An environment in which every call succeeds but those given a failure:
    direct I/O is accepted everywhere, [/img/disk.qcow2] is a qcow2 image
    and nothing else is an image, the server has one project and one pool. *)
Definition sample_env (unshare lookpath run transfer : option error) : env :=
  mkEnv unshare (fun _ _ _ => None) "/tmp" "123" None (fun _ => None) (fun _ => None)
    (fun _ => true) (fun _ => lookpath) (fun _ => run)
    (fun p => if String.eqb p "/img/disk.qcow2"
              then (".qcow2", ["qemu-img"; "convert"; "-O"; "raw"])
              else ("", []))
    (fun _ => false) (fun _ => None) (Ok "x86_64") (fun _ => None) (fun _ _ => None)
    None (fun _ => transfer) (Ok ["default"]) (Ok ["pool0"]) (fun _ => Ok []).

Definition sample_world (answers : list answer) : world :=
  mkWorld ["/"; "/tmp"; "/img/disk.qcow2"; "/src/root"; "/data/a"; "/data/b"]
    [] NsInitial [] false answers [].

Definition sample_container : cmdMigrateData :=
  mkData "/src/root" "" ["/data/b"; "/data/a"]
    (mkInstancesPost "c1" "container" "" "migration" "push")
    (mkStorageVolumesPost "" "" "" "" "") "" "default".

Definition sample_vm : cmdMigrateData :=
  mkData "/img/disk.qcow2" "qcow2" []
    (mkInstancesPost "vm1" "virtual-machine" "" "migration" "push")
    (mkStorageVolumesPost "" "" "" "" "") "" "default".

Definition sample_volume : cmdMigrateData :=
  mkData "/img/disk.qcow2" "qcow2" []
    (mkInstancesPost "" "" "" "" "")
    (mkStorageVolumesPost "vol1" "custom" "block" "migration" "push") "pool0" "default".

Definition sample_server : InstanceServer := mkServer "".

Definition sample_tmp : string := "/tmp/incus-migrate_mount_123".

(** The world once the temporary path is made. *)
Definition sample_world_tmp : world :=
  set_fs (sample_tmp :: fs (sample_world [])) (sample_world []).

(** The answers of a user who names the pool, the volume and the source,
    and then declines. *)
Definition sample_declines : list answer :=
  [AnsString "pool0"; AnsString "vol1"; AnsString "/img/disk.qcow2"; AnsBool false].

(** The instance handler as [runMigration] calls it for [sample_vm], with a
    client certificate registered. *)
Definition sample_call : Interrupt.call :=
  Interrupt.mkCall "" sample_server sample_vm sample_tmp MigrationTypeVM "fingerprint".

(** The same environment, in which [/dev/sdb] is a block device that holds
    a qcow2 image. *)
Definition sample_blockdev_env : env :=
  mkEnv None (fun _ _ _ => None) "/tmp" "123" None (fun _ => None) (fun _ => None)
    (fun _ => true) (fun _ => None) (fun _ => None)
    (fun p => if String.eqb p "/dev/sdb"
              then (".qcow2", ["qemu-img"; "convert"; "-O"; "raw"])
              else ("", []))
    (fun p => String.eqb p "/dev/sdb") (fun _ => None) (Ok "x86_64") (fun _ => None)
    (fun _ _ => None) None (fun _ => None) (Ok ["default"]) (Ok ["pool0"])
    (fun _ => Ok []).

(** * The questions of the tool and its entry point

    What follows embeds the rest of the file: the overrides offered for an
    instance ([askProfiles], [askConfig], [askStorage], [askNetwork]),
    [gatherInstanceInfo], the summary of [renderInstance], [askServer] and
    [run]. *)

(** ** Go strings: [strings.Contains], [strings.Cut], [strings.Split]

    Every call of the file passes a separator of one byte. *)

Fixpoint strings_Contains (s : string) (sep : ascii) : bool :=
  match s with
  | EmptyString => false
  | String c s' => Ascii.eqb c sep || strings_Contains s' sep
  end.

(** [strings.Cut]: what is before the first [sep], what is after it, and
    whether there is one; when there is none, [s] and the empty string. *)
Fixpoint strings_Cut (s : string) (sep : ascii) : string * string * bool :=
  match s with
  | EmptyString => ("", "", false)
  | String c s' =>
      if Ascii.eqb c sep then ("", s', true)
      else
        let '(before, after, found) := strings_Cut s' sep in
        (String c before, after, found)
  end.

(** [strings.Split]: the pieces of [s] between the separators, one more
    than there are separators. *)
Fixpoint strings_Split (s : string) (sep : ascii) : list string :=
  match s with
  | EmptyString => [""]
  | String c s' =>
      if Ascii.eqb c sep then "" :: strings_Split s' sep
      else
        match strings_Split s' sep with
        | piece :: pieces => String c piece :: pieces
        | [] => [String c ""]
        end
  end.

(** [strings.Join] *)
Fixpoint strings_Join (pieces : list string) (sep : ascii) : string :=
  match pieces with
  | [] => ""
  | [piece] => piece
  | piece :: pieces' => piece ++ String sep (strings_Join pieces' sep)
  end.

(** The double quote, for the messages that quote a name. *)
Definition dquote : string := String (Ascii.ascii_of_nat 34) EmptyString.

(** [errors.New] *)
Definition errors_New (msg : string) : error := Errorf msg [].

(** ** Go maps with string keys

    A map as the list of its keys with their values, each key once;
    [m[k] = v] replaces the value of a key that is there. *)

Definition gomap (V : Type) : Type := list (string * V).

Fixpoint map_lookup {V : Type} (m : gomap V) (k : string) : option V :=
  match m with
  | [] => None
  | (k', v) :: m' => if String.eqb k k' then Some v else map_lookup m' k
  end.

Fixpoint map_store {V : Type} (k : string) (v : V) (m : gomap V) : gomap V :=
  match m with
  | [] => [(k, v)]
  | (k', v') :: m' =>
      if String.eqb k k' then (k, v) :: m' else (k', v') :: map_store k v m'
  end.

(** [m[k]] read as a value: the zero value when the key is missing. *)
Definition map_value (m : gomap string) (k : string) : string :=
  match map_lookup m k with Some v => v | None => "" end.

(** ** The instance to be created *)

(** The fields of [api.InstancesPost] that only [gatherInstanceInfo] and
    the overrides write, and [renderInstance] reads. *)
Record InstanceOptions : Type := mkOptions {
  Profiles : list string;
  Config : gomap string;
  Devices : gomap (gomap string)
}.

(** The [cmdMigrateData] of an instance, with those fields of its
    [InstanceArgs]. *)
Record instanceData : Type := mkInstanceData {
  data : cmdMigrateData;
  options : InstanceOptions
}.

Definition set_data (d : cmdMigrateData) (c : instanceData) : instanceData :=
  mkInstanceData d (options c).
Definition set_Profiles (p : list string) (c : instanceData) : instanceData :=
  mkInstanceData (data c) (mkOptions p (Config (options c)) (Devices (options c))).
Definition set_Config (key value : string) (c : instanceData) : instanceData :=
  mkInstanceData (data c)
    (mkOptions (Profiles (options c)) (map_store key value (Config (options c)))
       (Devices (options c))).
Definition set_Device (name : string) (device : gomap string) (c : instanceData)
    : instanceData :=
  mkInstanceData (data c)
    (mkOptions (Profiles (options c)) (Config (options c))
       (map_store name device (Devices (options c)))).
Definition set_inst_Name (n : string) (i : InstancesPost) : InstancesPost :=
  mkInstancesPost n (inst_Type i) (inst_Architecture i) (inst_SourceType i)
    (inst_SourceMode i).

(** [api.InstanceTypeVM] and [api.InstanceTypeContainer] *)
Definition InstanceTypeVM : string := "virtual-machine".
Definition InstanceTypeContainer : string := "container".

(** ** What the questions cannot decide

    The answers of the server and of the libraries outside this file. *)
Record uiEnv : Type := mkUiEnv {
  ui_euid : Z;                                                    (* os.Geteuid *)
  ui_arch_fallback : string;   (* the name osarch.ArchitectureGetLocal returns beside an error *)
  ui_instance_names : InstanceServer -> result (list string);     (* GetInstanceNames *)
  ui_profile_names : InstanceServer -> result (list string);      (* GetProfileNames *)
  ui_storage_pool_names : InstanceServer -> result (list string); (* GetStoragePoolNames *)
  ui_network_names : InstanceServer -> result (list string);      (* GetNetworkNames *)
  ui_parse_size : string -> option error;                 (* units.ParseByteSizeString *)
  ui_connectLocal : result InstanceServer;
  ui_parseURL : string -> result string;
  ui_ConnectIncus : string -> bool -> result InstanceServer;      (* URL, InsecureSkipVerify *)
  ui_remote_certificate : string -> result string;     (* GetRemoteCertificate, fingerprint *)
  ui_stdin_line : result string;                  (* the line read at the certificate prompt *)
  ui_auth_methods : InstanceServer -> result (list string);       (* GetServer().AuthMethods *)
  ui_token_decode : string -> option error;               (* CertificateTokenDecode *)
  ui_connectTarget :
    string -> string -> string -> string -> string -> result (InstanceServer * string)
}.

(** [asker.AskInt] with bounds: an answer that is a number outside of them
    is asked again. *)
Fixpoint ask_int_from (lo hi : Z) (script : list answer) : result Z * list answer :=
  match script with
  | [] => (Err (ErrSys "EOF"), [])
  | AnsInt n :: rest =>
      if Z.leb lo n && Z.leb n hi then (Ok n, rest) else ask_int_from lo hi rest
  | AnsErr err :: rest => (Err err, rest)
  | _ :: rest => ask_int_from lo hi rest
  end.

Definition AskInt (question : string) (lo hi : Z) : M Z :=
  emit (EvAsk question) ;;
  fun w =>
    (fst (ask_int_from lo hi (input w)),
     set_input (snd (ask_int_from lo hi (input w))) w).

Definition is_none {A : Type} (o : option A) : bool :=
  match o with None => true | Some _ => false end.

(** ** The overrides

    An override is given the configuration by pointer: what it wrote
    before it failed stays written. *)
Definition Override : Type :=
  instanceData -> world -> result unit * instanceData * world.

(** Lines 868-899 *)
Definition askProfiles (u : uiEnv) (server : InstanceServer) : Override :=
  fun config w =>
    match (emit (EvGet "profile names") ;;
           match ui_profile_names u server with
           | Err err => fail err
           | Ok profileNames =>
               AskString
                 ("Which profiles do you want to apply to the instance? (space separated) [default=default, "
                  ++ dquote ++ "-" ++ dquote ++ " for none]: ")
                 (fun s =>
                    String.eqb s "-"
                    || forallb (contains profileNames) (strings_Split s " "%char))
           end) w with
    | (Err err, w1) => (Err err, config, w1)
    | (Ok profiles, w1) =>
        (Ok tt,
         if String.eqb profiles "-" then config
         else set_Profiles (strings_Split profiles " "%char) config,
         w1)
    end.

(** Lines 919-922: each entry is cut at its first [=] and stored. *)
Definition storeEntries (entries : list string) (config : instanceData) : instanceData :=
  fold_left
    (fun config entry =>
       let '(key, value, _) := strings_Cut entry "="%char in
       set_Config key value config)
    entries config.

(** Lines 901-925 *)
Definition askConfig : Override :=
  fun config w =>
    match AskString "Please specify config keys and values (key=value ...): "
            (fun s =>
               String.eqb s ""
               || forallb (fun entry => strings_Contains entry "="%char)
                    (strings_Split s " "%char)) w with
    | (Err err, w1) => (Err err, config, w1)
    | (Ok configs, w1) => (Ok tt, storeEntries (strings_Split configs " "%char) config, w1)
    end.

(** Lines 927-966 *)
Definition askStorage (u : uiEnv) (server : InstanceServer) : Override :=
  fun config w =>
    match (emit (EvGet "storage pool names") ;;
           match ui_storage_pool_names u server with
           | Err err => fail err
           | Ok storagePools =>
               if Nat.eqb (List.length storagePools) 0
               then fail (Errorf "No storage pools available" [])
               else AskChoice "Please provide the storage pool to use: " storagePools
           end) w with
    | (Err err, w1) => (Err err, config, w1)
    | (Ok storagePool, w1) =>
        let config :=
          set_Device "root"
            [("type", "disk"); ("pool", storagePool); ("path", "/")] config in
        match AskBool "Do you want to change the storage size? [default=no]: " w1 with
        | (Err err, w2) => (Err err, config, w2)
        | (Ok false, w2) => (Ok tt, config, w2)
        | (Ok true, w2) =>
            match AskString "Please specify the storage size: "
                    (fun s => is_none (ui_parse_size u s)) w2 with
            | (Err err, w3) => (Err err, config, w3)
            | (Ok size, w3) =>
                match map_lookup (Devices (options config)) "root" with
                | Some root =>
                    (Ok tt, set_Device "root" (map_store "size" size root) config, w3)
                | None =>
                    (Err (ErrSys "panic: assignment to entry in nil map"), config, w3)
                end
            end
        end
    end.

(** Lines 968-987 *)
Definition askNetwork (u : uiEnv) (server : InstanceServer) : Override :=
  fun config w =>
    match (emit (EvGet "network names") ;;
           match ui_network_names u server with
           | Err err => fail err
           | Ok networks =>
               AskChoice "Please specify the network to use for the instance: " networks
           end) w with
    | (Err err, w1) => (Err err, config, w1)
    | (Ok network, w1) =>
        (Ok tt,
         set_Device "eth0"
           [("type", "nic"); ("nictype", "bridged"); ("parent", network);
            ("name", "eth0")] config,
         w1)
    end.

(** ** [renderInstance] and [renderCustomVolume]

    The two build a record of what is to be created and hand it to
    [yaml.Marshal]; the record is what is embedded here. *)
Record instanceSummary : Type := mkInstanceSummary {
  sum_Name : string;
  sum_Project : string;
  sum_Type : string;
  sum_Source : string;
  sum_SourceFormat : string;
  sum_Mounts : list string;
  sum_Profiles : list string;
  sum_StoragePool : string;
  sum_StorageSize : string;
  sum_Network : string;
  sum_Config : gomap string
}.

(** Lines 73-112 *)
Definition renderInstance (c : instanceData) : instanceSummary :=
  let root := map_lookup (Devices (options c)) "root" in
  let eth0 := map_lookup (Devices (options c)) "eth0" in
  mkInstanceSummary
    (inst_Name (InstanceArgs (data c)))
    (Project (data c))
    (inst_Type (InstanceArgs (data c)))
    (SourcePath (data c))
    (SourceFormat (data c))
    (Mounts (data c))
    (Profiles (options c))
    (match root with Some disk => map_value disk "pool" | None => "" end)
    (match root with
     | Some disk =>
         match map_lookup disk "size" with Some size => size | None => "" end
     | None => ""
     end)
    (match eth0 with Some network => map_value network "parent" | None => "" end)
    (Config (options c)).

Record volumeSummary : Type := mkVolumeSummary {
  vsum_Name : string;
  vsum_Project : string;
  vsum_Type : string;
  vsum_Source : string;
  vsum_SourceFormat : string
}.

(** Lines 123-135 *)
Definition renderCustomVolume (c : cmdMigrateData) : volumeSummary :=
  mkVolumeSummary (vol_Name (CustomVolumeArgs c)) (Project c)
    (vol_ContentType (CustomVolumeArgs c)) (SourcePath c) (SourceFormat c).

(** ** [gatherInstanceInfo] *)

(** Lines 359-382: the firmware of a virtual machine.  The error of
    [osarch.ArchitectureGetLocal] is dropped, the name it returns is used. *)
Definition askFirmware (e : env) (u : uiEnv) (config : instanceData) : M instanceData :=
  if String.eqb (inst_Type (InstanceArgs (data config))) InstanceTypeVM then
    let architectureName :=
      match env_arch e with Ok name => name | Err _ => ui_arch_fallback u end in
    if contains ["x86_64"; "aarch64"] architectureName then
      hasUEFI <- AskBool "Does the VM support UEFI booting? [default=yes]: " ;;
      if hasUEFI then
        hasSecureBoot <- AskBool "Does the VM support UEFI Secure Boot? [default=yes]: " ;;
        if negb hasSecureBoot
        then ret (set_Config "security.secureboot" "false" config)
        else ret config
      else
        ret (set_Config "security.secureboot" "false"
               (set_Config "security.csm" "true" config))
    else ret config
  else ret config.

(** Lines 394-415: paths are asked for until the empty one.  Each round
    reads an answer, so the rounds are no more than the answers left. *)
Fixpoint askMountPaths (rounds : nat) (mounts : list string) : M (list string) :=
  match rounds with
  | 0 => fail (ErrSys "EOF")
  | S rounds' =>
      fun w =>
        (path <- AskString
                   "Please provide a path the filesystem mount path [empty value to continue]: "
                   (fun s => String.eqb s "" || path_exists w s) ;;
         if String.eqb path "" then ret mounts
         else askMountPaths rounds' (mounts ++ [path])) w
  end.

(** Lines 384-419: the additional mounts of a container. *)
Definition askMounts (config : instanceData) : M instanceData :=
  if String.eqb (inst_Type (InstanceArgs (data config))) InstanceTypeContainer then
    addMounts <- AskBool "Do you want to add additional filesystem mounts? [default=no]: " ;;
    if addMounts then
      mounts <- (fun w => askMountPaths (S (List.length (input w))) [] w) ;;
      ret (set_data (set_Mounts (Mounts (data config) ++ mounts) (data config)) config)
    else ret config
  else ret config.

(** Lines 444-455: the override picked from the menu. *)
Definition override (u : uiEnv) (server : InstanceServer) (choice : Z) : Override :=
  if Z.eqb choice 2 then askProfiles u server
  else if Z.eqb choice 3 then askConfig
  else if Z.eqb choice 4 then askStorage u server
  else if Z.eqb choice 5 then askNetwork u server
  else fun config w => (Ok tt, config, w).

(** Lines 421-460: the menu is shown until the first option is picked; the
    error of an override is printed and the menu shown again.  Each round
    reads an answer. *)
Fixpoint askOverrides (u : uiEnv) (server : InstanceServer) (rounds : nat)
    (config : instanceData) : M instanceData :=
  match rounds with
  | 0 => fail (ErrSys "EOF")
  | S rounds' =>
      choice <- AskInt "Please pick one of the options above [default=1]: " 1 5 ;;
      if Z.eqb choice 1 then ret config
      else
        fun w =>
          let '(_, config', w') := override u server choice config w in
          askOverrides u server rounds' config' w'
  end.

(** Lines 301-461 *)
Definition gatherInstanceInfo (e : env) (u : uiEnv) (server : InstanceServer)
    (mt : MigrationType) : M instanceData :=
  let config :=
    mkInstanceData
      (set_InstanceArgs
         (mkInstancesPost ""
            (match mt with
             | MigrationTypeVM => InstanceTypeVM
             | _ => InstanceTypeContainer
             end)
            "" "migration" "push")
         empty_cmdMigrateData)
      (mkOptions [] [] []) in
  d <- askProject e (data config) ;;
  let config := set_data d config in
  let server :=
    if String.eqb (Project (data config)) "" then server
    else UseProject server (Project (data config)) in
  emit (EvGet "instance names") ;;
  match ui_instance_names u server with
  | Err err => fail err
  | Ok instanceNames =>
      instanceName <- AskString "Name of the new instance: "
                        (fun s => nonempty s && negb (contains instanceNames s)) ;;
      let config :=
        set_data
          (set_InstanceArgs (set_inst_Name instanceName (InstanceArgs (data config)))
             (data config))
          config in
      d <- askSourcePath e (data config) mt ;;
      let config := set_data d config in
      config <- askFirmware e u config ;;
      config <- askMounts config ;;
      fun w => askOverrides u server (S (List.length (input w))) config w
  end.

(** ** [askServer] *)

Inductive AuthMethod : Type :=
| authMethodTLSCertificate
| authMethodTLSTemporaryCertificate
| authMethodTLSCertificateToken.

(** [api.AuthenticationMethodTLS] *)
Definition AuthenticationMethodTLS : string := "tls".

(** Line 194: the certificate is taken when the line starts with [y] or [Y]. *)
Definition certificateAccepted (line : string) : bool :=
  match line with
  | EmptyString => false
  | String c _ => Ascii.eqb c "y"%char || Ascii.eqb c "Y"%char
  end.

(** Lines 220-235: the mechanisms offered, in the order they are printed. *)
Definition availableAuthMethods (authMethods : list string) : list AuthMethod :=
  if contains authMethods AuthenticationMethodTLS
  then [authMethodTLSCertificateToken; authMethodTLSCertificate;
        authMethodTLSTemporaryCertificate]
  else [].

(** The last number printed, or 1. *)
Definition lastAuthNumber (authMethods : list string) : Z :=
  if contains authMethods AuthenticationMethodTLS then 3%Z else 1%Z.

(** Lines 174-203: the connection, with the system certificates first and,
    when that fails, with the certificate of the server once the user has
    taken it. *)
Definition connectServer (u : uiEnv) (serverURL : string) : M InstanceServer :=
  emit (EvGet "ConnectIncus") ;;
  match ui_ConnectIncus u serverURL false with
  | Ok server => ret server
  | Err _ =>
      emit (EvGet "GetRemoteCertificate") ;;
      match ui_remote_certificate u serverURL with
      | Err err => fail (Wrapf "Failed to get remote certificate: %w" [] err)
      | Ok digest =>
          emit (EvAsk "ok (y/n)? ") ;;
          match ui_stdin_line u with
          | Err err => fail err
          | Ok line =>
              if negb (certificateAccepted line)
              then fail (Errorf "Server certificate rejected by user" [])
              else
                emit (EvGet "ConnectIncus InsecureSkipVerify") ;;
                match ui_ConnectIncus u serverURL true with
                | Err err => fail (Wrapf "Failed to connect to server: %w" [] err)
                | Ok server => ret server
                end
          end
      end
  end.

(** Lines 237-244: the mechanism picked; without a question, the zero
    value of [AuthMethod]. *)
Definition askAuthMethod (authMethods : list string) : M AuthMethod :=
  if Nat.ltb 1 (List.length authMethods) || contains authMethods AuthenticationMethodTLS
  then
    authMethodInt <- AskInt "Please pick an authentication mechanism above: " 1
                       (lastAuthNumber authMethods) ;;
    match nth_error (availableAuthMethods authMethods)
            (Z.to_nat (authMethodInt - 1)) with
    | Some authMethod => ret authMethod
    | None => fail (ErrSys "panic: index out of range")
    end
  else ret authMethodTLSCertificate.

(** Lines 246-289: what the mechanism needs: certificate path, key path,
    token. *)
Definition askCredentials (u : uiEnv) (authMethod : AuthMethod)
    : M (string * string * string) :=
  match authMethod with
  | authMethodTLSCertificate =>
      certPath <- (fun w => AskString "Please provide the certificate path: "
                              (path_exists w) w) ;;
      keyPath <- (fun w => AskString "Please provide the keyfile path: "
                             (path_exists w) w) ;;
      ret (certPath, keyPath, "")
  | authMethodTLSCertificateToken =>
      token <- AskString "Please provide the certificate token: "
                 (fun token => is_none (ui_token_decode u token)) ;;
      ret ("", "", token)
  | authMethodTLSTemporaryCertificate => ret ("", "", "")
  end.

(** Lines 291-296 *)
Definition authTypeOf (authMethod : AuthMethod) : string :=
  match authMethod with
  | authMethodTLSCertificate | authMethodTLSTemporaryCertificate
  | authMethodTLSCertificateToken => AuthenticationMethodTLS
  end.

(** Lines 145-299: the server and the fingerprint of the client certificate
    registered for the session, empty when there is none. *)
Definition askServer (u : uiEnv) : M (InstanceServer * string) :=
  emit (EvGet "connectLocal") ;;
  useLocal <- match ui_connectLocal u with
              | Ok _ => AskBool "The local Incus server is the target [default=yes]: "
              | Err _ => ret false
              end ;;
  match ui_connectLocal u, useLocal with
  | Ok local, true => ret (local, "")
  | _, _ =>
      serverURL <- AskString "Please provide Incus server URL: " nonempty ;;
      match ui_parseURL u serverURL with
      | Err err => fail err
      | Ok serverURL =>
          server <- connectServer u serverURL ;;
          emit (EvGet "GetServer") ;;
          match ui_auth_methods u server with
          | Err err => fail (Wrapf "Failed to get server: %w" [] err)
          | Ok authMethods =>
              authMethod <- askAuthMethod authMethods ;;
              credentials <- askCredentials u authMethod ;;
              let '(certPath, keyPath, token) := credentials in
              emit (EvGet "connectTarget") ;;
              match ui_connectTarget u serverURL certPath keyPath
                      (authTypeOf authMethod) token with
              | Err err => fail err
              | Ok target => ret target
              end
          end
      end
  end.

(** ** [run] *)

(** The question of lines 842-849. *)
Definition creationQuestion : string :=
  "
What would you like to create?
1) Container
2) Virtual Machine
3) Custom Volume (from filesystem)
4) Custom Volume (from disk)

Please enter the number of your choice: ".

(** Lines 854-865 *)
Definition dispatch (e : env) (u : uiEnv) (flagRsyncArgs : string) (ctx : Context)
    (server : InstanceServer) (creationType : Z) : M unit :=
  let instance mt :=
    migrateInstance e flagRsyncArgs ctx
      (config <- gatherInstanceInfo e u server mt ;; ret (data config)) server mt in
  if Z.eqb creationType 1 then instance MigrationTypeContainer
  else if Z.eqb creationType 2 then instance MigrationTypeVM
  else if Z.eqb creationType 3
       then migrateCustomVolume e flagRsyncArgs ctx server MigrationTypeVolumeFilesystem
  else if Z.eqb creationType 4
       then migrateCustomVolume e flagRsyncArgs ctx server MigrationTypeVolumeBlock
  else ret tt.

(** Lines 801-866, for a run in which no interrupt arrives: the context is
    not cancelled.  The goroutine of lines 822-835 is the listener of
    [Interrupt]. *)
Definition run (e : env) (u : uiEnv) (flagRsyncArgs : string) : M unit :=
  if negb (Z.eqb (ui_euid u) 0) then fail (errors_New "This tool must be run as root")
  else
    found <- attempt (exec_LookPath e "rsync") ;;
    match found with
    | Err _ =>
        fail (errors_New ("Unable to find required command " ++ dquote ++ "rsync"
                          ++ dquote))
    | Ok _ =>
        target <- askServer u ;;
        let '(server, clientFingerprint) := target in
        let ctx : Context := false in
        let session :=
          creationType <- AskInt creationQuestion 1 4 ;;
          dispatch e u flagRsyncArgs ctx server creationType in
        if nonempty clientFingerprint
        then defer (ignore (server_DeleteCertificate clientFingerprint)) session
        else session
    end.

(** ** Predicates of the statements on the questions *)

(** From a world in which [P] holds the computation leaves one in which
    [Q] holds, whatever it returns. *)
Definition leads (P Q : world -> Prop) {A : Type} (c : M A) : Prop :=
  forall w, P w -> Q (snd (c w)).

(** The answers left are the last of those there were. *)
Definition reads (w w' : world) : Prop :=
  exists consumed, input w = consumed ++ input w'.

(** The error of a question is the end of the input or an error that was
    read. *)
Definition read_error (script : list answer) (err : error) : Prop :=
  err = ErrSys "EOF" \/ In (AnsErr err) script.

(** What a question leaves of the world. *)
Definition asked (question : string) (rest : list answer) (w : world) : world :=
  set_input rest (set_trace (trace w ++ [EvAsk question]) w).

(** ** Predicates of the statements on the temporary path *)

(** Nothing of [w0] is the path [path] or lies below it: no file, no
    mount point. *)
Definition fresh_in (w0 : world) (path : string) : Prop :=
  (forall q, In q (fs w0) -> q <> path /\ beneath path q = false)
  /\ (forall m, In m (mounts w0) -> at_or_beneath path (mnt_target m) = false).

(** The world [w] differs from [w0] by the temporary path [path], by the
    two image files in it, and by at most [binds] mounts, on [root.img]. *)
Definition scratch (w0 : world) (path : string) (binds : nat) (w : world) : Prop :=
  exists files ms,
    fs w = files ++ path :: fs w0
    /\ (forall q, In q files ->
          q = filepath_Join path "converted-raw-image.img"
          \/ q = filepath_Join path "root.img")
    /\ mounts w = ms ++ mounts w0
    /\ List.length ms <= binds
    /\ (forall m, In m ms -> mnt_target m = filepath_Join path "root.img").

(** The files and the mounts are those of [w0]. *)
Definition restored (w0 w : world) : Prop :=
  fs w = fs w0 /\ mounts w = mounts w0.

(** The mounts of [w] are those of [w0] and, before them, mounts made at
    [root] or below it. *)
Definition made_under (w0 : world) (root : string) (w : world) : Prop :=
  exists made,
    mounts w = made ++ mounts w0
    /\ forall m, In m made -> String.prefix root (mnt_target m) = true.

(** ** Predicates of the statements on a session *)

Definition MigrationType_eqb (a b : MigrationType) : bool :=
  match a, b with
  | MigrationTypeContainer, MigrationTypeContainer
  | MigrationTypeVM, MigrationTypeVM
  | MigrationTypeVolumeFilesystem, MigrationTypeVolumeFilesystem
  | MigrationTypeVolumeBlock, MigrationTypeVolumeBlock => true
  | _, _ => false
  end.

(** A call of the session that names a remote resource names the one of the
    configuration, in the project of the session, and a transfer reads the
    path [target] for the migration type [mt]. *)
Definition session_call (project iname pool vname target : string)
    (mt : MigrationType) (ev : event) : bool :=
  match ev with
  | EvCreateInstance p n | EvDeleteInstance p n =>
      String.eqb p project && String.eqb n iname
  | EvCreateVolume p q n =>
      String.eqb p project && String.eqb q pool && String.eqb n vname
  | EvDeleteVolume p q t n =>
      String.eqb p project && String.eqb q pool && String.eqb t "custom"
      && String.eqb n vname
  | EvTransfer path m => String.eqb path target && MigrationType_eqb m mt
  | _ => true
  end.

(** A call that locks or unlocks the thread. *)
Definition is_thread_call (ev : event) : bool :=
  match ev with
  | EvLockOSThread | EvUnlockOSThread => true
  | _ => false
  end.

(** The handler that does nothing. *)
Definition noHandler : Handler := fun _ _ _ _ => ret tt.

(** ** Predicates of the statements on the questions *)

(** A relation that the questions and the reads of the server respect. *)
Definition asking (R : world -> world -> Prop) : Prop :=
  (forall w, R w w)
  /\ (forall a b c, R a b -> R b c -> R a c)
  /\ (forall q a, preserves R (AskString q a))
  /\ (forall q, preserves R (AskBool q))
  /\ (forall q lo hi, preserves R (AskInt q lo hi))
  /\ (forall ev, is_question ev = true -> preserves R (emit ev)).

(** ** Predicates of the statements on [run] *)

(** Any call but the deletion of a client certificate. *)
Definition not_certificate_delete (ev : event) : bool :=
  match ev with
  | EvDeleteCertificate _ => false
  | _ => true
  end.
(** ** Sample inputs of the questions *)

(** A user who runs the tool as root against a remote server: there is no
    local server, the certificate of the remote one is not trusted, the
    line read at the certificate prompt is [yes], the server offers TLS and
    lists one instance, two profiles, one pool and one network, and every
    size and token is well formed. *)
Definition sample_ui : uiEnv :=
  mkUiEnv 0 "x86_64"
    (fun _ => Ok ["c0"]) (fun _ => Ok ["default"; "web"]) (fun _ => Ok ["pool0"])
    (fun _ => Ok ["br0"]) (fun _ => None)
    (Err (ErrSys "no local server")) (fun url => Ok url)
    (fun _ insecure => if insecure then Ok sample_server else Err (ErrSys "x509"))
    (fun _ => Ok "digest") (Ok "yes") (fun _ => Ok ["tls"]) (fun _ => None)
    (fun _ _ _ _ _ => Ok (sample_server, "fingerprint")).

(** A virtual machine as [gatherInstanceInfo] has it before the menu. *)
Definition sample_instance : instanceData :=
  mkInstanceData sample_vm (mkOptions ["default"] [] []).

(** The answers of a user who names the pool, the volume and the source,
    and then accepts. *)
Definition sample_accepts : list answer :=
  [AnsString "pool0"; AnsString "vol1"; AnsString "/img/disk.qcow2"; AnsBool true].

(** The answers of a user who names a virtual machine and its image, says
    that it boots with UEFI and Secure Boot, and begins the migration. *)
Definition sample_vm_answers : list answer :=
  [AnsString "vm1"; AnsString "/img/disk.qcow2"; AnsBool true; AnsBool true; AnsInt 1].

(** An environment in which the namespace cannot be unshared. *)
Definition sample_env_unprivileged : env :=
  sample_env (Some (ErrSys "operation not permitted")) None None None.
Section StringOrderFacts.

Lemma ascii_compare_refl (a : ascii) : Ascii.compare a a = Eq.
Proof. unfold Ascii.compare. apply N.compare_refl. Qed.

Lemma ascii_compare_lt_trans (a b c : ascii) :
  Ascii.compare a b = Lt -> Ascii.compare b c = Lt -> Ascii.compare a c = Lt.
Proof.
  unfold Ascii.compare. rewrite !N.compare_lt_iff. lia.
Qed.

Lemma string_compare_refl (s : string) : String.compare s s = Eq.
Proof.
  induction s as [|a s IH]; simpl; [reflexivity|].
  now rewrite ascii_compare_refl.
Qed.

Lemma string_compare_lt_trans (x y z : string) :
  String.compare x y = Lt -> String.compare y z = Lt -> String.compare x z = Lt.
Proof.
  revert y z. induction x as [|a x IH]; intros [|b y] [|c z]; simpl;
    try congruence.
  destruct (Ascii.compare a b) eqn:Hab; try discriminate;
    destruct (Ascii.compare b c) eqn:Hbc; try discriminate; intros H1 H2.
  - apply Ascii.compare_eq_iff in Hab, Hbc. subst.
    rewrite ascii_compare_refl. eauto.
  - apply Ascii.compare_eq_iff in Hab. subst. now rewrite Hbc.
  - apply Ascii.compare_eq_iff in Hbc. subst. now rewrite Hab.
  - now rewrite (ascii_compare_lt_trans _ _ _ Hab Hbc).
Qed.

Lemma string_leb_trans (x y z : string) :
  String.leb x y = true -> String.leb y z = true -> String.leb x z = true.
Proof.
  unfold String.leb.
  destruct (String.compare x y) eqn:Hxy; try discriminate;
    destruct (String.compare y z) eqn:Hyz; try discriminate; intros _ _.
  - apply String.compare_eq_iff in Hxy, Hyz. subst.
    now rewrite string_compare_refl.
  - apply String.compare_eq_iff in Hxy. subst. now rewrite Hyz.
  - apply String.compare_eq_iff in Hyz. subst. now rewrite Hxy.
  - now rewrite (string_compare_lt_trans _ _ _ Hxy Hyz).
Qed.

Lemma string_ltb_not_leb (x y : string) :
  String.ltb x y = true -> String.leb y x = false.
Proof.
  unfold String.ltb, String.leb. rewrite (String.compare_antisym x y).
  destruct (String.compare y x); simpl; congruence.
Qed.

(** A proper prefix is strictly smaller in the byte-wise order. *)
Lemma strict_prefix_ltb (p q : string) :
  strict_prefix p q = true -> String.ltb p q = true.
Proof.
  unfold strict_prefix, String.ltb. revert q.
  induction p as [|a p IH]; intros [|b q]; simpl; try discriminate;
    try reflexivity.
  destruct (ascii_dec a b) as [->|Hne]; [|discriminate].
  rewrite ascii_compare_refl. intros H. apply IH.
  destruct (Ascii.eqb_spec b b) as [_|Hbb]; [exact H|congruence].
Qed.

End StringOrderFacts.

#[local] Instance string_leb_Transitive :
RelationClasses.Transitive (fun x y => is_true (StringOrder.leb x y)).
Proof. intros x y z. apply string_leb_trans. Qed.

Lemma sort_Strings_sorted (l : list string) :
StronglySorted (fun x y => String.leb x y = true) (sort_Strings l).
Proof. exact (StringSort.StronglySorted_sort l string_leb_Transitive). Qed.

Lemma sort_Strings_perm (l : list string) : Permutation l (sort_Strings l).
Proof. exact (StringSort.Permuted_sort l). Qed.

(** In a sorted list, an element strictly smaller than another one occurs
  at a smaller index. *)
Lemma sorted_lt_index (l : list string) :
StronglySorted (fun x y => String.leb x y = true) l ->
forall i j p q,
  nth_error l i = Some p -> nth_error l j = Some q ->
  String.ltb p q = true -> i < j.
Proof.
induction 1 as [|a l Hs IH Hall]; intros i j p q Hi Hj Hlt.
- destruct i; discriminate.
- destruct i as [|i], j as [|j]; simpl in Hi, Hj.
  + injection Hi as <-. injection Hj as <-.
    unfold String.ltb in Hlt. now rewrite string_compare_refl in Hlt.
  + lia.
  + injection Hj as <-. apply nth_error_In in Hi.
    rewrite Forall_forall in Hall. specialize (Hall _ Hi).
    apply string_ltb_not_leb in Hlt. congruence.
  + specialize (IH i j p q Hi Hj Hlt). lia.
Qed.

(** A sorted permutation of a list is unique: whatever algorithm
  [sort.Strings] runs, its result is the list computed here. *)
Lemma sorted_perm_unique (l1 l2 : list string) :
StronglySorted (fun x y => String.leb x y = true) l1 ->
StronglySorted (fun x y => String.leb x y = true) l2 ->
Permutation l1 l2 -> l1 = l2.
Proof.
intros H1. revert l2. induction H1 as [|a l1 Hs1 IH Hall1]; intros l2 H2 HP.
- apply Permutation_nil in HP. now subst.
- destruct H2 as [|b l2 Hs2 Hall2].
  + apply Permutation_sym, Permutation_nil in HP. discriminate.
  + assert (a = b) as ->.
    { assert (Ha : In a (b :: l2)) by (eapply Permutation_in; [exact HP|now left]).
      assert (Hb : In b (a :: l1))
        by (eapply Permutation_in; [apply Permutation_sym; exact HP|now left]).
      rewrite Forall_forall in Hall1, Hall2.
      destruct Ha as [->|Ha]; [reflexivity|].
      destruct Hb as [->|Hb]; [reflexivity|].
      apply String.leb_antisym; auto. }
    f_equal. apply IH; [exact Hs2|]. eapply Permutation_cons_inv; exact HP.
Qed.

(** * Properties *)

(** ** The trace *)

Lemma since_app (w w' : world) (evs : list event) :
  trace w' = trace w ++ evs -> since w w' = evs.
Proof.
  unfold since. intros ->. rewrite skipn_app, skipn_all, Nat.sub_diag. reflexivity.
Qed.

Lemma count_app (p : event -> bool) (l1 l2 : list event) :
  count p (l1 ++ l2) = count p l1 + count p l2.
Proof. unfold count. now rewrite filter_app, length_app. Qed.

Lemma count_none (p : event -> bool) (l : list event) :
  forallb (fun ev => negb (p ev)) l = true -> count p l = 0.
Proof.
  unfold count. induction l as [|a l IH]; simpl; [reflexivity|].
  intros H. apply andb_prop in H as [Ha Hl].
  destruct (p a); [discriminate|]. auto.
Qed.

(** ** The transfer and the reverter *)

Lemma transferRootfs_world (e : env) (ctx : Context) (path rsyncArgs : string)
    (mt : MigrationType) (w : world) :
  snd (transferRootfs e ctx path rsyncArgs mt w)
  = set_trace (trace w ++ [EvTransfer path mt]) w.
Proof.
  unfold transferRootfs, bind, emit, fail, ret. simpl.
  destruct ctx; [reflexivity|]. destruct (env_transfer e path); reflexivity.
Qed.

Lemma transferRootfs_result (e : env) (ctx : Context) (path rsyncArgs : string)
    (mt : MigrationType) (w w0 : world) :
  fst (transferRootfs e ctx path rsyncArgs mt w)
  = fst (transferRootfs e ctx path rsyncArgs mt w0).
Proof.
  unfold transferRootfs, bind, emit, fail, ret. simpl.
  destruct ctx; [reflexivity|]. destruct (env_transfer e path); reflexivity.
Qed.

(** ** The instance handler, case by case *)

Section InstanceHandler.

Variables (e : env) (rsyncArgs : string) (ctx : Context).
Variables (server : InstanceServer) (config : cmdMigrateData).
Variables (path : string) (mt : MigrationType) (w : world).

Let name := inst_Name (InstanceArgs config).
Let run := migrateInstance_handler e rsyncArgs ctx server config path mt w.

Lemma instance_no_arch (err : error) :
  env_arch e = Err err -> run = (Err err, w).
Proof.
  unfold run, migrateInstance_handler. intros ->. reflexivity.
Qed.

Lemma instance_create_fails (arch : string) (err : error) :
  env_arch e = Ok arch ->
  env_create_instance e name = Some err ->
  fst run = Err err /\
  trace (snd run) = trace w ++ [EvCreateInstance (srv_project server) name].
Proof.
  unfold run, migrateInstance_handler, name. intros -> Hc.
  unfold with_reverter, server_CreateInstance, bind, emit, fail. simpl.
  rewrite Hc. simpl. split; reflexivity.
Qed.

Lemma instance_add_handler_fails (arch : string) (err : error) :
  env_arch e = Ok arch ->
  env_create_instance e name = None ->
  env_add_handler e = Some err ->
  fst run = Err err /\
  trace (snd run)
  = trace w ++ [EvCreateInstance (srv_project server) name; EvAddHandler;
                EvProgressDone ""; EvDeleteInstance (srv_project server) name].
Proof.
  unfold run, migrateInstance_handler, name. intros -> Hc Ha.
  unfold with_reverter, server_CreateInstance, op_AddHandler, bind, emit, fail, ret.
  simpl. rewrite Hc. simpl. rewrite Ha. simpl.
  split; [reflexivity|]. now rewrite <- !app_assoc.
Qed.

Lemma instance_transfer_fails (arch : string) (err : error) :
  env_arch e = Ok arch ->
  env_create_instance e name = None ->
  env_add_handler e = None ->
  (forall w0, fst (transferRootfs e ctx path rsyncArgs mt w0) = Err err) ->
  fst run = Err err /\
  trace (snd run)
  = trace w ++ [EvCreateInstance (srv_project server) name; EvAddHandler;
                EvTransfer path mt; EvDeleteInstance (srv_project server) name].
Proof.
  unfold run, migrateInstance_handler, name. intros -> Hc Ha Ht.
  unfold with_reverter, server_CreateInstance, op_AddHandler, bind, emit, fail, ret.
  simpl. rewrite Hc. simpl. rewrite Ha. simpl.
  match goal with
  | |- context [transferRootfs e ctx path rsyncArgs mt ?w2] =>
      pose proof (Ht w2) as Hr;
      pose proof (transferRootfs_world e ctx path rsyncArgs mt w2) as Hw;
      destruct (transferRootfs e ctx path rsyncArgs mt w2) as [r3 w3]
  end.
  simpl in Hr, Hw. subst r3 w3. simpl.
  split; [reflexivity|]. now rewrite <- !app_assoc.
Qed.

Lemma instance_succeeds (arch : string) :
  env_arch e = Ok arch ->
  env_create_instance e name = None ->
  env_add_handler e = None ->
  (forall w0, fst (transferRootfs e ctx path rsyncArgs mt w0) = Ok tt) ->
  fst run = Ok tt /\
  trace (snd run)
  = trace w ++ [EvCreateInstance (srv_project server) name; EvAddHandler;
                EvTransfer path mt;
                EvProgressDone ("Instance " ++ name ++ " successfully created")].
Proof.
  unfold run, migrateInstance_handler, name. intros -> Hc Ha Ht.
  unfold with_reverter, server_CreateInstance, op_AddHandler, bind, emit, fail, ret.
  simpl. rewrite Hc. simpl. rewrite Ha. simpl.
  match goal with
  | |- context [transferRootfs e ctx path rsyncArgs mt ?w2] =>
      pose proof (Ht w2) as Hr;
      pose proof (transferRootfs_world e ctx path rsyncArgs mt w2) as Hw;
      destruct (transferRootfs e ctx path rsyncArgs mt w2) as [r3 w3]
  end.
  simpl in Hr, Hw. subst r3 w3. simpl.
  split; [reflexivity|]. now rewrite <- !app_assoc.
Qed.

End InstanceHandler.

(** ** The custom volume handler, case by case *)

Section VolumeHandler.

Variables (e : env) (rsyncArgs : string) (ctx : Context).
Variables (server : InstanceServer) (config : cmdMigrateData).
Variables (path : string) (mt : MigrationType) (w : world).

Let pool := Pool config.
Let name := vol_Name (CustomVolumeArgs config).
Let run := migrateCustomVolume_handler e rsyncArgs ctx server config path mt w.

Lemma volume_create_fails (err : error) :
  env_create_volume e pool name = Some err ->
  fst run = Err err /\
  trace (snd run) = trace w ++ [EvCreateVolume (srv_project server) pool name].
Proof.
  unfold run, migrateCustomVolume_handler, pool, name. intros Hc.
  unfold with_reverter, server_CreateStoragePoolVolumeFromMigration, bind, emit, fail.
  simpl. rewrite Hc. simpl. split; reflexivity.
Qed.

Lemma volume_add_handler_fails (err : error) :
  env_create_volume e pool name = None ->
  env_add_handler e = Some err ->
  fst run = Err err /\
  trace (snd run)
  = trace w ++ [EvCreateVolume (srv_project server) pool name; EvAddHandler;
                EvProgressDone "";
                EvDeleteVolume (srv_project server) pool "custom" name].
Proof.
  unfold run, migrateCustomVolume_handler, pool, name. intros Hc Ha.
  unfold with_reverter, server_CreateStoragePoolVolumeFromMigration, op_AddHandler,
    bind, emit, fail, ret.
  simpl. rewrite Hc. simpl. rewrite Ha. simpl.
  split; [reflexivity|]. now rewrite <- !app_assoc.
Qed.

Lemma volume_transfer_fails (err : error) :
  env_create_volume e pool name = None ->
  env_add_handler e = None ->
  (forall w0, fst (transferRootfs e ctx path rsyncArgs mt w0) = Err err) ->
  fst run = Err err /\
  trace (snd run)
  = trace w ++ [EvCreateVolume (srv_project server) pool name; EvAddHandler;
                EvTransfer path mt;
                EvDeleteVolume (srv_project server) pool "custom" name].
Proof.
  unfold run, migrateCustomVolume_handler, pool, name. intros Hc Ha Ht.
  unfold with_reverter, server_CreateStoragePoolVolumeFromMigration, op_AddHandler,
    bind, emit, fail, ret.
  simpl. rewrite Hc. simpl. rewrite Ha. simpl.
  match goal with
  | |- context [transferRootfs e ctx path rsyncArgs mt ?w2] =>
      pose proof (Ht w2) as Hr;
      pose proof (transferRootfs_world e ctx path rsyncArgs mt w2) as Hw;
      destruct (transferRootfs e ctx path rsyncArgs mt w2) as [r3 w3]
  end.
  simpl in Hr, Hw. subst r3 w3. simpl.
  split; [reflexivity|]. now rewrite <- !app_assoc.
Qed.

End VolumeHandler.

(** ** Both handlers only talk to the remote server *)

Ltac handler_cases e ctx path :=
  unfold with_reverter, server_CreateInstance,
    server_CreateStoragePoolVolumeFromMigration, op_AddHandler, transferRootfs,
    progress_Done, revert_Fail, revert_Add, revert_Success, revert_New,
    server_DeleteInstance, server_DeleteStoragePoolVolume, ignore, bind, emit,
    fail, ret;
  simpl;
  repeat match goal with
         | |- context [match ?x with Some _ => _ | None => _ end] =>
             destruct x; simpl
         | |- context [if ?b then _ else _] => destruct b; simpl
         end.

Ltac remote_trace :=
  repeat split;
  first [ exists []; split; [now rewrite app_nil_r | reflexivity]
        | eexists; split; [rewrite <- ?app_assoc; reflexivity | reflexivity] ].

Lemma migrateInstance_handler_remote_only (e : env) (rsyncArgs : string)
    (ctx : Context) :
  remote_only (migrateInstance_handler e rsyncArgs ctx).
Proof.
  intros server config path mt w. unfold migrateInstance_handler.
  destruct (env_arch e) as [arch|err].
  - handler_cases e ctx path; remote_trace.
  - unfold fail. simpl. remote_trace.
Qed.

Lemma migrateCustomVolume_handler_remote_only (e : env) (rsyncArgs : string)
    (ctx : Context) :
  remote_only (migrateCustomVolume_handler e rsyncArgs ctx).
Proof.
  intros server config path mt w. unfold migrateCustomVolume_handler.
  handler_cases e ctx path; remote_trace.
Qed.

(** ** Rollback *)

(** C1. Rollback, for both handlers: when the creation call succeeds (and
    the progress handler is attached) and [transferRootfs] returns an error,
    the handler returns that error and the calls it made are the creation,
    the handler registration, the transfer and then the delete call, which
    is thus made exactly once, last, before the error reaches the caller;
    when the creation call fails, the handler returns its error and no
    delete call is made. *)
Theorem rollback_on_transfer_failure
    (e : env) (rsyncArgs : string) (ctx : Context) (server : InstanceServer)
    (config : cmdMigrateData) (path : string) (mt : MigrationType) (w : world) :
  let project := srv_project server in
  let iname := inst_Name (InstanceArgs config) in
  let vname := vol_Name (CustomVolumeArgs config) in
  let inst := migrateInstance_handler e rsyncArgs ctx server config path mt w in
  let vol := migrateCustomVolume_handler e rsyncArgs ctx server config path mt w in
  (forall arch err,
      env_arch e = Ok arch ->
      env_create_instance e iname = None ->
      env_add_handler e = None ->
      (forall w0, fst (transferRootfs e ctx path rsyncArgs mt w0) = Err err) ->
      fst inst = Err err /\
      since w (snd inst)
      = [EvCreateInstance project iname; EvAddHandler; EvTransfer path mt;
         EvDeleteInstance project iname] /\
      count is_delete (since w (snd inst)) = 1)
  /\
  (forall arch err,
      env_arch e = Ok arch ->
      env_create_instance e iname = Some err ->
      fst inst = Err err /\ count is_delete (since w (snd inst)) = 0)
  /\
  (forall err,
      env_create_volume e (Pool config) vname = None ->
      env_add_handler e = None ->
      (forall w0, fst (transferRootfs e ctx path rsyncArgs mt w0) = Err err) ->
      fst vol = Err err /\
      since w (snd vol)
      = [EvCreateVolume project (Pool config) vname; EvAddHandler;
         EvTransfer path mt;
         EvDeleteVolume project (Pool config) "custom" vname] /\
      count is_delete (since w (snd vol)) = 1)
  /\
  (forall err,
      env_create_volume e (Pool config) vname = Some err ->
      fst vol = Err err /\ count is_delete (since w (snd vol)) = 0).
Proof.
  cbv zeta. repeat split.
  - eapply instance_transfer_fails; eauto.
  - erewrite since_app; [reflexivity|]. eapply instance_transfer_fails; eauto.
  - erewrite since_app; [|eapply instance_transfer_fails; eauto]. reflexivity.
  - eapply instance_create_fails; eauto.
  - erewrite since_app; [|eapply instance_create_fails; eauto]. reflexivity.
  - eapply volume_transfer_fails; eauto.
  - erewrite since_app; [reflexivity|]. eapply volume_transfer_fails; eauto.
  - erewrite since_app; [|eapply volume_transfer_fails; eauto]. reflexivity.
  - eapply volume_create_fails; eauto.
  - erewrite since_app; [|eapply volume_create_fails; eauto]. reflexivity.
Qed.

(** ** Relations between the world before and after a computation

    A relation that is reflexive and transitive, and that every call of a
    computation respects, holds between the world the computation starts in
    and the world it leaves, whatever it returns. *)

Section Preserves.

Variable R : world -> world -> Prop.
Hypothesis R_refl : forall w, R w w.
Hypothesis R_trans : forall a b c, R a b -> R b c -> R a c.

Lemma preserves_ret {A : Type} (a : A) : preserves R (ret a).
Proof. intros w. apply R_refl. Qed.

Lemma preserves_fail {A : Type} (err : error) : preserves R (@fail A err).
Proof. intros w. apply R_refl. Qed.

Lemma preserves_bind {A B : Type} (c : M A) (k : A -> M B) :
  preserves R c -> (forall a, preserves R (k a)) -> preserves R (bind c k).
Proof.
  intros Hc Hk w. unfold bind. specialize (Hc w).
  destruct (c w) as [[a|err] w1]; simpl in *; [|exact Hc].
  eapply R_trans; [exact Hc|apply Hk].
Qed.

Lemma preserves_ignore {A : Type} (c : M A) : preserves R c -> preserves R (ignore c).
Proof. intros Hc w. apply Hc. Qed.

Lemma preserves_attempt {A : Type} (c : M A) : preserves R c -> preserves R (attempt c).
Proof. intros Hc w. apply Hc. Qed.

Lemma preserves_wrapErr {A : Type} (f : error -> error) (c : M A) :
  preserves R c -> preserves R (wrapErr f c).
Proof.
  intros Hc w. unfold wrapErr. specialize (Hc w).
  destruct (c w) as [[a|err] w1]; exact Hc.
Qed.

Lemma preserves_defer {A : Type} (d : M unit) (body : M A) :
  preserves R d -> preserves R body -> preserves R (defer d body).
Proof.
  intros Hd Hb w. unfold defer. simpl.
  eapply R_trans; [apply Hb|apply Hd].
Qed.

Lemma preserves_if {A : Type} (b : bool) (c1 c2 : M A) :
  preserves R c1 -> preserves R c2 -> preserves R (if b then c1 else c2).
Proof. destruct b; auto. Qed.

End Preserves.

(** Takes a computation apart along its syntax, down to its calls, which
    [prims] is to settle. *)
Ltac steps refl trans prims :=
  repeat lazymatch goal with
         | |- preserves _ (bind _ _) => apply preserves_bind; [exact trans| |intros ?]
         | |- preserves _ (defer _ _) => apply preserves_defer; [exact trans| |]
         | |- preserves _ (wrapErr _ _) => apply preserves_wrapErr
         | |- preserves _ (ignore _) => apply preserves_ignore
         | |- preserves _ (attempt _) => apply preserves_attempt
         | |- preserves _ (ret _) => apply preserves_ret; exact refl
         | |- preserves _ (fail _) => apply preserves_fail; exact refl
         | |- preserves _ (if _ then _ else _) => apply preserves_if
         | |- preserves _ _ => progress prims
         end.

Lemma adds_refl (good : event -> bool) (w : world) : adds good w w.
Proof. exists []. split; [now rewrite app_nil_r|reflexivity]. Qed.

Lemma adds_trans (good : event -> bool) (a b c : world) :
  adds good a b -> adds good b c -> adds good a c.
Proof.
  intros [l1 [H1 G1]] [l2 [H2 G2]]. exists (l1 ++ l2). split.
  - now rewrite H2, H1, app_assoc.
  - now rewrite forallb_app, G1, G2.
Qed.

Lemma adds_one (good : event -> bool) (w w' : world) (ev : event) :
  trace w' = trace w ++ [ev] -> good ev = true -> adds good w w'.
Proof. intros H G. exists [ev]. split; [exact H|simpl; now rewrite G]. Qed.

Lemma adds_weaken (good good' : event -> bool) (w w' : world) :
  (forall ev, good ev = true -> good' ev = true) ->
  adds good w w' -> adds good' w w'.
Proof.
  intros Himp [l [H G]]. exists l. split; [exact H|].
  rewrite forallb_forall in *. auto.
Qed.

Lemma adds_since (good : event -> bool) (w w' : world) :
  adds good w w' -> trace w' = trace w ++ since w w' /\ forallb good (since w w') = true.
Proof.
  intros [l [H G]]. rewrite (since_app _ _ _ H). auto.
Qed.

(** ** Each call to the outside adds one event to the trace *)

Ltac prim :=
  unfold runtime_LockOSThread, runtime_UnlockOSThread, unix_Unshare, unix_Mount,
    unix_Unmount, os_MkdirTemp, os_Mkdir, os_MkdirAll, os_WriteFile, os_Remove,
    os_OpenFile, file_Close, exec_LookPath, exec_Run, bind, emit, fail, ret;
  simpl;
  repeat match goal with
         | |- context [match ?x with _ => _ end] =>
             match type of x with
             | option _ => destruct x eqn:?
             | bool => destruct x eqn:?
             | nsstate => destruct x eqn:?
             end; simpl
         end.

Lemma Lock_trace (w : world) :
  trace (snd (runtime_LockOSThread w)) = trace w ++ [EvLockOSThread].
Proof. reflexivity. Qed.

Lemma Unlock_trace (w : world) :
  trace (snd (runtime_UnlockOSThread w)) = trace w ++ [EvUnlockOSThread].
Proof. reflexivity. Qed.

Lemma Unshare_trace (e : env) (flags : Z) (w : world) :
  trace (snd (unix_Unshare e flags w)) = trace w ++ [EvUnshare flags].
Proof. prim; reflexivity. Qed.

Lemma Mount_trace (e : env) (source target fstype : string) (flags : Z)
    (data : string) (w : world) :
  trace (snd (unix_Mount e source target fstype flags data w))
  = trace w ++ [EvMount source target fstype flags data].
Proof. prim; reflexivity. Qed.

Lemma Unmount_trace (target : string) (flags : Z) (w : world) :
  trace (snd (unix_Unmount target flags w)) = trace w ++ [EvUnmount target flags].
Proof. prim; reflexivity. Qed.

Lemma MkdirTemp_trace (e : env) (dir pattern : string) (w : world) :
  trace (snd (os_MkdirTemp e dir pattern w))
  = trace w ++ [EvMkdirTemp (tempPath e dir pattern)].
Proof.
  unfold os_MkdirTemp, bind, emit, fail. simpl.
  destruct (env_mkdirtemp e); [reflexivity|].
  match goal with |- context [if ?b then _ else _] => destruct b end; reflexivity.
Qed.

Lemma Mkdir_trace (e : env) (p : string) (w : world) :
  trace (snd (os_Mkdir e p w)) = trace w ++ [EvMkdir p].
Proof. prim; reflexivity. Qed.

Lemma MkdirAll_trace (e : env) (p : string) (w : world) :
  trace (snd (os_MkdirAll e p w)) = trace w ++ [EvMkdirAll p].
Proof. prim; reflexivity. Qed.

Lemma WriteFile_trace (e : env) (p : string) (w : world) :
  trace (snd (os_WriteFile e p w)) = trace w ++ [EvWriteFile p].
Proof.
  unfold os_WriteFile, bind, emit, fail. simpl.
  destruct (env_writefile e p); [reflexivity|].
  unfold mount_at. simpl.
  destruct (find _ (mounts w)) as [m|]; [destruct (mnt_ro m)|]; try reflexivity.
  unfold path_exists. simpl. destruct (existsb _ (fs w)); reflexivity.
Qed.

Lemma Remove_trace (p : string) (w : world) :
  trace (snd (os_Remove p w)) = trace w ++ [EvRemove p].
Proof. prim; reflexivity. Qed.

Lemma OpenFile_trace (e : env) (p : string) (flags : Z) (w : world) :
  trace (snd (os_OpenFile e p flags w)) = trace w ++ [EvOpenFile p flags].
Proof. prim; reflexivity. Qed.

Lemma LookPath_trace (e : env) (cmd : string) (w : world) :
  trace (snd (exec_LookPath e cmd w)) = trace w ++ [EvLookPath cmd].
Proof. prim; reflexivity. Qed.

Lemma Run_trace (e : env) (argv : list string) (w : world) :
  trace (snd (exec_Run e argv w)) = trace w ++ [EvRun argv].
Proof. prim; reflexivity. Qed.

(** ** After the sandbox: nothing leaves the process *)

Lemma private_tail_refl (w : world) : private_tail w w.
Proof. split; [apply adds_refl|auto]. Qed.

Lemma private_tail_trans (a b c : world) :
  private_tail a b -> private_tail b c -> private_tail a c.
Proof.
  intros [A1 N1] [A2 N2]. split; [eapply adds_trans; eauto|].
  intros Ha. destruct (N1 Ha) as [Hb Lb]. destruct (N2 Hb) as [Hc Lc].
  split; congruence.
Qed.

Ltac tail_prim lemma :=
  intros w; split;
  [ eapply adds_one; [apply lemma|reflexivity]
  | prim; auto; try congruence ].

Lemma Mount_private_tail (e : env) (source target fstype : string) (flags : Z)
    (data : string) :
  has_flag flags MS_PRIVATE = false ->
  preserves private_tail (unix_Mount e source target fstype flags data).
Proof.
  intros Hf w. split.
  - eapply adds_one; [apply Mount_trace|]. simpl. now rewrite Hf.
  - intros Hns. unfold unix_Mount, bind, emit, fail. simpl.
    destruct (env_mount e source target flags); [auto|]. simpl.
    destruct (has_flag flags MS_REMOUNT).
    { destruct (set_ro _ _ _); simpl; auto. }
    destruct (has_flag flags MS_BIND).
    { unfold path_exists. simpl. destruct (existsb _ (fs w)); simpl; [|auto].
      rewrite Hns. simpl. auto. }
    rewrite Hf. simpl. auto.
Qed.

Lemma Unmount_private_tail (target : string) (flags : Z) :
  preserves private_tail (unix_Unmount target flags).
Proof.
  intros w. split; [eapply adds_one; [apply Unmount_trace|reflexivity]|].
  intros Hns. unfold unix_Unmount, bind, emit. simpl. unfold mounted_at. simpl.
  destruct (existsb _ (mounts w)); [|auto].
  destruct (has_flag flags MNT_DETACH); [auto|].
  destruct (existsb _ (mounts w)); auto.
Qed.

Lemma MkdirTemp_private_tail (e : env) (dir pattern : string) :
  preserves private_tail (os_MkdirTemp e dir pattern).
Proof.
  intros w. split; [eapply adds_one; [apply MkdirTemp_trace|reflexivity]|].
  intros Hns. unfold os_MkdirTemp, bind, emit, fail. simpl.
  destruct (env_mkdirtemp e); [auto|].
  match goal with |- context [if ?b then _ else _] => destruct b end; auto.
Qed.

Lemma Mkdir_private_tail (e : env) (p : string) : preserves private_tail (os_Mkdir e p).
Proof. tail_prim Mkdir_trace. Qed.

Lemma MkdirAll_private_tail (e : env) (p : string) :
  preserves private_tail (os_MkdirAll e p).
Proof. tail_prim MkdirAll_trace. Qed.

Lemma WriteFile_private_tail (e : env) (p : string) :
  preserves private_tail (os_WriteFile e p).
Proof.
  intros w. split; [eapply adds_one; [apply WriteFile_trace|reflexivity]|].
  intros Hns. unfold os_WriteFile, bind, emit, fail. simpl.
  destruct (env_writefile e p); [auto|].
  unfold mount_at. simpl.
  destruct (find _ (mounts w)) as [m|]; [destruct (mnt_ro m); auto|].
  unfold path_exists. simpl. destruct (existsb _ (fs w)); auto.
Qed.

Lemma Remove_private_tail (p : string) : preserves private_tail (os_Remove p).
Proof. tail_prim Remove_trace. Qed.

Lemma OpenFile_private_tail (e : env) (p : string) (flags : Z) :
  preserves private_tail (os_OpenFile e p flags).
Proof. tail_prim OpenFile_trace. Qed.

Lemma Close_private_tail (p : string) : preserves private_tail (file_Close p).
Proof. intros w. split; [eapply adds_one; reflexivity|auto]. Qed.

Lemma LookPath_private_tail (e : env) (cmd : string) :
  preserves private_tail (exec_LookPath e cmd).
Proof. tail_prim LookPath_trace. Qed.

Lemma Run_private_tail (e : env) (argv : list string) :
  preserves private_tail (exec_Run e argv).
Proof. tail_prim Run_trace. Qed.

Lemma remote_not_sandbox (ev : event) :
  is_remote ev = true -> negb (is_sandbox ev) = true.
Proof. destruct ev; simpl; congruence. Qed.

Lemma handler_private_tail (h : Handler) (server : InstanceServer)
    (config : cmdMigrateData) (path : string) (mt : MigrationType) :
  remote_only h -> preserves private_tail (h server config path mt).
Proof.
  intros Hh w. destruct (Hh server config path mt w)
    as (_ & _ & Hns & Hl & _ & _ & evs & Ht & Hr).
  split.
  - exists evs. split; [exact Ht|]. rewrite forallb_forall in *.
    intros ev Hin. apply remote_not_sandbox. auto.
  - intros Hp. split; congruence.
Qed.

Ltac tail_prims :=
  idtac;
  lazymatch goal with
  | |- preserves _ (unix_Mount _ _ _ _ _ _) => apply Mount_private_tail; reflexivity
  | |- preserves _ (unix_Unmount _ _) => apply Unmount_private_tail
  | |- preserves _ (os_MkdirTemp _ _ _) => apply MkdirTemp_private_tail
  | |- preserves _ (os_Mkdir _ _) => apply Mkdir_private_tail
  | |- preserves _ (os_MkdirAll _ _) => apply MkdirAll_private_tail
  | |- preserves _ (os_WriteFile _ _) => apply WriteFile_private_tail
  | |- preserves _ (os_Remove _) => apply Remove_private_tail
  | |- preserves _ (os_OpenFile _ _ _) => apply OpenFile_private_tail
  | |- preserves _ (file_Close _) => apply Close_private_tail
  | |- preserves _ (exec_LookPath _ _) => apply LookPath_private_tail
  | |- preserves _ (exec_Run _ _) => apply Run_private_tail
  end.

Ltac tail_steps := steps private_tail_refl private_tail_trans tail_prims.

Lemma cleanup_private_tail (path : string) : preserves private_tail (cleanup path).
Proof. unfold cleanup. tail_steps. Qed.

Lemma setupSource_private_tail (e : env) (root : string) (plan : list string) :
  preserves private_tail (setupSource e root plan).
Proof.
  induction plan as [|source plan IH]; simpl; tail_steps. exact IH.
Qed.

Lemma normalizeDisk_private_tail (e : env) (path : string) (config : cmdMigrateData) :
  preserves private_tail (normalizeDisk e path config).
Proof.
  unfold normalizeDisk. destruct (env_detect e (SourcePath config)) as [ext convCmd].
  destruct (isConvertible ext); [|tail_steps].
  destruct convCmd as [|convCmd0 rest]; [tail_steps|].
  apply preserves_bind; [exact private_tail_trans| |].
  - tail_steps.
  - intros [u|err]; unfold directIOProbe; tail_steps.
Qed.

Lemma mountImage_private_tail (e : env) (path : string) (config : cmdMigrateData) :
  preserves private_tail (mountImage e path config).
Proof. unfold mountImage. tail_steps. Qed.

Lemma migrateFromTemporaryPath_private_tail (e : env) (server : InstanceServer)
    (config : cmdMigrateData) (mt : MigrationType) (h : Handler) :
  remote_only h ->
  preserves private_tail (migrateFromTemporaryPath e server config mt h).
Proof.
  intros Hh. unfold migrateFromTemporaryPath.
  apply preserves_bind; [exact private_tail_trans| |].
  - apply MkdirTemp_private_tail.
  - intros path. apply preserves_defer; [exact private_tail_trans| |].
    + apply cleanup_private_tail.
    + destruct (isFilesystemType mt).
      * tail_steps; [apply setupSource_private_tail|now apply handler_private_tail].
      * apply preserves_bind; [exact private_tail_trans| |].
        { apply normalizeDisk_private_tail. }
        intros config'. tail_steps; [apply mountImage_private_tail|].
        now apply handler_private_tail.
Qed.

(** ** The namespace sandbox *)

Lemma sandbox_cases (e : env) (w : world) :
  let run := sandbox e w in
  let remount := EvMount "" "/" "" (Z.lor MS_REC MS_PRIVATE) "" in
  fs (snd run) = fs w /\ mounts (snd run) = mounts w /\ leaked (snd run) = leaked w /\
  match env_unshare e with
  | Some err =>
      fst run = Err (Wrapf "Failed to unshare mount namespace: %w" [] err)
      /\ trace (snd run) = trace w ++ [EvUnshare CLONE_NEWNS]
  | None =>
      trace (snd run) = trace w ++ [EvUnshare CLONE_NEWNS; remount]
      /\ match env_mount e "" "/" (Z.lor MS_REC MS_PRIVATE) with
         | Some err =>
             fst run = Err (Wrapf "Failed to disable mount propagation: %w" [] err)
         | None => fst run = Ok tt /\ ns (snd run) = NsPrivate
         end
  end.
Proof.
  unfold sandbox, bind, wrapErr, unix_Unshare, unix_Mount, bind, emit, fail.
  set (pf := env_mount e "" "/" (Z.lor MS_REC MS_PRIVATE)).
  simpl. destruct (env_unshare e) as [err|]; simpl.
  - repeat split; reflexivity.
  - destruct pf as [err|]; simpl.
    + destruct (ns w) eqn:Hns; simpl; rewrite ?Hns; simpl;
        repeat split; rewrite <- ?app_assoc; reflexivity.
    + destruct (ns w) eqn:Hns; simpl; rewrite ?Hns; simpl;
        repeat split; rewrite <- ?app_assoc; first [reflexivity|assumption].
Qed.

(** The calls of [runMigration], from the first: the thread is locked, the
    namespace unshared, the root made private; nothing of the kind follows. *)
Lemma runMigration_shape (e : env) (server : InstanceServer)
    (config : cmdMigrateData) (mt : MigrationType) (h : Handler) (w : world) :
  remote_only h ->
  let run := runMigration e server config mt h w in
  let evs := since w (snd run) in
  exists rest,
    evs = EvLockOSThread :: EvUnshare CLONE_NEWNS :: rest
    /\ match env_unshare e with
       | Some err =>
           rest = [EvUnlockOSThread]
           /\ fst run = Err (Wrapf "Failed to unshare mount namespace: %w" [] err)
       | None =>
           exists rest',
             rest = EvMount "" "/" "" (Z.lor MS_REC MS_PRIVATE) "" :: rest'
             /\ forallb (fun ev => negb (is_sandbox ev)) rest' = true
             /\ match env_mount e "" "/" (Z.lor MS_REC MS_PRIVATE) with
                | Some err =>
                    rest' = [EvUnlockOSThread]
                    /\ fst run
                       = Err (Wrapf "Failed to disable mount propagation: %w" [] err)
                | None => leaked (snd run) = leaked w /\ ns (snd run) = NsPrivate
                end
       end.
Proof.
  intros Hh run evs. subst evs run. unfold runMigration.
  set (server' := if (Project config =? "")%string then server else _).
  set (config' := set_Mounts _ config).
  pose proof (migrateFromTemporaryPath_private_tail e server' config' mt h Hh) as Htail.
  set (tail := migrateFromTemporaryPath e server' config' mt h) in *.
  clearbody tail.
  unfold bind at 1. unfold defer. cbn [fst snd runtime_LockOSThread bind emit].
  set (w1 := set_locked true _).
  assert (Hw1 : trace w1 = trace w ++ [EvLockOSThread]) by reflexivity.
  assert (Lw1 : leaked w1 = leaked w) by reflexivity.
  clearbody w1.
  destruct (sandbox_cases e w1) as (_ & _ & Hl & Hs). cbv zeta in Hs.
  assert (Hb : (sandbox e ;; tail) w1
               = match sandbox e w1 with
                 | (Ok _, w') => tail w'
                 | (Err err, w') => (Err err, w')
                 end) by reflexivity.
  rewrite Hb. clear Hb.
  destruct (sandbox e w1) as [r2 w2]. cbn [fst snd] in Hl, Hs.
  destruct (env_unshare e) as [err|].
  - destruct Hs as [-> Ht]. simpl. eexists. split.
    + apply since_app. simpl. rewrite Ht, Hw1, <- !app_assoc. reflexivity.
    + split; reflexivity.
  - destruct Hs as [Ht Hs].
    destruct (env_mount e "" "/" (Z.lor MS_REC MS_PRIVATE)) as [err|].
    + subst r2. simpl. eexists. split.
      * apply since_app. simpl. rewrite Ht, Hw1, <- !app_assoc. reflexivity.
      * eexists. split; [reflexivity|]. split; [reflexivity|]. split; reflexivity.
    + destruct Hs as [-> Hns]. destruct (Htail w2) as [[l [Htl Hg]] Hp].
      destruct (Hp Hns) as [Hns' Hl']. simpl.
      eexists. split.
      * apply since_app. simpl. rewrite Htl, Ht, Hw1, <- !app_assoc. reflexivity.
      * eexists. split; [reflexivity|]. split.
        { rewrite forallb_app, Hg. reflexivity. }
        split; [congruence|exact Hns'].
Qed.

(** C7. In every run of [runMigration] (with a handler that only talks to
    the remote server) the calls start with the sandbox: the thread is
    locked, the mount namespace unshared, the root remounted private and
    recursive, each once; when the unshare fails the run ends there with
    the unshare error, when the remount fails it ends there with the
    propagation error; every call that makes a mount or a path comes after
    the three, and only when both succeeded; and then no mount made is seen
    outside the process. *)
Theorem sandbox_once_before_any_mount (e : env) (server : InstanceServer)
    (config : cmdMigrateData) (mt : MigrationType) (h : Handler) (w : world) :
  remote_only h ->
  let run := runMigration e server config mt h w in
  let evs := since w (snd run) in
  let remount := EvMount "" "/" "" (Z.lor MS_REC MS_PRIVATE) "" in
  (exists rest, evs = EvLockOSThread :: EvUnshare CLONE_NEWNS :: rest
                /\ forallb (fun ev => negb (is_sandbox ev)) (tl rest) = true
                /\ (env_unshare e = None -> hd EvUnlockOSThread rest = remount))
  /\ count is_sandbox evs = match env_unshare e with Some _ => 2 | None => 3 end
  /\ (forall err, env_unshare e = Some err ->
        fst run = Err (Wrapf "Failed to unshare mount namespace: %w" [] err)
        /\ evs = [EvLockOSThread; EvUnshare CLONE_NEWNS; EvUnlockOSThread])
  /\ (forall err, env_unshare e = None ->
        env_mount e "" "/" (Z.lor MS_REC MS_PRIVATE) = Some err ->
        fst run = Err (Wrapf "Failed to disable mount propagation: %w" [] err)
        /\ evs = [EvLockOSThread; EvUnshare CLONE_NEWNS; remount; EvUnlockOSThread])
  /\ (forall i ev, nth_error evs i = Some ev -> makes_mount_or_path ev = true ->
        3 <= i /\ env_unshare e = None
        /\ env_mount e "" "/" (Z.lor MS_REC MS_PRIVATE) = None)
  /\ (env_unshare e = None -> env_mount e "" "/" (Z.lor MS_REC MS_PRIVATE) = None ->
        leaked (snd run) = leaked w /\ ns (snd run) = NsPrivate).
Proof.
  intros Hh run evs remount.
  destruct (runMigration_shape e server config mt h w Hh) as [rest [Hevs Hrest]].
  fold run in Hevs, Hrest. fold evs in Hevs. clearbody run evs.
  destruct (env_unshare e) as [uerr|].
  - destruct Hrest as [-> Hr]. subst evs.
    split; [eexists; split; [reflexivity|split; [reflexivity|discriminate]]|].
    split; [reflexivity|].
    split; [intros err [= <-]; split; [exact Hr|reflexivity]|].
    split; [discriminate|].
    split; [|discriminate].
    intros [|[|[|i]]] ev Hn Hm; simpl in Hn; try discriminate;
      try (injection Hn as <-; discriminate); destruct i; discriminate.
  - destruct Hrest as [rest' [-> [Hg Hm]]]. fold remount in Hevs. subst evs.
    split; [eexists; split; [reflexivity|split; [exact Hg|reflexivity]]|].
    split.
    { change (count is_sandbox (EvLockOSThread :: EvUnshare CLONE_NEWNS :: remount :: rest'))
        with (3 + count is_sandbox rest').
      now rewrite (count_none is_sandbox rest' Hg). }
    split; [discriminate|].
    destruct (env_mount e "" "/" (Z.lor MS_REC MS_PRIVATE)) as [merr|].
    + destruct Hm as [-> Hr].
      split; [intros err _ [= <-]; split; [exact Hr|reflexivity]|].
      split; [|discriminate].
      intros [|[|[|[|i]]]] ev Hn Hmk; simpl in Hn; try discriminate;
        try (injection Hn as <-; discriminate); destruct i; discriminate.
    + split; [discriminate|].
      split; [|intros _ _; exact Hm].
      intros [|[|[|i]]] ev Hn Hmk; simpl in Hn;
        try (injection Hn as <-; discriminate).
      repeat split. lia.
Qed.

(** ** Calls that only add events of a given kind *)

Section AddsGood.

Variable good : event -> bool.

Lemma adds_preserved_by_call {A : Type} (c : M A) (ev : event) :
  (forall w, trace (snd (c w)) = trace w ++ [ev]) ->
  good ev = true -> preserves (adds good) c.
Proof. intros Ht Hg w. eapply adds_one; eauto. Qed.

Lemma adds_handler (h : Handler) (server : InstanceServer) (config : cmdMigrateData)
    (path : string) (mt : MigrationType) :
  remote_only h ->
  (forall ev, is_remote ev = true -> good ev = true) ->
  preserves (adds good) (h server config path mt).
Proof.
  intros Hh Hg w.
  destruct (Hh server config path mt w) as (_ & _ & _ & _ & _ & _ & evs & Ht & Hr).
  exists evs. split; [exact Ht|]. rewrite forallb_forall in *. auto.
Qed.

End AddsGood.

Ltac adds_prims :=
  idtac;
  lazymatch goal with
  | |- preserves _ runtime_LockOSThread =>
      eapply adds_preserved_by_call; [apply Lock_trace|reflexivity]
  | |- preserves _ runtime_UnlockOSThread =>
      eapply adds_preserved_by_call; [apply Unlock_trace|reflexivity]
  | |- preserves _ (unix_Unshare _ _) =>
      eapply adds_preserved_by_call; [apply Unshare_trace|reflexivity]
  | |- preserves _ (unix_Mount _ _ _ _ _ _) =>
      eapply adds_preserved_by_call; [apply Mount_trace|reflexivity]
  | |- preserves _ (unix_Unmount _ _) =>
      eapply adds_preserved_by_call; [apply Unmount_trace|reflexivity]
  | |- preserves _ (os_MkdirTemp _ _ _) =>
      eapply adds_preserved_by_call; [apply MkdirTemp_trace|reflexivity]
  | |- preserves _ (os_Mkdir _ _) =>
      eapply adds_preserved_by_call; [apply Mkdir_trace|reflexivity]
  | |- preserves _ (os_MkdirAll _ _) =>
      eapply adds_preserved_by_call; [apply MkdirAll_trace|reflexivity]
  | |- preserves _ (os_WriteFile _ _) =>
      eapply adds_preserved_by_call; [apply WriteFile_trace|reflexivity]
  | |- preserves _ (os_Remove _) =>
      eapply adds_preserved_by_call; [apply Remove_trace|reflexivity]
  | |- preserves _ (os_OpenFile _ _ _) =>
      eapply adds_preserved_by_call; [apply OpenFile_trace|reflexivity]
  | |- preserves _ (file_Close _) =>
      eapply adds_preserved_by_call; [reflexivity|reflexivity]
  | |- preserves _ (exec_LookPath _ _) =>
      eapply adds_preserved_by_call; [apply LookPath_trace|reflexivity]
  | |- preserves _ (exec_Run _ _) =>
      eapply adds_preserved_by_call; [apply Run_trace|reflexivity]
  end.

Ltac adds_steps good := steps (adds_refl good) (adds_trans good) adds_prims.

(** ** The mount plan *)

Lemma bind_sources_app (l1 l2 : list event) :
  bind_sources (l1 ++ l2) = bind_sources l1 ++ bind_sources l2.
Proof.
  induction l1 as [|ev l1 IH]; simpl; [reflexivity|].
  destruct ev; simpl; auto.
  destruct (has_flag flags MS_BIND && negb (has_flag flags MS_REMOUNT)); simpl;
    now rewrite IH.
Qed.

Lemma bind_sources_none (l : list event) :
  forallb not_bind l = true -> bind_sources l = [].
Proof.
  induction l as [|ev l IH]; simpl; [reflexivity|].
  intros H. apply andb_prop in H as [Hev Hl].
  destruct ev; simpl in *; auto.
  unfold not_bind in Hev. simpl in Hev.
  destruct (has_flag flags MS_BIND && negb (has_flag flags MS_REMOUNT)); [discriminate|auto].
Qed.

Lemma since_trans (a b c : world) (l1 l2 : list event) :
  trace b = trace a ++ l1 -> trace c = trace b ++ l2 ->
  since a c = since a b ++ since b c.
Proof.
  intros H1 H2. rewrite (since_app _ _ _ H1), (since_app _ _ _ H2).
  apply since_app. now rewrite H2, H1, app_assoc.
Qed.

Lemma bind_ok {A B : Type} (c : M A) (k : A -> M B) (w w1 : world) (a : A) :
  c w = (Ok a, w1) -> bind c k w = k a w1.
Proof. unfold bind. now intros ->. Qed.

Lemma bind_err {A B : Type} (c : M A) (k : A -> M B) (w w1 : world) (err : error) :
  c w = (Err err, w1) -> bind c k w = (Err err, w1).
Proof. unfold bind. now intros ->. Qed.

Lemma wrapErr_ok {A : Type} (f : error -> error) (c : M A) (w w1 : world) (a : A) :
  c w = (Ok a, w1) -> wrapErr f c w = (Ok a, w1).
Proof. unfold wrapErr. now intros ->. Qed.

Lemma wrapErr_err {A : Type} (f : error -> error) (c : M A) (w w1 : world)
    (err : error) :
  c w = (Err err, w1) -> wrapErr f c w = (Err (f err), w1).
Proof. unfold wrapErr. now intros ->. Qed.

(** One step of [setupSource]: the directory, then the bind mount. *)
Lemma mount_step_trace (e : env) (source target : string) (w : world) :
  let step := (os_MkdirAll e target ;; unix_Mount e source target "none" MS_BIND "") w in
  exists k,
    bind_sources (since w (snd step)) = firstn k [source]
    /\ trace (snd step) = trace w ++ since w (snd step)
    /\ (is_ok (fst step) = true -> k = 1) /\ k <= 1.
Proof.
  cbv zeta. pose proof (MkdirAll_trace e target w) as H1.
  destruct (os_MkdirAll e target w) as [[u|err] w1] eqn:E.
  - rewrite (bind_ok _ _ _ _ _ E).
    pose proof (Mount_trace e source target "none" MS_BIND "" w1) as H2.
    simpl in H1. rewrite H1, <- app_assoc in H2.
    exists 1. rewrite (since_app _ _ _ H2). repeat split; [exact H2|lia].
  - rewrite (bind_err _ _ _ _ _ E). simpl in H1 |- *.
    exists 0. rewrite (since_app _ _ _ H1). repeat split; [exact H1|discriminate|lia].
Qed.

(** [setupSource] mounts the sources of the plan in the order of the plan,
    up to the first failure. *)
Lemma setupSource_in_order (e : env) (root : string) (plan : list string) (w : world) :
  let run := setupSource e root plan w in
  exists k,
    bind_sources (since w (snd run)) = firstn k plan
    /\ trace (snd run) = trace w ++ since w (snd run)
    /\ (is_ok (fst run) = true -> k = List.length plan).
Proof.
  cbv zeta. revert w. induction plan as [|source plan IH]; intros w.
  - exists 0. simpl. unfold since. rewrite skipn_all. simpl.
    rewrite app_nil_r. repeat split.
  - simpl.
    destruct (mount_step_trace e source (mountPoint root source) w)
      as (k1 & Hb1 & Ht1 & Hk1 & Hle). cbv zeta in Hb1, Ht1, Hk1.
    destruct ((os_MkdirAll e (mountPoint root source) ;;
               unix_Mount e source (mountPoint root source) "none" MS_BIND "") w)
      as [[u|err] w1] eqn:E; cbn [fst snd] in *.
    + rewrite (bind_ok _ _ _ _ _ (wrapErr_ok _ _ _ _ _ E)).
      rewrite (Hk1 eq_refl) in Hb1.
      destruct (IH w1) as (k & Hb & Ht & Hk).
      exists (S k).
      rewrite (since_trans w w1 _ _ _ Ht1 Ht), bind_sources_app, Hb1, Hb.
      split; [reflexivity|]. split.
      * now rewrite Ht, Ht1, app_assoc.
      * intros Hok. now rewrite (Hk Hok).
    + rewrite (bind_err _ _ _ _ _ (wrapErr_err _ _ _ _ _ E)). cbn [fst snd].
      exists k1. split; [|split; [exact Ht1|discriminate]].
      rewrite Hb1. destruct k1 as [|[|k1]]; [reflexivity|reflexivity|lia].
Qed.

Section MountsPlan.

Variable plan : list string.

Lemma adds_not_bind_sources (w w' : world) :
  adds not_bind w w' ->
  bind_sources (since w w') = [] /\ trace w' = trace w ++ since w w'.
Proof.
  intros H. destruct (adds_since _ _ _ H) as [Ht Hg].
  split; [now apply bind_sources_none|exact Ht].
Qed.

Lemma mounts_plan_setupSource (e : env) (root : string) :
  mounts_plan plan (setupSource e root plan).
Proof. intros w. apply setupSource_in_order. Qed.

Lemma mounts_plan_after {A B : Type} (c : M A) (k : A -> M B) :
  preserves (adds not_bind) c -> (forall a, mounts_plan plan (k a)) ->
  mounts_plan plan (bind c k).
Proof.
  intros Hc Hk w. specialize (Hc w).
  destruct (adds_not_bind_sources _ _ Hc) as [Hb Ht].
  destruct (c w) as [[a|err] w1] eqn:E; cbn [snd] in *.
  - rewrite (bind_ok _ _ _ _ _ E).
    destruct (Hk a w1) as (n & Hn & Htn & Hok). exists n.
    rewrite (since_trans w w1 _ _ _ Ht Htn), bind_sources_app, Hb, Hn.
    split; [reflexivity|]. split; [now rewrite Htn, Ht, app_assoc|exact Hok].
  - rewrite (bind_err _ _ _ _ _ E). cbn [fst snd]. exists 0.
    rewrite Hb. split; [reflexivity|]. split; [exact Ht|discriminate].
Qed.

Lemma mounts_plan_then {A B : Type} (c : M A) (k : A -> M B) :
  mounts_plan plan c -> (forall a, preserves (adds not_bind) (k a)) ->
  mounts_plan plan (bind c k).
Proof.
  intros Hc Hk w. destruct (Hc w) as (n & Hn & Htn & Hok). exists n.
  destruct (c w) as [[a|err] w1] eqn:E; cbn [fst snd] in *.
  - rewrite (bind_ok _ _ _ _ _ E).
    destruct (adds_not_bind_sources _ _ (Hk a w1)) as [Hb Ht].
    rewrite (since_trans w w1 _ _ _ Htn Ht), bind_sources_app, Hb, Hn, app_nil_r.
    split; [reflexivity|]. split; [now rewrite Ht, Htn, app_assoc|].
    intros _. now apply Hok.
  - rewrite (bind_err _ _ _ _ _ E). cbn [fst snd].
    split; [exact Hn|]. split; [exact Htn|discriminate].
Qed.

Lemma mounts_plan_wrapErr {A : Type} (f : error -> error) (c : M A) :
  mounts_plan plan c -> mounts_plan plan (wrapErr f c).
Proof.
  intros Hc w. destruct (Hc w) as (n & Hn & Htn & Hok). exists n.
  unfold wrapErr. destruct (c w) as [[a|err] w1]; cbn [fst snd] in *.
  - auto.
  - split; [exact Hn|]. split; [exact Htn|discriminate].
Qed.

Lemma mounts_plan_defer {A : Type} (d : M unit) (c : M A) :
  preserves (adds not_bind) d -> mounts_plan plan c -> mounts_plan plan (defer d c).
Proof.
  intros Hd Hc w. destruct (Hc w) as (n & Hn & Htn & Hok). exists n.
  unfold defer. cbn [fst snd].
  destruct (adds_not_bind_sources _ _ (Hd (snd (c w)))) as [Hb Ht].
  rewrite (since_trans w (snd (c w)) _ _ _ Htn Ht), bind_sources_app, Hb, Hn, app_nil_r.
  split; [reflexivity|]. split; [now rewrite Ht, Htn, app_assoc|exact Hok].
Qed.

End MountsPlan.

Lemma remote_not_bind (ev : event) : is_remote ev = true -> not_bind ev = true.
Proof. destruct ev; simpl; intros H; try discriminate; reflexivity. Qed.

(** The mounts made by a run of [runMigration] for a container or a
    filesystem volume are those of the sorted plan, in its order. *)
Lemma runMigration_mounts_plan (e : env) (server : InstanceServer)
    (config : cmdMigrateData) (mt : MigrationType) (h : Handler) :
  isFilesystemType mt = true -> remote_only h ->
  mounts_plan (mountPlan config) (runMigration e server config mt h).
Proof.
  intros Hfs Hh. unfold runMigration, migrateFromTemporaryPath. rewrite Hfs.
  apply mounts_plan_after; [adds_steps not_bind|intros _].
  apply mounts_plan_defer; [adds_steps not_bind|].
  apply mounts_plan_after; [unfold sandbox; adds_steps not_bind|intros _].
  apply mounts_plan_after; [adds_steps not_bind|intros path].
  apply mounts_plan_defer; [unfold cleanup; adds_steps not_bind|].
  apply mounts_plan_after; [adds_steps not_bind|intros _].
  apply mounts_plan_then.
  - apply mounts_plan_wrapErr. apply mounts_plan_setupSource.
  - intros _. apply adds_handler; [exact Hh|exact remote_not_bind].
Qed.

Lemma nth_error_firstn_some {A : Type} (k i : nat) (l : list A) (x : A) :
  nth_error (firstn k l) i = Some x -> nth_error l i = Some x.
Proof.
  revert i l. induction k as [|k IH]; intros i l; [destruct i; discriminate|].
  destruct l as [|a l]; [destruct i; discriminate|].
  destruct i as [|i]; simpl; [auto|apply IH].
Qed.

(** C3. The plan handed to [setupSource] is the additional mounts and the
    source path, sorted as strings; it is a permutation of them and it is
    sorted; for the source [/src/root] and the mounts [/data/a], [/data/b]
    it is [/data/a], [/data/b], [/src/root]; a path that is a proper prefix
    of another one comes before it in the plan; [setupSource] mounts the
    sources in the order of the plan, and so does every run of
    [runMigration] for a container or a filesystem volume: its bind mounts
    are a prefix of the plan, and the whole plan when it succeeds, so that
    among them a mount of a proper prefix path is made before the mount of
    the longer path. *)
Theorem mount_plan_sorted_and_applied_in_order (config : cmdMigrateData) :
  let plan := mountPlan config in
  Permutation (Mounts config ++ [SourcePath config]) plan
  /\ StronglySorted (fun x y => String.leb x y = true) plan
  /\ mountPlan (set_Mounts ["/data/a"; "/data/b"] (set_SourcePath "/src/root" config))
     = ["/data/a"; "/data/b"; "/src/root"]
  /\ (forall i j p q,
        nth_error plan i = Some p -> nth_error plan j = Some q ->
        strict_prefix p q = true -> i < j)
  /\ (forall e root w,
        let run := setupSource e root plan w in
        exists k, bind_sources (since w (snd run)) = firstn k plan
                  /\ (is_ok (fst run) = true -> k = List.length plan))
  /\ (forall e server mt h w,
        isFilesystemType mt = true -> remote_only h ->
        let run := runMigration e server config mt h w in
        (exists k, bind_sources (since w (snd run)) = firstn k plan
                   /\ (is_ok (fst run) = true -> k = List.length plan))
        /\ (forall i j p q,
              nth_error (bind_sources (since w (snd run))) i = Some p ->
              nth_error (bind_sources (since w (snd run))) j = Some q ->
              strict_prefix p q = true -> i < j)).
Proof.
  cbv zeta. split; [apply sort_Strings_perm|].
  split; [apply sort_Strings_sorted|].
  split; [reflexivity|].
  split.
  { intros i j p q Hi Hj Hp.
    eapply sorted_lt_index; eauto using sort_Strings_sorted, strict_prefix_ltb. }
  split.
  - intros e root w. destruct (setupSource_in_order e root (mountPlan config) w)
      as (k & Hb & _ & Hk). eauto.
  - intros e server mt h w Hfs Hh.
    destruct (runMigration_mounts_plan e server config mt h Hfs Hh w)
      as (k & Hb & _ & Hk).
    split; [eauto|]. intros i j p q Hi Hj Hp. rewrite Hb in Hi, Hj.
    apply nth_error_firstn_some in Hi, Hj.
    eapply sorted_lt_index; eauto using sort_Strings_sorted, strict_prefix_ltb.
Qed.

(** ** The disk normalizer *)

Lemma open_succeeds_fs (e : env) (w w' : world) (p : string) (flags : Z) :
  fs w' = fs w -> open_succeeds e w' p flags = open_succeeds e w p flags.
Proof. unfold open_succeeds, path_exists. now intros ->. Qed.

Lemma OpenFile_eq (e : env) (p : string) (flags : Z) (w : world) :
  fs (snd (os_OpenFile e p flags w)) = fs w
  /\ is_ok (fst (os_OpenFile e p flags w)) = open_succeeds e w p flags.
Proof.
  unfold os_OpenFile, bind, emit. cbn -[open_succeeds].
  pose proof (open_succeeds_fs e w (set_trace (trace w ++ [EvOpenFile p flags]) w)
                p flags eq_refl) as H.
  rewrite H. destruct (open_succeeds e w p flags); split; reflexivity.
Qed.

Lemma directIOProbe_spec (e : env) (p : string) (w : world) :
  let ok := open_succeeds e w p probe_flags in
  fst (directIOProbe e p w) = Ok ok
  /\ trace (snd (directIOProbe e p w)) = trace w ++ probe_events p ok
  /\ fs (snd (directIOProbe e p w)) = fs w
  /\ mounts (snd (directIOProbe e p w)) = mounts w.
Proof.
  cbv zeta. unfold directIOProbe, bind, attempt, os_OpenFile, bind, emit.
  cbv beta iota. cbn [fst snd].
  repeat match goal with
         | |- context [open_succeeds e ?w' p probe_flags] =>
             lazymatch w' with
             | w => fail
             | _ => change (open_succeeds e w' p probe_flags)
                      with (open_succeeds e w p probe_flags)
             end
         end.
  destruct (open_succeeds e w p probe_flags); cbn; rewrite <- ?app_assoc; repeat split.
Qed.

Lemma converterArgs_last (convCmd : list string) (a b : bool) (source destImg : string) :
  last (converterArgs convCmd a b source destImg) "" = destImg.
Proof.
  unfold converterArgs. rewrite !app_assoc.
  match goal with |- last (?l ++ _) _ = _ => generalize l end.
  intros l. induction l as [|x l IH]; [reflexivity|].
  simpl. destruct (l ++ [source; destImg]) eqn:E; [|exact IH].
  destruct l; discriminate.
Qed.

Lemma path_exists_head (w : world) (p : string) :
  path_exists (set_fs (p :: fs w) w) p = true.
Proof. unfold path_exists. simpl. now rewrite String.eqb_refl. Qed.

Section Normalize.

Variables (e : env) (path : string) (config : cmdMigrateData) (w : world).

Let src := SourcePath config.
Let dest := filepath_Join path "converted-raw-image.img".
Let run := normalizeDisk e path config w.

Lemma normalizeDisk_passes :
  isConvertible (fst (env_detect e src)) = false -> run = (Ok config, w).
Proof.
  unfold run, normalizeDisk, src. destruct (env_detect e (SourcePath config)) as [ext cmd].
  simpl. now intros ->.
Qed.

Lemma normalizeDisk_not_found (c0 : string) (rest : list string) (err : error) :
  isConvertible (fst (env_detect e src)) = true ->
  snd (env_detect e src) = c0 :: rest ->
  env_lookpath e c0 = Some err ->
  fst run = Err (Errorf "Unable to find required command %q" [c0])
  /\ trace (snd run) = trace w ++ [EvLookPath c0]
  /\ fs (snd run) = fs w.
Proof.
  unfold run, normalizeDisk, src. destruct (env_detect e (SourcePath config)) as [ext cmd].
  simpl. intros -> -> Hl. unfold bind, attempt, exec_LookPath, bind, emit, fail. simpl.
  rewrite Hl. simpl. repeat split.
Qed.

Lemma normalizeDisk_converts (c0 : string) (rest : list string) :
  isConvertible (fst (env_detect e src)) = true ->
  snd (env_detect e src) = c0 :: rest ->
  env_lookpath e c0 = None ->
  let fromDirect := open_succeeds e w src probe_flags in
  let toDirect := open_succeeds e w dest probe_flags in
  let argv := converterArgs (c0 :: rest) fromDirect toDirect src dest in
  trace (snd run)
  = trace w ++ EvLookPath c0 :: probe_events src fromDirect
                ++ probe_events dest toDirect ++ [EvRun argv]
  /\ match env_run e argv with
     | Some err =>
         fst run = Err (Wrapf "Failed to convert image %q for importing: %w" [src] err)
         /\ fs (snd run) = fs w
     | None =>
         fst run = Ok (set_SourcePath dest config)
         /\ path_exists (snd run) dest = true
     end
  /\ mounts (snd run) = mounts w.
Proof.
  intros Hc Hcmd Hl fromDirect toDirect argv.
  unfold run, normalizeDisk. fold src. 
  destruct (env_detect e src) as [ext cmd]. simpl in Hc, Hcmd. subst cmd. rewrite Hc.
  assert (E1 : attempt (exec_LookPath e c0) w
               = (Ok (Ok tt), set_trace (trace w ++ [EvLookPath c0]) w)).
  { unfold attempt, exec_LookPath, bind, emit, ret. simpl. now rewrite Hl. }
  rewrite (bind_ok _ _ _ _ _ E1). fold dest.
  set (w1 := set_trace (trace w ++ [EvLookPath c0]) w).
  assert (F1 : fs w1 = fs w) by reflexivity.
  assert (M1 : mounts w1 = mounts w) by reflexivity.
  destruct (directIOProbe_spec e src w1) as (R2 & T2 & F2 & M2). cbv zeta in R2, T2.
  rewrite (open_succeeds_fs e w w1 src probe_flags eq_refl) in R2, T2. fold fromDirect in R2, T2.
  destruct (directIOProbe e src w1) as [r2 w2] eqn:E2. cbn [fst snd] in R2, T2, F2, M2. subst r2.
  rewrite (bind_ok _ _ _ _ _ E2).
  destruct (directIOProbe_spec e dest w2) as (R3 & T3 & F3 & M3). cbv zeta in R3, T3.
  rewrite (open_succeeds_fs e w w2 dest probe_flags F2) in R3, T3. fold toDirect in R3, T3.
  destruct (directIOProbe e dest w2) as [r3 w3] eqn:E3. cbn [fst snd] in R3, T3, F3, M3. subst r3.
  rewrite (bind_ok _ _ _ _ _ E3). fold argv.
  assert (T : trace w3 ++ [EvRun argv]
              = trace w ++ EvLookPath c0 :: probe_events src fromDirect
                ++ probe_events dest toDirect ++ [EvRun argv]).
  { rewrite T3, T2. unfold w1. simpl. rewrite <- !app_assoc. reflexivity. }
  unfold bind, wrapErr, exec_Run, bind, emit, fail, ret. cbn [fst snd].
  destruct (env_run e argv) as [err|]; cbn [fst snd].
  - cbn [trace fs mounts set_trace]. rewrite T. repeat split; congruence.
  - pose proof (converterArgs_last (c0 :: rest) fromDirect toDirect src dest) as Hlast.
    fold argv in Hlast. rewrite Hlast.
    destruct (path_exists _ dest) eqn:Ex; cbn [fst snd].
    + cbn [trace fs mounts set_trace]. rewrite T. repeat split; [exact Ex|congruence].
    + cbn [trace fs mounts set_trace set_fs]. rewrite T. repeat split; [|congruence].
      unfold path_exists, set_fs. cbn [fs existsb]. now rewrite String.eqb_refl.
Qed.
End Normalize.

(** C5, as amended. The disk normalizer decides on the detected extension
    alone.  When it is neither [.qcow2] nor [.vmdk], as for every source
    reported raw, the run returns the configuration as it was and makes no
    call at all.  When it is one of the two and the converter command is
    found, the converter is run exactly once, with the file
    [converted-raw-image.img] of the temporary path as its last argument,
    and when it exits with zero that file exists and is the new source
    path; when it fails the run fails.  When the command is not found the
    run fails and the converter is not run. *)
Theorem normalizer_by_detected_extension (e : env) (path : string)
    (config : cmdMigrateData) (w : world) :
  let run := normalizeDisk e path config w in
  let src := SourcePath config in
  let dest := filepath_Join path "converted-raw-image.img" in
  let ext := fst (env_detect e src) in
  (isConvertible ext = false -> run = (Ok config, w))
  /\ (detectSourceFormat e src = "raw" -> run = (Ok config, w))
  /\ (forall c0 rest,
        isConvertible ext = true -> snd (env_detect e src) = c0 :: rest ->
        env_lookpath e c0 = None ->
        count is_run (since w (snd run)) = 1
        /\ (exists argv, last (since w (snd run)) EvAddHandler = EvRun argv
                         /\ last argv "" = dest
                         /\ (env_run e argv = None ->
                               fst run = Ok (set_SourcePath dest config)
                               /\ path_exists (snd run) dest = true)
                         /\ (env_run e argv <> None -> is_ok (fst run) = false)))
  /\ (forall c0 rest err,
        isConvertible ext = true -> snd (env_detect e src) = c0 :: rest ->
        env_lookpath e c0 = Some err ->
        fst run = Err (Errorf "Unable to find required command %q" [c0])
        /\ count is_run (since w (snd run)) = 0).
Proof.
  cbv zeta. split; [apply normalizeDisk_passes|]. split.
  { intros Hraw. apply normalizeDisk_passes. unfold detectSourceFormat in Hraw.
    unfold isConvertible.
    destruct (env_blockdev e (SourcePath config)); [discriminate|].
    destruct (String.eqb (fst (env_detect e (SourcePath config))) ".qcow2");
      [discriminate|].
    destruct (String.eqb (fst (env_detect e (SourcePath config))) ".vmdk");
      [discriminate|reflexivity]. }
  split.
  - intros c0 rest Hc Hcmd Hl.
    destruct (normalizeDisk_converts e path config w c0 rest Hc Hcmd Hl)
      as (Ht & Hr & _). cbv zeta in Ht, Hr.
    rewrite (since_app _ _ _ Ht). split.
    + unfold probe_events.
      destruct (open_succeeds e w (SourcePath config) probe_flags);
        destruct (open_succeeds e w _ probe_flags); reflexivity.
    + exists (converterArgs (c0 :: rest)
                (open_succeeds e w (SourcePath config) probe_flags)
                (open_succeeds e w (filepath_Join path "converted-raw-image.img")
                   probe_flags)
                (SourcePath config) (filepath_Join path "converted-raw-image.img")).
      split; [|split; [apply converterArgs_last|]].
      * rewrite app_comm_cons, !app_assoc. apply last_last.
      * destruct (env_run e _) as [err|].
        { split; [discriminate|]. intros _. destruct Hr as [-> _]. reflexivity. }
        { split; [intros _; exact Hr|congruence]. }
  - intros c0 rest err Hc Hcmd Hl.
    destruct (normalizeDisk_not_found e path config w c0 rest err Hc Hcmd Hl)
      as (Hr & Ht & _).
    split; [exact Hr|]. now rewrite (since_app _ _ _ Ht).
Qed.

Lemma normalizeDisk_panics (e : env) (path : string) (config : cmdMigrateData)
    (w : world) :
  isConvertible (fst (env_detect e (SourcePath config))) = true ->
  snd (env_detect e (SourcePath config)) = [] ->
  snd (normalizeDisk e path config w) = w.
Proof.
  unfold normalizeDisk. destruct (env_detect e (SourcePath config)) as [ext cmd].
  simpl. now intros -> ->.
Qed.

Lemma since_same (w : world) : since w w = [].
Proof. unfold since. apply skipn_all. Qed.

(** C8. For a qcow2 or vmdk source, every subprocess the run starts has as
    its arguments, in order: [nice -n19], the converter command, [-p],
    [-t writeback], [-T none] exactly when the open of the source with
    O_DIRECT succeeded, [-t none] exactly when that of the destination
    succeeded, the source path and the destination path; when it fails the
    run fails with the conversion error that names the source path.  When
    the converter command is found the calls of the run are the look-up,
    the probe of the source, the probe of the destination and this one
    subprocess: a probe that fails takes its flag away and nothing else. *)
Theorem converter_invocation (e : env) (path : string) (config : cmdMigrateData)
    (w : world) :
  let run := normalizeDisk e path config w in
  let src := SourcePath config in
  let dest := filepath_Join path "converted-raw-image.img" in
  let fromDirect := is_ok (fst (os_OpenFile e src (Z.lor O_DIRECT O_RDONLY) w)) in
  let toDirect := is_ok (fst (os_OpenFile e dest (Z.lor O_DIRECT O_RDONLY) w)) in
  let argv :=
    ["nice"; "-n19"] ++ snd (env_detect e src) ++ ["-p"; "-t"; "writeback"]
    ++ (if fromDirect then ["-T"; "none"] else [])
    ++ (if toDirect then ["-t"; "none"] else [])
    ++ [src; dest] in
  isConvertible (fst (env_detect e src)) = true ->
  (forall argv', In (EvRun argv') (since w (snd run)) ->
     argv' = argv
     /\ count is_run (since w (snd run)) = 1
     /\ forall err, env_run e argv = Some err ->
          fst run = Err (Wrapf "Failed to convert image %q for importing: %w" [src] err))
  /\ (forall c0 rest,
        snd (env_detect e src) = c0 :: rest -> env_lookpath e c0 = None ->
        since w (snd run)
        = EvLookPath c0 :: probe_events src fromDirect ++ probe_events dest toDirect
          ++ [EvRun argv]
        /\ (env_run e argv = None -> fst run = Ok (set_SourcePath dest config))).
Proof.
  intros run src dest fromDirect toDirect argv Hc.
  assert (Hf : fromDirect = open_succeeds e w src probe_flags)
    by apply OpenFile_eq.
  assert (Hd : toDirect = open_succeeds e w dest probe_flags)
    by apply OpenFile_eq.
  assert (Hfound : forall c0 rest,
             snd (env_detect e src) = c0 :: rest -> env_lookpath e c0 = None ->
             since w (snd run)
             = EvLookPath c0 :: probe_events src fromDirect
               ++ probe_events dest toDirect ++ [EvRun argv]
             /\ (forall err, env_run e argv = Some err ->
                   fst run
                   = Err (Wrapf "Failed to convert image %q for importing: %w" [src] err))
             /\ (env_run e argv = None -> fst run = Ok (set_SourcePath dest config))).
  { intros c0 rest Hcmd Hl.
    destruct (normalizeDisk_converts e path config w c0 rest Hc Hcmd Hl)
      as (Ht & Hr & _). cbv zeta in Ht, Hr.
    fold src dest in Ht, Hr. rewrite <- Hf, <- Hd in Ht, Hr.
    assert (Ha : converterArgs (c0 :: rest) fromDirect toDirect src dest = argv).
    { unfold argv. rewrite Hcmd. reflexivity. }
    rewrite Ha in Ht, Hr.
    split; [exact (since_app _ _ _ Ht)|].
    destruct (env_run e argv) as [err|].
    - split; [intros err' [= <-]; apply Hr|discriminate].
    - split; [discriminate|intros _; apply Hr]. }
  split.
  - intros argv' Hin.
    destruct (snd (env_detect e src)) as [|c0 rest] eqn:Hcmd.
    { unfold run in Hin. fold src in Hcmd.
      rewrite (normalizeDisk_panics e path config w Hc Hcmd), since_same in Hin.
      destruct Hin. }
    destruct (env_lookpath e c0) as [lerr|] eqn:Hl.
    { destruct (normalizeDisk_not_found e path config w c0 rest lerr Hc Hcmd Hl)
        as (_ & Ht & _).
      unfold run in Hin. rewrite (since_app _ _ _ Ht) in Hin.
      destruct Hin as [Hin|[]]. discriminate. }
    destruct (Hfound c0 rest eq_refl Hl) as (Hs & He & _).
    rewrite Hs in Hin |- *. split; [|split; [|exact He]].
    + unfold probe_events in Hin.
      destruct fromDirect, toDirect; simpl in Hin;
        repeat (destruct Hin as [Hin|Hin]; [try discriminate; now injection Hin|]);
        destruct Hin.
    + unfold probe_events. destruct fromDirect, toDirect; reflexivity.
  - intros c0 rest Hcmd Hl. destruct (Hfound c0 rest Hcmd Hl) as (Hs & _ & Ho).
    split; assumption.
Qed.

(** ** The temporary path is new *)

Lemma prefix_append (s t : string) : String.prefix s (s ++ t) = true.
Proof.
  induction s as [|a s IH]; simpl; [now destruct t|].
  destruct (ascii_dec a a); [exact IH|congruence].
Qed.

Lemma append_length (s t : string) :
  String.length (s ++ t) = String.length s + String.length t.
Proof. induction s as [|a s IH]; simpl; [reflexivity|now rewrite IH]. Qed.

Lemma append_neq (s t : string) : t <> ""%string -> (s ++ t)%string <> s.
Proof.
  intros Ht H. apply (f_equal String.length) in H. rewrite append_length in H.
  destruct t; [congruence|simpl in H; lia].
Qed.

Lemma string_append_assoc (a b c : string) : ((a ++ b) ++ c = a ++ (b ++ c))%string.
Proof. induction a as [|x a IH]; simpl; [reflexivity|now rewrite IH]. Qed.

Lemma beneath_Join (dir name : string) : beneath dir (filepath_Join dir name) = true.
Proof.
  unfold beneath, filepath_Join. rewrite <- string_append_assoc. apply prefix_append.
Qed.

Lemma Join_neq (dir name : string) : filepath_Join dir name <> dir.
Proof. unfold filepath_Join. apply append_neq. discriminate. Qed.

Lemma path_exists_false (w : world) (p : string) :
  path_exists w p = false <-> ~ In p (fs w).
Proof.
  unfold path_exists. split.
  - intros H Hin. assert (existsb (String.eqb p) (fs w) = true); [|congruence].
    apply existsb_exists. exists p. split; [exact Hin|apply String.eqb_refl].
  - intros H. destruct (existsb _ _) eqn:E; [|reflexivity].
    apply existsb_exists in E as [q [Hq Hp]]. apply String.eqb_eq in Hp. subst. tauto.
Qed.

Lemma path_exists_true (w : world) (p : string) :
  path_exists w p = true <-> In p (fs w).
Proof.
  unfold path_exists. rewrite existsb_exists. split.
  - intros [q [Hq Hp]]. apply String.eqb_eq in Hp. now subst.
  - intros H. exists p. split; [exact H|apply String.eqb_refl].
Qed.

(** What a successful [os.MkdirTemp] returns: the directory is new, and
    nothing exists below it. *)
Lemma MkdirTemp_fresh (e : env) (dir pattern path : string) (w w1 : world) :
  os_MkdirTemp e dir pattern w = (Ok path, w1) ->
  path = tempPath e dir pattern
  /\ fs w1 = path :: fs w
  /\ mounts w1 = mounts w
  /\ (forall q, In q (fs w) -> q <> path /\ beneath path q = false)
  /\ (forall m, In m (mounts w) -> at_or_beneath path (mnt_target m) = false).
Proof.
  unfold os_MkdirTemp, bind, emit, fail. cbn [fst snd].
  destruct (env_mkdirtemp e); [discriminate|].
  match goal with |- context [if ?b then _ else _] => destruct b eqn:E end;
    [discriminate|].
  intros [= <- <-]. apply orb_false_elim in E as [E Em].
  apply orb_false_elim in E as [Ep Ee].
  split; [reflexivity|]. split; [reflexivity|]. split; [reflexivity|]. split.
  - intros q Hq. split.
    + intros ->. apply path_exists_false in Ep. apply Ep. exact Hq.
    + unfold has_entries in Ee. cbn [fs set_trace] in Ee.
      destruct (beneath _ q) eqn:B; [|reflexivity].
      assert (existsb (beneath (tempPath e dir pattern)) (fs w) = true); [|congruence].
      apply existsb_exists. eauto.
  - intros m Hm. cbn [mounts set_trace] in Em.
    destruct (at_or_beneath _ _) eqn:B; [|reflexivity].
    assert (existsb (fun m => at_or_beneath (tempPath e dir pattern) (mnt_target m))
              (mounts w) = true); [|congruence].
    apply existsb_exists. eauto.
Qed.

Lemma MkdirTemp_child_absent (e : env) (dir pattern path name : string) (w w1 : world) :
  os_MkdirTemp e dir pattern w = (Ok path, w1) ->
  path_exists w1 (filepath_Join path name) = false.
Proof.
  intros H. destruct (MkdirTemp_fresh _ _ _ _ _ _ H) as (_ & Hfs & _ & Hq & _).
  apply path_exists_false. rewrite Hfs. intros [Hin|Hin].
  - symmetry in Hin. revert Hin. apply Join_neq.
  - destruct (Hq _ Hin) as [_ Hb]. rewrite beneath_Join in Hb. discriminate.
Qed.

(** ** The destination probe *)

Lemma strings_eqb_refl (l : list string) : strings_eqb l l = true.
Proof. induction l as [|x l IH]; simpl; [reflexivity|]. now rewrite String.eqb_refl. Qed.

Lemma strings_eqb_eq (a b : list string) : strings_eqb a b = true -> a = b.
Proof.
  revert b. induction a as [|x a IH]; intros [|y b]; simpl; try discriminate;
    [reflexivity|].
  intros H. apply andb_prop in H as [Hx Hl].
  apply String.eqb_eq in Hx. subst. f_equal. auto.
Qed.

Lemma normalizeDisk_writeback_only (e : env) (config : cmdMigrateData) (w : world) :
  let path := tempPath e "" "incus-migrate_mount_" in
  path_exists w (filepath_Join path "converted-raw-image.img") = false ->
  adds (writeback_only e (SourcePath config)) w (snd (normalizeDisk e path config w)).
Proof.
  intros path Hdest.
  destruct (isConvertible (fst (env_detect e (SourcePath config)))) eqn:Hc.
  2:{ rewrite (normalizeDisk_passes e path config w Hc). apply adds_refl. }
  destruct (snd (env_detect e (SourcePath config))) as [|c0 rest] eqn:Hcmd.
  { rewrite (normalizeDisk_panics e path config w Hc Hcmd). apply adds_refl. }
  destruct (env_lookpath e c0) as [err|] eqn:Hl.
  { destruct (normalizeDisk_not_found e path config w c0 rest err Hc Hcmd Hl)
      as (_ & Ht & _).
    eapply adds_one; [exact Ht|reflexivity]. }
  destruct (normalizeDisk_converts e path config w c0 rest Hc Hcmd Hl)
    as (Ht & _ & _). cbv zeta in Ht.
  assert (Hto : open_succeeds e w (filepath_Join path "converted-raw-image.img")
                  probe_flags = false).
  { unfold open_succeeds. now rewrite Hdest. }
  rewrite Hto in Ht. eexists. split; [exact Ht|].
  destruct (open_succeeds e w (SourcePath config) probe_flags) eqn:Hfrom.
  - assert (Hne : String.eqb (SourcePath config)
                    (filepath_Join path "converted-raw-image.img") = false).
    { apply String.eqb_neq. intros Heq. unfold open_succeeds in Hfrom.
      rewrite Heq, Hdest in Hfrom. discriminate. }
    cbn [forallb probe_events app writeback_only]. fold path. rewrite Hne, Hcmd.
    rewrite strings_eqb_refl. reflexivity.
  - cbn [forallb probe_events app writeback_only]. fold path. rewrite Hcmd.
    rewrite strings_eqb_refl, orb_true_r. reflexivity.
Qed.

Lemma SourcePath_set_Mounts (m : list string) (c : cmdMigrateData) :
  SourcePath (set_Mounts m c) = SourcePath c.
Proof. reflexivity. Qed.

Lemma remote_writeback_only (e : env) (src : string) (ev : event) :
  is_remote ev = true -> writeback_only e src ev = true.
Proof. destruct ev; intros H; try discriminate H; reflexivity. Qed.

Section At.

Variable R : world -> world -> Prop.
Hypothesis R_trans : forall a b c, R a b -> R b c -> R a c.

Lemma bind_at {A B : Type} (c : M A) (k : A -> M B) (w : world) :
  R w (snd (c w)) ->
  (forall a w1, c w = (Ok a, w1) -> R w1 (snd (k a w1))) ->
  R w (snd (bind c k w)).
Proof.
  intros Hc Hk. unfold bind. destruct (c w) as [[a|err] w1]; cbn [snd] in *.
  - eapply R_trans; [exact Hc|]. now apply Hk.
  - exact Hc.
Qed.

Lemma defer_at {A : Type} (d : M unit) (body : M A) (w : world) :
  R w (snd (body w)) -> preserves R d -> R w (snd (defer d body w)).
Proof. intros Hb Hd. unfold defer. cbn [snd]. eapply R_trans; [exact Hb|apply Hd]. Qed.

End At.

Lemma fromTemporaryPath_writeback_only (e : env) (server : InstanceServer)
    (config : cmdMigrateData) (mt : MigrationType) (h : Handler) :
  isFilesystemType mt = false -> remote_only h ->
  preserves (adds (writeback_only e (SourcePath config)))
    (migrateFromTemporaryPath e server config mt h).
Proof.
  intros Hfs Hh.
  set (good := writeback_only e (SourcePath config)).
  intros w2. unfold migrateFromTemporaryPath. rewrite Hfs.
  apply bind_at; [apply adds_trans| |].
  { eapply adds_one; [apply MkdirTemp_trace|reflexivity]. }
  intros path w3 Et.
  apply defer_at; [apply adds_trans| |unfold cleanup; adds_steps good].
  pose proof (MkdirTemp_child_absent _ _ _ _ "converted-raw-image.img" _ _ Et) as Hd.
  destruct (MkdirTemp_fresh _ _ _ _ _ _ Et) as (-> & _).
  apply bind_at; [apply adds_trans| |].
  { exact (normalizeDisk_writeback_only e config w3 Hd). }
  intros config' w4 _. revert w4.
  change (preserves (adds good)
            (mountImage e (tempPath e "" "incus-migrate_mount_") config' ;;
             h server config' (tempPath e "" "incus-migrate_mount_") mt)).
  unfold mountImage. adds_steps good.
  apply adds_handler; [exact Hh|apply remote_writeback_only].
Qed.

Lemma runMigration_writeback_only (e : env) (server : InstanceServer)
    (config : cmdMigrateData) (mt : MigrationType) (h : Handler) :
  isFilesystemType mt = false -> remote_only h ->
  preserves (adds (writeback_only e (SourcePath config))) (runMigration e server config mt h).
Proof.
  intros Hfs Hh. unfold runMigration.
  set (good := writeback_only e (SourcePath config)).
  apply preserves_bind; [apply adds_trans|adds_steps good|intros _].
  apply preserves_defer; [apply adds_trans|adds_steps good|].
  apply preserves_bind; [apply adds_trans|unfold sandbox; adds_steps good|intros _].
  exact (fromTemporaryPath_writeback_only e _ (set_Mounts (mountPlan config) config)
           mt h Hfs Hh).
Qed.

(** C9. The destination of the conversion lies in the temporary path, which
    [os.MkdirTemp] has just made: the open that probes it for direct I/O
    finds no file and fails; so in every run of [runMigration] for a
    virtual machine or a block volume, whatever the environment, the
    converter, when it is run, is run without [-t none] (its arguments are
    those with the destination flag left out) and the destination is never
    closed, for it was never opened. *)
Theorem destination_probe_always_fails (e : env) (server : InstanceServer)
    (config : cmdMigrateData) (mt : MigrationType) (h : Handler) (w : world) :
  isFilesystemType mt = false -> remote_only h ->
  let run := runMigration e server config mt h w in
  let src := SourcePath config in
  let dest :=
    filepath_Join (tempPath e "" "incus-migrate_mount_") "converted-raw-image.img" in
  (forall w0 path w1,
      os_MkdirTemp e "" "incus-migrate_mount_" w0 = (Ok path, w1) ->
      filepath_Join path "converted-raw-image.img" = dest
      /\ is_ok (fst (os_OpenFile e dest (Z.lor O_DIRECT O_RDONLY) w1)) = false
      /\ fst (directIOProbe e dest w1) = Ok false)
  /\ (forall argv,
        In (EvRun argv) (since w (snd run)) ->
        exists fromDirect,
          argv = ["nice"; "-n19"] ++ snd (env_detect e src) ++ ["-p"; "-t"; "writeback"]
                 ++ (if fromDirect : bool then ["-T"; "none"] else [])
                 ++ [src; dest])
  /\ ~ In (EvClose dest) (since w (snd run)).
Proof.
  intros Hfs Hh run src dest. split; [|split].
  - intros w0 path w1 Et.
    pose proof (MkdirTemp_child_absent _ _ _ _ "converted-raw-image.img" _ _ Et) as Hd.
    destruct (MkdirTemp_fresh _ _ _ _ _ _ Et) as (-> & _). fold dest in Hd.
    split; [reflexivity|].
    assert (Ho : open_succeeds e w1 dest probe_flags = false)
      by (unfold open_succeeds; now rewrite Hd).
    split.
    + destruct (OpenFile_eq e dest probe_flags w1) as [_ H]. unfold probe_flags in H.
      now rewrite H.
    + destruct (directIOProbe_spec e dest w1) as [H _]. cbv zeta in H.
      now rewrite H, Ho.
  - intros argv Hin.
    destruct (adds_since _ _ _ (runMigration_writeback_only e server config mt h Hfs Hh w))
      as [_ Hg].
    rewrite forallb_forall in Hg. specialize (Hg _ Hin). cbn in Hg.
    apply orb_prop in Hg as [Hg|Hg]; apply strings_eqb_eq in Hg;
      [exists true|exists false]; exact Hg.
  - intros Hin.
    destruct (adds_since _ _ _ (runMigration_writeback_only e server config mt h Hfs Hh w))
      as [_ Hg].
    rewrite forallb_forall in Hg. specialize (Hg _ Hin). cbn in Hg.
    fold dest in Hg. rewrite String.eqb_refl in Hg. discriminate.
Qed.

(** ** The image, mounted read-only *)

Lemma WriteFile_cases (e : env) (p : string) (w : world) :
  let run := os_WriteFile e p w in
  trace (snd run) = trace w ++ [EvWriteFile p]
  /\ mounts (snd run) = mounts w
  /\ (is_ok (fst run) = true ->
        (mount_at w p = None -> path_exists (snd run) p = true)).
Proof.
  cbv zeta. split; [apply WriteFile_trace|].
  unfold os_WriteFile, bind, emit, fail. cbn [fst snd].
  destruct (env_writefile e p); [split; [reflexivity|discriminate]|].
  unfold mount_at. cbn [mounts set_trace].
  destruct (find _ (mounts w)) as [m|].
  - destruct (mnt_ro m); split; try reflexivity; try discriminate.
  - unfold path_exists. cbn [fs set_trace].
    destruct (existsb (String.eqb p) (fs w)) eqn:E; cbn [fst snd]; split;
      try reflexivity; intros _ _.
    + unfold path_exists. cbn [fs set_trace]. exact E.
    + unfold set_fs. cbn [fs existsb]. now rewrite String.eqb_refl.
Qed.

Lemma bind_mount_cases (e : env) (source target : string) (w : world) :
  let run := unix_Mount e source target "none" MS_BIND "" w in
  trace (snd run) = trace w ++ [EvMount source target "none" MS_BIND ""]
  /\ fs (snd run) = fs w
  /\ (is_ok (fst run) = true ->
        mounts (snd run) = mkMount source target false :: mounts w)
  /\ (is_ok (fst run) = false -> mounts (snd run) = mounts w).
Proof.
  cbv zeta. split; [apply Mount_trace|].
  unfold unix_Mount, bind, emit, fail. cbn [fst snd].
  destruct (env_mount e source target MS_BIND);
    [repeat split; intros; try reflexivity; try discriminate|].
  change (has_flag MS_BIND MS_REMOUNT) with false.
  change (has_flag MS_BIND MS_BIND) with true. cbv iota.
  unfold path_exists. cbn [fs set_trace].
  destruct (existsb (String.eqb target) (fs w)); cbn [fst snd].
  - cbn [ns set_trace set_mounts]. destruct (ns w); cbn;
      repeat split; intros; try reflexivity; try discriminate.
  - repeat split; intros; try reflexivity; try discriminate.
Qed.

Lemma remount_ro_cases (e : env) (source target : string) (w : world)
    (rest : list mount) :
  mounts w = mkMount source target false :: rest ->
  let run := unix_Mount e "" target "none" remount_ro "" w in
  trace (snd run) = trace w ++ [EvMount "" target "none" remount_ro ""]
  /\ fs (snd run) = fs w
  /\ (is_ok (fst run) = true ->
        mounts (snd run) = mkMount source target true :: rest)
  /\ (is_ok (fst run) = false -> fst run = Err (match env_mount e "" target remount_ro with Some err => err | None => ErrSys "EINVAL" end)).
Proof.
  intros Hm. cbv zeta. split; [apply Mount_trace|].
  unfold unix_Mount, bind, emit, fail. cbn [fst snd].
  destruct (env_mount e "" target remount_ro);
    [repeat split; intros; try reflexivity; try discriminate|].
  change (has_flag remount_ro MS_REMOUNT) with true.
  change (has_flag remount_ro MS_RDONLY) with true. cbv iota.
  cbn [mounts set_trace]. rewrite Hm. cbn [set_ro mnt_target mnt_source].
  rewrite String.eqb_refl. cbn. repeat split; intros; try reflexivity; try discriminate.
Qed.


(** ** A custom volume migration that is declined *)

Lemma only_asked_refl (w : world) : only_asked w w.
Proof. repeat split. apply adds_refl. Qed.

Lemma only_asked_trans (a b c : world) :
  only_asked a b -> only_asked b c -> only_asked a c.
Proof.
  intros (A1 & F1 & M1 & N1 & L1 & K1) (A2 & F2 & M2 & N2 & L2 & K2).
  repeat split; try congruence. eapply adds_trans; eauto.
Qed.

Lemma AskString_only_asked (question : string) (accept : string -> bool) :
  preserves only_asked (AskString question accept).
Proof.
  intros w. unfold AskString, bind, emit. cbn [fst snd].
  repeat split. eapply adds_one; reflexivity.
Qed.

Lemma AskBool_only_asked (question : string) : preserves only_asked (AskBool question).
Proof.
  intros w. unfold AskBool, bind, emit. cbn [fst snd].
  repeat split. eapply adds_one; reflexivity.
Qed.

Lemma EvGet_only_asked (what : string) : preserves only_asked (emit (EvGet what)).
Proof. intros w. repeat split. eapply adds_one; reflexivity. Qed.

Ltac ask_prims :=
  idtac;
  lazymatch goal with
  | |- preserves _ (AskString _ _) => apply AskString_only_asked
  | |- preserves _ (AskChoice _ _) => apply AskString_only_asked
  | |- preserves _ (AskBool _) => apply AskBool_only_asked
  | |- preserves _ (emit (EvGet _)) => apply EvGet_only_asked
  end.

Ltac ask_steps := steps only_asked_refl only_asked_trans ask_prims.

Lemma askSourcePath_only_asked (e : env) (config : cmdMigrateData) (mt : MigrationType) :
  preserves only_asked (askSourcePath e config mt).
Proof.
  intros w. unfold askSourcePath.
  match goal with
  | |- only_asked w (snd (?c w)) => assert (H : preserves only_asked c); [|exact (H w)]
  end.
  ask_steps.
Qed.

Lemma askProject_only_asked (e : env) (config : cmdMigrateData) :
  preserves only_asked (askProject e config).
Proof.
  unfold askProject. ask_steps.
  destruct (env_project_names e) as [names|err]; ask_steps.
Qed.

Lemma questions_only_asked (e : env) (server : InstanceServer) (mt : MigrationType) :
  preserves only_asked (gatherCustomVolumeInfo_questions e server mt).
Proof.
  unfold gatherCustomVolumeInfo_questions. ask_steps.
  - apply askProject_only_asked.
  - destruct (env_storage_pools e) as [pools|err]; ask_steps.
    destruct (env_volumes e _) as [volumes|err]; ask_steps.
    apply askSourcePath_only_asked.
Qed.

Lemma question_not_session (ev : event) :
  is_question ev = true ->
  is_sandbox ev = false /\ makes_mount_or_path ev = false /\ is_create ev = false.
Proof. destruct ev; simpl; intros H; try discriminate; repeat split. Qed.

(** C10. When the questions of [gatherCustomVolumeInfo] have been answered
    and the user answers no to the last one, [gatherCustomVolumeInfo]
    returns the empty configuration and no error, and [migrateCustomVolume]
    returns success at once: all it did was to ask; no call of the sandbox,
    no call that makes a mount or a path and no creation call was made, and
    the files, the mounts and the namespace are as they were. *)
Theorem declined_volume_migration (e : env) (rsyncArgs : string) (ctx : Context)
    (server : InstanceServer) (mt : MigrationType) (w w1 : world)
    (config : cmdMigrateData) (rest : list answer) :
  isVolumeType mt = true ->
  gatherCustomVolumeInfo_questions e server mt w = (Ok config, w1) ->
  ask_bool_from (input w1) = (Ok false, rest) ->
  let run := migrateCustomVolume e rsyncArgs ctx server mt w in
  fst (gatherCustomVolumeInfo e server mt w) = Ok empty_cmdMigrateData
  /\ fst run = Ok tt
  /\ snd run = snd (gatherCustomVolumeInfo e server mt w)
  /\ forallb is_question (since w (snd run)) = true
  /\ count is_sandbox (since w (snd run)) = 0
  /\ count makes_mount_or_path (since w (snd run)) = 0
  /\ count is_create (since w (snd run)) = 0
  /\ fs (snd run) = fs w /\ mounts (snd run) = mounts w /\ ns (snd run) = ns w
  /\ leaked (snd run) = leaked w /\ locked (snd run) = locked w.
Proof.
  intros Hmt Hq Hno run.
  assert (Hg : gatherCustomVolumeInfo e server mt w
               = (Ok empty_cmdMigrateData,
                  set_input rest
                    (set_trace (trace w1 ++ [EvAsk "Do you want to continue? [default=yes]: "])
                       w1))).
  { unfold gatherCustomVolumeInfo. rewrite (bind_ok _ _ _ _ _ Hq).
    unfold AskBool, bind, emit, ret. cbn [fst snd input set_trace].
    rewrite Hno. reflexivity. }
  assert (Hrun : run = (Ok tt, snd (gatherCustomVolumeInfo e server mt w))).
  { unfold run, migrateCustomVolume.
    destruct mt; try discriminate; rewrite (bind_ok _ _ _ _ _ Hg), Hg; reflexivity. }
  pose proof (questions_only_asked e server mt w) as Ho. rewrite Hq in Ho.
  cbn [snd] in Ho. destruct Ho as (Ha & F & Mo & N & L & K).
  assert (Hadds : adds is_question w (snd run)).
  { rewrite Hrun, Hg. cbn [snd]. eapply adds_trans; [exact Ha|].
    eapply adds_one; reflexivity. }
  destruct (adds_since _ _ _ Hadds) as [_ Hall].
  split; [now rewrite Hg|]. split; [now rewrite Hrun|]. split; [now rewrite Hrun|].
  split; [exact Hall|].
  assert (Hcount : forall p, (forall ev, is_question ev = true -> p ev = false) ->
                             count p (since w (snd run)) = 0).
  { intros p Hp. apply count_none. rewrite forallb_forall in *.
    intros ev Hin. rewrite (Hp ev (Hall ev Hin)). reflexivity. }
  split; [apply Hcount; intros ev Hev; apply (question_not_session ev Hev)|].
  split; [apply Hcount; intros ev Hev; apply (question_not_session ev Hev)|].
  split; [apply Hcount; intros ev Hev; apply (question_not_session ev Hev)|].
  rewrite Hrun, Hg. cbn [snd]. repeat split; assumption.
Qed.

(** ** The interrupt *)

Import Interrupt.

Lemma invariant_start (c : call) (w : world) : invariant c w (start w).
Proof.
  exists []. split; [now rewrite app_nil_r|]. split; [reflexivity|].
  repeat split.
Qed.

Lemma count_snoc (p : event -> bool) (l : list event) (ev : event) :
  count p (l ++ [ev]) = count p l + (if p ev then 1 else 0).
Proof. rewrite count_app. unfold count. simpl. now destruct (p ev). Qed.

Lemma step_main_listener (e : env) (c : call) (p : process) :
  p_exit (step_main e c p) = p_exit p
  /\ p_listener (step_main e c p) = p_listener p
  /\ p_ctx (step_main e c p) = p_ctx p.
Proof.
  unfold step_main. destruct (p_main p);
    repeat match goal with
           | |- context [match ?x with (_, _) => _ end] => destruct x as [[?|?] ?]
           end; repeat split.
Qed.

Lemma invariant_step_main (e : env) (c : call) (w : world) (p : process) :
  invariant c w p -> invariant c w (step_main e c p).
Proof.
  intros (evs & Ht & Hm & Hl).
  destruct (step_main_listener e c p) as (E1 & E2 & E3).
  unfold invariant. rewrite E1, E2, E3.
  assert (Hl' : forall new,
            filter is_certificate_delete new = [] ->
            match p_listener p with
            | LWait | LDeleteCertificate =>
                filter is_certificate_delete (evs ++ new) = []
                /\ p_ctx p = false /\ p_exit p = None
            | LCancel =>
                filter is_certificate_delete (evs ++ new) = registered_certificate c
                /\ p_ctx p = false /\ p_exit p = None
            | LExit =>
                filter is_certificate_delete (evs ++ new) = registered_certificate c
                /\ p_ctx p = true /\ p_exit p = None
            | LGone =>
                filter is_certificate_delete (evs ++ new) = registered_certificate c
                /\ p_ctx p = true /\ p_exit p = Some 1%Z
            end).
  { intros new Hn. rewrite filter_app, Hn, app_nil_r. exact Hl. }
  clear E1 E2 E3.
  unfold step_main. destruct (p_main p) as [|rv|rv|r rv|r] eqn:Hpc.
  - unfold server_CreateInstance, bind, emit, fail, ret. cbn [fst snd].
    destruct (env_create_instance e _); cbn;
      exists (evs ++ [EvCreateInstance (srv_project (c_server c))
                        (inst_Name (InstanceArgs (c_config c)))]);
      rewrite Ht, <- app_assoc, count_snoc, Hm;
      (split; [reflexivity|split; [|apply Hl'; reflexivity]]); auto.
  - destruct Hm as [Hm ->].
    unfold op_AddHandler, progress_Done, bind, emit, fail, ret. cbn [fst snd].
    destruct (env_add_handler e) as [err|]; cbn.
    + exists (evs ++ [EvAddHandler; EvProgressDone ""]).
      rewrite Ht, <- !app_assoc, count_app, Hm.
      split; [reflexivity|split; [|apply Hl'; reflexivity]].
      split; [reflexivity|]. right. split; [reflexivity|now exists err].
    + exists (evs ++ [EvAddHandler]).
      rewrite Ht, <- !app_assoc, count_snoc, Hm.
      split; [reflexivity|split; [|apply Hl'; reflexivity]]. auto.
  - destruct Hm as [Hm ->].
    pose proof (transferRootfs_world e (p_ctx p) (c_path c) (c_rsyncArgs c) (c_mt c)
                  (p_world p)) as Hw.
    destruct (transferRootfs e (p_ctx p) (c_path c) (c_rsyncArgs c) (c_mt c) (p_world p))
      as [[u|err] w3]; cbn [snd] in Hw; subst w3; cbn.
    + exists (evs ++ [EvTransfer (c_path c) (c_mt c);
                      EvProgressDone ("Instance " ++ inst_Name (InstanceArgs (c_config c))
                                      ++ " successfully created")]).
      rewrite Ht, <- !app_assoc, count_app, Hm.
      split; [reflexivity|split; [|apply Hl'; reflexivity]]. auto.
    + exists (evs ++ [EvTransfer (c_path c) (c_mt c)]).
      rewrite Ht, <- !app_assoc, count_snoc, Hm.
      split; [reflexivity|split; [|apply Hl'; reflexivity]].
      split; [reflexivity|]. right. split; [reflexivity|now exists err].
  - destruct Hm as [Hm [-> | [-> Herr]]]; cbn.
    + exists evs. split; [exact Ht|]. split; [now left|].
      specialize (Hl' [] eq_refl). now rewrite app_nil_r in Hl'.
    + exists (evs ++ [EvDeleteInstance (srv_project (c_server c))
                        (inst_Name (InstanceArgs (c_config c)))]).
      rewrite Ht, <- app_assoc, count_snoc, Hm.
      split; [reflexivity|split; [|apply Hl'; reflexivity]].
      right. split; [reflexivity|exact Herr].
  - exists evs. rewrite Hpc. split; [exact Ht|]. split; [exact Hm|].
    specialize (Hl' [] eq_refl). now rewrite app_nil_r in Hl'.
Qed.

Lemma invariant_step_listener (c : call) (w : world) (p : process) :
  invariant c w p -> invariant c w (step_listener c p).
Proof.
  intros (evs & Ht & Hm & Hl). unfold step_listener.
  destruct (p_listener p) eqn:Hlp.
  - destruct Hl as (Hf & Hc & Hx).
    destruct (p_signal p); exists evs; cbn; rewrite ?Hlp; repeat split; assumption.
  - destruct Hl as (Hf & Hc & Hx).
    destruct (nonempty (c_fingerprint c)) eqn:Hn; cbn.
    + exists (evs ++ [EvDeleteCertificate (c_fingerprint c)]).
      rewrite Ht, <- app_assoc. split; [reflexivity|]. split.
      * destruct (p_main p); rewrite count_snoc; simpl; rewrite ?Nat.add_0_r; exact Hm.
      * unfold registered_certificate. rewrite filter_app, Hf, Hn.
        split; [reflexivity|split; assumption].
    + exists evs. unfold registered_certificate. rewrite Hn.
      repeat split; assumption.
  - destruct Hl as (Hf & Hc & Hx). exists evs. cbn. repeat split; assumption.
  - destruct Hl as (Hf & Hc & Hx). exists evs. cbn. repeat split; assumption.
  - exists evs. rewrite Hlp. repeat split; try assumption; apply Hl.
Qed.

Lemma invariant_step (e : env) (c : call) (w : world) (p : process) (t : tick) :
  invariant c w p -> invariant c w (step e c p t).
Proof.
  intros Hi. unfold step. destruct (p_exit p) eqn:Hex; [exact Hi|].
  destruct t.
  - destruct Hi as (evs & Ht & Hm & Hl). exists evs. cbn.
    split; [exact Ht|]. split; [exact Hm|]. rewrite Hex in Hl. exact Hl.
  - now apply invariant_step_main.
  - now apply invariant_step_listener.
Qed.

Lemma invariant_exec (e : env) (c : call) (w : world) (sched : list tick) (p : process) :
  invariant c w p -> invariant c w (exec e c sched p).
Proof.
  revert p. induction sched as [|t sched IH]; intros p Hi; [exact Hi|].
  apply IH. now apply invariant_step.
Qed.

(** A process that has exited makes no further call. *)
Lemma exec_exited (e : env) (c : call) (sched : list tick) (p : process) :
  p_exit p <> None -> exec e c sched p = p.
Proof.
  intros Hx. induction sched as [|t sched IH]; [reflexivity|].
  cbn. unfold step at 2. destruct (p_exit p) eqn:E; [|contradiction].
  fold (exec e c sched p). exact IH.
Qed.

Lemma exec_app (e : env) (c : call) (s1 s2 : list tick) (p : process) :
  exec e c (s1 ++ s2) p = exec e c s2 (exec e c s1 p).
Proof. unfold exec. apply fold_left_app. Qed.

(** What the invariant says of the calls made so far. *)
Lemma invariant_calls (c : call) (w : world) (p : process) :
  invariant c w p ->
  let calls := since w (p_world p) in
  (forall n, p_exit p = Some n -> n = 1%Z /\ p_ctx p = true /\ outcome_of p = Exited 1)
  /\ (p_ctx p = true -> filter is_certificate_delete calls = registered_certificate c)
  /\ (filter is_certificate_delete calls = []
      \/ filter is_certificate_delete calls = registered_certificate c)
  /\ (in_window p = true -> count is_delete calls = 0)
  /\ count is_delete calls <= 1
  /\ (count is_delete calls = 1 -> exists err, p_main p = PcDone (Err err)).
Proof.
  intros (evs & Ht & Hm & Hl) calls. subst calls. rewrite (since_app _ _ _ Ht).
  split; [|split; [|split; [|split; [|split]]]].
  - intros n Hn. unfold outcome_of. rewrite Hn.
    destruct (p_listener p); destruct Hl as (_ & Hc & Hx); rewrite Hx in Hn;
      try discriminate. injection Hn as <-. repeat split. exact Hc.
  - intros Hc. destruct (p_listener p); destruct Hl as (Hf & Hc' & _);
      congruence.
  - destruct (p_listener p); destruct Hl as (Hf & _); auto.
  - unfold in_window. destruct (p_main p); try discriminate; intros _; apply Hm.
  - destruct (p_main p); [lia|destruct Hm; lia|destruct Hm; lia|destruct Hm; lia|].
    destruct Hm as [Hm|[Hm _]]; lia.
  - intros H1. destruct (p_main p) as [|rv|rv|r rv|r].
    + lia.
    + destruct Hm; lia.
    + destruct Hm; lia.
    + destruct Hm; lia.
    + destruct Hm as [Hm|[_ [err ->]]]; [lia|]. now exists err.
Qed.

(** C4, as amended.  Whatever the schedule of the handler of
    [migrateInstance], of the listener and of the interrupts.  The listener
    works in order: the process exits only by the listener, with status 1,
    which is not success, and only after the context was cancelled; the
    context is cancelled only after the client certificate was deleted,
    when one was registered, and no other certificate is ever deleted.
    While the handler is still between the creation and the end of the
    transfer no delete call of the instance has been made, so a process
    that the listener ends there leaves the instance behind and returns no
    error at all, a CancelledError no more than another; a process that has
    exited makes no further call.  At no point has more than one delete
    call been made, and one has been made only when the handler itself has
    returned an error.  And when the interrupt comes in that window to a
    listener that waits, and the listener runs to its end, the process has
    exited with status 1 in that window, having deleted the registered
    certificate and nothing else. *)
Theorem interrupt_exits_without_rollback (e : env) (c : call) (w : world)
    (sched : list tick) :
  let p := exec e c sched (start w) in
  let calls := since w (p_world p) in
  let ended := exec e c [Sigint; RunListener; RunListener; RunListener; RunListener] p in
  (forall n, p_exit p = Some n ->
             n = 1%Z /\ p_ctx p = true /\ outcome_of p = Exited 1)
  /\ (p_ctx p = true -> filter is_certificate_delete calls = registered_certificate c)
  /\ (filter is_certificate_delete calls = []
      \/ filter is_certificate_delete calls = registered_certificate c)
  /\ (in_window p = true -> count is_delete calls = 0)
  /\ (forall n, p_exit p = Some n -> in_window p = true ->
                outcome_of p = Exited 1
                /\ count is_delete calls = 0
                /\ forall r, outcome_of p <> Returned r)
  /\ (forall before after,
        sched = before ++ after ->
        p_exit (exec e c before (start w)) <> None ->
        p = exec e c before (start w))
  /\ count is_delete calls <= 1
  /\ (count is_delete calls = 1 -> exists err, p_main p = PcDone (Err err))
  /\ (in_window p = true -> p_listener p = LWait ->
      outcome_of ended = Exited 1
      /\ p_ctx ended = true
      /\ in_window ended = true
      /\ since (p_world p) (p_world ended) = registered_certificate c
      /\ count is_delete (since w (p_world ended)) = 0).
Proof.
  intros p calls ended.
  pose proof (invariant_exec e c w sched (start w) (invariant_start c w)) as Hi.
  fold p in Hi.
  destruct (invariant_calls c w p Hi) as (H1 & H2 & H3 & H4 & H5 & H6).
  fold calls in H2, H3, H4, H5, H6.
  split; [exact H1|]. split; [exact H2|]. split; [exact H3|]. split; [exact H4|].
  split; [|split; [|split; [exact H5|split; [exact H6|]]]].
  - intros n Hn Hin. destruct (H1 n Hn) as (_ & _ & Ho).
    split; [exact Ho|]. split; [now apply H4|]. intros r. rewrite Ho. discriminate.
  - intros before after -> Hx. unfold p. rewrite exec_app. now apply exec_exited.
  - intros Hin Hl.
    pose proof (invariant_exec e c w
                  [Sigint; RunListener; RunListener; RunListener; RunListener] p Hi)
      as Hj. fold ended in Hj.
    destruct (invariant_calls c w ended Hj) as (_ & _ & _ & J4 & _).
    destruct Hi as (evs & Ht & Hm & Hlp). rewrite Hl in Hlp.
    destruct Hlp as (_ & Hc & Hx).
    assert (He : ended
                 = mkProcess
                     (if nonempty (c_fingerprint c)
                      then snd (server_DeleteCertificate (c_fingerprint c) (p_world p))
                      else p_world p)
                     true false (p_main p) LGone (Some 1%Z)).
    { unfold ended. clearbody p. clear ended calls H1 H2 H3 H4 H5 H6 Hj J4 Ht Hm.
      destruct p as [pw ctx sig pm pl px]. cbn in Hin, Hl, Hc, Hx. subst.
      reflexivity. }
    assert (Hw : in_window ended = true) by (rewrite He; exact Hin).
    split; [rewrite He; reflexivity|]. split; [rewrite He; reflexivity|].
    split; [exact Hw|]. split; [|now apply J4].
    rewrite He. cbn [p_world]. unfold registered_certificate.
    destruct (nonempty (c_fingerprint c)).
    + now apply since_app.
    + apply since_app. now rewrite app_nil_r.
Qed.



(** ** The clean-up of the temporary path *)

Section Keeps.

Variable keep : list string.

Lemma keeps_refl (w : world) : keeps keep w w.
Proof. intros p _ H. exact H. Qed.

Lemma keeps_trans (a b c : world) : keeps keep a b -> keeps keep b c -> keeps keep a c.
Proof. intros H1 H2 p Hk Hp. apply H2; auto. Qed.

Lemma keeps_same_fs (w w' : world) : fs w' = fs w -> keeps keep w w'.
Proof. intros E p _ H. now rewrite E. Qed.

Lemma keeps_more_fs (w w' : world) (q : string) : fs w' = q :: fs w -> keeps keep w w'.
Proof. intros E p _ H. rewrite E. now right. Qed.

Lemma Mkdir_keeps (e : env) (p : string) : preserves (keeps keep) (os_Mkdir e p).
Proof.
  intros w. unfold os_Mkdir, bind, emit, fail. cbn [fst snd].
  destruct (env_mkdir e p); [now apply keeps_same_fs|].
  unfold path_exists. cbn [fs set_trace].
  destruct (existsb _ (fs w)); [now apply keeps_same_fs|].
  now apply keeps_more_fs with (q := p).
Qed.

Lemma MkdirAll_keeps (e : env) (p : string) : preserves (keeps keep) (os_MkdirAll e p).
Proof.
  intros w. unfold os_MkdirAll, bind, emit, fail. cbn [fst snd].
  destruct (env_mkdir e p); [now apply keeps_same_fs|].
  unfold path_exists. cbn [fs set_trace].
  destruct (existsb _ (fs w)); [now apply keeps_same_fs|].
  now apply keeps_more_fs with (q := p).
Qed.

Lemma Mount_keeps (e : env) (source target fstype : string) (flags : Z) (data : string) :
  preserves (keeps keep) (unix_Mount e source target fstype flags data).
Proof.
  intros w. apply keeps_same_fs.
  unfold unix_Mount, bind, emit, fail. cbn [fst snd].
  destruct (env_mount e source target flags); [reflexivity|].
  destruct (has_flag flags MS_REMOUNT).
  { cbn [mounts set_trace]. destruct (set_ro _ _ _); reflexivity. }
  destruct (has_flag flags MS_BIND).
  { unfold path_exists. cbn [fs set_trace ns]. destruct (existsb _ (fs w)); [|reflexivity].
    destruct (ns w); reflexivity. }
  destruct (has_flag flags MS_PRIVATE); [|reflexivity].
  destruct (_ && _); [|reflexivity]. cbn [ns set_trace]. destruct (ns w); reflexivity.
Qed.

Lemma Unmount_keeps (target : string) (flags : Z) :
  preserves (keeps keep) (unix_Unmount target flags).
Proof.
  intros w. apply keeps_same_fs.
  unfold unix_Unmount, bind, emit. cbn [fst snd]. unfold mounted_at. cbn [mounts set_trace].
  destruct (existsb _ (mounts w)); [|reflexivity].
  destruct (has_flag flags MNT_DETACH); [reflexivity|].
  destruct (existsb _ (mounts w)); reflexivity.
Qed.

Lemma Remove_keeps (q : string) : ~ In q keep -> preserves (keeps keep) (os_Remove q).
Proof.
  intros Hq w. unfold os_Remove, bind, emit. cbn [fst snd].
  destruct (negb _); [now apply keeps_same_fs|].
  destruct (mounted_at _ q); [now apply keeps_same_fs|].
  destruct (has_entries _ q); [now apply keeps_same_fs|].
  intros p Hk Hp. cbn [fs set_fs set_trace]. apply filter_In. split; [exact Hp|].
  apply negb_true_iff, String.eqb_neq. intros ->. contradiction.
Qed.

Lemma handler_keeps (h : Handler) (server : InstanceServer) (config : cmdMigrateData)
    (path : string) (mt : MigrationType) :
  remote_only h -> preserves (keeps keep) (h server config path mt).
Proof.
  intros Hh w. apply keeps_same_fs. now destruct (Hh server config path mt w).
Qed.

End Keeps.

Ltac keeps_prims :=
  idtac;
  lazymatch goal with
  | |- preserves _ (unix_Mount _ _ _ _ _ _) => apply Mount_keeps
  | |- preserves _ (unix_Unmount _ _) => apply Unmount_keeps
  | |- preserves _ (os_Mkdir _ _) => apply Mkdir_keeps
  | |- preserves _ (os_MkdirAll _ _) => apply MkdirAll_keeps
  end.

Ltac keeps_steps keep := steps (keeps_refl keep) (keeps_trans keep) keeps_prims.

Lemma setupSource_keeps (keep : list string) (e : env) (root : string)
    (plan : list string) :
  preserves (keeps keep) (setupSource e root plan).
Proof. induction plan as [|source plan IH]; simpl; keeps_steps keep. exact IH. Qed.

Lemma string_append_inj (s a b : string) : (s ++ a = s ++ b)%string -> a = b.
Proof. induction s as [|x s IH]; simpl; [auto|]. intros [= H]. auto. Qed.

Lemma Mkdir_ok (e : env) (p : string) (w w' : world) (u : unit) :
  os_Mkdir e p w = (Ok u, w') -> fs w' = p :: fs w.
Proof.
  unfold os_Mkdir, bind, emit, fail. cbn [fst snd].
  destruct (env_mkdir e p); [discriminate|].
  unfold path_exists. cbn [fs set_trace].
  destruct (existsb _ (fs w)); [discriminate|]. now intros [= _ <-].
Qed.

Lemma Remove_nonempty (p q : string) (w : world) :
  In q (fs w) -> beneath p q = true -> fs (snd (os_Remove p w)) = fs w.
Proof.
  intros Hq Hb. unfold os_Remove, bind, emit. cbn [fst snd].
  destruct (negb _); [reflexivity|].
  destruct (mounted_at _ p); [reflexivity|].
  assert (He : has_entries (set_trace (trace w ++ [EvRemove p]) w) p = true).
  { unfold has_entries. cbn [fs set_trace]. apply existsb_exists. eauto. }
  now rewrite He.
Qed.

Lemma defer_snd {A : Type} (d : M unit) (body : M A) (w : world) :
  snd (defer d body w) = snd (d (snd (body w))).
Proof. reflexivity. Qed.

Lemma ignore_snd {A : Type} (c : M A) (w : world) : snd (ignore c w) = snd (c w).
Proof. reflexivity. Qed.

Lemma bind_ignore {A B : Type} (c : M A) (k : unit -> M B) (w : world) :
  bind (ignore c) k w = k tt (snd (c w)).
Proof. reflexivity. Qed.

(** The temporary path of a container or filesystem volume migration is
    still there when [runMigration] has cleaned up: the [rootfs] directory
    made in it is removed by nothing, so the removal of the path fails. *)
Lemma rootfs_keeps_temporary_path (e : env) (server : InstanceServer)
    (config : cmdMigrateData) (mt : MigrationType) (h : Handler)
    (w w1 : world) (path : string) :
  isFilesystemType mt = true -> remote_only h ->
  os_MkdirTemp e "" "incus-migrate_mount_" w = (Ok path, w1) ->
  is_ok (fst (os_Mkdir e (path ++ "/rootfs") w1)) = true ->
  let w' := snd (migrateFromTemporaryPath e server config mt h w) in
  path_exists w' path = true /\ path_exists w' (path ++ "/rootfs")%string = true.
Proof.
  intros Hfs Hh Et Hmk. cbv zeta.
  unfold migrateFromTemporaryPath. rewrite (bind_ok _ _ _ _ _ Et), Hfs.
  change (path ++ "/rootfs")%string with (filepath_Join path "rootfs") in *.
  set (rootfs := filepath_Join path "rootfs") in *.
  set (keep := [path; rootfs]).
  rewrite defer_snd.
  destruct (MkdirTemp_fresh _ _ _ _ _ _ Et) as (_ & Hfs1 & _).
  destruct (os_Mkdir e rootfs w1) as [[u|err] w2] eqn:Em; [|discriminate].
  rewrite (bind_ok _ _ _ _ _ Em).
  pose proof (Mkdir_ok _ _ _ _ _ Em) as Hfs2.
  match goal with
  | |- context [snd (?k w2)] =>
      assert (Hk : keeps keep w2 (snd (k w2)));
      [ assert (Hp : preserves (keeps keep) k);
        [ keeps_steps keep; [apply setupSource_keeps|now apply handler_keeps]
        | exact (Hp w2) ]
      | set (w5 := snd (k w2)) in * ]
  end.
  clearbody w5.
  unfold cleanup. rewrite !bind_ignore.
  match goal with
  | |- context [ignore (os_Remove path) ?w9'] =>
      assert (Hc : keeps keep w5 w9'); [|set (w9 := w9') in *]
  end.
  { assert (Hn1 : ~ In (filepath_Join path "converted-raw-image.img") keep).
    { intros [H|[H|[]]].
      - symmetry in H. revert H. apply Join_neq.
      - apply string_append_inj in H. discriminate. }
    assert (Hn2 : ~ In (filepath_Join path "root.img") keep).
    { intros [H|[H|[]]].
      - symmetry in H. revert H. apply Join_neq.
      - apply string_append_inj in H. discriminate. }
    eapply keeps_trans; [apply Unmount_keeps|].
    eapply keeps_trans; [apply Unmount_keeps|].
    eapply keeps_trans; [apply (Remove_keeps keep _ Hn1)|].
    apply (Remove_keeps keep _ Hn2). }
  clearbody w9.
  assert (Hpath : In path (fs w9)).
  { apply Hc; [now left|]. apply Hk; [now left|]. rewrite Hfs2, Hfs1. right. now left. }
  assert (Hroot : In rootfs (fs w9)).
  { apply Hc; [right; now left|]. apply Hk; [right; now left|]. rewrite Hfs2. now left. }
  rewrite ignore_snd.
  rewrite !path_exists_true, (Remove_nonempty path rootfs w9 Hroot (beneath_Join _ _)).
  split; assumption.
Qed.

(** C2, at the failing input. A container migration in which every call
    succeeds: [runMigration] returns success, its deferred clean-up ran
    (the removal of the temporary path was its last call but one), and yet
    the temporary path still exists, with the [rootfs] directory in it and
    the three bind mounts below it; the claim does not hold of this run. *)
Theorem temporary_path_left_behind :
  let e := sample_env None None None None in
  let h := migrateInstance_handler e "" false in
  let w := sample_world [] in
  let run := runMigration e sample_server sample_container MigrationTypeContainer h w in
  fst run = Ok tt
  /\ In (EvRemove sample_tmp) (since w (snd run))
  /\ path_exists (snd run) sample_tmp = true
  /\ path_exists (snd run) (sample_tmp ++ "/rootfs")%string = true
  /\ List.length (mounts_under (snd run) sample_tmp) = 3
  /\ ~ cleanup_claim e sample_server sample_container MigrationTypeContainer h w.
Proof.
  cbv zeta. split; [vm_compute; reflexivity|].
  split; [vm_compute; tauto|].
  split; [vm_compute; reflexivity|].
  split; [vm_compute; reflexivity|].
  split; [vm_compute; reflexivity|].
  intros H. specialize (H sample_tmp _ eq_refl). cbv zeta in H.
  destruct H as [_ H]. vm_compute in H. discriminate.
Qed.

(** The same run for a virtual machine: there the clean-up leaves nothing. *)
Lemma vm_temporary_path_removed :
  let e := sample_env None None None None in
  let h := migrateInstance_handler e "" false in
  let w := sample_world [] in
  let run := runMigration e sample_server sample_vm MigrationTypeVM h w in
  fst run = Ok tt
  /\ path_exists (snd run) sample_tmp = false
  /\ mounts_under (snd run) sample_tmp = []
  /\ fs (snd run) = fs w.
Proof. cbv zeta. repeat split; vm_compute; reflexivity. Qed.

(** ** The statements at the sample inputs *)

(** C1 at a sample: the transfer of a container fails; the handler returns
    the error and has deleted the instance once. *)
Lemma rollback_on_transfer_failure_witness :
  fst (migrateInstance_handler (sample_env None None None (Some (ErrSys "reset")))
         "" false sample_server sample_container sample_tmp MigrationTypeContainer
         (sample_world []))
  = Err (RemoteOperationError (ErrSys "reset"))
  /\ count is_delete
       (since (sample_world [])
          (snd (migrateInstance_handler
                  (sample_env None None None (Some (ErrSys "reset")))
                  "" false sample_server sample_container sample_tmp
                  MigrationTypeContainer (sample_world []))))
     = 1.
Proof.
  pose proof (rollback_on_transfer_failure
                (sample_env None None None (Some (ErrSys "reset")))
                "" false sample_server sample_container sample_tmp
                MigrationTypeContainer (sample_world [])) as H.
  cbv zeta in H. destruct H as [H _].
  destruct (H "x86_64" (RemoteOperationError (ErrSys "reset"))
              eq_refl eq_refl eq_refl (fun _ => eq_refl)) as (Hr & _ & Hc).
  split; assumption.
Defined.

(** C3 at a sample: the bind mounts of a container run are the sorted plan. *)
Lemma mount_plan_sorted_and_applied_in_order_witness :
  bind_sources
    (since (sample_world [])
       (snd (runMigration (sample_env None None None None) sample_server
               sample_container MigrationTypeContainer
               (migrateInstance_handler (sample_env None None None None) "" false)
               (sample_world []))))
  = ["/data/a"; "/data/b"; "/src/root"].
Proof.
  pose proof (mount_plan_sorted_and_applied_in_order sample_container) as H.
  cbv zeta in H. destruct H as (_ & _ & _ & _ & _ & H).
  destruct (H (sample_env None None None None) sample_server MigrationTypeContainer
              (migrateInstance_handler (sample_env None None None None) "" false)
              (sample_world []) eq_refl
              (migrateInstance_handler_remote_only _ _ _)) as ((k & Hb & Hk) & _).
  rewrite Hb, (Hk eq_refl). reflexivity.
Defined.

(** C4 at a sample: the interrupt comes during the transfer and the
    listener runs to its end; the process has exited with status 1, the
    client certificate was deleted and the instance was not. *)
Lemma interrupt_exits_without_rollback_witness :
  Interrupt.outcome_of
    (Interrupt.exec (sample_env None None None None) sample_call
       [Interrupt.RunMain; Interrupt.RunMain; Interrupt.Sigint; Interrupt.RunListener;
        Interrupt.RunListener; Interrupt.RunListener; Interrupt.RunListener;
        Interrupt.RunMain]
       (Interrupt.start (sample_world [])))
  = Interrupt.Exited 1
  /\ count is_delete
       (since (sample_world [])
          (Interrupt.p_world
             (Interrupt.exec (sample_env None None None None) sample_call
                [Interrupt.RunMain; Interrupt.RunMain; Interrupt.Sigint;
                 Interrupt.RunListener; Interrupt.RunListener; Interrupt.RunListener;
                 Interrupt.RunListener; Interrupt.RunMain]
                (Interrupt.start (sample_world [])))))
     = 0
  /\ filter is_certificate_delete
       (since (sample_world [])
          (Interrupt.p_world
             (Interrupt.exec (sample_env None None None None) sample_call
                [Interrupt.RunMain; Interrupt.RunMain; Interrupt.Sigint;
                 Interrupt.RunListener; Interrupt.RunListener; Interrupt.RunListener;
                 Interrupt.RunListener; Interrupt.RunMain]
                (Interrupt.start (sample_world [])))))
     = [EvDeleteCertificate "fingerprint"].
Proof.
  pose proof (interrupt_exits_without_rollback (sample_env None None None None)
                sample_call (sample_world [])
                [Interrupt.RunMain; Interrupt.RunMain; Interrupt.Sigint;
                 Interrupt.RunListener; Interrupt.RunListener; Interrupt.RunListener;
                 Interrupt.RunListener; Interrupt.RunMain]) as H.
  cbv zeta in H. destruct H as (_ & Hd & _ & _ & H & _).
  destruct (H 1%Z eq_refl eq_refl) as (Ho & Hc & _).
  split; [exact Ho|]. split; [exact Hc|]. exact (Hd eq_refl).
Defined.

(** C4, the claim refuted: the same interrupt; no delete call, no error. *)
Lemma rollback_on_interrupt_counterexample :
  ~ rollback_on_interrupt_claim (sample_env None None None None) sample_call
      (sample_world [])
      [Interrupt.RunMain; Interrupt.RunMain]
      [Interrupt.RunListener; Interrupt.RunListener; Interrupt.RunListener;
       Interrupt.RunListener].
Proof.
  unfold rollback_on_interrupt_claim. cbv zeta. intros H.
  assert (Hrun : Interrupt.outcome_of
                   (Interrupt.exec (sample_env None None None None) sample_call
                      [Interrupt.Sigint; Interrupt.RunListener; Interrupt.RunListener;
                       Interrupt.RunListener; Interrupt.RunListener]
                      (Interrupt.exec (sample_env None None None None) sample_call
                         [Interrupt.RunMain; Interrupt.RunMain]
                         (Interrupt.start (sample_world []))))
                 <> Interrupt.Running) by (vm_compute; discriminate).
  destruct (H eq_refl Hrun) as [Hc _]. vm_compute in Hc. discriminate.
Qed.

(** The other way the interrupt can go: the transfer sees the cancelled
    context before the listener reaches its exit, and the handler rolls
    back and returns the CancelledError. *)
Lemma cooperative_cancellation_rolls_back :
  let p :=
    Interrupt.exec (sample_env None None None None) sample_call
      [Interrupt.RunMain; Interrupt.RunMain; Interrupt.Sigint; Interrupt.RunListener;
       Interrupt.RunListener; Interrupt.RunListener; Interrupt.RunMain;
       Interrupt.RunMain]
      (Interrupt.start (sample_world [])) in
  Interrupt.outcome_of p = Interrupt.Returned (Err CancelledError)
  /\ count is_delete (since (sample_world []) (Interrupt.p_world p)) = 1.
Proof. cbv zeta. split; vm_compute; reflexivity. Qed.

(** And the third: the listener is slow, the transfer completes, and the
    handler returns success although the interrupt was received. *)
Lemma interrupt_lost_to_a_fast_transfer :
  let p :=
    Interrupt.exec (sample_env None None None None) sample_call
      [Interrupt.RunMain; Interrupt.RunMain; Interrupt.Sigint; Interrupt.RunListener;
       Interrupt.RunMain; Interrupt.RunMain]
      (Interrupt.start (sample_world [])) in
  Interrupt.outcome_of p = Interrupt.Returned (Ok tt).
Proof. vm_compute. reflexivity. Qed.

(** And a rollback that owes nothing to the cancellation: the interrupt is
    received during the transfer, the listener has not cancelled the
    context yet, and the transfer fails on its own; the handler deletes the
    instance and returns the error of the remote operation, which is not a
    CancelledError. *)
Lemma rollback_without_cancellation :
  let p :=
    Interrupt.exec (sample_env None None None (Some (ErrSys "reset"))) sample_call
      [Interrupt.RunMain; Interrupt.RunMain; Interrupt.Sigint; Interrupt.RunListener;
       Interrupt.RunMain; Interrupt.RunMain]
      (Interrupt.start (sample_world [])) in
  Interrupt.outcome_of p = Interrupt.Returned (Err (RemoteOperationError (ErrSys "reset")))
  /\ errors_Is (RemoteOperationError (ErrSys "reset")) CancelledError = false
  /\ Interrupt.p_ctx p = false
  /\ count is_delete (since (sample_world []) (Interrupt.p_world p)) = 1.
Proof. cbv zeta. repeat split; vm_compute; reflexivity. Qed.

(** The main goroutine alone makes the calls of the handler: four steps of
    it reach the result and the world of [migrateInstance_handler]. *)
Lemma main_alone_is_the_handler (e : env) (c : Interrupt.call) (w : world)
    (arch : string) :
  env_arch e = Ok arch ->
  inst_Architecture (InstanceArgs (Interrupt.c_config c)) = arch ->
  let p := Interrupt.exec e c
             [Interrupt.RunMain; Interrupt.RunMain; Interrupt.RunMain; Interrupt.RunMain]
             (Interrupt.start w) in
  let run := migrateInstance_handler e (Interrupt.c_rsyncArgs c) false
               (Interrupt.c_server c) (Interrupt.c_config c) (Interrupt.c_path c)
               (Interrupt.c_mt c) w in
  Interrupt.p_main p = Interrupt.PcDone (fst run) /\ Interrupt.p_world p = snd run.
Proof.
  intros Ha Hc. cbv zeta. unfold migrateInstance_handler. rewrite Ha.
  destruct c as [rsyncArgs server config path mt fp]. cbn [Interrupt.c_config] in Hc.
  destruct config as [sp sf ms [n t a st sm] cv pool proj]. cbn in Hc. subst a.
  unfold Interrupt.exec, Interrupt.start, with_reverter, Interrupt.step,
    Interrupt.step_main, server_CreateInstance, op_AddHandler, transferRootfs,
    progress_Done, bind, emit, fail, ret.
  cbn. destruct (env_create_instance e n); cbn; [split; reflexivity|].
  destruct (env_add_handler e); cbn; [split; reflexivity|].
  destruct (env_transfer e path); cbn; split; reflexivity.
Qed.

(** C5, the claim refuted: the source is a qcow2 image and the converter
    command is not installed; the converter is not run. *)
Lemma normalizer_claim_counterexample :
  ~ normalizer_claim (sample_env None (Some (ErrSys "not found")) None None)
      sample_tmp sample_vm sample_world_tmp.
Proof.
  unfold normalizer_claim. cbv zeta. intros [_ H].
  destruct (H (or_introl eq_refl)) as [Hc _]. vm_compute in Hc. discriminate.
Qed.

(** The claim fails as well for a block device that holds a qcow2 image:
    it is reported as a block device, and converted. *)
Lemma block_device_with_image_is_converted :
  detectSourceFormat sample_blockdev_env "/dev/sdb" = "Block device"
  /\ count is_run
       (since sample_world_tmp
          (snd (normalizeDisk sample_blockdev_env sample_tmp
                  (set_SourcePath "/dev/sdb" sample_vm) sample_world_tmp)))
     = 1.
Proof. split; vm_compute; reflexivity. Qed.

(** C5 as amended, at a sample: the qcow2 image is converted by one run of
    the converter. *)
Lemma normalizer_by_detected_extension_witness :
  count is_run
    (since sample_world_tmp
       (snd (normalizeDisk (sample_env None None None None) sample_tmp sample_vm
               sample_world_tmp)))
  = 1.
Proof.
  pose proof (normalizer_by_detected_extension (sample_env None None None None)
                sample_tmp sample_vm sample_world_tmp) as H.
  cbv zeta in H. destruct H as (_ & _ & H & _).
  destruct (H "qemu-img" ["convert"; "-O"; "raw"] eq_refl eq_refl eq_refl) as [Hc _].
  exact Hc.
Defined.


(** C7 at a sample: the three calls of the sandbox, and nothing leaked. *)
Lemma sandbox_once_before_any_mount_witness :
  count is_sandbox
    (since (sample_world [])
       (snd (runMigration (sample_env None None None None) sample_server sample_vm
               MigrationTypeVM
               (migrateInstance_handler (sample_env None None None None) "" false)
               (sample_world []))))
  = 3
  /\ leaked (snd (runMigration (sample_env None None None None) sample_server
                    sample_vm MigrationTypeVM
                    (migrateInstance_handler (sample_env None None None None) "" false)
                    (sample_world [])))
     = [].
Proof.
  pose proof (sandbox_once_before_any_mount (sample_env None None None None)
                sample_server sample_vm MigrationTypeVM
                (migrateInstance_handler (sample_env None None None None) "" false)
                (sample_world []) (migrateInstance_handler_remote_only _ _ _)) as H.
  cbv zeta in H. destruct H as (_ & Hc & _ & _ & _ & Hl).
  destruct (Hl eq_refl eq_refl) as [Hl' _].
  split; [exact Hc|exact Hl'].
Defined.

(** C8 at a sample: the arguments of the converter for the qcow2 image. *)
Lemma converter_invocation_witness :
  since sample_world_tmp
    (snd (normalizeDisk (sample_env None None None None) sample_tmp sample_vm
            sample_world_tmp))
  = [EvLookPath "qemu-img";
     EvOpenFile "/img/disk.qcow2" probe_flags; EvClose "/img/disk.qcow2";
     EvOpenFile "/tmp/incus-migrate_mount_123/converted-raw-image.img" probe_flags;
     EvRun ["nice"; "-n19"; "qemu-img"; "convert"; "-O"; "raw"; "-p"; "-t";
            "writeback"; "-T"; "none"; "/img/disk.qcow2";
            "/tmp/incus-migrate_mount_123/converted-raw-image.img"]].
Proof.
  pose proof (converter_invocation (sample_env None None None None) sample_tmp
                sample_vm sample_world_tmp) as H.
  cbv zeta in H. destruct (H eq_refl) as (_ & H2).
  destruct (H2 "qemu-img" ["convert"; "-O"; "raw"] eq_refl eq_refl) as (Hs & _).
  rewrite Hs. reflexivity.
Defined.

(** C9 at a sample: the destination is never closed in a run for a virtual
    machine. *)
Lemma destination_probe_always_fails_witness :
  ~ In (EvClose "/tmp/incus-migrate_mount_123/converted-raw-image.img")
      (since (sample_world [])
         (snd (runMigration (sample_env None None None None) sample_server sample_vm
                 MigrationTypeVM
                 (migrateInstance_handler (sample_env None None None None) "" false)
                 (sample_world [])))).
Proof.
  pose proof (destination_probe_always_fails (sample_env None None None None)
                sample_server sample_vm MigrationTypeVM
                (migrateInstance_handler (sample_env None None None None) "" false)
                (sample_world []) eq_refl (migrateInstance_handler_remote_only _ _ _))
    as H.
  cbv zeta in H. destruct H as (_ & _ & H). exact H.
Defined.

(** C10 at a sample: the user names pool, volume and source, and declines. *)
Lemma declined_volume_migration_witness :
  fst (migrateCustomVolume (sample_env None None None None) "" false sample_server
         MigrationTypeVolumeBlock (sample_world sample_declines))
  = Ok tt
  /\ count is_create
       (since (sample_world sample_declines)
          (snd (migrateCustomVolume (sample_env None None None None) "" false
                  sample_server MigrationTypeVolumeBlock
                  (sample_world sample_declines))))
     = 0.
Proof.
  pose proof (declined_volume_migration (sample_env None None None None) "" false
                sample_server MigrationTypeVolumeBlock (sample_world sample_declines)
                (snd (gatherCustomVolumeInfo_questions (sample_env None None None None)
                        sample_server MigrationTypeVolumeBlock
                        (sample_world sample_declines)))
                (mkData "/img/disk.qcow2" "qcow2" []
                   (mkInstancesPost "" "" "" "" "")
                   (mkStorageVolumesPost "vol1" "custom" "block" "migration" "push")
                   "pool0" "default")
                [] eq_refl eq_refl eq_refl) as H.
  cbv zeta in H. destruct H as (_ & Hr & _ & _ & _ & _ & Hc & _).
  split; [exact Hr|exact Hc].
Defined.
(** ** The asker *)

Lemma ask_string_from_ok (accept : string -> bool) (script rest : list answer)
    (s : string) :
  ask_string_from accept script = (Ok s, rest) ->
  accept s = true /\ In (AnsString s) script
  /\ List.length rest < List.length script.
Proof.
  induction script as [|a script IH]; simpl; [discriminate|].
  destruct a as [s'|b|n|err]; try (intros H; destruct (IH H) as (? & ? & ?);
    repeat split; auto; lia).
  - destruct (accept s') eqn:Ha.
    + intros [= <- <-]. repeat split; simpl; auto; lia.
    + intros H. destruct (IH H) as (? & ? & ?). repeat split; auto; lia.
  - discriminate.
Qed.

Lemma ask_bool_from_ok (script rest : list answer) (b : bool) :
  ask_bool_from script = (Ok b, rest) ->
  In (AnsBool b) script /\ List.length rest < List.length script.
Proof.
  induction script as [|a script IH]; simpl; [discriminate|].
  destruct a as [s'|b'|n|err]; try (intros H; destruct (IH H) as (? & ?);
    repeat split; auto; lia).
  - intros [= <- <-]. split; simpl; auto; lia.
  - discriminate.
Qed.

Lemma ask_int_from_ok (lo hi : Z) (script rest : list answer) (n : Z) :
  ask_int_from lo hi script = (Ok n, rest) ->
  (lo <= n <= hi)%Z /\ In (AnsInt n) script
  /\ List.length rest < List.length script.
Proof.
  induction script as [|a script IH]; simpl; [discriminate|].
  destruct a as [s'|b'|n'|err]; try (intros H; destruct (IH H) as (? & ? & ?);
    repeat split; auto; lia).
  - destruct (Z.leb lo n' && Z.leb n' hi) eqn:Hb.
    + intros [= <- <-]. apply andb_prop in Hb as [H1 H2].
      apply Z.leb_le in H1, H2. repeat split; simpl; auto; lia.
    + intros H. destruct (IH H) as (? & ? & ?). repeat split; auto; lia.
  - discriminate.
Qed.

Lemma ask_string_from_length (accept : string -> bool) (script : list answer) :
  List.length (snd (ask_string_from accept script)) <= List.length script.
Proof.
  induction script as [|a script IH]; simpl; [lia|].
  destruct a; simpl; try lia. destruct (accept s); simpl; lia.
Qed.

Lemma ask_bool_from_length (script : list answer) :
  List.length (snd (ask_bool_from script)) <= List.length script.
Proof.
  induction script as [|a script IH]; simpl; [lia|]. destruct a; simpl; lia.
Qed.

Lemma ask_int_from_length (lo hi : Z) (script : list answer) :
  List.length (snd (ask_int_from lo hi script)) <= List.length script.
Proof.
  induction script as [|a script IH]; simpl; [lia|].
  destruct a; simpl; try lia. destruct (Z.leb lo n && Z.leb n hi); simpl; lia.
Qed.


Lemma ask_string_from_err (accept : string -> bool) (script rest : list answer)
    (err : error) :
  ask_string_from accept script = (Err err, rest) -> read_error script err.
Proof.
  unfold read_error. induction script as [|a script IH]; simpl.
  - intros [= <- _]. now left.
  - destruct a as [s'|b'|n'|err']; try (intros H; destruct (IH H); auto).
    + destruct (accept s'); [discriminate|]. intros H. destruct (IH H); auto.
    + intros [= <- _]. right. now left.
Qed.

Lemma ask_bool_from_err (script rest : list answer) (err : error) :
  ask_bool_from script = (Err err, rest) -> read_error script err.
Proof.
  unfold read_error. induction script as [|a script IH]; simpl.
  - intros [= <- _]. now left.
  - destruct a as [s'|b'|n'|err']; try (intros H; destruct (IH H); auto).
    + discriminate.
    + intros [= <- _]. right. now left.
Qed.

Lemma ask_int_from_err (lo hi : Z) (script rest : list answer) (err : error) :
  ask_int_from lo hi script = (Err err, rest) -> read_error script err.
Proof.
  unfold read_error. induction script as [|a script IH]; simpl.
  - intros [= <- _]. now left.
  - destruct a as [s'|b'|n'|err']; try (intros H; destruct (IH H); auto).
    + destruct (Z.leb lo n' && Z.leb n' hi); [discriminate|].
      intros H. destruct (IH H); auto.
    + intros [= <- _]. right. now left.
Qed.


Lemma AskString_eq (question : string) (accept : string -> bool) (w : world) :
  AskString question accept w
  = (fst (ask_string_from accept (input w)),
     asked question (snd (ask_string_from accept (input w))) w).
Proof. reflexivity. Qed.

Lemma AskBool_eq (question : string) (w : world) :
  AskBool question w
  = (fst (ask_bool_from (input w)), asked question (snd (ask_bool_from (input w))) w).
Proof. reflexivity. Qed.

Lemma AskInt_eq (question : string) (lo hi : Z) (w : world) :
  AskInt question lo hi w
  = (fst (ask_int_from lo hi (input w)),
     asked question (snd (ask_int_from lo hi (input w))) w).
Proof. reflexivity. Qed.

Lemma AskString_ok (question : string) (accept : string -> bool) (w w' : world)
    (s : string) :
  AskString question accept w = (Ok s, w') ->
  accept s = true /\ In (AnsString s) (input w)
  /\ List.length (input w') < List.length (input w)
  /\ exists rest, w' = asked question rest w.
Proof.
  rewrite AskString_eq.
  destruct (ask_string_from accept (input w)) as [r rest] eqn:E. cbn [fst snd].
  intros [= -> <-]. destruct (ask_string_from_ok _ _ _ _ E) as (? & ? & ?).
  repeat split; auto. now exists rest.
Qed.

Lemma AskBool_ok (question : string) (w w' : world) (b : bool) :
  AskBool question w = (Ok b, w') ->
  In (AnsBool b) (input w)
  /\ List.length (input w') < List.length (input w)
  /\ exists rest, w' = asked question rest w.
Proof.
  rewrite AskBool_eq.
  destruct (ask_bool_from (input w)) as [r rest] eqn:E. cbn [fst snd].
  intros [= -> <-]. destruct (ask_bool_from_ok _ _ _ E) as (? & ?).
  repeat split; auto. now exists rest.
Qed.

Lemma AskInt_ok (question : string) (lo hi : Z) (w w' : world) (n : Z) :
  AskInt question lo hi w = (Ok n, w') ->
  (lo <= n <= hi)%Z /\ In (AnsInt n) (input w)
  /\ List.length (input w') < List.length (input w)
  /\ exists rest, w' = asked question rest w.
Proof.
  rewrite AskInt_eq.
  destruct (ask_int_from lo hi (input w)) as [r rest] eqn:E. cbn [fst snd].
  intros [= -> <-]. destruct (ask_int_from_ok _ _ _ _ _ E) as ([? ?] & ? & ?).
  repeat split; auto. now exists rest.
Qed.

Lemma bind_inv {A B : Type} (c : M A) (k : A -> M B) (w w' : world) (b : B) :
  bind c k w = (Ok b, w') ->
  exists a w1, c w = (Ok a, w1) /\ k a w1 = (Ok b, w').
Proof.
  unfold bind. destruct (c w) as [[a|err] w1]; [|discriminate]. eauto.
Qed.

Lemma ask_string_from_suffix (accept : string -> bool) (script : list answer) :
  exists consumed, script = consumed ++ snd (ask_string_from accept script).
Proof.
  induction script as [|a script [c IH]]; [now exists []|]. simpl.
  destruct a; simpl; try (exists (a :: c); simpl; congruence);
    try (eexists (_ :: c); simpl; f_equal; exact IH).
  - destruct (accept s); simpl; [now exists [AnsString s]|].
    exists (AnsString s :: c). simpl. now f_equal.
  - now exists [AnsErr e].
Qed.

Lemma ask_bool_from_suffix (script : list answer) :
  exists consumed, script = consumed ++ snd (ask_bool_from script).
Proof.
  induction script as [|a script [c IH]]; [now exists []|]. simpl.
  destruct a; simpl; try (eexists (_ :: c); simpl; f_equal; exact IH).
  - now exists [AnsBool b].
  - now exists [AnsErr e].
Qed.

Lemma ask_int_from_suffix (lo hi : Z) (script : list answer) :
  exists consumed, script = consumed ++ snd (ask_int_from lo hi script).
Proof.
  induction script as [|a script [c IH]]; [now exists []|]. simpl.
  destruct a; simpl; try (eexists (_ :: c); simpl; f_equal; exact IH).
  - destruct (Z.leb lo n && Z.leb n hi); simpl; [now exists [AnsInt n]|].
    exists (AnsInt n :: c). simpl. now f_equal.
  - now exists [AnsErr e].
Qed.

Lemma reads_refl (w : world) : reads w w.
Proof. now exists []. Qed.

Lemma reads_trans (a b c : world) : reads a b -> reads b c -> reads a c.
Proof.
  intros [l1 H1] [l2 H2]. exists (l1 ++ l2). now rewrite H1, H2, app_assoc.
Qed.

Lemma reads_In (w w' : world) (a : answer) :
  reads w w' -> In a (input w') -> In a (input w).
Proof. intros [l ->] H. apply in_or_app. now right. Qed.

Lemma reads_length (w w' : world) :
  reads w w' -> List.length (input w') <= List.length (input w).
Proof. intros [l ->]. rewrite length_app. lia. Qed.

Lemma reads_same (w w' : world) : input w' = input w -> reads w w'.
Proof. intros E. exists []. now rewrite E. Qed.

Lemma AskString_reads (question : string) (accept : string -> bool) :
  preserves reads (AskString question accept).
Proof. intros w. rewrite AskString_eq. apply ask_string_from_suffix. Qed.

Lemma AskBool_reads (question : string) : preserves reads (AskBool question).
Proof. intros w. rewrite AskBool_eq. apply ask_bool_from_suffix. Qed.

Lemma AskInt_reads (question : string) (lo hi : Z) :
  preserves reads (AskInt question lo hi).
Proof. intros w. rewrite AskInt_eq. apply ask_int_from_suffix. Qed.

Lemma emit_reads (ev : event) : preserves reads (emit ev).
Proof. intros w. now apply reads_same. Qed.

Ltac reads_prims :=
  idtac;
  lazymatch goal with
  | |- preserves _ (AskString _ _) => apply AskString_reads
  | |- preserves _ (AskChoice _ _) => apply AskString_reads
  | |- preserves _ (AskBool _) => apply AskBool_reads
  | |- preserves _ (AskInt _ _ _) => apply AskInt_reads
  | |- preserves _ (emit _) => apply emit_reads
  | |- preserves _ (match ?x with _ => _ end) => destruct x
  end.

Ltac reads_steps := steps reads_refl reads_trans reads_prims.

Lemma askSourcePath_reads (e : env) (config : cmdMigrateData) (mt : MigrationType) :
  preserves reads (askSourcePath e config mt).
Proof.
  intros w. unfold askSourcePath.
  match goal with
  | |- reads w (snd (?c w)) => assert (H : preserves reads c); [|exact (H w)]
  end.
  reads_steps.
Qed.

Lemma askProject_reads (e : env) (config : cmdMigrateData) :
  preserves reads (askProject e config).
Proof. unfold askProject. reads_steps. Qed.

Lemma questions_reads (e : env) (server : InstanceServer) (mt : MigrationType) :
  preserves reads (gatherCustomVolumeInfo_questions e server mt).
Proof.
  unfold gatherCustomVolumeInfo_questions. reads_steps.
  - apply askProject_reads.
  - apply askSourcePath_reads.
Qed.
(** ** The project and the source path *)

Lemma contains_In (l : list string) (s : string) : contains l s = true <-> In s l.
Proof.
  unfold contains. rewrite existsb_exists. split.
  - intros (x & Hx & Heq). apply String.eqb_eq in Heq. now subst.
  - intros H. exists s. split; [exact H|apply String.eqb_refl].
Qed.

Lemma askProject_ok (e : env) (config config' : cmdMigrateData) (w w' : world) :
  askProject e config w = (Ok config', w') ->
  exists project names,
    config' = set_Project project config
    /\ fs w' = fs w
    /\ env_project_names e = Ok names
    /\ (List.length names <= 1 /\ project = "default" /\ input w' = input w
        \/ 1 < List.length names /\ In project names
           /\ In (AnsString project) (input w)).
Proof.
  intros H.
  assert (Hfs : fs w' = fs w).
  { pose proof (askProject_only_asked e config w) as (_ & E & _).
    now rewrite H in E. }
  unfold askProject in H. apply bind_inv in H as (u & w1 & Hemit & H).
  injection Hemit as _ <-.
  destruct (env_project_names e) as [names|err]; [|discriminate].
  destruct (Nat.ltb 1 (List.length names)) eqn:Hlen.
  - apply Nat.ltb_lt in Hlen. apply bind_inv in H as (project & w2 & Hask & H).
    injection H as <- <-. apply AskString_ok in Hask as (Hacc & Hin & _).
    exists project, names. repeat split; auto. right.
    repeat split; auto. now apply contains_In.
  - apply Nat.ltb_ge in Hlen. injection H as <- <-.
    exists "default", names. repeat split; auto.
Qed.

Lemma askSourcePath_ok (e : env) (config config' : cmdMigrateData)
    (mt : MigrationType) (w w' : world) :
  askSourcePath e config mt w = (Ok config', w') ->
  exists s,
    config'
    = set_SourcePath s
        (if isDiskType mt then set_SourceFormat (detectSourceFormat e s) config
         else config)
    /\ path_exists w s = true
    /\ env_stat e s = None
    /\ In (AnsString s) (input w).
Proof.
  unfold askSourcePath. intros H. apply bind_inv in H as (s & w1 & Hask & H).
  injection H as <- <-. apply AskString_ok in Hask as (Hacc & Hin & _).
  apply andb_prop in Hacc as [Hex Hst]. exists s.
  repeat split; auto. destruct (env_stat e s); [discriminate|reflexivity].
Qed.

Lemma only_asked_fs {A : Type} (c : M A) (w : world) :
  preserves only_asked c -> fs (snd (c w)) = fs w.
Proof. intros H. now destruct (H w) as (_ & ? & _). Qed.

(** X1. What [gatherCustomVolumeInfo] returns without an error is either
    the empty configuration, when the user declined, or a configuration
    with a name that is not empty and is not that of a custom volume of the
    pool, a pool the server lists, a source path that exists, and the
    content type of the migration: the test of [migrateCustomVolume] on the
    empty name tells the two apart. *)
Theorem gatherCustomVolumeInfo_valid_or_declined (e : env) (server : InstanceServer)
    (mt : MigrationType) (w w' : world) (config : cmdMigrateData) :
  gatherCustomVolumeInfo e server mt w = (Ok config, w') ->
  (config = empty_cmdMigrateData /\ In (AnsBool false) (input w))
  \/
  (vol_Name (CustomVolumeArgs config) <> ""
   /\ In (AnsBool true) (input w)
   /\ (exists pools, env_storage_pools e = Ok pools /\ In (Pool config) pools)
   /\ (exists volumes,
         env_volumes e (Pool config) = Ok volumes
         /\ ~ In (vol_Name (CustomVolumeArgs config), "custom") volumes)
   /\ path_exists w (SourcePath config) = true
   /\ (isDiskType mt = false -> SourceFormat config = "")
   /\ CustomVolumeArgs config
      = mkStorageVolumesPost (vol_Name (CustomVolumeArgs config)) "custom"
          (match mt with
           | MigrationTypeVolumeFilesystem => "filesystem"
           | _ => "block"
           end) "migration" "push"
   /\ Mounts config = []
   /\ (Project config = "default"
       \/ exists names, env_project_names e = Ok names /\ In (Project config) names)).
Proof.
  unfold gatherCustomVolumeInfo. intros H.
  apply bind_inv in H as (c & w1 & Hq & H).
  apply bind_inv in H as (shouldMigrate & w2 & Hb & H).
  assert (Hr : reads w w1).
  { pose proof (questions_reads e server mt w) as E. now rewrite Hq in E. }
  apply AskBool_ok in Hb as (Hb & _).
  apply (reads_In _ _ _ Hr) in Hb.
  destruct shouldMigrate; cbn [negb] in H; injection H as <- <-;
    [right|left; split; [reflexivity|exact Hb]].
  clear w2. unfold gatherCustomVolumeInfo_questions in Hq.
  apply bind_inv in Hq as (c1 & w2 & Hp & Hq).
  apply askProject_ok in Hp as (project & names & -> & Hfs2 & Hn & Hproj).
  apply bind_inv in Hq as (u & w3 & Hemit & Hq). injection Hemit as _ <-.
  destruct (env_storage_pools e) as [pools|err]; [|discriminate].
  apply bind_inv in Hq as (poolName & w4 & Hpool & Hq).
  apply AskString_ok in Hpool as (Hpacc & _ & _ & rest4 & ->).
  apply bind_inv in Hq as (u' & w5 & Hemit & Hq). injection Hemit as _ <-.
  cbn [Pool set_Pool] in Hq.
  destruct (env_volumes e poolName) as [volumes|err] eqn:Hv; [|discriminate].
  apply bind_inv in Hq as (volumeName & w6 & Hvol & Hq).
  apply AskString_ok in Hvol as (Hvacc & _ & _ & rest6 & ->).
  apply askSourcePath_ok in Hq as (s & -> & Hex & _).
  apply andb_prop in Hpacc as [_ Hpin]. apply andb_prop in Hvacc as [Hvne Hvnot].
  apply contains_In in Hpin.
  split.
  { destruct (isDiskType mt); cbn; intros ->; discriminate. }
  split; [exact Hb|].
  split.
  { exists pools. split; [reflexivity|]. destruct (isDiskType mt); exact Hpin. }
  split.
  { exists volumes. split.
    - destruct (isDiskType mt); exact Hv.
    - intros Hin. apply negb_true_iff in Hvnot.
      assert (Hc : contains
                     (map fst (filter (fun v : string * string => snd v =? "custom")
                                 volumes)) volumeName = true).
      { apply contains_In, in_map_iff. eexists. split; [|apply filter_In; split;
          [exact Hin|reflexivity]].
        destruct (isDiskType mt); reflexivity. }
      congruence. }
  split.
  { unfold path_exists in *. cbn [fs set_trace set_input asked] in Hex.
    rewrite Hfs2 in Hex. destruct (isDiskType mt); exact Hex. }
  split.
  { intros ->. reflexivity. }
  split.
  { destruct mt; reflexivity. }
  split.
  { destruct (isDiskType mt); reflexivity. }
  destruct Hproj as [(_ & -> & _)|(_ & Hin & _)].
  - left. destruct (isDiskType mt); reflexivity.
  - right. exists names. split; [exact Hn|]. destruct (isDiskType mt); exact Hin.
Qed.
Lemma since_nil (w w' : world) : trace w' = trace w -> since w w' = [].
Proof. intros H. apply since_app. now rewrite app_nil_r. Qed.

Ltac handler_since :=
  repeat match goal with
         | |- context [since ?w ?w'] =>
             first [ rewrite (since_nil w w') by reflexivity
                   | erewrite (since_app w w')
                       by (cbn [trace set_trace]; rewrite <- ?app_assoc; reflexivity) ]
         end.

(** X2. The two handlers roll back exactly what they created: in every run
    of the handler of [migrateInstance] and of that of [migrateCustomVolume]
    at most one resource is created; one deletion is made when the resource
    was created and the handler returns an error, and none otherwise; the
    deletion is the last call, and it names the instance, or the pool and
    the custom volume, that the run created. *)
Theorem rollback_exactly_after_creation
    (e : env) (rsyncArgs : string) (ctx : Context) (server : InstanceServer)
    (config : cmdMigrateData) (path : string) (mt : MigrationType) (w : world) :
  let project := srv_project server in
  let iname := inst_Name (InstanceArgs config) in
  let vname := vol_Name (CustomVolumeArgs config) in
  let inst := migrateInstance_handler e rsyncArgs ctx server config path mt w in
  let vol := migrateCustomVolume_handler e rsyncArgs ctx server config path mt w in
  let icreated := is_ok (env_arch e) && is_none (env_create_instance e iname) in
  let vcreated := is_none (env_create_volume e (Pool config) vname) in
  (count is_create (since w (snd inst)) <= 1
   /\ count is_delete (since w (snd inst))
      = (if icreated && negb (is_ok (fst inst)) then 1 else 0)
   /\ forall ev, In ev (since w (snd inst)) -> is_delete ev = true ->
        ev = EvDeleteInstance project iname
        /\ last (since w (snd inst)) EvAddHandler = ev
        /\ In (EvCreateInstance project iname) (since w (snd inst)))
  /\
  (count is_create (since w (snd vol)) <= 1
   /\ count is_delete (since w (snd vol))
      = (if vcreated && negb (is_ok (fst vol)) then 1 else 0)
   /\ forall ev, In ev (since w (snd vol)) -> is_delete ev = true ->
        ev = EvDeleteVolume project (Pool config) "custom" vname
        /\ last (since w (snd vol)) EvAddHandler = ev
        /\ In (EvCreateVolume project (Pool config) vname) (since w (snd vol))).
Proof.
  cbv zeta. split.
  - unfold migrateInstance_handler.
    destruct (env_arch e) as [arch|err].
    + handler_cases e ctx path; handler_since;
        (split; [cbn; lia|]); (split; [reflexivity|]);
        intros ev Hin Hd; simpl in Hin;
        repeat (destruct Hin as [<-|Hin]; try discriminate Hd);
        try contradiction; repeat split; simpl; tauto.
    + unfold fail. cbn [fst snd]. rewrite since_same.
      repeat split; try (cbn; lia); contradiction.
  - unfold migrateCustomVolume_handler.
    handler_cases e ctx path; handler_since;
      (split; [cbn; lia|]); (split; [reflexivity|]);
      intros ev Hin Hd; simpl in Hin;
      repeat (destruct Hin as [<-|Hin]; try discriminate Hd);
      try contradiction; repeat split; simpl; tauto.
Qed.
(** ** Predicates kept along a computation *)

Section Leads.

Variable P : world -> Prop.

Lemma leads_ret {A : Type} (a : A) : leads P P (ret a).
Proof. intros w H. exact H. Qed.

Lemma leads_fail {A : Type} (err : error) : leads P P (@fail A err).
Proof. intros w H. exact H. Qed.

Lemma leads_bind {A B : Type} (c : M A) (k : A -> M B) :
  leads P P c -> (forall a, leads P P (k a)) -> leads P P (bind c k).
Proof.
  intros Hc Hk w H. unfold bind. specialize (Hc w H).
  destruct (c w) as [[a|err] w1]; cbn [snd] in *; [now apply Hk|exact Hc].
Qed.

Lemma leads_ignore {A : Type} (c : M A) : leads P P c -> leads P P (ignore c).
Proof. intros Hc w H. exact (Hc w H). Qed.

Lemma leads_attempt {A : Type} (c : M A) : leads P P c -> leads P P (attempt c).
Proof. intros Hc w H. exact (Hc w H). Qed.

Lemma leads_wrapErr {A : Type} (f : error -> error) (c : M A) :
  leads P P c -> leads P P (wrapErr f c).
Proof.
  intros Hc w H. unfold wrapErr. specialize (Hc w H).
  destruct (c w) as [[a|err] w1]; exact Hc.
Qed.

Lemma leads_if {A : Type} (b : bool) (c1 c2 : M A) :
  leads P P c1 -> leads P P c2 -> leads P P (if b then c1 else c2).
Proof. destruct b; auto. Qed.

Lemma leads_emit (ev : event) :
  (forall w, P w -> P (set_trace (trace w ++ [ev]) w)) -> leads P P (emit ev).
Proof. intros Hp w H. now apply Hp. Qed.

End Leads.

Lemma leads_then (P Q R : world -> Prop) {A B : Type} (c : M A) (k : A -> M B) :
  leads P Q c -> (forall a, leads Q R (k a)) -> (forall w, Q w -> R w) ->
  leads P R (bind c k).
Proof.
  intros Hc Hk Hq w H. unfold bind. specialize (Hc w H).
  destruct (c w) as [[a|err] w1]; cbn [snd] in *; [now apply Hk|now apply Hq].
Qed.

Lemma leads_weaken (P Q Q' : world -> Prop) {A : Type} (c : M A) :
  leads P Q c -> (forall w, Q w -> Q' w) -> leads P Q' c.
Proof. intros Hc Hq w H. apply Hq. now apply Hc. Qed.

(** Takes a computation apart along its syntax, as [steps] does. *)
Ltac leads_steps prims :=
  repeat lazymatch goal with
         | |- leads _ _ (bind _ _) => apply leads_bind; [|intros ?]
         | |- leads _ _ (wrapErr _ _) => apply leads_wrapErr
         | |- leads _ _ (ignore _) => apply leads_ignore
         | |- leads _ _ (attempt _) => apply leads_attempt
         | |- leads _ _ (ret _) => apply leads_ret
         | |- leads _ _ (fail _) => apply leads_fail
         | |- leads _ _ (if _ then _ else _) => apply leads_if
         | |- leads _ _ _ => progress prims
         end.

(** ** Paths in the temporary path *)

Lemma prefix_app_cancel (a b c : string) :
  String.prefix (a ++ b) (a ++ c) = String.prefix b c.
Proof.
  induction a as [|x a IH]; simpl; [reflexivity|].
  destruct (ascii_dec x x); [exact IH|congruence].
Qed.

Lemma prefix_trans (a b c : string) :
  String.prefix a b = true -> String.prefix b c = true -> String.prefix a c = true.
Proof.
  revert b c. induction a as [|x a IH]; intros b c; [now destruct c|].
  destruct b as [|y b]; simpl; [discriminate|].
  destruct c as [|z c]; simpl.
  - destruct (ascii_dec x y); [|discriminate]. intros _ H. discriminate.
  - destruct (ascii_dec x y) as [->|]; [|discriminate].
    destruct (ascii_dec y z) as [->|]; [|discriminate]. apply IH.
Qed.

Lemma beneath_child (dir name q : string) :
  beneath (filepath_Join dir name) q = true -> beneath dir q = true.
Proof.
  unfold beneath, filepath_Join. intros H.
  eapply prefix_trans; [|exact H].
  assert (E : ((dir ++ "/" ++ name) ++ "/" = (dir ++ "/") ++ (name ++ "/"))%string)
    by now rewrite !string_append_assoc.
  rewrite E. apply prefix_append.
Qed.

Lemma prefix_longer (a b : string) :
  String.length b < String.length a -> String.prefix a b = false.
Proof.
  revert b. induction a as [|x a IH]; intros b H; [simpl in H; lia|].
  destruct b as [|y b]; simpl; [reflexivity|].
  destruct (ascii_dec x y); [|reflexivity]. apply IH. simpl in H. lia.
Qed.

Lemma beneath_self_longer (dir q : string) :
  String.length q <= String.length dir -> beneath dir q = false.
Proof.
  intros H. unfold beneath. apply prefix_longer.
  rewrite append_length. simpl. lia.
Qed.

Lemma beneath_sibling (dir a b : string) :
  String.prefix (a ++ "/") b = false ->
  beneath (filepath_Join dir a) (filepath_Join dir b) = false.
Proof.
  unfold beneath, filepath_Join. intros H.
  rewrite !string_append_assoc, prefix_app_cancel. simpl.
  destruct (ascii_dec "/" "/"); [exact H|congruence].
Qed.

Lemma Join_inj (dir a b : string) : filepath_Join dir a = filepath_Join dir b -> a = b.
Proof.
  unfold filepath_Join. intros H. apply string_append_inj in H. now injection H.
Qed.

Lemma filter_absent (p : string) (l : list string) :
  ~ In p l -> filter (fun q => negb (String.eqb q p)) l = l.
Proof.
  induction l as [|x l IH]; simpl; [reflexivity|]. intros H.
  destruct (String.eqb_spec x p) as [->|Hne]; simpl.
  - exfalso. apply H. now left.
  - f_equal. apply IH. tauto.
Qed.
(** ** The temporary path of a disk migration *)

Lemma set_ro_absent (target : string) (ro : bool) (ms : list mount) :
  (forall m, In m ms -> mnt_target m <> target) -> set_ro target ro ms = None.
Proof.
  induction ms as [|m ms IH]; simpl; [reflexivity|]. intros H.
  destruct (String.eqb_spec (mnt_target m) target) as [E|_].
  - exfalso. exact (H m (or_introl eq_refl) E).
  - rewrite IH; [reflexivity|]. intros m' Hm'. apply H. now right.
Qed.

Lemma remove_first_at_absent (target : string) (ms : list mount) :
  (forall m, In m ms -> mnt_target m <> target) -> remove_first_at target ms = ms.
Proof.
  induction ms as [|m ms IH]; simpl; [reflexivity|]. intros H.
  destruct (String.eqb_spec (mnt_target m) target) as [E|_].
  - exfalso. exact (H m (or_introl eq_refl) E).
  - f_equal. apply IH. intros m' Hm'. apply H. now right.
Qed.

Lemma detach_absent (target : string) (ms : list mount) :
  (forall m, In m ms -> beneath target (mnt_target m) = false) ->
  filter (fun m => negb (beneath target (mnt_target m))) ms = ms.
Proof.
  induction ms as [|m ms IH]; simpl; [reflexivity|]. intros H.
  rewrite (H m (or_introl eq_refl)). simpl. f_equal. apply IH.
  intros m' Hm'. apply H. now right.
Qed.

Lemma mounted_at_false (w : world) (p : string) :
  (forall m, In m (mounts w) -> mnt_target m <> p) -> mounted_at w p = false.
Proof.
  intros H. unfold mounted_at. destruct (existsb _ _) eqn:E; [|reflexivity].
  apply existsb_exists in E as (m & Hm & Heq). apply String.eqb_eq in Heq.
  exfalso. exact (H m Hm Heq).
Qed.

Section Scratch.

Variables (e : env) (w0 : world) (path : string).
Hypothesis Hfresh : fresh_in w0 path.

Let conv := filepath_Join path "converted-raw-image.img".
Let rimg := filepath_Join path "root.img".

Lemma scratch_set_trace (b : nat) (t : list event) (w : world) :
  scratch w0 path b w -> scratch w0 path b (set_trace t w).
Proof. intros H. exact H. Qed.

Lemma scratch_more (b b' : nat) (w : world) :
  b <= b' -> scratch w0 path b w -> scratch w0 path b' w.
Proof.
  intros Hb (files & ms & H1 & H2 & H3 & H4 & H5).
  exists files, ms. repeat split; auto. lia.
Qed.

Lemma scratch_add_file (b : nat) (q : string) (w : world) :
  q = conv \/ q = rimg ->
  scratch w0 path b w -> scratch w0 path b (set_fs (q :: fs w) w).
Proof.
  intros Hq (files & ms & H1 & H2 & H3 & H4 & H5).
  exists (q :: files), ms. cbn [fs mounts set_fs]. rewrite H1.
  repeat split; auto. intros q' [<-|Hin]; auto.
Qed.

Lemma scratch_LookPath (b : nat) (cmd : string) :
  leads (scratch w0 path b) (scratch w0 path b) (exec_LookPath e cmd).
Proof.
  intros w H. unfold exec_LookPath, bind, emit, fail, ret. cbn [fst snd].
  destruct (env_lookpath e cmd); exact H.
Qed.

Lemma scratch_OpenFile (b : nat) (p : string) (flags : Z) :
  leads (scratch w0 path b) (scratch w0 path b) (os_OpenFile e p flags).
Proof.
  intros w H. unfold os_OpenFile, bind, emit. cbn [fst snd].
  destruct (open_succeeds _ _ _ _); exact H.
Qed.

Lemma scratch_Close (b : nat) (p : string) :
  leads (scratch w0 path b) (scratch w0 path b) (file_Close p).
Proof. intros w H. exact H. Qed.

Lemma scratch_Run (b : nat) (argv : list string) :
  last argv "" = conv ->
  leads (scratch w0 path b) (scratch w0 path b) (exec_Run e argv).
Proof.
  intros Hl w H. unfold exec_Run, bind, emit, fail. cbn [fst snd].
  destruct (env_run e argv); [exact H|]. cbn [fst snd]. rewrite Hl.
  destruct (path_exists _ conv); [exact H|].
  apply (scratch_add_file b conv); [now left|exact H].
Qed.

Lemma scratch_directIOProbe (b : nat) (p : string) :
  leads (scratch w0 path b) (scratch w0 path b) (directIOProbe e p).
Proof.
  unfold directIOProbe.
  leads_steps ltac:(first [apply scratch_OpenFile|apply scratch_Close]).
Qed.

Lemma scratch_normalizeDisk (b : nat) (config : cmdMigrateData) :
  leads (scratch w0 path b) (scratch w0 path b) (normalizeDisk e path config).
Proof.
  unfold normalizeDisk. destruct (env_detect e (SourcePath config)) as [ext convCmd].
  destruct (isConvertible ext); [|apply leads_ret].
  destruct convCmd as [|convCmd0 convCmd]; [apply leads_fail|].
  apply leads_bind; [apply leads_attempt, scratch_LookPath|].
  intros [u|err]; [|apply leads_fail].
  apply leads_bind; [apply scratch_directIOProbe|intros fromDirect].
  apply leads_bind; [apply scratch_directIOProbe|intros toDirect].
  apply leads_bind; [|intros _; apply leads_ret].
  apply leads_wrapErr, scratch_Run, converterArgs_last.
Qed.

Lemma scratch_WriteFile (b : nat) :
  leads (scratch w0 path b) (scratch w0 path b) (os_WriteFile e rimg).
Proof.
  intros w H. unfold os_WriteFile, bind, emit, fail. cbn [fst snd].
  destruct (env_writefile e rimg); [exact H|].
  destruct (mount_at _ rimg) as [m|].
  - destruct (mnt_ro m); exact H.
  - cbn [fst snd]. destruct (path_exists _ rimg); [exact H|].
    apply (scratch_add_file b rimg); [now right|exact H].
Qed.

Lemma has_flag_bind_remount : has_flag MS_BIND MS_REMOUNT = false.
Proof. reflexivity. Qed.

Lemma has_flag_bind_bind : has_flag MS_BIND MS_BIND = true.
Proof. reflexivity. Qed.

Lemma has_flag_remount_ro : has_flag remount_ro MS_REMOUNT = true.
Proof. reflexivity. Qed.

Lemma scratch_bind_mount (source : string) :
  leads (scratch w0 path 0) (scratch w0 path 1)
    (unix_Mount e source rimg "none" MS_BIND "").
Proof.
  intros w H. pose proof (scratch_more 0 1 w (Nat.le_succ_diag_r 0) H) as H'.
  unfold unix_Mount, bind, emit, fail. cbn [fst snd].
  destruct (env_mount e source rimg MS_BIND); [exact H'|].
  rewrite has_flag_bind_remount, has_flag_bind_bind.
  destruct (path_exists _ rimg); [|exact H']. cbn [snd].
  assert (H1 : scratch w0 path 1
                 (set_mounts (mkMount source rimg false :: mounts w) w)).
  { destruct H as (files & ms & H1 & H2 & H3 & H4 & H5).
    destruct ms; [|simpl in H4; lia].
    exists files, [mkMount source rimg false]. cbn [fs mounts set_mounts].
    rewrite H3. repeat split; auto. intros m [<-|[]]. reflexivity. }
  cbn [ns set_trace mounts]. destruct (ns w); exact H1.
Qed.

Lemma fresh_mount_not_at (m : mount) (name : string) :
  In m (mounts w0) -> mnt_target m <> filepath_Join path name.
Proof.
  intros Hm E. destruct Hfresh as [_ Hf]. specialize (Hf m Hm).
  unfold at_or_beneath in Hf. rewrite E, beneath_Join, orb_true_r in Hf. discriminate.
Qed.

Lemma fresh_mount_not_path (m : mount) : In m (mounts w0) -> mnt_target m <> path.
Proof.
  intros Hm E. destruct Hfresh as [_ Hf]. specialize (Hf m Hm).
  unfold at_or_beneath in Hf. rewrite E, String.eqb_refl in Hf. discriminate.
Qed.

Lemma fresh_mount_not_beneath (m : mount) (name : string) :
  In m (mounts w0) -> beneath (filepath_Join path name) (mnt_target m) = false.
Proof.
  intros Hm. destruct Hfresh as [_ Hf]. specialize (Hf m Hm).
  destruct (beneath (filepath_Join path name) _) eqn:B; [|reflexivity].
  apply beneath_child in B. unfold at_or_beneath in Hf.
  rewrite B, orb_true_r in Hf. discriminate.
Qed.

Lemma scratch_remount (b : nat) :
  leads (scratch w0 path b) (scratch w0 path b)
    (unix_Mount e "" rimg "none" remount_ro "").
Proof.
  intros w H. unfold unix_Mount, bind, emit, fail. cbn [fst snd].
  destruct (env_mount e "" rimg remount_ro); [exact H|].
  rewrite has_flag_remount_ro. cbn [mounts set_trace].
  destruct H as (files & ms & H1 & H2 & H3 & H4 & H5). rewrite H3.
  destruct ms as [|m ms].
  - rewrite set_ro_absent.
    + exists files, []. auto.
    + intros m Hm. now apply fresh_mount_not_at.
  - cbn [app set_ro]. rewrite (H5 m (or_introl eq_refl)), String.eqb_refl.
    cbn [snd]. exists files, (mkMount (mnt_source m) rimg (has_flag remount_ro MS_RDONLY) :: ms).
    cbn [fs mounts set_mounts set_trace]. repeat split; auto.
    intros m' [<-|Hm']; [reflexivity|]. apply H5. now right.
Qed.

Lemma scratch_mountImage (config : cmdMigrateData) :
  leads (scratch w0 path 0) (scratch w0 path 1) (mountImage e path config).
Proof.
  unfold mountImage. cbv zeta. fold rimg.
  eapply leads_then; [apply leads_wrapErr, scratch_WriteFile| |].
  2:{ intros w. apply scratch_more. lia. }
  intros _.
  eapply leads_then with (Q := scratch w0 path 1); [| |auto].
  - intros w H. unfold wrapErr.
    pose proof (scratch_bind_mount (SourcePath config) w H) as Hb.
    destruct (unix_Mount _ _ _ _ _ _ w) as [[u|err] w1]; exact Hb.
  - intros _. apply leads_wrapErr, scratch_remount.
Qed.

Lemma scratch_handler (b : nat) (h : Handler) (server : InstanceServer)
    (config : cmdMigrateData) (p : string) (mt : MigrationType) :
  remote_only h ->
  leads (scratch w0 path b) (scratch w0 path b) (h server config p mt).
Proof.
  intros Hh w (files & ms & H1 & H2 & H3 & H4 & H5).
  destruct (Hh server config p mt w) as (Ef & Em & _).
  exists files, ms. rewrite Ef, Em. auto.
Qed.

Lemma detach_fresh (name : string) :
  detach (filepath_Join path name) (mounts w0) = mounts w0.
Proof.
  unfold detach. rewrite remove_first_at_absent.
  - apply detach_absent. intros m Hm. now apply fresh_mount_not_beneath.
  - intros m Hm. now apply fresh_mount_not_at.
Qed.

(** The two unmounts of the clean-up: the mount on [root.img] goes. *)
Lemma scratch_unmounts (w : world) :
  scratch w0 path 1 w ->
  let w' := snd ((ignore (unix_Unmount path MNT_DETACH) ;;
                  ignore (unix_Unmount rimg MNT_DETACH)) w) in
  fs w' = fs w /\ mounts w' = mounts w0.
Proof.
  intros (files & ms & H1 & H2 & H3 & H4 & H5). cbv zeta.
  rewrite bind_ignore, ignore_snd.
  assert (Hp : mounted_at
                 (set_trace (trace w ++ [EvUnmount path MNT_DETACH]) w) path = false).
  { apply mounted_at_false. cbn [mounts set_trace]. rewrite H3. intros m Hm.
    apply in_app_or in Hm as [Hm|Hm].
    - rewrite (H5 m Hm). apply Join_neq.
    - now apply fresh_mount_not_path. }
  assert (E1 : snd (unix_Unmount path MNT_DETACH w)
               = set_trace (trace w ++ [EvUnmount path MNT_DETACH]) w).
  { unfold unix_Unmount, bind, emit. cbn [fst snd]. now rewrite Hp. }
  rewrite E1. set (w1 := set_trace _ w).
  unfold unix_Unmount, bind, emit. cbn [fst snd].
  destruct (mounted_at _ rimg) eqn:Hm; cbn [fst snd].
  - replace (has_flag MNT_DETACH MNT_DETACH) with true by reflexivity.
    cbn [snd fs mounts set_mounts set_trace]. split; [reflexivity|].
    subst w1. cbn [mounts set_trace]. rewrite H3.
    destruct ms as [|m ms].
    + apply detach_fresh.
    + destruct ms; [|simpl in H4; lia]. unfold detach. cbn [app remove_first_at].
      rewrite (H5 m (or_introl eq_refl)), String.eqb_refl.
      apply detach_absent. intros m' Hm'. now apply fresh_mount_not_beneath.
  - cbn [snd fs mounts set_trace]. split; [reflexivity|].
    subst w1. cbn [mounts set_trace] in *. rewrite H3.
    destruct ms as [|m ms]; [reflexivity|].
    exfalso. unfold mounted_at in Hm. cbn [mounts set_trace] in Hm.
    rewrite H3 in Hm. cbn [app existsb] in Hm.
    now rewrite (H5 m (or_introl eq_refl)), String.eqb_refl in Hm.
Qed.

(** The temporary path with the files [allowed] at most, and no mount. *)
Let holds (allowed : list string) (w : world) : Prop :=
  exists files,
    fs w = files ++ path :: fs w0
    /\ (forall q, In q files -> In q allowed)
    /\ mounts w = mounts w0.

Lemma fresh_not_beneath_child (name q : string) :
  In q (fs w0) -> beneath (filepath_Join path name) q = false.
Proof.
  intros Hq. destruct Hfresh as [Hf _]. destruct (Hf q Hq) as [_ Hb].
  destruct (beneath (filepath_Join path name) q) eqn:B; [|reflexivity].
  apply beneath_child in B. congruence.
Qed.

Lemma fresh_child_absent (name : string) : ~ In (filepath_Join path name) (fs w0).
Proof.
  intros Hin. destruct Hfresh as [Hf _]. destruct (Hf _ Hin) as [_ Hb].
  rewrite beneath_Join in Hb. discriminate.
Qed.

Lemma remove_child (name : string) (allowed allowed' : list string) (w : world) :
  holds allowed w ->
  (forall q, In q allowed ->
     beneath (filepath_Join path name) q = false
     /\ (q = filepath_Join path name \/ In q allowed')) ->
  holds allowed' (snd (os_Remove (filepath_Join path name) w)).
Proof.
  intros (files & H1 & H2 & H3) Ha.
  remember (filepath_Join path name) as x eqn:Hx.
  unfold os_Remove, bind, emit. cbn [fst snd].
  assert (Hm : mounted_at (set_trace (trace w ++ [EvRemove x]) w) x = false).
  { apply mounted_at_false. cbn [mounts set_trace]. rewrite H3.
    intros m Hm. subst x. now apply fresh_mount_not_at. }
  assert (He : has_entries (set_trace (trace w ++ [EvRemove x]) w) x = false).
  { unfold has_entries. cbn [fs set_trace]. rewrite H1.
    destruct (existsb _ _) eqn:E; [|reflexivity].
    apply existsb_exists in E as (q & Hq & Hb). exfalso.
    apply in_app_or in Hq as [Hq|[<-|Hq]].
    - destruct (Ha q (H2 q Hq)) as [Hn _]. congruence.
    - rewrite beneath_self_longer in Hb; [discriminate|].
      subst x. unfold filepath_Join. rewrite append_length. lia.
    - subst x. rewrite (fresh_not_beneath_child name q Hq) in Hb. discriminate. }
  rewrite Hm, He.
  assert (Hkeep : filter (fun q => negb (String.eqb q x)) (path :: fs w0)
                  = path :: fs w0).
  { apply filter_absent. subst x. intros [E|Hin].
    - symmetry in E. revert E. apply Join_neq.
    - exact (fresh_child_absent name Hin). }
  destruct (negb (path_exists _ x)) eqn:Hex; cbn [snd].
  - apply negb_true_iff, path_exists_false in Hex. cbn [fs set_trace] in Hex.
    exists files. cbn [fs mounts set_trace]. repeat split; auto.
    intros q Hq. destruct (Ha q (H2 q Hq)) as [_ [->|Hin]]; [|exact Hin].
    exfalso. apply Hex. rewrite H1. apply in_or_app. now left.
  - exists (filter (fun q => negb (String.eqb q x)) files).
    cbn [fs mounts set_fs set_trace]. rewrite H1, filter_app, Hkeep.
    repeat split; auto.
    intros q Hq. apply filter_In in Hq as [Hq Hne].
    apply negb_true_iff, String.eqb_neq in Hne.
    destruct (Ha q (H2 q Hq)) as [_ [->|Hin]]; [congruence|exact Hin].
Qed.

Lemma remove_path (w : world) :
  holds [] w -> restored w0 (snd (os_Remove path w)).
Proof.
  intros (files & H1 & H2 & H3).
  destruct files as [|q files]; [|destruct (H2 q (or_introl eq_refl))].
  cbn [app] in H1. unfold os_Remove, bind, emit. cbn [fst snd].
  assert (Hex : path_exists (set_trace (trace w ++ [EvRemove path]) w) path = true).
  { apply path_exists_true. cbn [fs set_trace]. rewrite H1. now left. }
  assert (Hm : mounted_at (set_trace (trace w ++ [EvRemove path]) w) path = false).
  { apply mounted_at_false. cbn [mounts set_trace]. rewrite H3.
    intros m Hm. now apply fresh_mount_not_path. }
  assert (He : has_entries (set_trace (trace w ++ [EvRemove path]) w) path = false).
  { unfold has_entries. cbn [fs set_trace]. rewrite H1.
    destruct (existsb _ _) eqn:E; [|reflexivity].
    apply existsb_exists in E as (q & [<-|Hq] & Hb); exfalso.
    - rewrite beneath_self_longer in Hb; [discriminate|lia].
    - destruct Hfresh as [Hf _]. destruct (Hf q Hq). congruence. }
  rewrite Hex, Hm, He. cbn [negb snd]. split; [|exact H3].
  cbn [fs set_fs set_trace]. rewrite H1. cbn [filter].
  rewrite String.eqb_refl. cbn [negb]. apply filter_absent.
  intros Hin. destruct Hfresh as [Hf _]. destruct (Hf path Hin). congruence.
Qed.

(** The clean-up of the temporary path of a disk migration takes away all
    that was made in it, and the path. *)
Lemma cleanup_restores (w : world) :
  scratch w0 path 1 w -> restored w0 (snd (cleanup path w)).
Proof.
  intros H. unfold cleanup. fold conv rimg.
  destruct (scratch_unmounts w H) as [Hf Hm]. cbv zeta in Hf, Hm.
  rewrite bind_ignore, bind_ignore in *. rewrite ignore_snd in Hf, Hm.
  set (w2 := snd (unix_Unmount rimg MNT_DETACH _)) in *. clearbody w2.
  assert (H2 : holds [conv; rimg] w2).
  { destruct H as (files & ms & H1 & H2 & _). exists files. rewrite Hf.
    repeat split; auto. intros q Hq. destruct (H2 q Hq) as [->| ->]; simpl; auto. }
  rewrite !bind_ignore, ignore_snd.
  apply remove_path.
  apply (remove_child "root.img" [rimg] []).
  - apply (remove_child "converted-raw-image.img" [conv; rimg] [rimg] w2 H2).
    intros q [<-|[<-|[]]].
    + split; [|now left]. apply beneath_self_longer. apply Nat.le_refl.
    + split; [|right; now left]. now apply beneath_sibling.
  - intros q [<-|[]]. split; [|now left]. apply beneath_self_longer. apply Nat.le_refl.
Qed.

End Scratch.
Lemma MkdirTemp_err (e : env) (dir pattern : string) (w w1 : world) (err : error) :
  os_MkdirTemp e dir pattern w = (Err err, w1) -> restored w w1.
Proof.
  unfold os_MkdirTemp, bind, emit, fail. cbn [fst snd].
  destruct (env_mkdirtemp e); [intros [= _ <-]; split; reflexivity|].
  match goal with |- context [if ?b then _ else _] => destruct b end;
    intros [= _ <-]; split; reflexivity.
Qed.

Lemma MkdirTemp_scratch (e : env) (dir pattern path : string) (w w1 : world) :
  os_MkdirTemp e dir pattern w = (Ok path, w1) ->
  fresh_in w path /\ scratch w path 0 w1.
Proof.
  intros H. destruct (MkdirTemp_fresh _ _ _ _ _ _ H) as (_ & Hfs & Hm & Hq & Hmq).
  split; [split; assumption|].
  exists [], []. split; [exact Hfs|]. split; [intros q []|].
  split; [exact Hm|]. split; [apply Nat.le_refl|intros m []].
Qed.

Lemma filter_none {A : Type} (f : A -> bool) (l : list A) :
  (forall x, In x l -> f x = false) -> filter f l = [].
Proof.
  induction l as [|x l IH]; simpl; [reflexivity|]. intros H.
  rewrite (H x (or_introl eq_refl)). apply IH. intros y Hy. apply H. now right.
Qed.

(** The part of [runMigration] that starts from the temporary path, for a
    disk: when it is over, the files and the mounts are those there were. *)
Lemma disk_temporary_path_restored (e : env) (server : InstanceServer)
    (config : cmdMigrateData) (mt : MigrationType) (h : Handler) (w : world) :
  isFilesystemType mt = false -> remote_only h ->
  restored w (snd (migrateFromTemporaryPath e server config mt h w)).
Proof.
  intros Hfs Hh. unfold migrateFromTemporaryPath. rewrite Hfs.
  destruct (os_MkdirTemp e "" "incus-migrate_mount_" w) as [[path|err] w1] eqn:Et.
  - rewrite (bind_ok _ _ _ _ _ Et), defer_snd.
    destruct (MkdirTemp_scratch _ _ _ _ _ _ Et) as [Hfresh Hs].
    apply (cleanup_restores w path Hfresh).
    revert w1 Hs Et. 
    match goal with
    | |- forall w1, _ -> _ -> scratch w path 1 (snd (?body w1)) =>
        assert (Hl : leads (scratch w path 0) (scratch w path 1) body);
        [|intros w1 Hs _; exact (Hl w1 Hs)]
    end.
    eapply leads_then with (Q := scratch w path 0).
    + apply scratch_normalizeDisk.
    + intros config'. eapply leads_then with (Q := scratch w path 1).
      * apply scratch_mountImage. exact Hfresh.
      * intros _. now apply scratch_handler.
      * auto.
    + intros w1. apply scratch_more. lia.
  - rewrite (bind_err _ _ _ _ _ Et). cbn [snd]. exact (MkdirTemp_err _ _ _ _ _ _ Et).
Qed.

Lemma restored_refl (w : world) : restored w w.
Proof. split; reflexivity. Qed.

Lemma restored_trans (a b c : world) : restored a b -> restored b c -> restored a c.
Proof. intros [H1 H2] [H3 H4]. split; congruence. Qed.

Lemma Lock_restored : preserves restored runtime_LockOSThread.
Proof. intros w. split; reflexivity. Qed.

Lemma Unlock_restored : preserves restored runtime_UnlockOSThread.
Proof. intros w. split; reflexivity. Qed.

Lemma sandbox_restored (e : env) : preserves restored (sandbox e).
Proof.
  intros w. destruct (sandbox_cases e w) as (Hf & Hm & _). split; assumption.
Qed.

(** X3. A migration of a virtual machine or of a block volume leaves
    nothing behind, however it ends: when [runMigration] returns, the files
    and the mount table are those it found and the thread is unlocked; and
    once the temporary path was made, no mount is left at it or below it
    and it no longer exists. *)
Theorem disk_migration_leaves_nothing_behind (e : env) (server : InstanceServer)
    (config : cmdMigrateData) (mt : MigrationType) (h : Handler) (w : world) :
  isFilesystemType mt = false -> remote_only h ->
  let w' := snd (runMigration e server config mt h w) in
  fs w' = fs w /\ mounts w' = mounts w /\ locked w' = false
  /\ cleanup_claim e server config mt h w.
Proof.
  intros Hfs Hh. cbv zeta. split; [|split; [|split]].
  - assert (H : preserves restored (runMigration e server config mt h)).
    { unfold runMigration.
      steps restored_refl restored_trans
        ltac:(idtac; lazymatch goal with
                     | |- preserves _ runtime_LockOSThread => apply Lock_restored
                     | |- preserves _ runtime_UnlockOSThread => apply Unlock_restored
                     | |- preserves _ (sandbox _) => apply sandbox_restored
                     | |- preserves _ (migrateFromTemporaryPath _ _ _ _ _) =>
                         intros w1; now apply disk_temporary_path_restored
                     end). }
    apply H.
  - assert (H : preserves restored (runMigration e server config mt h)).
    { unfold runMigration.
      steps restored_refl restored_trans
        ltac:(idtac; lazymatch goal with
                     | |- preserves _ runtime_LockOSThread => apply Lock_restored
                     | |- preserves _ runtime_UnlockOSThread => apply Unlock_restored
                     | |- preserves _ (sandbox _) => apply sandbox_restored
                     | |- preserves _ (migrateFromTemporaryPath _ _ _ _ _) =>
                         intros w1; now apply disk_temporary_path_restored
                     end). }
    apply H.
  - unfold runMigration. rewrite bind_ok with (a := tt) (w1 := set_locked true (set_trace (trace w ++ [EvLockOSThread]) w)) by reflexivity.
    rewrite defer_snd. reflexivity.
  - intros path w1 Et. cbv zeta.
    destruct (disk_temporary_path_restored e server config mt h w Hfs Hh) as [Ef Em].
    destruct (MkdirTemp_fresh _ _ _ _ _ _ Et) as (_ & _ & _ & Hq & Hmq).
    split.
    + unfold mounts_under. rewrite Em. now apply filter_none.
    + apply path_exists_false. rewrite Ef. intros Hin. now destruct (Hq path Hin).
Qed.
(** ** What was there before the migration *)

Section MadeUnder.

Variables (e : env) (w0 : world) (path : string).
Hypothesis Hfresh : fresh_in w0 path.

Let root := (path ++ "/rootfs")%string.

Lemma made_under_same_mounts (w w' : world) :
  mounts w' = mounts w -> made_under w0 root w -> made_under w0 root w'.
Proof. intros E (made & H1 & H2). exists made. now rewrite E. Qed.

Lemma made_Mkdir (p : string) :
  leads (made_under w0 root) (made_under w0 root) (os_Mkdir e p).
Proof.
  intros w. apply made_under_same_mounts.
  unfold os_Mkdir, bind, emit, fail. cbn [fst snd].
  destruct (env_mkdir e p); [reflexivity|]. destruct (path_exists _ p); reflexivity.
Qed.

Lemma made_MkdirAll (p : string) :
  leads (made_under w0 root) (made_under w0 root) (os_MkdirAll e p).
Proof.
  intros w. apply made_under_same_mounts.
  unfold os_MkdirAll, bind, emit, fail. cbn [fst snd].
  destruct (env_mkdir e p); [reflexivity|]. cbn [snd].
  destruct (path_exists _ p); reflexivity.
Qed.

Lemma made_Remove (p : string) :
  leads (made_under w0 root) (made_under w0 root) (os_Remove p).
Proof.
  intros w. apply made_under_same_mounts.
  unfold os_Remove, bind, emit. cbn [fst snd].
  destruct (negb _); [reflexivity|]. destruct (mounted_at _ p); [reflexivity|].
  destruct (has_entries _ p); reflexivity.
Qed.

Lemma made_bind_mount (source target : string) :
  String.prefix root target = true ->
  leads (made_under w0 root) (made_under w0 root)
    (unix_Mount e source target "none" MS_BIND "").
Proof.
  intros Ht w H. unfold unix_Mount, bind, emit, fail. cbn [fst snd].
  destruct (env_mount e source target MS_BIND); [exact H|].
  rewrite has_flag_bind_remount, has_flag_bind_bind.
  destruct (path_exists _ target); [|exact H]. cbn [snd].
  assert (H1 : made_under w0 root
                 (set_mounts (mkMount source target false :: mounts w) w)).
  { destruct H as (made & H1 & H2). exists (mkMount source target false :: made).
    cbn [mounts set_mounts]. rewrite H1. split; [reflexivity|].
    intros m [<-|Hm]; [exact Ht|now apply H2]. }
  cbn [ns set_trace mounts]. destruct (ns w); exact H1.
Qed.

Lemma made_setupSource (plan : list string) :
  leads (made_under w0 root) (made_under w0 root) (setupSource e root plan).
Proof.
  induction plan as [|source plan IH]; simpl; [apply leads_ret|].
  apply leads_bind; [|intros _; exact IH].
  apply leads_wrapErr, leads_bind; [apply made_MkdirAll|intros _].
  apply made_bind_mount. unfold mountPoint. apply prefix_append.
Qed.

Lemma made_handler (h : Handler) (server : InstanceServer)
    (config : cmdMigrateData) (p : string) (mt : MigrationType) :
  remote_only h ->
  leads (made_under w0 root) (made_under w0 root) (h server config p mt).
Proof.
  intros Hh w. apply made_under_same_mounts.
  now destruct (Hh server config p mt w) as (_ & Em & _).
Qed.

(** A mount made below [rootfs] is neither on the temporary path nor on
    [root.img], so the two unmounts of the clean-up find nothing. *)
Lemma made_Unmount (target : string) :
  target = path \/ target = filepath_Join path "root.img" ->
  leads (made_under w0 root) (made_under w0 root) (unix_Unmount target MNT_DETACH).
Proof.
  intros Ht w H. unfold unix_Unmount, bind, emit. cbn [fst snd].
  assert (Hm : mounted_at (set_trace (trace w ++ [EvUnmount target MNT_DETACH]) w)
                 target = false).
  { apply mounted_at_false. cbn [mounts set_trace].
    destruct H as (made & H1 & H2). rewrite H1. intros m Hm E.
    apply in_app_or in Hm as [Hm|Hm].
    - specialize (H2 m Hm). rewrite E in H2. unfold root in H2.
      destruct Ht as [-> | ->].
      + rewrite prefix_longer in H2; [discriminate|].
        rewrite append_length. simpl. lia.
      + unfold filepath_Join in H2. rewrite prefix_app_cancel in H2. discriminate.
    - destruct Ht as [-> | ->].
      + now apply (fresh_mount_not_path w0 path Hfresh m).
      + now apply (fresh_mount_not_at w0 path Hfresh m "root.img"). }
  rewrite Hm. exact H.
Qed.

Lemma made_cleanup :
  leads (made_under w0 root) (made_under w0 root) (cleanup path).
Proof.
  unfold cleanup.
  leads_steps ltac:(first [apply made_Remove|apply made_Unmount; auto]).
Qed.

End MadeUnder.

Lemma Remove_spares (keep : list string) (q : string) (w : world) :
  ~ In q keep -> keeps keep w (snd (os_Remove q w)).
Proof. intros H. now apply Remove_keeps. Qed.

(** The part of [runMigration] that starts from the temporary path, for a
    filesystem: what was there is still there. *)
Lemma filesystem_temporary_path_spares (e : env) (server : InstanceServer)
    (config : cmdMigrateData) (mt : MigrationType) (h : Handler) (w : world) :
  isFilesystemType mt = true -> remote_only h ->
  let w' := snd (migrateFromTemporaryPath e server config mt h w) in
  keeps (fs w) w w' /\ exists made, mounts w' = made ++ mounts w.
Proof.
  intros Hfs Hh. cbv zeta. unfold migrateFromTemporaryPath. rewrite Hfs.
  destruct (os_MkdirTemp e "" "incus-migrate_mount_" w) as [[path|err] w1] eqn:Et.
  - rewrite (bind_ok _ _ _ _ _ Et), defer_snd.
    destruct (MkdirTemp_scratch _ _ _ _ _ _ Et) as [Hfresh _].
    destruct (MkdirTemp_fresh _ _ _ _ _ _ Et) as (_ & Hfs1 & Hm1 & Hq & _).
    set (keep := fs w).
    match goal with
    | |- keeps _ _ (snd (cleanup path (snd (?body w1)))) /\ _ =>
        assert (Hk : preserves (keeps keep) body);
        [ keeps_steps keep; [apply setupSource_keeps|now apply handler_keeps] |];
        assert (Hl : leads (made_under w (path ++ "/rootfs"))
                       (made_under w (path ++ "/rootfs")) body);
        [ leads_steps ltac:(first [ apply made_Mkdir
                                  | apply made_setupSource
                                  | now apply made_handler ]) |];
        set (w2 := snd (body w1)) in *;
        pose proof (Hk w1) as Hk2; pose proof (Hl w1) as Hl2;
        fold w2 in Hk2, Hl2; clearbody w2
    end.
    split.
    + apply keeps_trans with (b := w1); [now apply keeps_more_fs with (q := path)|].
      apply keeps_trans with (b := w2); [exact Hk2|].
      assert (Hn : forall name, ~ In (filepath_Join path name) keep).
      { intros name. exact (fresh_child_absent w path Hfresh name). }
      assert (Hp : ~ In path keep) by (intros Hin; now destruct (Hq path Hin)).
      assert (Hc : preserves (keeps keep) (cleanup path)).
      { unfold cleanup.
        steps (keeps_refl keep) (keeps_trans keep)
          ltac:(idtac; lazymatch goal with
                       | |- preserves _ (unix_Unmount _ _) => apply Unmount_keeps
                       | |- preserves _ (os_Remove _) =>
                           apply Remove_keeps; first [apply Hn|exact Hp]
                       end). }
      apply Hc.
    + assert (H0 : made_under w (path ++ "/rootfs") w1).
      { exists []. split; [exact Hm1|intros m []]. }
      destruct (made_cleanup w path Hfresh w2 (Hl2 H0)) as (made & Hmade & _).
      now exists made.
  - rewrite (bind_err _ _ _ _ _ Et). cbn [snd].
    destruct (MkdirTemp_err _ _ _ _ _ _ Et) as [Ef Em]. split.
    + now apply keeps_same_fs.
    + exists []. exact Em.
Qed.

Lemma spares_refl (w : world) :
  keeps (fs w) w w /\ exists made, mounts w = made ++ mounts w.
Proof. split; [apply keeps_refl|now exists []]. Qed.

(** X4. [runMigration] takes nothing away of what it found: every path
    that existed before it still exists when it returns, and the mounts
    there were are still in the mount table, below those it made. *)
Theorem migration_spares_what_was_there (e : env) (server : InstanceServer)
    (config : cmdMigrateData) (mt : MigrationType) (h : Handler) (w : world) :
  remote_only h ->
  let w' := snd (runMigration e server config mt h w) in
  (forall p, In p (fs w) -> In p (fs w'))
  /\ exists made, mounts w' = made ++ mounts w.
Proof.
  intros Hh. cbv zeta.
  set (R := fun a b : world =>
              (forall p, In p (fs a) -> In p (fs b))
              /\ exists made, mounts b = made ++ mounts a).
  assert (Rrefl : forall a, R a a) by (intros a; split; [auto|now exists []]).
  assert (Rtrans : forall a b c, R a b -> R b c -> R a c).
  { intros a b c [H1 [m1 E1]] [H2 [m2 E2]]. split; [auto|].
    exists (m2 ++ m1). now rewrite E2, E1, app_assoc. }
  assert (Rsame : forall a b, restored a b -> R a b).
  { intros a b [Ef Em]. split; [intros p; now rewrite Ef|exists []; exact Em]. }
  assert (H : preserves R (runMigration e server config mt h)); [|exact (H w)].
  unfold runMigration.
  steps Rrefl Rtrans
    ltac:(idtac; lazymatch goal with
                 | |- preserves _ runtime_LockOSThread =>
                     intros w1; apply Rsame, Lock_restored
                 | |- preserves _ runtime_UnlockOSThread =>
                     intros w1; apply Rsame, Unlock_restored
                 | |- preserves _ (sandbox _) => intros w1; apply Rsame, sandbox_restored
                 | |- preserves _ (migrateFromTemporaryPath _ _ _ _ _) => idtac
                 end).
  intros w1. destruct (isFilesystemType mt) eqn:Hfs.
  - destruct (filesystem_temporary_path_spares e
                (if String.eqb (Project config) "" then server
                 else UseProject server (Project config))
                (set_Mounts (mountPlan config) config) mt h w1 Hfs Hh) as [Hk Hm].
    split; [|exact Hm]. intros p Hp. now apply Hk.
  - now apply Rsame, disk_temporary_path_restored.
Qed.
(** ** The session and its handler *)

Lemma MigrationType_eqb_refl (mt : MigrationType) : MigrationType_eqb mt mt = true.
Proof. destruct mt; reflexivity. Qed.

Ltac session_trace :=
  first [ exists []; split; [now rewrite app_nil_r | reflexivity]
        | eexists; split;
          [ rewrite <- ?app_assoc; reflexivity
          | simpl; rewrite ?String.eqb_refl, ?MigrationType_eqb_refl; reflexivity ] ].

Lemma instance_handler_session (e : env) (rsyncArgs : string) (ctx : Context)
    (server : InstanceServer) (config : cmdMigrateData) (path : string)
    (mt : MigrationType) (pool vname : string) :
  preserves
    (adds (session_call (srv_project server) (inst_Name (InstanceArgs config))
             pool vname path mt))
    (migrateInstance_handler e rsyncArgs ctx server config path mt).
Proof.
  intros w. unfold migrateInstance_handler.
  destruct (env_arch e) as [arch|err].
  - handler_cases e ctx path; session_trace.
  - unfold fail. simpl. session_trace.
Qed.

Lemma volume_handler_session (e : env) (rsyncArgs : string) (ctx : Context)
    (server : InstanceServer) (config : cmdMigrateData) (path : string)
    (mt : MigrationType) (iname : string) :
  preserves
    (adds (session_call (srv_project server) iname (Pool config)
             (vol_Name (CustomVolumeArgs config)) path mt))
    (migrateCustomVolume_handler e rsyncArgs ctx server config path mt).
Proof.
  intros w. unfold migrateCustomVolume_handler.
  handler_cases e ctx path; session_trace.
Qed.

Lemma setupSource_adds (good : event -> bool) (e : env) (root : string)
    (plan : list string) :
  (forall s t f d, good (EvMount s t f MS_BIND d) = true) ->
  (forall p, good (EvMkdirAll p) = true) ->
  preserves (adds good) (setupSource e root plan).
Proof.
  intros Hm Hd. induction plan as [|source plan IH]; simpl.
  - apply preserves_ret, adds_refl.
  - apply preserves_bind; [apply adds_trans| |intros _; exact IH].
    apply preserves_wrapErr.
    apply preserves_bind; [apply adds_trans| |intros _].
    + eapply adds_preserved_by_call; [apply MkdirAll_trace|apply Hd].
    + eapply adds_preserved_by_call; [apply Mount_trace|apply Hm].
Qed.

Lemma normalizeDisk_adds (good : event -> bool) (e : env) (path : string)
    (config : cmdMigrateData) :
  (forall ev, is_remote ev = false -> is_thread_call ev = false -> good ev = true) ->
  preserves (adds good) (normalizeDisk e path config).
Proof.
  intros Hg. unfold normalizeDisk.
  destruct (env_detect e (SourcePath config)) as [ext convCmd].
  destruct (isConvertible ext); [|apply preserves_ret, adds_refl].
  destruct convCmd as [|convCmd0 rest]; [apply preserves_fail, adds_refl|].
  apply preserves_bind; [apply adds_trans| |].
  - apply preserves_attempt.
    eapply adds_preserved_by_call; [apply LookPath_trace|now apply Hg].
  - intros [u|err]; [|apply preserves_fail, adds_refl].
    unfold directIOProbe.
    steps (adds_refl good) (adds_trans good)
      ltac:(idtac; lazymatch goal with
                   | |- preserves _ (os_OpenFile _ _ _) =>
                       eapply adds_preserved_by_call; [apply OpenFile_trace|now apply Hg]
                   | |- preserves _ (file_Close _) =>
                       eapply adds_preserved_by_call; [reflexivity|now apply Hg]
                   | |- preserves _ (exec_Run _ _) =>
                       eapply adds_preserved_by_call; [apply Run_trace|now apply Hg]
                   end).
Qed.

Lemma normalizeDisk_fields (e : env) (path : string) (config config' : cmdMigrateData)
    (w w' : world) :
  normalizeDisk e path config w = (Ok config', w') ->
  InstanceArgs config' = InstanceArgs config
  /\ CustomVolumeArgs config' = CustomVolumeArgs config
  /\ Pool config' = Pool config /\ Project config' = Project config
  /\ Mounts config' = Mounts config.
Proof.
  unfold normalizeDisk. destruct (env_detect e (SourcePath config)) as [ext convCmd].
  destruct (isConvertible ext); [|intros [= <- _]; repeat split].
  destruct convCmd as [|convCmd0 rest]; [discriminate|].
  intros H. apply bind_inv in H as (found & w1 & _ & H).
  destruct found as [u|err]; [|discriminate].
  apply bind_inv in H as (fromDirect & w2 & _ & H).
  apply bind_inv in H as (toDirect & w3 & _ & H).
  apply bind_inv in H as (u' & w4 & _ & H).
  injection H as <- _. repeat split.
Qed.

Lemma session_call_local (project iname pool vname target : string)
    (mt : MigrationType) (ev : event) :
  is_remote ev = false -> is_thread_call ev = false ->
  session_call project iname pool vname target mt ev = true.
Proof. destruct ev; simpl; intros; try reflexivity; discriminate. Qed.

(** Given a handler that, called with the server of the project, a
    configuration that names the same resource and the target path, makes
    only calls of the session, [runMigration] makes only calls of the
    session. *)
Lemma runMigration_session (e : env) (server : InstanceServer)
    (config : cmdMigrateData) (mt : MigrationType) (h : Handler) :
  let project :=
    if String.eqb (Project config) "" then srv_project server else Project config in
  let temp := tempPath e "" "incus-migrate_mount_" in
  let target := if isFilesystemType mt then (temp ++ "/rootfs")%string else temp in
  let good :=
    session_call project (inst_Name (InstanceArgs config)) (Pool config)
      (vol_Name (CustomVolumeArgs config)) target mt in
  (forall server' config',
     srv_project server' = project ->
     InstanceArgs config' = InstanceArgs config ->
     CustomVolumeArgs config' = CustomVolumeArgs config ->
     Pool config' = Pool config ->
     preserves (adds good) (h server' config' target mt)) ->
  preserves (adds good) (runMigration e server config mt h).
Proof.
  intros project temp target good Hh. unfold runMigration.
  set (server' := if String.eqb (Project config) "" then server else _).
  assert (Hs : srv_project server' = project).
  { unfold server', project. destruct (String.eqb (Project config) ""); reflexivity. }
  clearbody server'.
  assert (Hl : forall ev, is_remote ev = false -> is_thread_call ev = false ->
                          good ev = true) by apply session_call_local.
  apply preserves_bind; [apply adds_trans|adds_steps good|intros _].
  apply preserves_defer; [apply adds_trans|adds_steps good|].
  apply preserves_bind; [apply adds_trans|unfold sandbox; adds_steps good|intros _].
  intros w2. unfold migrateFromTemporaryPath.
  apply bind_at; [apply adds_trans| |].
  { eapply adds_one; [apply MkdirTemp_trace|reflexivity]. }
  intros path w3 Et.
  apply defer_at; [apply adds_trans| |unfold cleanup; adds_steps good].
  destruct (MkdirTemp_fresh _ _ _ _ _ _ Et) as (-> & _). fold temp.
  subst target. destruct (isFilesystemType mt) eqn:Hfs.
  - revert w3 Et.
    match goal with
    | |- forall w3, _ -> adds good w3 (snd (?body w3)) =>
        assert (Hb : preserves (adds good) body); [|intros w3 _; exact (Hb w3)]
    end.
    apply preserves_bind; [apply adds_trans|adds_steps good|intros _].
    apply preserves_bind; [apply adds_trans| |intros _].
    + apply preserves_wrapErr, setupSource_adds; reflexivity.
    + apply Hh; try reflexivity. exact Hs.
  - apply bind_at; [apply adds_trans| |].
    { apply normalizeDisk_adds. exact Hl. }
    intros config' w4 En.
    destruct (normalizeDisk_fields _ _ _ _ _ _ En) as (Hi & Hv & Hp & _).
    revert w4 En.
    match goal with
    | |- forall w4, _ -> adds good w4 (snd (?body w4)) =>
        assert (Hb : preserves (adds good) body); [|intros w4 _; exact (Hb w4)]
    end.
    apply preserves_bind; [apply adds_trans| |intros _].
    + unfold mountImage. adds_steps good.
    + apply Hh; auto.
Qed.

Lemma MigrationType_eqb_eq (a b : MigrationType) :
  MigrationType_eqb a b = true -> a = b.
Proof. destruct a, b; simpl; congruence. Qed.

(** X5. The calls of a migration go where the configuration says: in every
    run of [runMigration] with the handler of [migrateInstance] or of
    [migrateCustomVolume], the instance or the volume is created, and
    deleted when it is rolled back, under the name of the configuration in
    the project of the configuration (that of the server when it names
    none), the volume in the pool of the configuration; and the transfer
    reads the [rootfs] directory of the temporary path for a container or a
    filesystem volume, the temporary path itself for a disk. *)
Theorem session_calls_follow_the_configuration (e : env) (rsyncArgs : string)
    (ctx : Context) (server : InstanceServer) (config : cmdMigrateData)
    (mt : MigrationType) (w : world) :
  let project :=
    if String.eqb (Project config) "" then srv_project server else Project config in
  let temp := tempPath e "" "incus-migrate_mount_" in
  let target := if isFilesystemType mt then (temp ++ "/rootfs")%string else temp in
  let iname := inst_Name (InstanceArgs config) in
  let vname := vol_Name (CustomVolumeArgs config) in
  let inst := runMigration e server config mt (migrateInstance_handler e rsyncArgs ctx) w in
  let vol :=
    runMigration e server config mt (migrateCustomVolume_handler e rsyncArgs ctx) w in
  forall ev, In ev (since w (snd inst)) \/ In ev (since w (snd vol)) ->
    match ev with
    | EvCreateInstance p n | EvDeleteInstance p n => p = project /\ n = iname
    | EvCreateVolume p q n => p = project /\ q = Pool config /\ n = vname
    | EvDeleteVolume p q t n =>
        p = project /\ q = Pool config /\ t = "custom" /\ n = vname
    | EvTransfer path m => path = target /\ m = mt
    | _ => True
    end.
Proof.
  intros project temp target iname vname inst vol ev Hin.
  set (good := session_call project iname (Pool config) vname target mt).
  assert (Hg : good ev = true).
  { destruct Hin as [Hin|Hin].
    - assert (H : adds good w (snd inst)).
      { apply runMigration_session. intros server' config' Hs Hi Hv Hp.
        pose proof (instance_handler_session e rsyncArgs ctx server' config' target mt
                      (Pool config) vname) as Hh.
        rewrite Hs, Hi in Hh. exact Hh. }
      apply adds_since in H as [_ H]. rewrite forallb_forall in H. now apply H.
    - assert (H : adds good w (snd vol)).
      { apply runMigration_session. intros server' config' Hs Hi Hv Hp.
        pose proof (volume_handler_session e rsyncArgs ctx server' config' target mt
                      iname) as Hh.
        rewrite Hs, Hv, Hp in Hh. exact Hh. }
      apply adds_since in H as [_ H]. rewrite forallb_forall in H. now apply H. }
  clear Hin. subst good. destruct ev; simpl in Hg; try exact I;
    repeat match goal with
           | H : _ && _ = true |- _ => apply andb_prop in H as [? ?]
           | H : String.eqb _ _ = true |- _ => apply String.eqb_eq in H
           | H : MigrationType_eqb _ _ = true |- _ => apply MigrationType_eqb_eq in H
           end; repeat split; assumption.
Qed.
(** ** The thread lock *)

Lemma remote_not_thread_call (ev : event) :
  is_remote ev = true -> negb (is_thread_call ev) = true.
Proof. destruct ev; simpl; congruence. Qed.

Lemma migrateFromTemporaryPath_no_thread_call (e : env) (server : InstanceServer)
    (config : cmdMigrateData) (mt : MigrationType) (h : Handler) :
  remote_only h ->
  preserves (adds (fun ev => negb (is_thread_call ev)))
    (migrateFromTemporaryPath e server config mt h).
Proof.
  intros Hh. set (good := fun ev => negb (is_thread_call ev)).
  unfold migrateFromTemporaryPath.
  apply preserves_bind; [apply adds_trans|adds_steps good|intros path].
  apply preserves_defer; [apply adds_trans|unfold cleanup; adds_steps good|].
  destruct (isFilesystemType mt).
  - apply preserves_bind; [apply adds_trans|adds_steps good|intros _].
    apply preserves_bind; [apply adds_trans| |intros _].
    + apply preserves_wrapErr, setupSource_adds; reflexivity.
    + apply adds_handler; [exact Hh|exact remote_not_thread_call].
  - apply preserves_bind; [apply adds_trans| |intros config'].
    + apply normalizeDisk_adds. intros ev _ Ht. unfold good. now rewrite Ht.
    + apply preserves_bind; [apply adds_trans| |intros _].
      * unfold mountImage. adds_steps good.
      * apply adds_handler; [exact Hh|exact remote_not_thread_call].
Qed.

(** X6. The thread is locked for the whole of the migration and never
    left locked: the first call of every run of [runMigration] locks it,
    the last one unlocks it, whatever happened in between and whatever is
    returned, and no other call locks or unlocks it; so the sandbox, the
    mounts, the handler and the clean-up of the temporary path all run on
    the locked thread. *)
Theorem thread_locked_from_first_to_last_call (e : env) (server : InstanceServer)
    (config : cmdMigrateData) (mt : MigrationType) (h : Handler) (w : world) :
  remote_only h ->
  let run := runMigration e server config mt h w in
  exists between,
    since w (snd run) = EvLockOSThread :: between ++ [EvUnlockOSThread]
    /\ forallb (fun ev => negb (is_thread_call ev)) between = true
    /\ locked (snd run) = false.
Proof.
  intros Hh. cbv zeta. unfold runMigration.
  set (server' := if String.eqb (Project config) "" then server else _).
  set (config' := set_Mounts _ config).
  set (good := fun ev => negb (is_thread_call ev)).
  assert (Hb : preserves (adds good)
                 (sandbox e ;; migrateFromTemporaryPath e server' config' mt h)).
  { apply preserves_bind; [apply adds_trans|unfold sandbox; adds_steps good|intros _].
    now apply migrateFromTemporaryPath_no_thread_call. }
  set (body := sandbox e ;; migrateFromTemporaryPath e server' config' mt h) in *.
  clearbody body.
  rewrite bind_ok
    with (a := tt) (w1 := set_locked true (set_trace (trace w ++ [EvLockOSThread]) w))
    by reflexivity.
  rewrite defer_snd.
  set (w1 := set_locked true _).
  destruct (Hb w1) as (between & Ht & Hg).
  exists between. split; [|split; [exact Hg|reflexivity]].
  apply since_app. cbn [snd runtime_UnlockOSThread bind emit trace set_trace set_locked].
  rewrite Ht. subst w1. cbn [trace set_locked set_trace].
  now rewrite <- !app_assoc.
Qed.
(** ** The handler is called last *)

Lemma bind_quiet {A : Type} (c : M A) (k : A -> M unit) (w : world) (err : error) :
  fst (bind c (fun _ => ret tt) w) = Err err -> bind c k w = bind c (fun _ => ret tt) w.
Proof.
  unfold bind, ret. destruct (c w) as [[a|err'] w1]; [discriminate|reflexivity].
Qed.

Lemma bind_same {A B : Type} (c : M A) (k k' : A -> M B) (w : world) :
  (forall a w1, c w = (Ok a, w1) -> k a w1 = k' a w1) -> bind c k w = bind c k' w.
Proof. intros H. unfold bind. destruct (c w) as [[a|err] w1]; auto. Qed.

Lemma defer_same {A : Type} (d : M unit) (body body' : M A) (w : world) :
  body w = body' w -> defer d body w = defer d body' w.
Proof. unfold defer. now intros ->. Qed.

Lemma bind_fst_err {A B : Type} (c : M A) (k : A -> M B) (w w1 : world) (a : A)
    (err : error) :
  c w = (Ok a, w1) -> fst (bind c k w) = Err err -> fst (k a w1) = Err err.
Proof. intros E. now rewrite (bind_ok _ _ _ _ _ E). Qed.

(** X7. The handler is called only once the source is put together: when
    [runMigration] fails with a handler that does nothing, it does with any
    handler what it does with that one: the same calls, the same error, and
    the handler is not called. *)
Theorem handler_not_called_after_a_failure (e : env) (server : InstanceServer)
    (config : cmdMigrateData) (mt : MigrationType) (h : Handler) (w : world)
    (err : error) :
  fst (runMigration e server config mt noHandler w) = Err err ->
  runMigration e server config mt h w = runMigration e server config mt noHandler w.
Proof.
  unfold runMigration.
  set (server' := if String.eqb (Project config) "" then server else _).
  set (config' := set_Mounts _ config).
  intros H.
  apply bind_same. intros [] w1 E1. rewrite (bind_ok _ _ _ _ _ E1) in H.
  apply defer_same. unfold defer in H. cbn [fst] in H.
  apply bind_same. intros [] w2 E2. rewrite (bind_ok _ _ _ _ _ E2) in H.
  unfold migrateFromTemporaryPath in *.
  apply bind_same. intros path w3 E3. rewrite (bind_ok _ _ _ _ _ E3) in H.
  apply defer_same. unfold defer in H. cbn [fst] in H.
  destruct (isFilesystemType mt).
  - apply bind_same. intros [] w4 E4. rewrite (bind_ok _ _ _ _ _ E4) in H.
    unfold noHandler in *. now apply bind_quiet with (err := err).
  - apply bind_same. intros config'' w4 E4. rewrite (bind_ok _ _ _ _ _ E4) in H.
    unfold noHandler in *. now apply bind_quiet with (err := err).
Qed.
Lemma local_not_remote (ev : event) :
  is_remote ev = false -> negb (is_remote ev) = true.
Proof. now intros ->. Qed.

Ltac local_steps :=
  steps (adds_refl (fun ev => negb (is_remote ev)))
    (adds_trans (fun ev => negb (is_remote ev))) adds_prims.

Lemma defer_fst {A : Type} (d : M unit) (body : M A) (w : world) :
  fst (defer d body w) = fst (body w).
Proof. reflexivity. Qed.

Lemma adds_run {A : Type} (good : event -> bool) (c : M A) (w w1 : world) (r : result A) :
  preserves (adds good) c -> c w = (r, w1) -> adds good w w1.
Proof. intros H E. specialize (H w). now rewrite E in H. Qed.

(** X8. [runMigration] calls its handler once, when the source is put
    together and before the temporary path is cleaned up: when the run
    succeeds with a handler that does nothing, the run with the handler [h]
    returns what [h] returns, called on the server of the project, and its
    calls are those of [h] between calls that are local to the machine. *)
Theorem handler_called_once_when_the_source_is_ready (e : env)
    (server : InstanceServer) (config : cmdMigrateData) (mt : MigrationType)
    (h : Handler) (w : world) :
  remote_only h ->
  fst (runMigration e server config mt noHandler w) = Ok tt ->
  let project :=
    if String.eqb (Project config) "" then srv_project server else Project config in
  let temp := tempPath e "" "incus-migrate_mount_" in
  let target := if isFilesystemType mt then (temp ++ "/rootfs")%string else temp in
  let run := runMigration e server config mt h w in
  exists server' config' w1 before after,
    let called := h server' config' target mt w1 in
    fst run = fst called
    /\ since w (snd run) = before ++ since w1 (snd called) ++ after
    /\ forallb (fun ev => negb (is_remote ev)) before = true
    /\ forallb (fun ev => negb (is_remote ev)) after = true
    /\ srv_project server' = project
    /\ InstanceArgs config' = InstanceArgs config
    /\ CustomVolumeArgs config' = CustomVolumeArgs config
    /\ Pool config' = Pool config.
Proof.
  intros Hh H. cbv zeta. revert H. unfold runMigration.
  set (server' := if String.eqb (Project config) "" then server else _).
  assert (Hs : srv_project server'
               = if String.eqb (Project config) "" then srv_project server
                 else Project config).
  { unfold server'. destruct (String.eqb (Project config) ""); reflexivity. }
  clearbody server'.
  set (config1 := set_Mounts _ config).
  set (good := fun ev => negb (is_remote ev)).
  set (w1 := set_locked true (set_trace (trace w ++ [EvLockOSThread]) w)).
  rewrite !(bind_ok _ _ w w1 tt) by reflexivity.
  assert (A1 : adds good w w1) by (eapply adds_one; reflexivity).
  rewrite !defer_fst, !defer_snd.
  destruct (sandbox e w1) as [[[]|err2] w2] eqn:E2;
    [|rewrite !(bind_err _ _ _ _ _ E2); discriminate].
  rewrite !(bind_ok _ _ _ _ _ E2).
  assert (A2 : adds good w1 w2).
  { eapply adds_run; [|exact E2]. unfold sandbox. local_steps. }
  unfold migrateFromTemporaryPath.
  destruct (os_MkdirTemp e "" "incus-migrate_mount_" w2) as [[path|err3] w3] eqn:E3;
    [|rewrite !(bind_err _ _ _ _ _ E3); discriminate].
  rewrite !(bind_ok _ _ _ _ _ E3).
  assert (A3 : adds good w2 w3) by (eapply adds_run; [|exact E3]; local_steps).
  destruct (MkdirTemp_fresh _ _ _ _ _ _ E3) as (-> & _).
  rewrite !defer_fst, !defer_snd.
  assert (Hc : preserves (adds good)
                 (cleanup (tempPath e "" "incus-migrate_mount_")))
    by (unfold cleanup; local_steps).
  assert (Hu : preserves (adds good) runtime_UnlockOSThread) by local_steps.
  assert (Hend : forall config' w4 w5,
            adds good w w4 ->
            InstanceArgs config' = InstanceArgs config ->
            CustomVolumeArgs config' = CustomVolumeArgs config ->
            Pool config' = Pool config ->
            forall target,
            w5 = snd (runtime_UnlockOSThread
                        (snd (cleanup (tempPath e "" "incus-migrate_mount_")
                                (snd (h server' config' target mt w4))))) ->
            exists server'0 config'0 w6 before after,
              fst (h server' config' target mt w4)
              = fst (h server'0 config'0 target mt w6)
              /\ since w w5
                 = before ++ since w6 (snd (h server'0 config'0 target mt w6)) ++ after
              /\ forallb good before = true /\ forallb good after = true
              /\ srv_project server'0
                 = (if String.eqb (Project config) "" then srv_project server
                    else Project config)
              /\ InstanceArgs config'0 = InstanceArgs config
              /\ CustomVolumeArgs config'0 = CustomVolumeArgs config
              /\ Pool config'0 = Pool config).
  { intros config' w4 w5 A4 Hi Hv Hp target ->.
    destruct (Hh server' config' target mt w4) as (_ & _ & _ & _ & _ & _ & hevs & Ht & _).
    set (w4' := snd (h server' config' target mt w4)) in *.
    destruct (Hc w4') as (cevs & Hct & Hcg).
    set (w4'' := snd (cleanup _ w4')) in *.
    destruct (Hu w4'') as (uevs & Hut & Hug).
    destruct A4 as (pre & Hpt & Hpg).
    exists server', config', w4, pre, (cevs ++ uevs).
    split; [reflexivity|]. fold w4' w4''. split.
    - rewrite (since_app _ _ _ Ht). apply since_app.
      rewrite Hut, Hct, Ht, Hpt, <- !app_assoc. reflexivity.
    - split; [exact Hpg|]. split; [now rewrite forallb_app, Hcg, Hug|].
      repeat split; assumption. }
  assert (A03 : adds good w w3).
  { eapply adds_trans; [exact A1|]. eapply adds_trans; [exact A2|exact A3]. }
  destruct (isFilesystemType mt) eqn:Hfs.
  - destruct (os_Mkdir e (tempPath e "" "incus-migrate_mount_" ++ "/rootfs") w3)
      as [[[]|err4] w4] eqn:E4; [|rewrite !(bind_err _ _ _ _ _ E4); discriminate].
    rewrite !(bind_ok _ _ _ _ _ E4).
    assert (A4 : adds good w3 w4) by (eapply adds_run; [|exact E4]; local_steps).
    match goal with
    | |- context [bind ?c _ w4] =>
        destruct (c w4) as [[[]|err5] w5] eqn:E5;
          [|rewrite !(bind_err _ _ _ _ _ E5); discriminate];
          assert (A5 : adds good w4 w5);
          [ eapply adds_run; [|exact E5];
            apply preserves_wrapErr, setupSource_adds; reflexivity |]
    end.
    rewrite !(bind_ok _ _ _ _ _ E5). intros _.
    apply (Hend config1 w5); [|reflexivity|reflexivity|reflexivity|reflexivity].
    eapply adds_trans; [exact A03|]. eapply adds_trans; [exact A4|exact A5].
  - destruct (normalizeDisk e (tempPath e "" "incus-migrate_mount_") config1 w3)
      as [[config2|err4] w4] eqn:E4; [|rewrite !(bind_err _ _ _ _ _ E4); discriminate].
    rewrite !(bind_ok _ _ _ _ _ E4).
    assert (A4 : adds good w3 w4).
    { eapply adds_run; [|exact E4]. apply normalizeDisk_adds.
      intros ev Hr _. now apply local_not_remote. }
    destruct (normalizeDisk_fields _ _ _ _ _ _ E4) as (Hi & Hv & Hp & _).
    destruct (mountImage e (tempPath e "" "incus-migrate_mount_") config2 w4)
      as [[[]|err5] w5] eqn:E5; [|rewrite !(bind_err _ _ _ _ _ E5); discriminate].
    rewrite !(bind_ok _ _ _ _ _ E5). intros _.
    assert (A5 : adds good w4 w5).
    { eapply adds_run; [|exact E5]. unfold mountImage. local_steps. }
    apply (Hend config2 w5); [|exact Hi|exact Hv|exact Hp|reflexivity].
    eapply adds_trans; [exact A03|]. eapply adds_trans; [exact A4|exact A5].
Qed.
(** ** Go strings and maps *)

Lemma strings_Cut_found (s : string) (sep : ascii) :
  snd (strings_Cut s sep) = strings_Contains s sep.
Proof.
  induction s as [|c s IH]; simpl; [reflexivity|].
  destruct (Ascii.eqb c sep); [reflexivity|].
  destruct (strings_Cut s sep) as [[before after] found]. exact IH.
Qed.

Lemma strings_Cut_around (s before after : string) (sep : ascii) :
  strings_Cut s sep = (before, after, true) ->
  s = (before ++ String sep after)%string /\ strings_Contains before sep = false.
Proof.
  revert before. induction s as [|c s IH]; intros before; simpl; [discriminate|].
  destruct (Ascii.eqb_spec c sep) as [->|Hne].
  - intros [= <- <-]. split; reflexivity.
  - destruct (strings_Cut s sep) as [[b a] f]. intros [= <- <- ->].
    destruct (IH b eq_refl) as [-> Hb]. split; [reflexivity|].
    simpl. rewrite Hb. apply Ascii.eqb_neq in Hne. now rewrite Hne.
Qed.

Lemma strings_Cut_missing (s : string) (sep : ascii) :
  strings_Contains s sep = false -> strings_Cut s sep = (s, "", false).
Proof.
  induction s as [|c s IH]; simpl; [reflexivity|].
  destruct (Ascii.eqb c sep); [discriminate|]. simpl. intros H. now rewrite (IH H).
Qed.

Lemma strings_Split_nonempty (s : string) (sep : ascii) : strings_Split s sep <> [].
Proof.
  destruct s as [|c s]; simpl; [discriminate|].
  destruct (Ascii.eqb c sep); [discriminate|].
  destruct (strings_Split s sep); discriminate.
Qed.

Lemma strings_Join_cons (x y : string) (l : list string) (sep : ascii) :
  strings_Join (x :: y :: l) sep = (x ++ String sep (strings_Join (y :: l) sep))%string.
Proof. reflexivity. Qed.

Lemma strings_Join_Split (s : string) (sep : ascii) :
  strings_Join (strings_Split s sep) sep = s.
Proof.
  induction s as [|c s IH]; simpl; [reflexivity|].
  pose proof (strings_Split_nonempty s sep) as Hne.
  destruct (Ascii.eqb_spec c sep) as [->|_].
  - destruct (strings_Split s sep) as [|p ps]; [congruence|].
    rewrite strings_Join_cons, IH. reflexivity.
  - destruct (strings_Split s sep) as [|p ps]; [congruence|].
    destruct ps as [|q ps].
    + simpl in *. now rewrite IH.
    + rewrite strings_Join_cons in *. cbn [append]. now rewrite IH.
Qed.

Lemma strings_Split_pieces (s piece : string) (sep : ascii) :
  In piece (strings_Split s sep) -> strings_Contains piece sep = false.
Proof.
  revert piece. induction s as [|c s IH]; intros piece; simpl.
  - intros [<-|[]]. reflexivity.
  - destruct (Ascii.eqb c sep) eqn:E.
    + intros [<-|H]; [reflexivity|now apply IH].
    + destruct (strings_Split s sep) as [|p ps]; simpl.
      * intros [<-|[]]. simpl. now rewrite E.
      * intros [<-|H]; [|apply IH; now right].
        simpl. rewrite E. apply IH. now left.
Qed.

Lemma map_lookup_store_same {V : Type} (m : gomap V) (k : string) (v : V) :
  map_lookup (map_store k v m) k = Some v.
Proof.
  induction m as [|[k' v'] m IH]; simpl.
  - now rewrite String.eqb_refl.
  - destruct (String.eqb k k') eqn:E; simpl; [now rewrite String.eqb_refl|].
    now rewrite E.
Qed.

Lemma map_lookup_store_other {V : Type} (m : gomap V) (k k' : string) (v : V) :
  k' <> k -> map_lookup (map_store k v m) k' = map_lookup m k'.
Proof.
  intros Hne. induction m as [|[k0 v0] m IH]; simpl.
  - apply String.eqb_neq in Hne. now rewrite Hne.
  - destruct (String.eqb_spec k k0) as [->|Hk]; simpl.
    + apply String.eqb_neq in Hne. now rewrite Hne.
    + destruct (String.eqb k' k0); [reflexivity|exact IH].
Qed.

(** A key is in the map once, whatever is stored. *)
Lemma map_store_keys {V : Type} (m : gomap V) (k : string) (v : V) :
  NoDup (map fst m) -> NoDup (map fst (map_store k v m)).
Proof.
  induction m as [|[k0 v0] m IH]; simpl; intros Hnd.
  - constructor; [intros []|constructor].
  - inversion Hnd as [|x l Hx Hl]; subst.
    destruct (String.eqb_spec k k0) as [->|Hk]; simpl; [now constructor|].
    constructor; [|now apply IH].
    intros Hin. apply Hx. clear -Hin Hk.
    induction m as [|[k1 v1] m IH]; simpl in *.
    + destruct Hin as [E|[]]. congruence.
    + destruct (String.eqb_spec k k1) as [->|Hk1]; simpl in *.
      * destruct Hin as [E|Hin]; [congruence|now right].
      * destruct Hin as [E|Hin]; [now left|right; now apply IH].
Qed.

(** ** [askConfig] *)

Lemma storeEntries_app (l1 l2 : list string) (config : instanceData) :
  storeEntries (l1 ++ l2) config = storeEntries l2 (storeEntries l1 config).
Proof. unfold storeEntries. apply fold_left_app. Qed.

Lemma storeEntries_rest (entries : list string) (config : instanceData) :
  data (storeEntries entries config) = data config
  /\ Profiles (options (storeEntries entries config)) = Profiles (options config)
  /\ Devices (options (storeEntries entries config)) = Devices (options config).
Proof.
  revert config. induction entries as [|entry entries IH]; intros config.
  - repeat split.
  - change (storeEntries (entry :: entries) config)
      with (storeEntries entries (storeEntries [entry] config)).
    destruct (IH (storeEntries [entry] config)) as (H1 & H2 & H3).
    rewrite H1, H2, H3. unfold storeEntries. simpl.
    destruct (strings_Cut entry "=") as [[key value] found]. repeat split.
Qed.

Lemma storeEntries_untouched (entries : list string) (config : instanceData)
    (k : string) :
  (forall entry, In entry entries -> fst (fst (strings_Cut entry "=")) <> k) ->
  map_lookup (Config (options (storeEntries entries config))) k
  = map_lookup (Config (options config)) k.
Proof.
  revert config. induction entries as [|entry entries IH]; intros config H.
  - reflexivity.
  - change (storeEntries (entry :: entries) config)
      with (storeEntries entries (storeEntries [entry] config)).
    rewrite IH by (intros e0 He0; apply H; now right).
    specialize (H entry (or_introl eq_refl)).
    unfold storeEntries. simpl.
    destruct (strings_Cut entry "=") as [[key value] found]. simpl in *.
    apply map_lookup_store_other. congruence.
Qed.

Lemma storeEntries_last (l1 l2 : list string) (entry : string)
    (config : instanceData) :
  (forall later, In later l2 ->
     fst (fst (strings_Cut later "=")) <> fst (fst (strings_Cut entry "="))) ->
  map_lookup (Config (options (storeEntries (l1 ++ entry :: l2) config)))
    (fst (fst (strings_Cut entry "=")))
  = Some (snd (fst (strings_Cut entry "="))).
Proof.
  intros H. rewrite storeEntries_app.
  change (storeEntries (entry :: l2) (storeEntries l1 config))
    with (storeEntries l2 (storeEntries [entry] (storeEntries l1 config))).
  rewrite storeEntries_untouched by exact H.
  unfold storeEntries at 1. simpl.
  destruct (strings_Cut entry "=") as [[key value] found]. simpl.
  apply map_lookup_store_same.
Qed.
Lemma AskString_err (question : string) (accept : string -> bool) (w w' : world)
    (err : error) :
  AskString question accept w = (Err err, w') -> read_error (input w) err.
Proof.
  rewrite AskString_eq.
  destruct (ask_string_from accept (input w)) as [r rest] eqn:E. cbn [fst snd].
  intros [= -> _]. exact (ask_string_from_err _ _ _ _ E).
Qed.

Lemma AskBool_err (question : string) (w w' : world) (err : error) :
  AskBool question w = (Err err, w') -> read_error (input w) err.
Proof.
  rewrite AskBool_eq.
  destruct (ask_bool_from (input w)) as [r rest] eqn:E. cbn [fst snd].
  intros [= -> _]. exact (ask_bool_from_err _ _ _ E).
Qed.

Lemma AskInt_err (question : string) (lo hi : Z) (w w' : world) (err : error) :
  AskInt question lo hi w = (Err err, w') -> read_error (input w) err.
Proof.
  rewrite AskInt_eq.
  destruct (ask_int_from lo hi (input w)) as [r rest] eqn:E. cbn [fst snd].
  intros [= -> _]. exact (ask_int_from_err _ _ _ _ _ E).
Qed.

(** ** [askProfiles], [askStorage], [askNetwork] *)

(** X10. [askProfiles] sets the profiles to the names of the answer, which
    the server all lists and which, joined by spaces, are the answer; the
    answer [-] leaves the profiles as they are (it does not empty them);
    nothing else of the configuration changes, and nothing at all when the
    server or the question fails. *)
Theorem askProfiles_sets_listed_profiles (u : uiEnv) (server : InstanceServer)
    (config config' : instanceData) (w w' : world) (r : result unit) :
  askProfiles u server config w = (r, config', w') ->
  match r with
  | Err err =>
      config' = config
      /\ (ui_profile_names u server = Err err \/ read_error (input w) err)
  | Ok _ =>
      data config' = data config
      /\ Config (options config') = Config (options config)
      /\ Devices (options config') = Devices (options config)
      /\ (In (AnsString "-") (input w) /\ config' = config
          \/ exists profileNames answer,
               ui_profile_names u server = Ok profileNames
               /\ In (AnsString answer) (input w)
               /\ answer <> "-"
               /\ Profiles (options config') = strings_Split answer " "
               /\ strings_Join (Profiles (options config')) " " = answer
               /\ forall profile, In profile (Profiles (options config')) ->
                    In profile profileNames)
  end.
Proof.
  unfold askProfiles. unfold bind at 1. cbn [emit fst snd].
  destruct (ui_profile_names u server) as [profileNames|err0].
  - match goal with
    | |- context [AskString ?q ?a ?w1] =>
        destruct (AskString q a w1) as [[profiles|err] w2] eqn:E
    end; intros [= <- <- <-].
    + apply AskString_ok in E as (Hacc & Hin & _). cbn [input set_trace] in Hin.
      destruct (String.eqb_spec profiles "-") as [->|Hne].
      * repeat split. left. split; [exact Hin|reflexivity].
      * cbn [orb] in Hacc. repeat split. right.
        exists profileNames, profiles. repeat split; auto.
        { cbn. apply strings_Join_Split. }
        { intros profile Hp. cbn in Hp. rewrite forallb_forall in Hacc.
          apply contains_In. now apply Hacc. }
    + split; [reflexivity|]. right. apply AskString_err in E. exact E.
  - unfold fail. intros [= <- <- <-]. split; [reflexivity|now left].
Qed.

Lemma askStorage_outcome (u : uiEnv) (server : InstanceServer)
    (config config' : instanceData) (w w' : world) (r : result unit) :
  askStorage u server config w = (r, config', w') ->
  let disk pool := [("type", "disk"); ("pool", pool); ("path", "/")] in
  (ui_storage_pool_names u server = Ok [] ->
     r = Err (Errorf "No storage pools available" [])
     /\ config' = config /\ input w' = input w)
  /\ (data config' = data config
      /\ Profiles (options config') = Profiles (options config)
      /\ Config (options config') = Config (options config)
      /\ forall name, name <> "root" ->
           map_lookup (Devices (options config')) name
           = map_lookup (Devices (options config)) name)
  /\ match r with
     | Ok _ =>
         exists pools pool,
           ui_storage_pool_names u server = Ok pools /\ In pool pools
           /\ (map_lookup (Devices (options config')) "root" = Some (disk pool)
               /\ In (AnsBool false) (input w)
               \/ exists size,
                    map_lookup (Devices (options config')) "root"
                    = Some (disk pool ++ [("size", size)])
                    /\ ui_parse_size u size = None
                    /\ In (AnsBool true) (input w))
     | Err err =>
         config' = config
         \/ exists pools pool,
              ui_storage_pool_names u server = Ok pools /\ In pool pools
              /\ config' = set_Device "root" (disk pool) config
              /\ read_error (input w) err
     end.
Proof.
  unfold askStorage. unfold bind at 1. cbn [emit fst snd]. cbv zeta.
  remember (set_trace (trace w ++ [EvGet "storage pool names"]) w) as w0 eqn:Hw0.
  assert (Hi0 : input w0 = input w) by now subst w0.
  clear Hw0.
  assert (Hother : forall device name, name <> "root" ->
            map_lookup (Devices (options (set_Device "root" device config))) name
            = map_lookup (Devices (options config)) name).
  { intros device name Hne. cbn. now apply map_lookup_store_other. }
  destruct (ui_storage_pool_names u server) as [pools|err0].
  - destruct pools as [|p0 pools'] eqn:Hpools.
    { unfold fail. cbn. intros [= <- <- <-].
      split; [intros _; repeat split; exact Hi0|]. split; [repeat split|]. now left. }
    rewrite <- Hpools. replace (Nat.eqb (List.length pools) 0) with false
      by (rewrite Hpools; reflexivity).
    intros H. split; [intros Hp; rewrite Hpools in Hp; discriminate|]. revert H.
    destruct (AskChoice _ pools w0) as [[pool|err1] w1] eqn:E1.
    2:{ intros [= <- <- <-]. split; [repeat split|]. now left. }
    unfold AskChoice in E1.
    pose proof (AskString_reads "Please provide the storage pool to use: "
                  (contains pools) w0) as R1.
    unfold AskChoice in *. rewrite E1 in R1. cbn [snd] in R1.
    apply AskString_ok in E1 as (Hacc & _). apply contains_In in Hacc.
    destruct (AskBool _ w1) as [[[|]|err2] w2] eqn:E2.
    + pose proof (AskBool_reads "Do you want to change the storage size? [default=no]: " w1) as R2.
      rewrite E2 in R2. cbn [snd] in R2.
      apply AskBool_ok in E2 as (Hb & _).
      assert (Hb' : In (AnsBool true) (input w)).
      { rewrite <- Hi0. apply (reads_In w0 w1); [exact R1|exact Hb]. }
      destruct (AskString _ _ w2) as [[size|err3] w3] eqn:E3.
      * cbn [Devices options set_Device].
        rewrite map_lookup_store_same. intros [= <- <- <-].
        apply AskString_ok in E3 as (Hsize & _).
        split.
        { repeat split. intros name Hne. cbn.
          rewrite !map_lookup_store_other by exact Hne. reflexivity. }
        exists pools, pool. split; [now rewrite Hpools|].
        split; [exact Hacc|]. right. exists size. cbn.
        rewrite map_lookup_store_same. repeat split; auto.
        unfold is_none in Hsize. now destruct (ui_parse_size u size).
      * intros [= <- <- <-]. split; [repeat split; now apply Hother|].
        right. exists pools, pool. split; [now rewrite Hpools|]. repeat split; auto.
        apply AskString_err in E3. destruct E3 as [->|E3]; [now left|right].
        rewrite <- Hi0. apply (reads_In w0 w1 _ R1), (reads_In w1 w2 _ R2). exact E3.
    + intros [= <- <- <-]. apply AskBool_ok in E2 as (Hb & _).
      split; [repeat split; now apply Hother|].
      exists pools, pool. split; [now rewrite Hpools|]. repeat split; auto. left.
      split; [cbn; now rewrite map_lookup_store_same|].
      rewrite <- Hi0. apply (reads_In w0 w1); [exact R1|exact Hb].
    + intros [= <- <- <-]. split; [repeat split; now apply Hother|].
      right. exists pools, pool. split; [now rewrite Hpools|]. repeat split; auto.
      apply AskBool_err in E2. destruct E2 as [->|E2]; [now left|right].
      rewrite <- Hi0. apply (reads_In w0 w1 _ R1). exact E2.
  - unfold fail. intros [= <- <- <-]. split; [discriminate|].
    split; [repeat split|]. now left.
Qed.

(** ** What every question respects *)

Section Asking.

Variable R : world -> world -> Prop.
Hypothesis HR : asking R.

Let R_refl : forall w, R w w := proj1 HR.
Let R_trans : forall a b c, R a b -> R b c -> R a c := proj1 (proj2 HR).

Lemma asking_AskString (q : string) (a : string -> bool) : preserves R (AskString q a).
Proof. apply HR. Qed.

Lemma asking_AskBool (q : string) : preserves R (AskBool q).
Proof. apply HR. Qed.

Lemma asking_AskInt (q : string) (lo hi : Z) : preserves R (AskInt q lo hi).
Proof. apply HR. Qed.

Lemma asking_emit (ev : event) : is_question ev = true -> preserves R (emit ev).
Proof. apply HR. Qed.

Lemma asking_run {A : Type} (c : M A) (w w1 : world) (r : result A) :
  preserves R c -> c w = (r, w1) -> R w w1.
Proof. intros H E. specialize (H w). now rewrite E in H. Qed.

End Asking.

Ltac asking_prims HR :=
  idtac;
  lazymatch goal with
  | |- preserves _ (AskString _ _) => apply (asking_AskString _ HR)
  | |- preserves _ (AskChoice _ _) => apply (asking_AskString _ HR)
  | |- preserves _ (AskBool _) => apply (asking_AskBool _ HR)
  | |- preserves _ (AskInt _ _ _) => apply (asking_AskInt _ HR)
  | |- preserves _ (emit _) => apply (asking_emit _ HR); reflexivity
  | |- preserves _ (match ?x with _ => _ end) => destruct x
  | |- preserves _ (fun w => _) => let w := fresh "w" in intros w
  end.

Ltac asking_steps HR := steps (proj1 HR) (proj1 (proj2 HR)) ltac:(asking_prims HR).

Section AskingFunctions.

Variable R : world -> world -> Prop.
Hypothesis HR : asking R.
Variables (e : env) (u : uiEnv).

Lemma asking_askProject (config : cmdMigrateData) : preserves R (askProject e config).
Proof. unfold askProject. asking_steps HR. Qed.

Lemma asking_askSourcePath (config : cmdMigrateData) (mt : MigrationType) :
  preserves R (askSourcePath e config mt).
Proof.
  intros w. unfold askSourcePath.
  match goal with
  | |- R w (snd (?c w)) => assert (H : preserves R c); [|exact (H w)]
  end.
  asking_steps HR.
Qed.

(** An override asks its questions one after the other. *)
Ltac override_steps HR :=
  repeat match goal with
         | |- ?R ?w (snd (match ?c ?w with _ => _ end)) =>
             let H := fresh "H" in
             let w1 := fresh "w" in
             assert (H : preserves R c) by asking_steps HR;
             specialize (H w); cbv beta in H;
             destruct (c w) as [[[]|?] w1]; cbn [snd] in H |- *;
             [ apply (proj1 (proj2 HR) _ _ _ H); clear H | exact H ]
         | |- ?R ?w (snd (match ?c ?w with _ => _ end)) =>
             let H := fresh "H" in
             let w1 := fresh "w" in
             assert (H : preserves R c) by asking_steps HR;
             specialize (H w); cbv beta in H;
             destruct (c w) as [[?|?] w1]; cbn [snd] in H |- *;
             [ apply (proj1 (proj2 HR) _ _ _ H); clear H | exact H ]
         | |- ?R ?w (snd (if ?b then _ else _)) => destruct b
         | |- ?R ?w (snd (match ?x with Some _ => _ | None => _ end)) => destruct x
         | |- ?R ?w (snd (_, _, ?w)) => apply (proj1 HR)
         | |- ?R ?w ?w => apply (proj1 HR)
         end.

Lemma asking_askProfiles (server : InstanceServer) (config : instanceData)
    (w : world) :
  R w (snd (askProfiles u server config w)).
Proof. unfold askProfiles. override_steps HR. Qed.

Lemma asking_askConfig (config : instanceData) (w : world) :
  R w (snd (askConfig config w)).
Proof. unfold askConfig. override_steps HR. Qed.

Lemma asking_askStorage (server : InstanceServer) (config : instanceData)
    (w : world) :
  R w (snd (askStorage u server config w)).
Proof. unfold askStorage. override_steps HR. Qed.

Lemma asking_askNetwork (server : InstanceServer) (config : instanceData)
    (w : world) :
  R w (snd (askNetwork u server config w)).
Proof. unfold askNetwork. override_steps HR. Qed.

Lemma asking_override (server : InstanceServer) (choice : Z)
    (config : instanceData) (w : world) :
  R w (snd (override u server choice config w)).
Proof.
  unfold override.
  destruct (Z.eqb choice 2); [apply asking_askProfiles|].
  destruct (Z.eqb choice 3); [apply asking_askConfig|].
  destruct (Z.eqb choice 4); [apply asking_askStorage|].
  destruct (Z.eqb choice 5); [apply asking_askNetwork|].
  apply HR.
Qed.

Lemma asking_askFirmware (config : instanceData) : preserves R (askFirmware e u config).
Proof. unfold askFirmware. asking_steps HR. Qed.

Lemma asking_askMountPaths (rounds : nat) (mounts : list string) :
  preserves R (askMountPaths rounds mounts).
Proof.
  revert mounts. induction rounds as [|rounds IH]; intros mounts; simpl.
  - asking_steps HR.
  - intros w.
    match goal with
    | |- R w (snd (?c w)) => assert (H : preserves R c); [|exact (H w)]
    end.
    asking_steps HR. apply IH.
Qed.

Lemma asking_askMounts (config : instanceData) : preserves R (askMounts config).
Proof.
  unfold askMounts. asking_steps HR.
  match goal with
  | |- R ?w (snd (askMountPaths ?n ?m ?w)) => apply (asking_askMountPaths n m w)
  end.
Qed.

Lemma asking_askOverrides (server' : InstanceServer) (rounds : nat)
    (config : instanceData) :
  preserves R (askOverrides u server' rounds config).
Proof.
  revert config. induction rounds as [|rounds IH]; intros config; simpl.
  - asking_steps HR.
  - asking_steps HR.
    match goal with
    | |- context [override u server' ?c ?cfg ?w] =>
        pose proof (asking_override server' c cfg w) as Ho;
        destruct (override u server' c cfg w) as [[r config'] w']; cbn [snd] in Ho
    end.
    eapply (proj1 (proj2 HR)); [exact Ho|apply IH].
Qed.

Lemma asking_gatherInstanceInfo (server : InstanceServer) (mt : MigrationType) :
  preserves R (gatherInstanceInfo e u server mt).
Proof.
  unfold gatherInstanceInfo. asking_steps HR.
  - apply asking_askProject.
  - apply asking_askSourcePath.
  - apply asking_askFirmware.
  - apply asking_askMounts.
  - match goal with
    | |- R ?w (snd (askOverrides _ ?s ?n ?c ?w)) => apply (asking_askOverrides s n c w)
    end.
Qed.

End AskingFunctions.

Lemma asking_restored : asking restored.
Proof.
  repeat split; try reflexivity.
  - destruct H, H0. congruence.
  - destruct H, H0. congruence.
Qed.

Lemma asking_reads : asking reads.
Proof.
  split; [exact reads_refl|]. split; [exact reads_trans|].
  split; [exact AskString_reads|]. split; [exact AskBool_reads|].
  split; [exact AskInt_reads|]. intros ev _. apply emit_reads.
Qed.

Lemma asking_adds (good : event -> bool) :
  (forall ev, is_question ev = true -> good ev = true) -> asking (adds good).
Proof.
  intros Hg. split; [apply adds_refl|]. split; [apply adds_trans|].
  split; [|split; [|split]].
  - intros q a w. eapply adds_one; [reflexivity|now apply Hg].
  - intros q w. eapply adds_one; [reflexivity|now apply Hg].
  - intros q lo hi w. eapply adds_one; [reflexivity|now apply Hg].
  - intros ev Hq w. eapply adds_one; [reflexivity|now apply Hg].
Qed.
(** ** [gatherInstanceInfo] *)

Lemma override_data (u : uiEnv) (server : InstanceServer) (choice : Z)
    (config config' : instanceData) (w w' : world) (r : result unit) :
  override u server choice config w = (r, config', w') -> data config' = data config.
Proof.
  unfold override.
  destruct (Z.eqb choice 2).
  { unfold askProfiles.
    match goal with |- context [match ?c w with _ => _ end] => destruct (c w) as [[a|err] w1] end;
      intros [= _ <- _]; [destruct (String.eqb a "-")|]; reflexivity. }
  destruct (Z.eqb choice 3).
  { unfold askConfig.
    match goal with |- context [match ?c w with _ => _ end] => destruct (c w) as [[a|err] w1] end;
      intros [= _ <- _]; [apply storeEntries_rest|reflexivity]. }
  destruct (Z.eqb choice 4).
  { intros H. now destruct (askStorage_outcome _ _ _ _ _ _ _ H) as (_ & (Hd & _) & _). }
  destruct (Z.eqb choice 5).
  { unfold askNetwork.
    match goal with |- context [match ?c w with _ => _ end] => destruct (c w) as [[a|err] w1] end;
      intros [= _ <- _]; reflexivity. }
  intros [= _ <- _]. reflexivity.
Qed.

Lemma askOverrides_data (u : uiEnv) (server : InstanceServer) (rounds : nat)
    (config config' : instanceData) (w w' : world) :
  askOverrides u server rounds config w = (Ok config', w') ->
  data config' = data config.
Proof.
  revert config w. induction rounds as [|rounds IH]; intros config w; simpl;
    [discriminate|].
  intros H. apply bind_inv in H as (choice & w1 & _ & H).
  destruct (Z.eqb choice 1); [now injection H as <- _|].
  destruct (override u server choice config w1) as [[r config1] w2] eqn:Eo.
  apply override_data in Eo. apply IH in H. congruence.
Qed.

Lemma askMountPaths_ok (rounds : nat) (mounts paths : list string) (w w' : world) :
  askMountPaths rounds mounts w = (Ok paths, w') ->
  exists added,
    paths = mounts ++ added
    /\ forall path, In path added -> path <> "" /\ path_exists w path = true.
Proof.
  revert mounts w. induction rounds as [|rounds IH]; intros mounts w; simpl;
    [discriminate|].
  intros H. apply bind_inv in H as (path & w1 & Ea & H).
  assert (Hfs : fs w1 = fs w).
  { pose proof (asking_AskString restored asking_restored
                  "Please provide a path the filesystem mount path [empty value to continue]: "
                  (fun s => String.eqb s "" || path_exists w s) w) as [Hf _].
    now rewrite Ea in Hf. }
  apply AskString_ok in Ea as (Hacc & _).
  destruct (String.eqb_spec path "") as [->|Hne].
  - injection H as <- _. exists []. split; [now rewrite app_nil_r|intros p []].
  - cbn [orb] in Hacc. apply IH in H as (added & -> & Hadded).
    exists (path :: added). split; [now rewrite <- app_assoc|].
    intros p [<-|Hp]; [split; assumption|].
    destruct (Hadded p Hp) as [Hp1 Hp2]. split; [exact Hp1|].
    unfold path_exists in *. now rewrite <- Hfs.
Qed.

Lemma askFirmware_data (e : env) (u : uiEnv) (config config' : instanceData)
    (w w' : world) :
  askFirmware e u config w = (Ok config', w') -> data config' = data config.
Proof.
  unfold askFirmware.
  destruct (String.eqb _ InstanceTypeVM); [|now intros [= <- _]].
  destruct (contains _ _); [|now intros [= <- _]].
  intros H. apply bind_inv in H as ([|] & w1 & _ & H).
  - apply bind_inv in H as ([|] & w2 & _ & H); now injection H as <- _.
  - now injection H as <- _.
Qed.

Lemma askMounts_ok (config config' : instanceData) (w w' : world) :
  askMounts config w = (Ok config', w') ->
  options config' = options config
  /\ exists added,
       data config' = set_Mounts (Mounts (data config) ++ added) (data config)
       /\ (inst_Type (InstanceArgs (data config)) <> InstanceTypeContainer ->
           added = [])
       /\ forall path, In path added -> path <> "" /\ path_exists w path = true.
Proof.
  unfold askMounts.
  assert (Hsame : forall c : cmdMigrateData, c = set_Mounts (Mounts c ++ []) c).
  { intros c. rewrite app_nil_r. now destruct c. }
  destruct (String.eqb_spec (inst_Type (InstanceArgs (data config)))
              InstanceTypeContainer) as [Ht|Ht].
  - intros H. apply bind_inv in H as (addMounts & w1 & Eb & H).
    assert (Hfs : fs w1 = fs w).
    { pose proof (asking_AskBool restored asking_restored
                    "Do you want to add additional filesystem mounts? [default=no]: " w)
        as [Hf _]. now rewrite Eb in Hf. }
    destruct addMounts.
    + apply bind_inv in H as (paths & w2 & Em & H). injection H as <- _.
      apply askMountPaths_ok in Em as (added & -> & Hadded).
      split; [reflexivity|]. exists added. cbn [data set_data app].
      split; [reflexivity|]. split; [congruence|].
      intros p Hp. destruct (Hadded p Hp) as [Hp1 Hp2]. split; [exact Hp1|].
      unfold path_exists in *. now rewrite <- Hfs.
    + injection H as <- _. split; [reflexivity|]. exists [].
      split; [apply Hsame|]. split; [reflexivity|intros p []].
  - intros [= <- _]. split; [reflexivity|]. exists [].
    split; [apply Hsame|]. split; [reflexivity|intros p []].
Qed.
(** X13. What [gatherInstanceInfo] returns without an error can be
    created: the instance has a name that is not empty and that no
    instance of the project has, the type of the migration, the source of a
    pushed migration, a source path that exists, and additional mounts only
    when it is a container, each an existing path; the overrides picked
    from the menu change none of this; and the questions touched neither
    the files nor the mounts. *)
Theorem gatherInstanceInfo_valid (e : env) (u : uiEnv) (server : InstanceServer)
    (mt : MigrationType) (w w' : world) (config : instanceData) :
  gatherInstanceInfo e u server mt w = (Ok config, w') ->
  let d := data config in
  let name := inst_Name (InstanceArgs d) in
  let project_server :=
    if String.eqb (Project d) "" then server else UseProject server (Project d) in
  name <> ""
  /\ (exists instanceNames,
        ui_instance_names u project_server = Ok instanceNames
        /\ ~ In name instanceNames)
  /\ InstanceArgs d
     = mkInstancesPost name
         (match mt with
          | MigrationTypeVM => InstanceTypeVM
          | _ => InstanceTypeContainer
          end) "" "migration" "push"
  /\ path_exists w (SourcePath d) = true
  /\ SourceFormat d
     = (if isDiskType mt then detectSourceFormat e (SourcePath d) else "")
  /\ (mt = MigrationTypeVM -> Mounts d = [])
  /\ (forall path, In path (Mounts d) -> path <> "" /\ path_exists w path = true)
  /\ (Project d = "default"
      \/ exists names, env_project_names e = Ok names /\ In (Project d) names)
  /\ fs w' = fs w /\ mounts w' = mounts w.
Proof.
  intros H. cbv zeta.
  assert (Hw : restored w w').
  { pose proof (asking_gatherInstanceInfo restored asking_restored e u server mt w) as E.
    now rewrite H in E. }
  unfold gatherInstanceInfo in H. cbv zeta in H.
  apply bind_inv in H as (d1 & w1 & Hp & H).
  apply askProject_ok in Hp as (project & names & -> & Hfs1 & Hn & Hproj).
  cbn [data set_data Project set_Project] in H.
  apply bind_inv in H as ([] & w2 & Hemit & H). injection Hemit as <-.
  set (server' := if String.eqb project "" then server else UseProject server project)
    in *.
  destruct (ui_instance_names u server') as [instanceNames|err] eqn:Hnames;
    [|discriminate].
  apply bind_inv in H as (instanceName & w3 & Hname & H).
  apply AskString_ok in Hname as (Hnacc & _ & _ & rest3 & ->).
  apply andb_prop in Hnacc as [Hne Hnot].
  apply bind_inv in H as (d2 & w4 & Hsrc & H).
  pose proof (asking_run restored _ _ _ _ (asking_askSourcePath restored asking_restored
                e _ mt) Hsrc) as [Hfs4 _].
  cbn [fs asked set_input set_trace] in Hfs4. rewrite Hfs1 in Hfs4.
  apply askSourcePath_ok in Hsrc as (s & -> & Hex & _).
  assert (Hex' : path_exists w s = true).
  { unfold path_exists in *. cbn [fs asked set_input set_trace] in Hex.
    now rewrite Hfs1 in Hex. }
  clear Hex. cbn [data set_data] in H.
  apply bind_inv in H as (c3 & w5 & Hfw & H).
  pose proof (asking_run restored _ _ _ _ (asking_askFirmware restored asking_restored
                e u _) Hfw) as [Hfs5 _].
  rewrite Hfs4 in Hfs5.
  apply askFirmware_data in Hfw. cbn [data] in Hfw.
  apply bind_inv in H as (c4 & w6 & Hm & H).
  apply askMounts_ok in Hm as (_ & added & Hd4 & Htype & Hadded).
  apply askOverrides_data in H.
  rewrite Hfw in Htype. rewrite H, Hd4, Hfw. clear H Hd4.
  clear Hfw.
  assert (Hname : instanceName <> "") by (intros ->; discriminate).
  assert (Hfresh : ~ In instanceName instanceNames).
  { rewrite <- contains_In. now destruct (contains instanceNames instanceName). }
  assert (Hprj : project = "default"
                 \/ exists names0, env_project_names e = Ok names0 /\ In project names0).
  { destruct Hproj as [(_ & -> & _)|(_ & Hin & _)]; [now left|right; eauto]. }
  destruct Hw as [Hwf Hwm].
  assert (Hadded' : forall path, In path ([] ++ added) ->
                      path <> "" /\ path_exists w path = true).
  { intros p Hp. destruct (Hadded p Hp) as [Hp1 Hp2]. split; [exact Hp1|].
    unfold path_exists in *. now rewrite <- Hfs5. }
  clear Hadded Hproj.
  destruct mt; cbn in Htype |- *;
    (split; [exact Hname|]);
    (split; [exists instanceNames; split; [exact Hnames|exact Hfresh]|]);
    (split; [reflexivity|]);
    (split; [exact Hex'|]);
    (split; [reflexivity|]);
    (split; [first [discriminate|intros _; rewrite Htype by discriminate; reflexivity]|]);
    (split; [exact Hadded'|]);
    (split; [exact Hprj|]);
    split; assumption.
Qed.
(** ** The rounds of the two loops *)

Lemma bind_inv_err {A B : Type} (c : M A) (k : A -> M B) (w w' : world) (err : error) :
  bind c k w = (Err err, w') ->
  c w = (Err err, w') \/ exists a w1, c w = (Ok a, w1) /\ k a w1 = (Err err, w').
Proof.
  unfold bind. destruct (c w) as [[a|err'] w1]; intros H;
    [right; eauto|left; injection H as -> ->; reflexivity].
Qed.

Lemma read_error_later (w w1 : world) (err : error) :
  reads w w1 -> read_error (input w1) err -> read_error (input w) err.
Proof.
  intros Hr [->|Hin]; [now left|right]. exact (reads_In _ _ _ Hr Hin).
Qed.

(** The menu of overrides gives up only when its own question fails: the
    error of an override is printed, and the menu is shown again. *)
Lemma askOverrides_err (u : uiEnv) (server : InstanceServer) (rounds : nat)
    (config : instanceData) (w w' : world) (err : error) :
  askOverrides u server rounds config w = (Err err, w') -> read_error (input w) err.
Proof.
  revert config w. induction rounds as [|rounds IH]; intros config w; simpl.
  - intros [= <- _]. now left.
  - intros H. apply bind_inv_err in H as [H|(choice & w1 & Ea & H)].
    + exact (AskInt_err _ _ _ _ _ _ H).
    + pose proof (asking_run reads _ _ _ _
                    (asking_AskInt reads asking_reads _ _ _) Ea) as R1.
      destruct (Z.eqb choice 1); [discriminate|].
      pose proof (asking_override reads asking_reads u server choice config w1) as R2.
      destruct (override u server choice config w1) as [[r config1] w2].
      cbn [snd] in R2. apply IH in H.
      apply (read_error_later w w1 err R1), (read_error_later w1 w2 err R2), H.
Qed.

(** Each round reads an answer: with more rounds than there are answers
    left, the loops do what they do with any greater number of rounds. *)
Lemma askOverrides_rounds (u : uiEnv) (server : InstanceServer) (n m : nat)
    (config : instanceData) (w : world) :
  List.length (input w) < n -> List.length (input w) < m ->
  askOverrides u server n config w = askOverrides u server m config w.
Proof.
  revert m config w. induction n as [|n IH]; intros m config w Hn Hm; [lia|].
  destruct m as [|m]; [lia|]. simpl.
  apply bind_same. intros choice w1 Ea.
  apply AskInt_ok in Ea as (_ & _ & Hlt & _).
  destruct (Z.eqb choice 1); [reflexivity|].
  pose proof (asking_override reads asking_reads u server choice config w1) as R2.
  destruct (override u server choice config w1) as [[r config1] w2].
  cbn [snd] in R2. apply reads_length in R2. apply IH; lia.
Qed.

Lemma askMountPaths_rounds (n m : nat) (mounts : list string) (w : world) :
  List.length (input w) < n -> List.length (input w) < m ->
  askMountPaths n mounts w = askMountPaths m mounts w.
Proof.
  revert m mounts w. induction n as [|n IH]; intros m mounts w Hn Hm; [lia|].
  destruct m as [|m]; [lia|]. simpl.
  apply bind_same. intros path w1 Ea.
  apply AskString_ok in Ea as (_ & _ & Hlt & _).
  destruct (String.eqb path ""); [reflexivity|]. apply IH; lia.
Qed.

Lemma askMountPaths_err (rounds : nat) (mounts : list string) (w w' : world)
    (err : error) :
  askMountPaths rounds mounts w = (Err err, w') -> read_error (input w) err.
Proof.
  revert mounts w. induction rounds as [|rounds IH]; intros mounts w; simpl.
  - intros [= <- _]. now left.
  - intros H. apply bind_inv_err in H as [H|(path & w1 & Ea & H)].
    + exact (AskString_err _ _ _ _ _ H).
    + pose proof (asking_run reads _ _ _ _
                    (asking_AskString reads asking_reads _ _) Ea) as R1.
      destruct (String.eqb path ""); [discriminate|].
      apply IH in H. exact (read_error_later w w1 err R1 H).
Qed.

(** X14. [gatherInstanceInfo] fails only when the list of the projects or
    of the instances cannot be read, or when a question cannot be asked
    (the input is at its end, or the asker fails): the error of an override
    picked from the menu (a list the server does not give, no storage
    pool) is printed and the menu is shown again, it never ends the
    gathering. *)
Theorem gatherInstanceInfo_fails_only_on_reads (e : env) (u : uiEnv)
    (server : InstanceServer) (mt : MigrationType) (w w' : world) (err : error) :
  gatherInstanceInfo e u server mt w = (Err err, w') ->
  env_project_names e = Err err
  \/ (exists project_server, ui_instance_names u project_server = Err err)
  \/ read_error (input w) err.
Proof.
  unfold gatherInstanceInfo. cbv zeta. intros H.
  apply bind_inv_err in H as [H|(d1 & w1 & Ep & H)].
  { unfold askProject in H. apply bind_inv_err in H as [H|([] & w0 & Ee & H)];
      [discriminate|]. injection Ee as <-.
    destruct (env_project_names e) as [names|err0]; [|injection H as <- _; now left].
    destruct (Nat.ltb 1 (List.length names)); [|discriminate].
    apply bind_inv_err in H as [H|(p & w2 & _ & H)]; [|discriminate].
    right. right. exact (AskString_err _ _ _ _ _ H). }
  pose proof (asking_run reads _ _ _ _ (asking_askProject reads asking_reads e _) Ep)
    as R1.
  apply bind_inv_err in H as [H|([] & w2 & Ee & H)]; [discriminate|].
  injection Ee as <-.
  match type of H with
  | context [ui_instance_names u ?s] =>
      destruct (ui_instance_names u s) as [instanceNames|err0] eqn:En;
        [|injection H as <- _; right; left; eauto]
  end.
  right. right. apply (read_error_later w w1 err R1).
  apply bind_inv_err in H as [H|(instanceName & w3 & Ea & H)];
    [exact (AskString_err _ _ _ _ _ H)|].
  pose proof (asking_run reads _ _ _ _ (asking_AskString reads asking_reads _ _) Ea)
    as R3.
  cbn [input set_trace] in R3.
  apply (read_error_later w1 w3 err R3).
  apply bind_inv_err in H as [H|(d2 & w4 & Es & H)].
  { unfold askSourcePath in H.
    apply bind_inv_err in H as [H|(s & w4 & _ & H)]; [|discriminate].
    exact (AskString_err _ _ _ _ _ H). }
  pose proof (asking_run reads _ _ _ _ (asking_askSourcePath reads asking_reads e _ mt)
                Es) as R4.
  apply (read_error_later w3 w4 err R4).
  apply bind_inv_err in H as [H|(c3 & w5 & Ef & H)].
  { unfold askFirmware in H.
    destruct (String.eqb _ InstanceTypeVM); [|discriminate].
    destruct (contains _ _); [|discriminate].
    apply bind_inv_err in H as [H|([|] & w5 & Eb & H)];
      [exact (AskBool_err _ _ _ _ H)| |discriminate].
    pose proof (asking_run reads _ _ _ _ (asking_AskBool reads asking_reads _) Eb) as R5.
    apply (read_error_later w4 w5 err R5).
    apply bind_inv_err in H as [H|([|] & w6 & _ & H)];
      [exact (AskBool_err _ _ _ _ H)|discriminate|discriminate]. }
  pose proof (asking_run reads _ _ _ _ (asking_askFirmware reads asking_reads e u _) Ef)
    as R5.
  apply (read_error_later w4 w5 err R5).
  apply bind_inv_err in H as [H|(c4 & w6 & Em & H)].
  { unfold askMounts in H.
    destruct (String.eqb _ InstanceTypeContainer); [|discriminate].
    apply bind_inv_err in H as [H|([|] & w6 & Eb & H)];
      [exact (AskBool_err _ _ _ _ H)| |discriminate].
    pose proof (asking_run reads _ _ _ _ (asking_AskBool reads asking_reads _) Eb) as R6.
    apply (read_error_later w5 w6 err R6).
    apply bind_inv_err in H as [H|(paths & w7 & _ & H)]; [|discriminate].
    exact (askMountPaths_err _ _ _ _ _ H). }
  pose proof (asking_run reads _ _ _ _ (asking_askMounts reads asking_reads _) Em) as R6.
  apply (read_error_later w5 w6 err R6).
  exact (askOverrides_err _ _ _ _ _ _ _ H).
Qed.
(** ** The firmware of a virtual machine *)

(** What [askFirmware] leaves as it was. *)
Lemma askFirmware_frame (e : env) (u : uiEnv)
    (config config' : instanceData) (w w' : world) :
  askFirmware e u config w = (Ok config', w') ->
  let architectureName :=
    match env_arch e with Ok name => name | Err _ => ui_arch_fallback u end in
  let firmware := Config (options config') in
  data config' = data config
  /\ Profiles (options config') = Profiles (options config)
  /\ Devices (options config') = Devices (options config)
  /\ (forall key, key <> "security.csm" -> key <> "security.secureboot" ->
        map_lookup firmware key = map_lookup (Config (options config)) key)
  /\ (inst_Type (InstanceArgs (data config)) <> InstanceTypeVM
      \/ (architectureName <> "x86_64" /\ architectureName <> "aarch64") ->
      config' = config /\ w' = w)
  /\ (map_lookup (Config (options config)) "security.csm" = None ->
      map_lookup firmware "security.csm" = Some "true" ->
      map_lookup firmware "security.secureboot" = Some "false")
  /\ (map_lookup firmware "security.csm" = map_lookup (Config (options config)) "security.csm"
      \/ map_lookup firmware "security.csm" = Some "true" /\ In (AnsBool false) (input w)).
Proof.
  unfold askFirmware. cbv zeta.
  set (arch := match env_arch e with Ok name => name | Err _ => ui_arch_fallback u end).
  assert (Hsame : forall c w0, (Ok c, w0) = (Ok config', w') -> c = config ->
            w0 = w ->
            data config' = data config
            /\ Profiles (options config') = Profiles (options config)
            /\ Devices (options config') = Devices (options config)
            /\ (forall key, key <> "security.csm" -> key <> "security.secureboot" ->
                  map_lookup (Config (options config')) key
                  = map_lookup (Config (options config)) key)
            /\ config' = config /\ w' = w).
  { intros c w0 [= <- <-] -> ->. repeat split. }
  destruct (String.eqb_spec (inst_Type (InstanceArgs (data config))) InstanceTypeVM)
    as [Hvm|Hvm].
  2:{ intros H. destruct (Hsame _ _ H eq_refl eq_refl) as (H1 & H2 & H3 & H4 & H5 & H6).
      subst config' w'. repeat split; auto; try congruence; now left. }
  destruct (contains ["x86_64"; "aarch64"] arch) eqn:Harch.
  2:{ intros H. destruct (Hsame _ _ H eq_refl eq_refl) as (H1 & H2 & H3 & H4 & H5 & H6).
      subst config' w'. repeat split; auto; try congruence; now left. }
  assert (Hno : inst_Type (InstanceArgs (data config)) <> InstanceTypeVM
                \/ arch <> "x86_64" /\ arch <> "aarch64" -> False).
  { intros [H|[H1 H2]]; [contradiction|].
    apply contains_In in Harch. destruct Harch as [E|[E|[]]]; congruence. }
  intros H. apply bind_inv in H as (hasUEFI & w1 & Eu & H).
  pose proof (asking_run reads _ _ _ _ (asking_AskBool reads asking_reads _) Eu) as R1.
  apply AskBool_ok in Eu as (Hu & _).
  destruct hasUEFI.
  - apply bind_inv in H as (hasSecureBoot & w2 & Es & H).
    destruct hasSecureBoot; cbn [negb] in H; injection H as <- <-.
    + repeat split; auto; try (intros Hx; now destruct (Hno Hx)); try congruence;
        now left.
    + cbn [data options Profiles Devices Config set_Config].
      split; [reflexivity|]. split; [reflexivity|]. split; [reflexivity|].
      split; [intros key _ Hk; now apply map_lookup_store_other|].
      split; [intros Hx; now destruct (Hno Hx)|].
      rewrite map_lookup_store_other by discriminate.
      split; [congruence|now left].
  - injection H as <- <-.
    cbn [data options Profiles Devices Config set_Config].
    split; [reflexivity|]. split; [reflexivity|]. split; [reflexivity|].
    split; [intros key Hk1 Hk2; now rewrite !map_lookup_store_other|].
    split; [intros Hx; now destruct (Hno Hx)|].
    rewrite map_lookup_store_same.
    rewrite map_lookup_store_other, map_lookup_store_same by discriminate.
    split; [reflexivity|]. right. split; [reflexivity|exact Hu].
Qed.

(** X15. [askFirmware] asks about UEFI only for a virtual machine on
    [x86_64] or [aarch64] (the name [osarch.ArchitectureGetLocal] returns,
    also beside an error); otherwise it asks nothing and changes nothing.
    For such a machine it asks whether the machine boots with UEFI: on no,
    it asks nothing more and writes [security.csm] set to [true] together
    with [security.secureboot] set to [false]; on yes it asks about Secure
    Boot, and on no to that writes [security.secureboot] set to [false] and
    leaves [security.csm] as it was, on yes writes nothing.  So, on a
    configuration that did not have it, [security.csm] is never [true]
    without [security.secureboot] being [false]; no other key and nothing
    else of the configuration changes. *)
Theorem askFirmware_csm_turns_secure_boot_off (e : env) (u : uiEnv)
    (config config' : instanceData) (w w' : world) :
  askFirmware e u config w = (Ok config', w') ->
  let architectureName :=
    match env_arch e with Ok name => name | Err _ => ui_arch_fallback u end in
  let firmware := Config (options config') in
  data config' = data config
  /\ Profiles (options config') = Profiles (options config)
  /\ Devices (options config') = Devices (options config)
  /\ (forall key, key <> "security.csm" -> key <> "security.secureboot" ->
        map_lookup firmware key = map_lookup (Config (options config)) key)
  /\ (inst_Type (InstanceArgs (data config)) <> InstanceTypeVM
      \/ (architectureName <> "x86_64" /\ architectureName <> "aarch64") ->
      config' = config /\ w' = w)
  /\ (map_lookup (Config (options config)) "security.csm" = None ->
      map_lookup firmware "security.csm" = Some "true" ->
      map_lookup firmware "security.secureboot" = Some "false")
  /\ (map_lookup firmware "security.csm" = map_lookup (Config (options config)) "security.csm"
      \/ map_lookup firmware "security.csm" = Some "true" /\ In (AnsBool false) (input w))
  /\ (inst_Type (InstanceArgs (data config)) = InstanceTypeVM ->
      architectureName = "x86_64" \/ architectureName = "aarch64" ->
      exists hasUEFI w1,
        AskBool "Does the VM support UEFI booting? [default=yes]: " w = (Ok hasUEFI, w1)
        /\ if hasUEFI
           then exists hasSecureBoot,
                  AskBool "Does the VM support UEFI Secure Boot? [default=yes]: " w1
                  = (Ok hasSecureBoot, w')
                  /\ if hasSecureBoot
                     then config' = config
                     else config' = set_Config "security.secureboot" "false" config
                          /\ map_lookup firmware "security.secureboot" = Some "false"
                          /\ map_lookup firmware "security.csm"
                             = map_lookup (Config (options config)) "security.csm"
           else w' = w1
                /\ config' = set_Config "security.secureboot" "false"
                               (set_Config "security.csm" "true" config)
                /\ map_lookup firmware "security.csm" = Some "true"
                /\ map_lookup firmware "security.secureboot" = Some "false").
Proof.
  intros H architectureName firmware.
  destruct (askFirmware_frame e u config config' w w' H)
    as (H1 & H2 & H3 & H4 & H5 & H6 & H7).
  fold architectureName firmware in H4, H5, H6, H7.
  split; [exact H1|]. split; [exact H2|]. split; [exact H3|]. split; [exact H4|].
  split; [exact H5|]. split; [exact H6|]. split; [exact H7|].
  clear H1 H2 H3 H4 H5 H6 H7. intros Hvm Harch. revert H.
  unfold askFirmware. rewrite Hvm, String.eqb_refl. fold architectureName.
  replace (contains ["x86_64"; "aarch64"] architectureName) with true
    by (destruct Harch as [-> | ->]; reflexivity).
  intros H. apply bind_inv in H as (hasUEFI & w1 & Eu & H).
  exists hasUEFI, w1. split; [exact Eu|]. subst firmware.
  destruct hasUEFI.
  - apply bind_inv in H as (hasSecureBoot & w2 & Es & H).
    exists hasSecureBoot.
    destruct hasSecureBoot; cbn [negb] in H; injection H as <- <-.
    + split; [exact Es|reflexivity].
    + split; [exact Es|]. split; [reflexivity|].
      cbn [options Config set_Config]. rewrite map_lookup_store_same.
      split; [reflexivity|]. now apply map_lookup_store_other.
  - injection H as <- <-. split; [reflexivity|]. split; [reflexivity|].
    cbn [options Config set_Config]. rewrite map_lookup_store_same.
    rewrite map_lookup_store_other, map_lookup_store_same by discriminate.
    split; reflexivity.
Qed.
(** ** [askServer] *)

Section AskingServer.

Variable R : world -> world -> Prop.
Hypothesis HR : asking R.
Variable u : uiEnv.

Lemma asking_connectServer (serverURL : string) :
  preserves R (connectServer u serverURL).
Proof. unfold connectServer. asking_steps HR. Qed.

Lemma asking_askAuthMethod (authMethods : list string) :
  preserves R (askAuthMethod authMethods).
Proof. unfold askAuthMethod. asking_steps HR. Qed.

Lemma asking_askCredentials (authMethod : AuthMethod) :
  preserves R (askCredentials u authMethod).
Proof.
  unfold askCredentials. destruct authMethod; asking_steps HR;
    match goal with
    | |- R ?w (snd (AskString ?q ?a ?w)) => apply (asking_AskString R HR q a w)
    end.
Qed.

Lemma asking_askServer : preserves R (askServer u).
Proof.
  unfold askServer.
  assert (Hremote : preserves R
            (serverURL <- AskString "Please provide Incus server URL: " nonempty ;;
             match ui_parseURL u serverURL with
             | Err err => fail err
             | Ok serverURL =>
                 server <- connectServer u serverURL ;;
                 emit (EvGet "GetServer") ;;
                 match ui_auth_methods u server with
                 | Err err => fail (Wrapf "Failed to get server: %w" [] err)
                 | Ok authMethods =>
                     authMethod <- askAuthMethod authMethods ;;
                     credentials <- askCredentials u authMethod ;;
                     let '(certPath, keyPath, token) := credentials in
                     emit (EvGet "connectTarget") ;;
                     match ui_connectTarget u serverURL certPath keyPath
                             (authTypeOf authMethod) token with
                     | Err err => fail err
                     | Ok target => ret target
                     end
                 end
             end)).
  { apply preserves_bind; [exact (proj1 (proj2 HR))|asking_steps HR|intros serverURL].
    destruct (ui_parseURL u serverURL) as [url|err0]; [|asking_steps HR].
    apply preserves_bind;
      [exact (proj1 (proj2 HR))|apply asking_connectServer|intros server].
    apply preserves_bind; [exact (proj1 (proj2 HR))|asking_steps HR|intros _].
    destruct (ui_auth_methods u server) as [authMethods|err1]; [|asking_steps HR].
    apply preserves_bind;
      [exact (proj1 (proj2 HR))|apply asking_askAuthMethod|intros authMethod].
    apply preserves_bind;
      [exact (proj1 (proj2 HR))|apply asking_askCredentials|intros [[c k] t]].
    asking_steps HR. }
  apply preserves_bind; [exact (proj1 (proj2 HR))|asking_steps HR|intros _].
  destruct (ui_connectLocal u) as [local|err].
  - apply preserves_bind; [exact (proj1 (proj2 HR))|asking_steps HR|intros useLocal].
    destruct useLocal; [asking_steps HR|exact Hremote].
  - apply preserves_bind; [exact (proj1 (proj2 HR))|asking_steps HR|intros useLocal].
    exact Hremote.
Qed.

End AskingServer.

Lemma certificateAccepted_first (line : string) :
  certificateAccepted line = true <->
  exists c rest, line = String c rest /\ (c = "y"%char \/ c = "Y"%char).
Proof.
  destruct line as [|c rest]; simpl.
  - split; [discriminate|intros (c & rest & H & _); discriminate].
  - rewrite orb_true_iff, !Ascii.eqb_eq. split.
    + intros H. exists c, rest. split; [reflexivity|exact H].
    + intros (c' & rest' & [= -> ->] & H). exact H.
Qed.

(** X16. A server that the certificates of the system do not vouch for is
    connected to without verification only when the user took its
    certificate: the connection with [InsecureSkipVerify] is attempted
    exactly when the verified one failed, the certificate of the server
    could be fetched and the line read at the prompt starts with [y] or
    [Y]; any other line, the empty one too, ends [connectServer] with
    [Server certificate rejected by user]; and the server returned is the
    one the verified connection gave or, after that, the unverified one. *)
Theorem unverified_connection_only_after_yes (u : uiEnv) (serverURL : string)
    (w : world) :
  let run := connectServer u serverURL w in
  let unverified := EvGet "ConnectIncus InsecureSkipVerify" in
  (In unverified (since w (snd run)) <->
     (exists err, ui_ConnectIncus u serverURL false = Err err)
     /\ (exists digest, ui_remote_certificate u serverURL = Ok digest)
     /\ exists c rest,
          ui_stdin_line u = Ok (String c rest) /\ (c = "y"%char \/ c = "Y"%char))
  /\ (forall server, fst run = Ok server ->
        ui_ConnectIncus u serverURL false = Ok server
        \/ ui_ConnectIncus u serverURL true = Ok server
           /\ In unverified (since w (snd run)))
  /\ (forall err digest line,
        ui_ConnectIncus u serverURL false = Err err ->
        ui_remote_certificate u serverURL = Ok digest ->
        ui_stdin_line u = Ok line ->
        (forall rest, line <> String "y" rest /\ line <> String "Y" rest) ->
        fst run = Err (Errorf "Server certificate rejected by user" [])
        /\ since w (snd run)
           = [EvGet "ConnectIncus"; EvGet "GetRemoteCertificate"; EvAsk "ok (y/n)? "]).
Proof.
  cbv zeta. unfold connectServer, bind, emit, fail, ret. cbn [fst snd].
  destruct (ui_ConnectIncus u serverURL false) as [server0|err0] eqn:E0.
  { cbn [fst snd]. rewrite (since_app _ _ [EvGet "ConnectIncus"]) by reflexivity.
    split; [|split].
    - split; [intros [H|[]]; discriminate|intros [[err H] _]; discriminate].
    - intros server [= <-]. now left.
    - discriminate. }
  cbn [fst snd].
  destruct (ui_remote_certificate u serverURL) as [digest|err1] eqn:E1.
  2:{ cbn [fst snd].
      rewrite (since_app _ _ [EvGet "ConnectIncus"; EvGet "GetRemoteCertificate"])
        by (cbn [trace set_trace]; now rewrite <- app_assoc).
      split; [|split].
      - split; [intros [H|[H|[]]]; discriminate|intros (_ & [d H] & _); discriminate].
      - discriminate.
      - discriminate. }
  cbn [fst snd].
  destruct (ui_stdin_line u) as [line|err2] eqn:E2.
  2:{ cbn [fst snd].
      rewrite (since_app _ _ [EvGet "ConnectIncus"; EvGet "GetRemoteCertificate";
                              EvAsk "ok (y/n)? "])
        by (cbn [trace set_trace]; now rewrite <- !app_assoc).
      split; [|split].
      - split; [intros [H|[H|[H|[]]]]; discriminate
               |intros (_ & _ & c & rest & H & _); discriminate].
      - discriminate.
      - discriminate. }
  destruct (certificateAccepted line) eqn:Ha; cbn [negb fst snd].
  - apply certificateAccepted_first in Ha as (c & rest & -> & Hc).
    destruct (ui_ConnectIncus u serverURL true) as [server1|err3]; cbn [fst snd];
      rewrite (since_app w _ [EvGet "ConnectIncus"; EvGet "GetRemoteCertificate";
                              EvAsk "ok (y/n)? ";
                              EvGet "ConnectIncus InsecureSkipVerify"])
        by (cbn [trace set_trace]; now rewrite <- !app_assoc).
    + split; [|split].
      * split; [intros _|intros _; simpl; tauto].
        split; [eauto|]. split; [eauto|]. exists c, rest. auto.
      * intros server [= <-]. right. split; [reflexivity|simpl; tauto].
      * intros err digest0 line0 _ _ [= <-] Hn. exfalso.
        destruct (Hn rest) as [H1 H2]. destruct Hc as [-> | ->]; congruence.
    + split; [|split].
      * split; [intros _|intros _; simpl; tauto].
        split; [eauto|]. split; [eauto|]. exists c, rest. auto.
      * discriminate.
      * intros err digest0 line0 _ _ [= <-] Hn. exfalso.
        destruct (Hn rest) as [H1 H2]. destruct Hc as [-> | ->]; congruence.
  - rewrite (since_app _ _ [EvGet "ConnectIncus"; EvGet "GetRemoteCertificate";
                            EvAsk "ok (y/n)? "])
      by (cbn [trace set_trace]; now rewrite <- !app_assoc).
    split; [|split].
    + split; [intros [H|[H|[H|[]]]]; discriminate|].
      intros (_ & _ & c & rest & [= ->] & Hc). exfalso.
      assert (certificateAccepted (String c rest) = true)
        by (apply certificateAccepted_first; eauto).
      congruence.
    + discriminate.
    + intros err digest0 line0 _ _ _ _. split; reflexivity.
Qed.
(** X17. The number picked at the menu of [askServer] selects the mechanism
    printed beside it: when the server offers TLS, 1 is the certificate
    token, 2 an existing certificate, 3 a temporary certificate, the
    question takes no other number, and the index into the table of
    mechanisms is in range.  When the server offers at most one mechanism
    and not TLS, nothing is asked and the mechanism is the zero value, an
    existing certificate.  When it offers several and not TLS, the table is
    empty: the only number the question takes is 1, and indexing the table
    with it is out of range, so no mechanism is ever returned. *)
Theorem authentication_menu_matches_the_choice (authMethods : list string)
    (w w' : world) (r : result AuthMethod) :
  askAuthMethod authMethods w = (r, w') ->
  if contains authMethods AuthenticationMethodTLS then
    match r with
    | Ok authMethod =>
        exists n,
          In (AnsInt n) (input w)
          /\ nth_error (availableAuthMethods authMethods) (Z.to_nat (n - 1))
             = Some authMethod
          /\ (n = 1%Z /\ authMethod = authMethodTLSCertificateToken
              \/ n = 2%Z /\ authMethod = authMethodTLSCertificate
              \/ n = 3%Z /\ authMethod = authMethodTLSTemporaryCertificate)
    | Err err => read_error (input w) err
    end
  else if Nat.ltb 1 (List.length authMethods) then
    match r with
    | Ok _ => False
    | Err err =>
        (err = ErrSys "panic: index out of range" /\ In (AnsInt 1) (input w))
        \/ read_error (input w) err
    end
  else r = Ok authMethodTLSCertificate /\ w' = w.
Proof.
  unfold askAuthMethod, availableAuthMethods, lastAuthNumber.
  destruct (contains authMethods AuthenticationMethodTLS) eqn:Htls.
  - rewrite orb_true_r. intros H.
    destruct r as [authMethod|err].
    + apply bind_inv in H as (n & w1 & Ea & H).
      apply AskInt_ok in Ea as ([Hlo Hhi] & Hin & _).
      exists n. split; [exact Hin|].
      assert (Hn : n = 1%Z \/ n = 2%Z \/ n = 3%Z) by lia.
      destruct Hn as [-> | [-> | ->]]; cbn in H |- *; injection H as <- _;
        (split; [reflexivity|tauto]).
    + apply bind_inv_err in H as [H|(n & w1 & Ea & H)].
      * exact (AskInt_err _ _ _ _ _ _ H).
      * apply AskInt_ok in Ea as ([Hlo Hhi] & Hin & _).
        assert (Hn : n = 1%Z \/ n = 2%Z \/ n = 3%Z) by lia.
        destruct Hn as [-> | [-> | ->]]; discriminate.
  - rewrite orb_false_r.
    destruct (Nat.ltb 1 (List.length authMethods)).
    + intros H. destruct r as [authMethod|err].
      * apply bind_inv in H as (n & w1 & _ & H). now destruct (Z.to_nat (n - 1)).
      * apply bind_inv_err in H as [H|(n & w1 & Ea & H)].
        { right. exact (AskInt_err _ _ _ _ _ _ H). }
        apply AskInt_ok in Ea as ([Hlo Hhi] & Hin & _).
        assert (n = 1%Z) as -> by lia.
        left. split; [|exact Hin]. cbn in H. now injection H as <- _.
    + intros [= <- <-]. split; reflexivity.
Qed.

Lemma askCredentials_ok (u : uiEnv) (authMethod : AuthMethod)
    (certPath keyPath token : string) (w w' : world) :
  askCredentials u authMethod w = (Ok (certPath, keyPath, token), w') ->
  match authMethod with
  | authMethodTLSCertificate =>
      path_exists w certPath = true /\ path_exists w keyPath = true /\ token = ""
  | authMethodTLSCertificateToken =>
      certPath = "" /\ keyPath = "" /\ ui_token_decode u token = None
  | authMethodTLSTemporaryCertificate => certPath = "" /\ keyPath = "" /\ token = ""
  end.
Proof.
  unfold askCredentials. destruct authMethod.
  - intros H. apply bind_inv in H as (c & w1 & Ec & H).
    assert (Hfs : fs w1 = fs w).
    { pose proof (asking_AskString restored asking_restored
                    "Please provide the certificate path: " (path_exists w) w)
        as [Hf _]. now rewrite Ec in Hf. }
    apply AskString_ok in Ec as (Hc & _).
    apply bind_inv in H as (k & w2 & Ek & H).
    apply AskString_ok in Ek as (Hk & _). injection H as <- <- <- _.
    repeat split; [exact Hc|]. unfold path_exists in *. now rewrite <- Hfs.
  - intros [= <- <- <- _]. repeat split.
  - intros H. apply bind_inv in H as (t & w1 & Et & H).
    apply AskString_ok in Et as (Ht & _). injection H as <- <- <- _.
    repeat split. unfold is_none in Ht. now destruct (ui_token_decode u t).
Qed.

(** X18. The server [askServer] returns is the local one, with no
    fingerprint, when there is one and the user takes it; otherwise it is
    what [connectTarget] gives for the URL as [parseURL] read it, the
    authentication type TLS and credentials the questions checked: a
    certificate and a key that exist with no token, or a token that decodes
    with no certificate, or none of them (a temporary certificate); and the
    questions touch neither the files nor the mounts. *)
Theorem askServer_connects_with_checked_credentials (u : uiEnv) (w w' : world)
    (server : InstanceServer) (clientFingerprint : string) :
  askServer u w = (Ok (server, clientFingerprint), w') ->
  (fs w' = fs w /\ mounts w' = mounts w)
  /\ ((ui_connectLocal u = Ok server /\ clientFingerprint = ""
       /\ In (AnsBool true) (input w))
      \/ exists answer serverURL certPath keyPath token,
           In (AnsString answer) (input w)
           /\ ui_parseURL u answer = Ok serverURL
           /\ ui_connectTarget u serverURL certPath keyPath AuthenticationMethodTLS token
              = Ok (server, clientFingerprint)
           /\ (path_exists w certPath = true /\ path_exists w keyPath = true
               /\ token = ""
               \/ certPath = "" /\ keyPath = ""
                  /\ (token = "" \/ ui_token_decode u token = None))).
Proof.
  intros H.
  pose proof (asking_run restored _ _ _ _ (asking_askServer restored asking_restored u) H)
    as Hw.
  split; [exact Hw|]. unfold askServer in H.
  apply bind_inv in H as ([] & w0 & Ee & H). injection Ee as <-.
  set (w0 := set_trace (trace w ++ [EvGet "connectLocal"]) w) in *.
  assert (Hremote : forall w1,
            reads w0 w1 -> fs w1 = fs w ->
            (serverURL <- AskString "Please provide Incus server URL: " nonempty ;;
             match ui_parseURL u serverURL with
             | Err err => fail err
             | Ok serverURL =>
                 server <- connectServer u serverURL ;;
                 emit (EvGet "GetServer") ;;
                 match ui_auth_methods u server with
                 | Err err => fail (Wrapf "Failed to get server: %w" [] err)
                 | Ok authMethods =>
                     authMethod <- askAuthMethod authMethods ;;
                     credentials <- askCredentials u authMethod ;;
                     let '(certPath, keyPath, token) := credentials in
                     emit (EvGet "connectTarget") ;;
                     match ui_connectTarget u serverURL certPath keyPath
                             (authTypeOf authMethod) token with
                     | Err err => fail err
                     | Ok target => ret target
                     end
                 end
             end) w1 = (Ok (server, clientFingerprint), w') ->
            exists answer serverURL certPath keyPath token,
              In (AnsString answer) (input w)
              /\ ui_parseURL u answer = Ok serverURL
              /\ ui_connectTarget u serverURL certPath keyPath
                   AuthenticationMethodTLS token
                 = Ok (server, clientFingerprint)
              /\ (path_exists w certPath = true /\ path_exists w keyPath = true
                  /\ token = ""
                  \/ certPath = "" /\ keyPath = ""
                     /\ (token = "" \/ ui_token_decode u token = None))).
  { intros w1 R1 Hfs1 H1.
    apply bind_inv in H1 as (answer & w2 & Ea & H1).
    pose proof (asking_run restored _ _ _ _
                  (asking_AskString restored asking_restored _ _) Ea) as [Hfs2 _].
    apply AskString_ok in Ea as (_ & Hin & _).
    destruct (ui_parseURL u answer) as [serverURL|err0] eqn:Eu; [|discriminate].
    apply bind_inv in H1 as (server1 & w3 & Ec & H1).
    pose proof (asking_run restored _ _ _ _
                  (asking_connectServer restored asking_restored u _) Ec) as [Hfs3 _].
    apply bind_inv in H1 as ([] & w4 & Ee & H1). injection Ee as <-.
    destruct (ui_auth_methods u server1) as [authMethods|err1]; [|discriminate].
    apply bind_inv in H1 as (authMethod & w5 & Em & H1).
    pose proof (asking_run restored _ _ _ _
                  (asking_askAuthMethod restored asking_restored _) Em) as [Hfs5 _].
    cbn [fs set_trace] in Hfs5.
    apply bind_inv in H1 as ([[certPath keyPath] token] & w6 & Ek & H1).
    apply askCredentials_ok in Ek.
    apply bind_inv in H1 as ([] & w7 & Ee & H1). injection Ee as <-.
    destruct (ui_connectTarget u serverURL certPath keyPath (authTypeOf authMethod) token)
      as [target|err2] eqn:Et; [|discriminate].
    injection H1 as -> _.
    exists answer, serverURL, certPath, keyPath, token.
    split; [exact (reads_In _ _ _ R1 Hin)|]. split; [exact Eu|].
    split; [destruct authMethod; exact Et|].
    assert (Hfs5' : fs w5 = fs w) by congruence.
    destruct authMethod.
    - left. destruct Ek as (H1 & H2 & H3). unfold path_exists in *.
      rewrite Hfs5' in *. auto.
    - right. destruct Ek as (H1 & H2 & H3). auto.
    - right. destruct Ek as (H1 & H2 & H3). auto. }
  destruct (ui_connectLocal u) as [local|err] eqn:El.
  - apply bind_inv in H as (useLocal & w1 & Eb & H).
    pose proof (asking_run reads _ _ _ _ (asking_AskBool reads asking_reads _) Eb) as R1.
    pose proof (asking_run restored _ _ _ _
                  (asking_AskBool restored asking_restored _) Eb) as [Hfs1 _].
    apply AskBool_ok in Eb as (Hb & _).
    destruct useLocal.
    + injection H as <- <- _. left. repeat split. exact Hb.
    + right. exact (Hremote w1 R1 Hfs1 H).
  - apply bind_inv in H as (useLocal & w1 & Eb & H). injection Eb as _ <-.
    right. apply (Hremote w0); [apply reads_refl|reflexivity|exact H].
Qed.
Lemma runMigration_keeps_certificate (e : env) (server : InstanceServer)
    (config : cmdMigrateData) (mt : MigrationType) (h : Handler) :
  remote_only h ->
  preserves (adds not_certificate_delete) (runMigration e server config mt h).
Proof.
  intros Hr. set (good := not_certificate_delete).
  assert (Hh : forall server' config' path,
             preserves (adds good) (h server' config' path mt)).
  { intros. apply adds_handler; [exact Hr|]. now intros []. }
  assert (Hn : forall path config', preserves (adds good) (normalizeDisk e path config')).
  { intros path config'. unfold normalizeDisk.
    destruct (env_detect e (SourcePath config')) as [ext convCmd].
    destruct (isConvertible ext); [|apply preserves_ret, adds_refl].
    destruct convCmd as [|convCmd0 rest]; [apply preserves_fail, adds_refl|].
    apply preserves_bind; [apply adds_trans|adds_steps good|].
    intros [found|err]; [|apply preserves_fail, adds_refl].
    unfold directIOProbe. adds_steps good. }
  unfold runMigration.
  apply preserves_bind; [apply adds_trans|adds_steps good|intros _].
  apply preserves_defer; [apply adds_trans|adds_steps good|].
  apply preserves_bind; [apply adds_trans|unfold sandbox; adds_steps good|intros _].
  unfold migrateFromTemporaryPath.
  apply preserves_bind; [apply adds_trans|adds_steps good|intros path].
  apply preserves_defer; [apply adds_trans|unfold cleanup; adds_steps good|].
  destruct (isFilesystemType mt) eqn:Hfs.
  - apply preserves_bind; [apply adds_trans|adds_steps good|intros _].
    apply preserves_bind; [apply adds_trans| |intros _].
    + apply preserves_wrapErr, setupSource_adds; reflexivity.
    + apply Hh.
  - apply preserves_bind; [apply adds_trans| |intros config'].
    { apply Hn. }
    apply preserves_bind; [apply adds_trans| |intros _].
    + unfold mountImage. adds_steps good.
    + apply Hh.
Qed.

Lemma dispatch_keeps_certificate (e : env) (u : uiEnv) (flagRsyncArgs : string)
    (ctx : Context) (server : InstanceServer) (creationType : Z) :
  preserves (adds not_certificate_delete)
    (dispatch e u flagRsyncArgs ctx server creationType).
Proof.
  set (good := not_certificate_delete).
  assert (HR : asking (adds good)) by (apply asking_adds; now intros []).
  assert (Hi : forall mt,
             preserves (adds good)
               (migrateInstance e flagRsyncArgs ctx
                  (config <- gatherInstanceInfo e u server mt ;; ret (data config))
                  server mt)).
  { intros mt. unfold migrateInstance.
    destruct mt; try (apply preserves_fail, adds_refl).
    all: apply preserves_bind; [apply adds_trans| |intros config;
           apply runMigration_keeps_certificate, migrateInstance_handler_remote_only].
    all: apply preserves_bind; [apply adds_trans
           |apply asking_gatherInstanceInfo; exact HR
           |intros c; apply preserves_ret, adds_refl]. }
  assert (Hv : forall mt,
             preserves (adds good) (migrateCustomVolume e flagRsyncArgs ctx server mt)).
  { intros mt. unfold migrateCustomVolume.
    destruct mt; try (apply preserves_fail, adds_refl).
    all: apply preserves_bind; [apply adds_trans| |intros config].
    1,3: unfold gatherCustomVolumeInfo;
      apply preserves_bind; [apply adds_trans| |intros config].
    1,3: intros w0; eapply adds_weaken;
         [|exact (proj1 (questions_only_asked _ _ _ w0))]; now intros [].
    1,2: apply preserves_bind;
         [apply adds_trans|exact (asking_AskBool _ HR _)
         |intros []; apply preserves_ret, adds_refl].
    all: destruct (String.eqb _ ""); [apply preserves_ret, adds_refl|];
         apply runMigration_keeps_certificate, migrateCustomVolume_handler_remote_only. }
  unfold dispatch.
  destruct (Z.eqb creationType 1); [apply Hi|].
  destruct (Z.eqb creationType 2); [apply Hi|].
  destruct (Z.eqb creationType 3); [apply Hv|].
  destruct (Z.eqb creationType 4); [apply Hv|].
  apply preserves_ret, adds_refl.
Qed.
Lemma bind_attempt {A B : Type} (c : M A) (k : result A -> M B) (w : world) :
  bind (attempt c) k w = k (fst (c w)) (snd (c w)).
Proof. reflexivity. Qed.

(** X19. [run] deletes the client certificate exactly when [askServer]
    registered one: when the tool runs as root, rsync is found and
    [askServer] returns a fingerprint that is not empty, the deletion of
    that certificate is the last call of the run and the only deletion of a
    certificate, whatever the questions and the migration return; in every
    other run no certificate is deleted. *)
Theorem certificate_deleted_last_when_registered (e : env) (u : uiEnv)
    (flagRsyncArgs : string) (w : world) :
  let found := exec_LookPath e "rsync" w in
  let target := askServer u (snd found) in
  exists before,
    forallb not_certificate_delete before = true
    /\ since w (snd (run e u flagRsyncArgs w))
       = before ++
         match fst target with
         | Ok (_, clientFingerprint) =>
             if Z.eqb (ui_euid u) 0 && is_ok (fst found) && nonempty clientFingerprint
             then [EvDeleteCertificate clientFingerprint]
             else []
         | Err _ => []
         end.
Proof.
  intros found target. set (good := not_certificate_delete).
  assert (HR : asking (adds good)) by (apply asking_adds; now intros []).
  assert (Hend : forall w', adds good w w' ->
            exists before, forallb good before = true /\ since w w' = before ++ []).
  { intros w' Ha. apply adds_since in Ha as [_ Ha].
    exists (since w w'). now rewrite app_nil_r. }
  unfold run. destruct (Z.eqb (ui_euid u) 0) eqn:Hroot; cbn [negb andb].
  2:{ destruct (fst target) as [[? ?]|?]; apply Hend, adds_refl. }
  rewrite bind_attempt. fold found.
  assert (Hf : adds good w (snd found)).
  { assert (H : preserves (adds good) (exec_LookPath e "rsync")) by adds_steps good.
    exact (H w). }
  destruct (fst found) as [[]|err0]; cbn [is_ok andb].
  2:{ destruct (fst target) as [[? ?]|?]; apply Hend; exact Hf. }
  pose proof (asking_askServer (adds good) HR u (snd found)) as Ht. fold target in Ht.
  unfold bind. fold target.
  destruct target as [[[server clientFingerprint]|err1] w2]; cbn [fst snd] in Ht |- *.
  2:{ apply Hend. eapply adds_trans; eauto. }
  set (session := bind (AskInt creationQuestion 1 4)
                    (fun creationType => dispatch e u flagRsyncArgs false server creationType)).
  assert (Hs : adds good w (snd (session w2))).
  { eapply adds_trans; [exact Hf|]. eapply adds_trans; [exact Ht|].
    assert (H : preserves (adds good) session); [|exact (H w2)].
    apply preserves_bind; [apply adds_trans|exact (asking_AskInt _ HR _ _ _)|].
    intros creationType. apply dispatch_keeps_certificate. }
  destruct (nonempty clientFingerprint).
  - rewrite defer_snd, ignore_snd.
    destruct Hs as (before & Hb & Hg). exists before. split; [exact Hg|].
    apply since_app.
    change (trace (snd (session w2)) ++ [EvDeleteCertificate clientFingerprint]
            = trace w ++ before ++ [EvDeleteCertificate clientFingerprint]).
    now rewrite Hb, app_assoc.
  - apply Hend. exact Hs.
Qed.
(** ** The statements on the rest of the code at the sample inputs *)

(** X1 at a sample: the volume of a user who accepts is named and its source
    exists. *)
Lemma gatherCustomVolumeInfo_valid_or_declined_witness :
  vol_Name (CustomVolumeArgs sample_volume) <> ""
  /\ path_exists (sample_world sample_accepts) (SourcePath sample_volume) = true.
Proof.
  assert (E : gatherCustomVolumeInfo (sample_env None None None None) sample_server
                MigrationTypeVolumeBlock (sample_world sample_accepts)
              = (Ok sample_volume,
                 snd (gatherCustomVolumeInfo (sample_env None None None None)
                        sample_server MigrationTypeVolumeBlock
                        (sample_world sample_accepts))))
    by (vm_compute; reflexivity).
  destruct (gatherCustomVolumeInfo_valid_or_declined _ _ _ _ _ _ E)
    as [[H _]|(Hn & _ & _ & _ & Hp & _)].
  - discriminate H.
  - split; assumption.
Defined.
(** X3 at a sample: the migration of the sample virtual machine leaves the
    files as they were. *)
Lemma disk_migration_leaves_nothing_behind_witness :
  fs (snd (runMigration (sample_env None None None None) sample_server sample_vm
             MigrationTypeVM
             (migrateInstance_handler (sample_env None None None None) "" false)
             (sample_world [])))
  = fs (sample_world []).
Proof.
  exact (proj1 (disk_migration_leaves_nothing_behind (sample_env None None None None)
                  sample_server sample_vm MigrationTypeVM _ (sample_world []) eq_refl
                  (migrateInstance_handler_remote_only _ _ _))).
Defined.

(** X4 at a sample: the source of the sample container is still there after
    its migration. *)
Lemma migration_spares_what_was_there_witness :
  In "/src/root"
    (fs (snd (runMigration (sample_env None None None None) sample_server
                sample_container MigrationTypeContainer
                (migrateInstance_handler (sample_env None None None None) "" false)
                (sample_world [])))).
Proof.
  apply (proj1 (migration_spares_what_was_there (sample_env None None None None)
                  sample_server sample_container MigrationTypeContainer _
                  (sample_world []) (migrateInstance_handler_remote_only _ _ _))).
  cbn. auto 10.
Defined.

(** X5 at a sample: the transfer of the sample virtual machine reads the
    temporary path. *)
Lemma session_calls_follow_the_configuration_witness :
  In (EvTransfer sample_tmp MigrationTypeVM)
    (since (sample_world [])
       (snd (runMigration (sample_env None None None None) sample_server sample_vm
               MigrationTypeVM
               (migrateInstance_handler (sample_env None None None None) "" false)
               (sample_world []))))
  /\ sample_tmp = tempPath (sample_env None None None None) "" "incus-migrate_mount_".
Proof.
  assert (H : In (EvTransfer sample_tmp MigrationTypeVM)
                (since (sample_world [])
                   (snd (runMigration (sample_env None None None None) sample_server
                           sample_vm MigrationTypeVM
                           (migrateInstance_handler (sample_env None None None None)
                              "" false)
                           (sample_world []))))).
  { vm_compute. auto 30. }
  split; [exact H|].
  exact (proj1 (session_calls_follow_the_configuration (sample_env None None None None)
                  "" false sample_server sample_vm MigrationTypeVM (sample_world [])
                  (EvTransfer sample_tmp MigrationTypeVM) (or_introl H))).
Defined.

(** X6 at a sample: the thread is unlocked when the migration of the sample
    container ends. *)
Lemma thread_locked_from_first_to_last_call_witness :
  exists between,
    since (sample_world [])
      (snd (runMigration (sample_env None None None None) sample_server
              sample_container MigrationTypeContainer
              (migrateInstance_handler (sample_env None None None None) "" false)
              (sample_world [])))
    = EvLockOSThread :: between ++ [EvUnlockOSThread].
Proof.
  destruct (thread_locked_from_first_to_last_call (sample_env None None None None)
              sample_server sample_container MigrationTypeContainer _ (sample_world [])
              (migrateInstance_handler_remote_only
                 (sample_env None None None None) "" false))
    as (between & H & _).
  exists between. exact H.
Defined.

(** X7 at a sample: without the right to unshare the namespace the handler
    changes nothing. *)
Lemma handler_not_called_after_a_failure_witness :
  runMigration sample_env_unprivileged sample_server sample_vm MigrationTypeVM
    (migrateInstance_handler sample_env_unprivileged "" false) (sample_world [])
  = runMigration sample_env_unprivileged sample_server sample_vm MigrationTypeVM
      noHandler (sample_world []).
Proof.
  apply (handler_not_called_after_a_failure sample_env_unprivileged sample_server
           sample_vm MigrationTypeVM _ (sample_world [])
           (Wrapf "Failed to unshare mount namespace: %w" []
              (ErrSys "operation not permitted"))).
  reflexivity.
Defined.

(** X8 at a sample: the migration of the sample virtual machine returns what
    the handler returns, called with the instance of the configuration. *)
Lemma handler_called_once_when_the_source_is_ready_witness :
  exists server' config' w1,
    fst (runMigration (sample_env None None None None) sample_server sample_vm
           MigrationTypeVM
           (migrateInstance_handler (sample_env None None None None) "" false)
           (sample_world []))
    = fst (migrateInstance_handler (sample_env None None None None) "" false
             server' config' sample_tmp MigrationTypeVM w1)
    /\ InstanceArgs config' = InstanceArgs sample_vm.
Proof.
  assert (Hok : fst (runMigration (sample_env None None None None) sample_server
                       sample_vm MigrationTypeVM noHandler (sample_world []))
                = Ok tt) by (vm_compute; reflexivity).
  destruct (handler_called_once_when_the_source_is_ready
              (sample_env None None None None) sample_server sample_vm MigrationTypeVM
              (migrateInstance_handler (sample_env None None None None) "" false)
              (sample_world []) (migrateInstance_handler_remote_only _ _ _) Hok)
    as (server' & config' & w1 & before & after & Hr & _ & _ & _ & _ & Hi & _).
  exists server', config', w1. split; [exact Hr|exact Hi].
Defined.

(** X10 at a sample: the profiles of the answer are those of the instance,
    in its order. *)
Lemma askProfiles_sets_listed_profiles_witness :
  Profiles (options
    (snd (fst (askProfiles sample_ui sample_server sample_instance
                 (sample_world [AnsString "web default"])))))
  = ["web"; "default"].
Proof.
  pose proof (askProfiles_sets_listed_profiles sample_ui sample_server sample_instance
                (snd (fst (askProfiles sample_ui sample_server sample_instance
                             (sample_world [AnsString "web default"]))))
                (sample_world [AnsString "web default"])
                (snd (askProfiles sample_ui sample_server sample_instance
                        (sample_world [AnsString "web default"])))
                (Ok tt) ltac:(vm_compute; reflexivity)) as H.
  destruct H as (_ & _ & _ & [[[Hin|[]] _]|(names & answer & _ & [Hin|[]] & _ & Hp & _)]).
  - discriminate Hin.
  - injection Hin as <-. exact Hp.
Defined.


(** X15 at a sample: a virtual machine without UEFI gets the compatibility
    module and no Secure Boot. *)
Lemma askFirmware_csm_turns_secure_boot_off_witness :
  map_lookup
    (Config (options
       (set_Config "security.secureboot" "false"
          (set_Config "security.csm" "true" sample_instance))))
    "security.secureboot"
  = Some "false".
Proof.
  pose proof (askFirmware_csm_turns_secure_boot_off (sample_env None None None None)
                sample_ui sample_instance
                (set_Config "security.secureboot" "false"
                   (set_Config "security.csm" "true" sample_instance))
                (sample_world [AnsBool false])
                (snd (askFirmware (sample_env None None None None) sample_ui
                        sample_instance (sample_world [AnsBool false])))
                ltac:(vm_compute; reflexivity)) as H.
  cbv zeta in H. destruct H as (_ & _ & _ & _ & _ & _ & _ & H).
  destruct (H eq_refl (or_introl eq_refl)) as (hasUEFI & w1 & Eu & Hw).
  assert (Hu : hasUEFI = false) by (vm_compute in Eu; congruence).
  rewrite Hu in Hw. exact (proj2 (proj2 (proj2 Hw))).
Defined.

(** X13 at a sample: the image of the virtual machine of the sample answers
    exists. *)
Lemma gatherInstanceInfo_valid_witness :
  path_exists (sample_world sample_vm_answers) "/img/disk.qcow2" = true.
Proof.
  pose proof (gatherInstanceInfo_valid (sample_env None None None None) sample_ui
                sample_server MigrationTypeVM (sample_world sample_vm_answers)
                (snd (gatherInstanceInfo (sample_env None None None None) sample_ui
                        sample_server MigrationTypeVM (sample_world sample_vm_answers)))
                (mkInstanceData sample_vm (mkOptions [] [] []))
                ltac:(vm_compute; reflexivity)) as H.
  exact (proj1 (proj2 (proj2 (proj2 H)))).
Defined.

(** X14 at a sample: with answers that end after the name, the error is the
    end of the input. *)
Lemma gatherInstanceInfo_fails_only_on_reads_witness :
  env_project_names (sample_env None None None None) = Err (ErrSys "EOF")
  \/ (exists project_server,
        ui_instance_names sample_ui project_server = Err (ErrSys "EOF"))
  \/ read_error [AnsString "vm1"] (ErrSys "EOF").
Proof.
  exact (gatherInstanceInfo_fails_only_on_reads (sample_env None None None None)
           sample_ui sample_server MigrationTypeVM (sample_world [AnsString "vm1"])
           (snd (gatherInstanceInfo (sample_env None None None None) sample_ui
                   sample_server MigrationTypeVM (sample_world [AnsString "vm1"])))
           (ErrSys "EOF") ltac:(vm_compute; reflexivity)).
Defined.

(** X17 at a sample: the third entry of the menu is the temporary
    certificate. *)
Lemma authentication_menu_matches_the_choice_witness :
  exists n,
    In (AnsInt n) [AnsInt 3]
    /\ nth_error (availableAuthMethods ["tls"]) (Z.to_nat (n - 1))
       = Some authMethodTLSTemporaryCertificate
    /\ (n = 1%Z /\ authMethodTLSTemporaryCertificate = authMethodTLSCertificateToken
        \/ n = 2%Z /\ authMethodTLSTemporaryCertificate = authMethodTLSCertificate
        \/ n = 3%Z
           /\ authMethodTLSTemporaryCertificate = authMethodTLSTemporaryCertificate).
Proof.
  exact (authentication_menu_matches_the_choice ["tls"] (sample_world [AnsInt 3])
           (snd (askAuthMethod ["tls"] (sample_world [AnsInt 3])))
           (Ok authMethodTLSTemporaryCertificate) ltac:(vm_compute; reflexivity)).
Defined.
(** X18 at a sample: the questions of a connection with an existing
    certificate leave the files as they are. *)
Lemma askServer_connects_with_checked_credentials_witness :
  fs (snd (askServer sample_ui
             (sample_world
                [AnsString "https://incus.example:8443"; AnsInt 2;
                 AnsString "/src/root"; AnsString "/data/a"])))
  = fs (sample_world
          [AnsString "https://incus.example:8443"; AnsInt 2;
           AnsString "/src/root"; AnsString "/data/a"]).
Proof.
  exact (proj1 (proj1 (askServer_connects_with_checked_credentials sample_ui
                         (sample_world
                            [AnsString "https://incus.example:8443"; AnsInt 2;
                             AnsString "/src/root"; AnsString "/data/a"])
                         (snd (askServer sample_ui
                                 (sample_world
                                    [AnsString "https://incus.example:8443"; AnsInt 2;
                                     AnsString "/src/root"; AnsString "/data/a"])))
                         sample_server "fingerprint" ltac:(vm_compute; reflexivity)))).
Defined.
